(* ===== verification/_CoqProject ===== *)
-Q . S2P
Prelude.v
Config.v
Base64.v
Json.v
Utf8.v
Paths.v
Models.v
Storage.v
World.v
Testbed.v
Wire.v
Security.v
Budget.v
Snapshot.v
Events.v
BrowserStream.v
Capacity.v
Commands.v
Approvals.v
Outbox.v
Steps.v
Frames.v
Projection.v
Connections.v
Handshake.v
DeviceSafety.v
FrameSafety.v
DispatchSafety.v
SocketSafety.v
Receiver.v
Dispatching.v
ApprovalRequests.v
ConnectionClaim.v
Lifetime.v
FrameFaults.v
FrameTypes.v
Retention.v
DeviceAuth.v
Pairing.v
PairingSafety.v
PairingFlow.v
Sub2api.v
Sessions.v
SessionSafety.v
SessionProtocol.v
Access.v
AccessSafety.v
Routes.v
RouteSafety.v
ControlRoutes.v
ThreadRoutes.v
BrowserSocket.v
BrowserSafety.v
BootstrapSafety.v
ControlSafety.v
ThreadSafety.v
OperationalMetrics.v
Maintenance.v
MaintenanceSafety.v
MetricsSafety.v
RecordedMetrics.v
