(* ===== verification/Prelude.v ===== *)
(** * Sub2API Codex Control: a verification development of the Control API

    The repository connects a browser to Codex running on a user's machine.  The
    Control API ([src/apps/control-api/src/control_api/], Python, FastAPI and
    SQLAlchemy over PostgreSQL and Redis) is the broker between them: browsers
    create commands and decide approvals, a Connector on the device dials in over
    a WebSocket, receives commands, and reports threads, turns and approval
    requests; browsers watch the outcome on a second WebSocket.  Every promise of
    the product rests on the broker's durable state: a command runs at most once,
    nothing runs without the authority that is current when it is sent, an
    undecided request is denied, no event is lost or shown twice, and every table
    stays within its quota.  This library models the broker and proves those
    promises.

    ** How the program is represented

    Handlers are functions of the monad [tx] of [World.v], state passing with
    exceptions.  Its state [world] holds the open SQLAlchemy session ([working]),
    the committed rows ([durable]), the key-value store, the log of what leaves
    the process and the table of open device sockets.  [commit] and [rollback]
    are where the code has them, and an exception leaves the session as it was at
    the raise, so what a failed handler has committed is part of its meaning.
    What is not in the repository is the class [Platform]: clocks, random UUIDs,
    whether a store call or a send fails, digests, and the JSON and date readers
    of pydantic.  Theorems quantify over it; [Testbed.v] is an executable
    instance on which the witnesses evaluate the handlers.

    A handler locks the rows it decides on ([FOR UPDATE] on the device, then on
    the owner's cursor), so that one transaction is one step of the model.
    Interleavings between transactions are explicit where the code is written to
    survive them: the page reads of a browser against appends and prunes
    ([BrowserStream.v]), the frames, duplicates and failures of a device
    ([Receiver.v]), the inputs of a socket's tasks
    ([Handshake.serve], [BrowserSocket.serve_browser]),
    the candidates of a sweep against the state when each is locked
    ([Retention.v], [Pairing.v]), and the phases of a sweep against what other
    processes do to the rows and to the store ([Maintenance.v]).  Elsewhere the
    store changes within a call only by the call itself; a theorem that speaks of
    an entry (a marker, a lease, a connection) says at which reading of the
    environment it was looked at.

    ** The parts

    Foundations:
    - this file: Python strings, record update, tactics, lemmas on lists and
      options; [Json.v]: JSON values, [json.dumps] and its measures;
    - [Config.v] ([config.py]): the limits of [Settings] and their ranges;
    - [Paths.v] ([security.py], [commands.py], [realtime.py]): workspace roots;
    - [Models.v] ([models.py]): rows, enumerations, the [database] record;
    - [Storage.v] ([storage.py]): the key-value interface, and the in-memory store
      that satisfies it;
    - [World.v]: the monad, weakest preconditions, [stable], [moves], triples.

    Messages and their bounds:
    - [Wire.v] ([protocol.py], part of [realtime.py]): frames and their readers;
    - [Budget.v] ([command_budget.py]): what a command may cost on the wire;
    - [Snapshot.v] ([thread_snapshot.py]): the bisection that cuts a thread;
    - [Capacity.v] ([capacity.py], [views.py], the views of [schemas.py]):
      projections, the field constraints they are validated against, and owner
      quotas.

    Secrets and credentials:
    - [Base64.v], [Utf8.v]: the codecs the credentials are written in, with their
      round trips;
    - [Security.v] ([security.py]): digests, constant-time comparison, the sealed
      session cookie, pairing codes and proofs, public keys;
    - [DeviceAuth.v] ([device_auth.py]): the token a device connects with.

    The services:
    - [Events.v] ([events.py]): the durable per-owner event stream;
    - [Commands.v] ([commands.py]): creation and expiry of commands;
    - [Approvals.v] ([approvals.py]): decisions and default denials;
    - [Outbox.v] ([realtime.py], sending side): durable frames for a device;
    - [Sub2api.v] ([sub2api.py]): reading the answer of the identity provider;
    - [Sessions.v] ([services.py], [SessionService]): browser sessions, with
      [SessionSafety.v] and [SessionProtocol.v] on what they guarantee;
    - [Pairing.v] ([services.py], [PairingService]): how a device is enrolled, with
      [PairingSafety.v] (the protocol it refines) and [PairingFlow.v];
    - [Retention.v] ([retention.py]): deletion of old terminal rows;
    - [Maintenance.v] ([app.py], the sweep): the loop that expires, prunes and
      deletes under a lease, with [MaintenanceSafety.v];
    - [OperationalMetrics.v] ([operational_metrics.py]): counters, gauges and
      histograms, with [MetricsSafety.v] and, on what the handlers record,
      [RecordedMetrics.v].

    The browser's side:
    - [Access.v] ([dependencies.py], the request helpers of [security.py]): who may
      run a handler, with [AccessSafety.v];
    - [Routes.v] ([routes.py]): sessions and pairing over HTTP, with [RouteSafety.v];
    - [ControlRoutes.v], [ThreadRoutes.v] ([control_routes.py]): devices, the
      bootstrap answer, threads, turns and approvals over HTTP, with
      [BootstrapSafety.v], [ControlSafety.v] and [ThreadSafety.v];
    - [BrowserStream.v] ([realtime.py], browser side): pages of the event stream,
      the re-verification gate, the connection leases; [BrowserSocket.v]:
      [handle_browser] as a whole, with [BrowserSafety.v].

    The device socket ([realtime.py], device side):
    - [Frames.v]: what a device may send; [Projection.v]: what a frame does to the
      rows; [Connections.v]: activation, dispatch, reconciliation of replaced
      epochs, the end of a connection; [Handshake.v]: hello, receive and dispatch
      loops, [handle_device];
    - [Steps.v]: relational logic for one transaction ([body], [settles],
      [commits]); [DeviceSafety.v], [FrameSafety.v], [DispatchSafety.v]: every
      operation of the socket is a [device_changes] step.

    ** What is proved

    - Devices: whatever a device sends, its socket changes only its own rows, and
      only forward along their life cycles ([SocketSafety.v]); frames are applied
      exactly once and in order ([Receiver.v]); commands and decisions are sent at
      most once, with current authority, atomically with their outbox frame
      ([Dispatching.v]); a new epoch settles the work of the one it replaces; a
      hello leaves one connection ([ConnectionClaim.v]) and every connection is
      ended, as far as its own cleanup can ([Lifetime.v]); approval requests fail closed ([ApprovalRequests.v]);
      an accepted frame has its type, and envelopes round-trip ([FrameTypes.v]).
    - Streams: the event log and the outbox keep their invariants, a catch-up page
      has no gap, pruning never overtakes the resume cursor, a browser is sent
      exactly the events after its cursor under any interleaving.
    - Authority: a decision needs a pending unexpired approval and a registered
      device; after a disconnection nothing stays open; a session is resolved only
      while it is unrevoked and unexpired, before and after it is verified, and its
      credential is its own, whatever the cache holds; a mutation runs only for an allowed origin, the session's
      own CSRF token and a session the upstream just vouched for; a logout needs
      neither the upstream nor the store; a device exists only for the user who
      claimed its pairing, and revoking it cuts it off in one transaction; a device
      token needs a fresh signature, used once.
    - The browser socket: it is admitted only for a live session and with two
      leases that the store granted it, a dead session is closed before anything else is sent to
      it, one wake-up drains the stream, and its leases are always released.
    - Bounds: quotas and idempotency of commands and threads, a bootstrap answer
      for every owner within the quotas, the frame of an admitted command,
      compaction of a thread (optimal, and total when the required message fits),
      JSON shape limits, retention batches that keep every reference valid.
    - The sweep: its phases together, with other transactions between them and
      lost leases, keep the invariants of every table, and a sweep runs only under
      a lease it holds ([MaintenanceSafety.v]).  The number of metric series is bounded
      whatever clients send ([MetricsSafety.v]), and no sequence of requests,
      sockets and sweeps records a metric that is refused ([RecordedMetrics.v],
      where [answer] is the service as a whole).
    - Defects: [Budget.short_key_admission_gap], [FrameFaults.oversized_turn_unhandled],
      [DeviceAuth.nonce_replay_gap] and [ThreadSafety.turn_revives_archived] state,
      with concrete inputs, where the code does not do what it means to.

    ** Fuel and bounds

    [BrowserStream.forward_pages] is the [while True] of the drain loop; its fuel
    is any number above the events left, and [forward_queue_delivers_all] proves
    that enough; [BrowserSocket.drain] computes such a fuel from the stream, and
    [BrowserSafety.drain_delivers] is about that loop.  [Snapshot.search] halves
    an interval and has the length of the interval as fuel ([search_ok]).
    [Json.dec_digits] has the bit length of its number.  All other loops are
    structural: [for_each] and [fold_tx] over the rows a query returned,
    [Handshake.serve] and [BrowserSocket.serve_browser] over the inputs of a
    socket, [Maintenance._sweep_expired_state] over the wake-ups of the sweep.
    Integers the schema bounds (cursors, sequences) carry their bounds where the
    code checks them ([Events.MAX_EVENT_CURSOR], the readers of [Wire.v]).

    ** Not modelled

    - [app.py] beyond its sweep, [main.py], [db.py], [websocket_routes.py],
      [logging_config.py], [metrics.py], [metrics_routes.py], the text of the
      metrics, the health and readiness routes, [connector_release.py]: process
      wiring and observation.  Metrics appear as effects and decide nothing; the
      request counter of the HTTP middleware is only in [OperationalMetrics.v].
    - The deployment checks of [config.py] on URLs and secrets, and the response
      models of [schemas.py] other than [DeviceSummary], [ManagedThreadSummary]
      and [ApprovalItem], beyond the fields the handlers read.
    - The HTTP exchange with the identity provider, the Redis store, publish and
      subscribe: servers of others; their outcomes are classes and the platform's.
    - HMAC, SHA-256, AES-GCM, Ed25519 and [urlsplit]: parameters with the laws the
      code relies on.
    - The asyncio tasks of one socket are a sequence of their inputs; timeouts are
      failures the platform may choose.
    - The Connector ([src/connector], Go), the browser application ([src/apps/pwa],
      TypeScript), and the deployment and release scripts ([src/deploy],
      [src/connector/release]): other programs, which build and install this one
      through the file system and the container engine. *)

From stdpp Require Import base gmap list strings sorting.
From Stdlib Require Import NArith ZArith Lia.
From Stdlib Require Strings.Byte.

(** ** Python strings

    A Python [str] is a sequence of Unicode code points (lone surrogates
    included), so it is a list of numbers behind a constructor.  Literals of
    [py_scope] are the ASCII literals of the source. *)

Declare Scope py_scope.
Delimit Scope py_scope with py.

Inductive pystr := PyStr { codepoints : list N }.
Bind Scope py_scope with pystr.

Definition pystr_of_bytes (l : list Byte.byte) : pystr := PyStr (map Byte.to_N l).

Definition bytes_of_pystr (s : pystr) : option (list Byte.byte) :=
  mapM Byte.of_N (codepoints s).

String Notation pystr pystr_of_bytes bytes_of_pystr : py_scope.
Open Scope py_scope.

#[global] Instance pystr_eq_dec : EqDecision pystr.
Proof. solve_decision. Defined.

#[global] Program Instance pystr_countable : Countable pystr :=
  inj_countable' codepoints PyStr _.
Next Obligation. by intros []. Qed.

#[global] Instance pystr_inhabited : Inhabited pystr := populate (PyStr []).

(** [a + b], [len(s)], [s[:n]], [bool(s)] and [x or y] on optional strings. *)
Definition py_app (a b : pystr) : pystr := PyStr (codepoints a ++ codepoints b).
Infix "+++" := py_app (at level 60, right associativity) : py_scope.

Definition py_len (s : pystr) : Z := Z.of_nat (length (codepoints s)).

Definition py_take (n : nat) (s : pystr) : pystr := PyStr (take n (codepoints s)).

Definition py_truthy (s : pystr) : bool :=
  match codepoints s with [] => false | _ => true end.

Definition opt_truthy (s : option pystr) : bool :=
  match s with Some s => py_truthy s | None => false end.

Definition opt_or (a b : option pystr) : option pystr :=
  if opt_truthy a then a else b.

(** [x in {a, b, ...}] on a finite literal collection. *)
Definition py_in `{EqDecision A} (x : A) (l : list A) : bool := bool_decide (x ∈ l).

(** ** Record update

    [r <| p := v |>] is Python's [r.p = v] on a copy of [r].  A record
    declares its eta expansion once; the [Update] instance of a projection is
    then computed by replacing that projection in it. *)

Class Eta (R : Type) := eta : R → R.
Class Update {R T : Type} (proj : R → T) := update_field : (T → T) → R → R.
Arguments update_field {R T} proj {_} f r.

Ltac build_update :=
  lazymatch goal with
  | |- @Update ?R ?T ?proj =>
      let f := fresh "f" in
      let r := fresh "r" in
      red; intros f r;
      let e := eval hnf in (@eta R _ r) in
      let e' := eval pattern (proj r) in e in
      lazymatch e' with
      | ?g _ =>
          let b := eval cbv beta in (g (f (proj r))) in
          lazymatch b with context [f (proj r)] => exact b end
      end
  end.

#[global] Hint Extern 1 (Update _) => build_update : typeclass_instances.

Notation "r <| p := v |>" := (update_field p (λ _, v) r)
  (at level 1, left associativity, p at level 9, v at level 200,
   format "r  <| p  :=  v |>").

(** ** Tactics

    [inv_res] decomposes equalities between constructors; [split_match] case
    splits on the scrutinee of a match in the goal, remembering the equation;
    [split_match in H] the same in a hypothesis. *)

Ltac inv_res :=
  repeat match goal with
  | H : (_, _) = (_, _) |- _ => injection H as; subst
  | H : Some _ = Some _ |- _ => injection H as; subst
  | H : None = Some _ |- _ => discriminate H
  | H : Some _ = None |- _ => discriminate H
  end.

Tactic Notation "split_match" :=
  match goal with
  | |- context [match ?x with _ => _ end] => destruct x eqn:?
  end.

Tactic Notation "split_match" "in" hyp(H) :=
  match type of H with
  | context [match ?x with _ => _ end] => destruct x eqn:?
  end.

(** Turns boolean tests of the code into the propositions they decide. *)
Ltac reflect_bools :=
  repeat match goal with
  | H : bool_decide _ = true |- _ => apply bool_decide_eq_true_1 in H
  | H : bool_decide _ = false |- _ => apply bool_decide_eq_false_1 in H
  | H : _ && _ = true |- _ => apply andb_true_iff in H as [? ?]
  | H : _ || _ = false |- _ => apply orb_false_iff in H as [? ?]
  | H : negb _ = true |- _ => apply negb_true_iff in H
  | H : negb _ = false |- _ => apply negb_false_iff in H
  | H : Z.leb _ _ = true |- _ => apply Z.leb_le in H
  | H : Z.leb _ _ = false |- _ => apply Z.leb_gt in H
  | H : Z.ltb _ _ = true |- _ => apply Z.ltb_lt in H
  | H : Z.ltb _ _ = false |- _ => apply Z.ltb_ge in H
  | H : Z.eqb _ _ = true |- _ => apply Z.eqb_eq in H
  | H : Z.eqb _ _ = false |- _ => apply Z.eqb_neq in H
  end.

(** ** Lists *)

Lemma NoDup_fmap_inj {A B} (f : A → B) l x y :
  NoDup (f <$> l) → x ∈ l → y ∈ l → f x = f y → x = y.
Proof.
  induction l as [|a l IH]; simpl; intros Hnd Hx Hy Hf.
  { by apply not_elem_of_nil in Hx. }
  apply NoDup_cons in Hnd as [Ha Hnd].
  apply elem_of_cons in Hx as [->|Hx], Hy as [->|Hy]; auto; exfalso; apply Ha.
  - rewrite Hf. by apply list_elem_of_fmap_2.
  - rewrite <- Hf. by apply list_elem_of_fmap_2.
Qed.

Lemma seqZ_sorted m n : StronglySorted Z.le (seqZ m n).
Proof.
  destruct (decide (n < 0)%Z) as [Hn|Hn]; [rewrite seqZ_nil by lia; constructor|].
  assert (Hn' : (0 ≤ n)%Z) by lia. clear Hn. revert m.
  pattern n. apply natlike_ind; [| |done]; clear n Hn'.
  - intros m. rewrite seqZ_nil by lia. constructor.
  - intros n Hn IH m. rewrite seqZ_cons by lia. constructor; [by rewrite Z.pred_succ|].
    apply Forall_forall. intros x Hx%elem_of_seqZ. lia.
Qed.

Lemma Forall_filter_nil {A} (Q : A → Prop) `{!∀ x, Decision (Q x)} (l : list A) :
  Forall (λ x, ¬ Q x) l → filter Q l = [].
Proof.
  induction 1 as [|x l Hx Hl IH]; [done|]. by rewrite filter_cons_False.
Qed.

Lemma filter_swap {A} (Q R : A → Prop) `{!∀ x, Decision (Q x), !∀ x, Decision (R x)}
    (l : list A) : filter Q (filter R l) = filter R (filter Q l).
Proof. rewrite !list_filter_filter. apply list_filter_iff. intros x. tauto. Qed.

(** Lists of elements identified by a key are determined by their keys. *)
Lemma fmap_inj_on {A B} (f : A → B) (l k : list A) :
  (∀ x y, x ∈ l → y ∈ k → f x = f y → x = y) → f <$> l = f <$> k → l = k.
Proof.
  revert k. induction l as [|a l IH]; intros [|b k] Hinj Heq; try done.
  simpl in Heq. injection Heq as Hab Hlk. f_equal.
  - apply Hinj; [by left|by left|done].
  - apply IH; [|done]. intros x y Hx Hy. apply Hinj; by right.
Qed.

(** ** Invariants of step relations *)

Lemma rtc_invariant {A} (R : relation A) (I : A → Prop) a b :
  (∀ x y, I x → R x y → I y) → rtc R a b → I a → I b.
Proof. intros Hstep. induction 1; eauto. Qed.

Lemma length_omap {A B} (f : A → option B) l : (length (omap f l) ≤ length l)%nat.
Proof. induction l as [|x l IH]; cbn [omap list_omap length]; [done|]. destruct (f x); cbn [length]; unfold omap in *; lia. Qed.

(** ** Tables

    [SELECT count(..) WHERE f] and [ORDER BY]. *)

Definition count_rows `{Countable K} {V} (f : K → V → bool) (m : gmap K V) : Z :=
  Z.of_nat (size (filter (λ kv, f kv.1 kv.2 = true) m)).

Definition exists_row `{Countable K} {V} (f : K → V → bool) (m : gmap K V) : bool :=
  existsb (λ kv, f kv.1 kv.2) (map_to_list m).

Definition select_rows `{Countable K} {V} (f : K → V → bool) (m : gmap K V) : list (K * V) :=
  filter (λ kv, f kv.1 kv.2 = true) (map_to_list m).

Definition order_by {A} (le : A → A → bool) (l : list A) : list A :=
  @merge_sort A (λ a b, le a b = true) (λ a b, decide (le a b = true)) l.

Section tables.
Context `{Countable K} {V : Type} (f : K → V → bool).

Lemma count_rows_nonneg (m : gmap K V) : (0 ≤ count_rows f m)%Z.
Proof. unfold count_rows. lia. Qed.

Lemma count_rows_insert (m : gmap K V) k v :
  m !! k = None →
  count_rows f (<[k := v]> m) = ((if f k v then 1 else 0) + count_rows f m)%Z.
Proof.
  intros Hk. unfold count_rows. destruct (f k v) eqn:E.
  - rewrite map_filter_insert_True by done. rewrite map_size_insert_None; [lia|].
    apply map_lookup_filter_None. by left.
  - rewrite map_filter_insert_False by (simpl; congruence).
    by rewrite delete_id by done.
Qed.

Lemma count_rows_delete (m : gmap K V) k v :
  m !! k = Some v →
  count_rows f (delete k m) = (count_rows f m - (if f k v then 1 else 0))%Z.
Proof.
  intros Hk. rewrite <- (insert_delete_id m k v Hk) at 2.
  rewrite count_rows_insert by apply lookup_delete_eq. destruct (f k v); lia.
Qed.

Lemma count_rows_update (m : gmap K V) k v v' :
  m !! k = Some v →
  count_rows f (<[k := v']> m) =
    (count_rows f m - (if f k v then 1 else 0) + (if f k v' then 1 else 0))%Z.
Proof.
  intros Hk. rewrite <- (insert_delete_eq m k v').
  rewrite count_rows_insert by apply lookup_delete_eq.
  rewrite (count_rows_delete _ _ v) by done. lia.
Qed.

Lemma alter_as_insert (m : gmap K V) k v (g : V → V) :
  m !! k = Some v → alter g k m = <[k := g v]> m.
Proof.
  intros Hk. apply map_eq. intros i. rewrite lookup_alter, lookup_insert.
  case_decide as Hi; [|done]. subst i. by rewrite Hk.
Qed.

Lemma exists_row_spec (m : gmap K V) :
  exists_row f m = true ↔ ∃ k v, m !! k = Some v ∧ f k v = true.
Proof.
  unfold exists_row. rewrite existsb_exists. split.
  - intros ([k v] & Hin & Hf). exists k, v. split; [|done].
    by apply elem_of_map_to_list, list_elem_of_In.
  - intros (k & v & Hk & Hf). exists (k, v). split; [|done].
    by apply list_elem_of_In, elem_of_map_to_list.
Qed.

Lemma exists_row_false (m : gmap K V) k v :
  exists_row f m = false → m !! k = Some v → f k v = false.
Proof.
  intros Hf Hk. apply not_true_iff_false. intros Hv. apply not_true_iff_false in Hf. apply Hf.
  apply exists_row_spec. eauto.
Qed.

Lemma elem_of_select_rows (m : gmap K V) k v :
  (k, v) ∈ select_rows f m ↔ m !! k = Some v ∧ f k v = true.
Proof.
  unfold select_rows. rewrite list_elem_of_filter, elem_of_map_to_list. simpl. tauto.
Qed.

Lemma order_by_perm {A} (le : A → A → bool) l : order_by le l ≡ₚ l.
Proof. unfold order_by. by rewrite merge_sort_Permutation. Qed.

Lemma elem_of_order_by {A} (le : A → A → bool) l x : x ∈ order_by le l ↔ x ∈ l.
Proof. unfold order_by. by rewrite merge_sort_Permutation. Qed.

Lemma NoDup_select_keys (m : gmap K V) : NoDup (select_rows f m).*1.
Proof.
  unfold select_rows. eapply sublist_NoDup; [apply (NoDup_fst_map_to_list m)|].
  apply fmap_sublist, sublist_filter.
Qed.

Lemma length_select_rows (m : gmap K V) : Z.of_nat (length (select_rows f m)) = count_rows f m.
Proof.
  unfold select_rows, count_rows. f_equal. rewrite <- length_map_to_list.
  apply Permutation_length, NoDup_Permutation;
    [apply NoDup_filter, NoDup_map_to_list|apply NoDup_map_to_list|].
  intros [k v]. rewrite list_elem_of_filter, !elem_of_map_to_list, map_lookup_filter_Some. tauto.
Qed.

(** Rows that satisfy [f] in [m'] are rows that satisfied it in [m]. *)
Lemma count_rows_mono (m m' : gmap K V) :
  (∀ k v', m' !! k = Some v' → f k v' = true → ∃ v, m !! k = Some v ∧ f k v = true) →
  (count_rows f m' ≤ count_rows f m)%Z.
Proof.
  intros Hsub. unfold count_rows. apply inj_le. rewrite <- !(size_dom (D := gset K)).
  apply subseteq_size. intros k. rewrite !elem_of_dom.
  intros [v' [Hk Hf]%map_lookup_filter_Some]. destruct (Hsub k v' Hk Hf) as (v & Hv & Hfv).
  exists v. by apply map_lookup_filter_Some.
Qed.

Lemma exists_row_insert (m : gmap K V) k v :
  m !! k = None → exists_row f (<[k := v]> m) = f k v || exists_row f m.
Proof.
  intros Hk. apply eq_true_iff_eq. rewrite orb_true_iff, !exists_row_spec. split.
  - intros (i & x & [[<- <-]|[_ Hi]]%lookup_insert_Some & Hf); eauto.
  - intros [Hf|(i & x & Hi & Hf)]; [exists k, v; split; [by apply lookup_insert_eq|done]|].
    exists i, x. split; [|done]. rewrite lookup_insert_ne; [done|congruence].
Qed.
End tables.

(** The same rows under two predicates. *)
Lemma count_rows_ext `{Countable K} {V} (f g : K → V → bool) (m : gmap K V) :
  (∀ k v, m !! k = Some v → f k v = g k v) → count_rows f m = count_rows g m.
Proof.
  intros Hfg. unfold count_rows. f_equal. f_equal. apply map_filter_ext.
  intros k v Hk. simpl. by rewrite (Hfg k v Hk).
Qed.

Lemma count_rows_imply `{Countable K} {V} (f g : K → V → bool) (m : gmap K V) :
  (∀ k v, m !! k = Some v → f k v = true → g k v = true) → (count_rows f m ≤ count_rows g m)%Z.
Proof.
  intros Hfg. unfold count_rows. apply inj_le, map_subseteq_size, map_filter_subseteq_ext. apply Hfg.
Qed.

(** Two predicates that differ at one key at most. *)
Lemma count_rows_one `{Countable K} {V} (f g : K → V → bool) (m : gmap K V) i :
  (∀ k v, m !! k = Some v → k ≠ i → f k v = g k v) → (count_rows g m ≤ count_rows f m + 1)%Z.
Proof.
  intros Hfg. destruct (m !! i) as [x|] eqn:Hi.
  - rewrite <- (insert_delete_id m i x Hi). rewrite !count_rows_insert by apply lookup_delete_eq.
    rewrite (count_rows_ext f g (delete i m)).
    + destruct (f i x), (g i x); lia.
    + intros k v [Hne Hk]%lookup_delete_Some. apply Hfg; [done|congruence].
  - rewrite (count_rows_ext f g m); [lia|]. intros k v Hk. apply Hfg; [done|congruence].
Qed.
