(* ===== verification/Config.v ===== *)
(** * Settings ([control_api/config.py])

    The numeric limits of [Settings] with their declared ranges and defaults,
    and the cross-field checks of [enforce_production_defaults] that apply in
    every environment, with the computed [allowed_origins] (in some order of the
    set) and [pairing_poll_path_prefix], which name the pairing audience.  Other
    URLs, cookie names and secrets are left out. *)

From stdpp Require Import base list.
From Stdlib Require Import ZArith Lia.
From S2P Require Import Prelude.
Open Scope Z_scope.

Definition BOOTSTRAP_BASE_OVERHEAD_BYTES : Z := 4096.
Definition BOOTSTRAP_DEVICE_SUMMARY_MAX_BYTES : Z := 16 * 1024.
Definition BOOTSTRAP_THREAD_SUMMARY_MAX_BYTES : Z := 12 * 1024.
Definition BOOTSTRAP_MODEL_CATALOG_MAX_BYTES : Z := 24 * 1024.
Definition BOOTSTRAP_APPROVAL_ITEM_MAX_BYTES : Z := 68 * 1024.
Definition BOOTSTRAP_MODEL_MAP_ENTRY_OVERHEAD_BYTES : Z := 128.
Definition BOOTSTRAP_CONNECTOR_RELEASE_MAX_BYTES : Z := 16 * 1024.

Record Settings := {
  session_ttl_seconds : Z;
  session_upstream_recheck_seconds : Z;
  recent_auth_max_age_seconds : Z;
  session_token_bytes : Z;
  session_exchange_limit : Z;
  owner_max_active_sessions : Z;
  owner_max_session_records : Z;
  pairing_ttl_seconds : Z;
  pairing_start_limit : Z;
  pairing_claim_limit : Z;
  pairing_poll_limit : Z;
  pairing_poll_ip_limit : Z;
  rate_limit_window_seconds : Z;
  device_access_token_ttl_seconds : Z;
  device_token_issue_limit : Z;
  device_proof_max_skew_seconds : Z;
  device_nonce_ttl_seconds : Z;
  device_hello_timeout_seconds : Z;
  device_heartbeat_timeout_seconds : Z;
  device_registry_ttl_seconds : Z;
  device_frame_rate_limit : Z;
  device_max_envelope_bytes : Z;
  device_max_json_depth : Z;
  device_max_json_nodes : Z;
  device_max_string_chars : Z;
  device_max_result_bytes : Z;
  device_max_event_bytes : Z;
  device_max_approval_bytes : Z;
  device_max_outbox_frames : Z;
  device_max_outbox_bytes : Z;
  device_outbox_retention_seconds : Z;
  device_max_outstanding_commands : Z;
  device_max_command_records : Z;
  owner_max_command_records : Z;
  device_max_connection_records : Z;
  device_max_pending_approvals : Z;
  device_max_approval_records : Z;
  browser_event_catchup_limit : Z;
  browser_event_catchup_max_bytes : Z;
  browser_event_retention_days : Z;
  browser_event_max_per_owner : Z;
  browser_max_connections_per_session : Z;
  browser_max_connections_per_user : Z;
  browser_connection_lease_ttl_seconds : Z;
  bootstrap_max_devices : Z;
  bootstrap_max_threads : Z;
  bootstrap_max_pending_approvals : Z;
  bootstrap_max_models_per_device : Z;
  owner_max_device_records : Z;
  owner_max_thread_records : Z;
  owner_max_approval_records : Z;
  bootstrap_max_response_bytes : Z;
  command_ttl_seconds : Z;
  approval_ttl_seconds : Z;
  session_record_retention_days : Z;
  device_pairing_retention_days : Z;
  device_connection_retention_days : Z;
  command_record_retention_days : Z;
  approval_record_retention_days : Z;
  thread_binding_retention_days : Z;
  revoked_device_retention_days : Z;
  audit_event_retention_days : Z;
  retention_sweep_batch_size : Z;
  connector_expected_version : pystr;
  codex_expected_version : pystr;
  appserver_schema_digest : pystr;
  allowed_origins : list pystr;
  pairing_poll_path_prefix : pystr;
  cookie_name : pystr;
  csrf_cookie_name : pystr;
  csrf_header_name : pystr;
  cookie_secure : bool;
  cookie_samesite : pystr;
  trust_forwarded_for : bool;
}.
#[global] Instance Settings_eta : Eta Settings := λ r,
  Build_Settings (session_ttl_seconds r) (session_upstream_recheck_seconds r)
    (recent_auth_max_age_seconds r) (session_token_bytes r) (session_exchange_limit r)
    (owner_max_active_sessions r) (owner_max_session_records r) (pairing_ttl_seconds r)
    (pairing_start_limit r) (pairing_claim_limit r) (pairing_poll_limit r)
    (pairing_poll_ip_limit r) (rate_limit_window_seconds r) (device_access_token_ttl_seconds r)
    (device_token_issue_limit r) (device_proof_max_skew_seconds r) (device_nonce_ttl_seconds r)
    (device_hello_timeout_seconds r) (device_heartbeat_timeout_seconds r)
    (device_registry_ttl_seconds r) (device_frame_rate_limit r) (device_max_envelope_bytes r)
    (device_max_json_depth r) (device_max_json_nodes r) (device_max_string_chars r)
    (device_max_result_bytes r) (device_max_event_bytes r) (device_max_approval_bytes r)
    (device_max_outbox_frames r) (device_max_outbox_bytes r) (device_outbox_retention_seconds r)
    (device_max_outstanding_commands r) (device_max_command_records r)
    (owner_max_command_records r) (device_max_connection_records r)
    (device_max_pending_approvals r) (device_max_approval_records r)
    (browser_event_catchup_limit r) (browser_event_catchup_max_bytes r)
    (browser_event_retention_days r) (browser_event_max_per_owner r)
    (browser_max_connections_per_session r) (browser_max_connections_per_user r)
    (browser_connection_lease_ttl_seconds r) (bootstrap_max_devices r) (bootstrap_max_threads r)
    (bootstrap_max_pending_approvals r) (bootstrap_max_models_per_device r)
    (owner_max_device_records r) (owner_max_thread_records r) (owner_max_approval_records r)
    (bootstrap_max_response_bytes r) (command_ttl_seconds r) (approval_ttl_seconds r)
    (session_record_retention_days r) (device_pairing_retention_days r)
    (device_connection_retention_days r) (command_record_retention_days r)
    (approval_record_retention_days r) (thread_binding_retention_days r)
    (revoked_device_retention_days r) (audit_event_retention_days r)
    (retention_sweep_batch_size r) (connector_expected_version r) (codex_expected_version r)
    (appserver_schema_digest r)
    (allowed_origins r) (pairing_poll_path_prefix r) (cookie_name r) (csrf_cookie_name r)
    (csrf_header_name r) (cookie_secure r) (cookie_samesite r) (trust_forwarded_for r).

(** The [Field(ge=, le=)] range of every limit, with the frozen contract strings. *)
Definition field_ranges (s : Settings) : list (Z * Z * Z) := [
  (300, session_ttl_seconds s, 600);
  (1, session_upstream_recheck_seconds s, 15);
  (30, recent_auth_max_age_seconds s, 600);
  (32, session_token_bytes s, 64);
  (1, session_exchange_limit s, 1000);
  (1, owner_max_active_sessions s, 256);
  (100, owner_max_session_records s, 100000);
  (120, pairing_ttl_seconds s, 900);
  (1, pairing_start_limit s, 1000);
  (1, pairing_claim_limit s, 1000);
  (1, pairing_poll_limit s, 10000);
  (1, pairing_poll_ip_limit s, 10000);
  (1, rate_limit_window_seconds s, 3600);
  (60, device_access_token_ttl_seconds s, 900);
  (1, device_token_issue_limit s, 1000);
  (10, device_proof_max_skew_seconds s, 300);
  (60, device_nonce_ttl_seconds s, 900);
  (3, device_hello_timeout_seconds s, 60);
  (15, device_heartbeat_timeout_seconds s, 300);
  (30, device_registry_ttl_seconds s, 600);
  (10, device_frame_rate_limit s, 10000);
  (4096, device_max_envelope_bytes s, 262144);
  (4, device_max_json_depth s, 64);
  (128, device_max_json_nodes s, 100000);
  (1024, device_max_string_chars s, 1000000);
  (4096, device_max_result_bytes s, 2097152);
  (4096, device_max_event_bytes s, 1048576);
  (2048, device_max_approval_bytes s, 262144);
  (32, device_max_outbox_frames s, 10000);
  (65536, device_max_outbox_bytes s, 67108864);
  (3600, device_outbox_retention_seconds s, 2592000);
  (1, device_max_outstanding_commands s, 1000);
  (128, device_max_command_records s, 100000);
  (1000, owner_max_command_records s, 1000000);
  (32, device_max_connection_records s, 100000);
  (1, device_max_pending_approvals s, 256);
  (32, device_max_approval_records s, 100000);
  (1, browser_event_catchup_limit s, 5000);
  (4096, browser_event_catchup_max_bytes s, 16777216);
  (1, browser_event_retention_days s, 365);
  (1000, browser_event_max_per_owner s, 1000000);
  (1, browser_max_connections_per_session s, 32);
  (1, browser_max_connections_per_user s, 128);
  (15, browser_connection_lease_ttl_seconds s, 300);
  (1, bootstrap_max_devices s, 1000);
  (1, bootstrap_max_threads s, 1000);
  (1, bootstrap_max_pending_approvals s, 1000);
  (1, bootstrap_max_models_per_device s, 100);
  (100, owner_max_device_records s, 10000);
  (100, owner_max_thread_records s, 100000);
  (100, owner_max_approval_records s, 1000000);
  (65536, bootstrap_max_response_bytes s, 67108864);
  (5, command_ttl_seconds s, 120);
  (5, approval_ttl_seconds s, 120);
  (1, session_record_retention_days s, 90);
  (1, device_pairing_retention_days s, 90);
  (1, device_connection_retention_days s, 365);
  (1, command_record_retention_days s, 365);
  (1, approval_record_retention_days s, 365);
  (1, thread_binding_retention_days s, 730);
  (30, revoked_device_retention_days s, 3650);
  (30, audit_event_retention_days s, 3650);
  (1, retention_sweep_batch_size s, 5000)
].

Definition field_in_range (f : Z * Z * Z) : bool :=
  let '(lo, v, hi) := f in (lo <=? v) && (v <=? hi).

Definition default_settings : Settings := {|
  session_ttl_seconds := 600;
  session_upstream_recheck_seconds := 15;
  recent_auth_max_age_seconds := 300;
  session_token_bytes := 32;
  session_exchange_limit := 10;
  owner_max_active_sessions := 32;
  owner_max_session_records := 10000;
  pairing_ttl_seconds := 600;
  pairing_start_limit := 10;
  pairing_claim_limit := 10;
  pairing_poll_limit := 120;
  pairing_poll_ip_limit := 240;
  rate_limit_window_seconds := 60;
  device_access_token_ttl_seconds := 300;
  device_token_issue_limit := 30;
  device_proof_max_skew_seconds := 60;
  device_nonce_ttl_seconds := 300;
  device_hello_timeout_seconds := 10;
  device_heartbeat_timeout_seconds := 60;
  device_registry_ttl_seconds := 90;
  device_frame_rate_limit := 600;
  device_max_envelope_bytes := 262144;
  device_max_json_depth := 16;
  device_max_json_nodes := 10000;
  device_max_string_chars := 200000;
  device_max_result_bytes := 524288;
  device_max_event_bytes := 262144;
  device_max_approval_bytes := 65536;
  device_max_outbox_frames := 2048;
  device_max_outbox_bytes := 8388608;
  device_outbox_retention_seconds := 604800;
  device_max_outstanding_commands := 128;
  device_max_command_records := 10000;
  owner_max_command_records := 100000;
  device_max_connection_records := 4096;
  device_max_pending_approvals := 32;
  device_max_approval_records := 4096;
  browser_event_catchup_limit := 500;
  browser_event_catchup_max_bytes := 1048576;
  browser_event_retention_days := 30;
  browser_event_max_per_owner := 100000;
  browser_max_connections_per_session := 4;
  browser_max_connections_per_user := 8;
  browser_connection_lease_ttl_seconds := 60;
  bootstrap_max_devices := 100;
  bootstrap_max_threads := 100;
  bootstrap_max_pending_approvals := 32;
  bootstrap_max_models_per_device := 100;
  owner_max_device_records := 1000;
  owner_max_thread_records := 1000;
  owner_max_approval_records := 10000;
  bootstrap_max_response_bytes := 8388608;
  command_ttl_seconds := 30;
  approval_ttl_seconds := 120;
  session_record_retention_days := 7;
  device_pairing_retention_days := 7;
  device_connection_retention_days := 30;
  command_record_retention_days := 30;
  approval_record_retention_days := 30;
  thread_binding_retention_days := 90;
  revoked_device_retention_days := 365;
  audit_event_retention_days := 365;
  retention_sweep_batch_size := 500;
  connector_expected_version := "0.1.11";
  codex_expected_version := "0.147.0";
  appserver_schema_digest :=
    "511c1b3ca038a80740a5a41ca10a7f925c0f744e582fb9aaa03cc46c6e98b80b";
  allowed_origins := ["http://localhost:5173"; "http://testserver"];
  pairing_poll_path_prefix := "/codex-api/v1";
  cookie_name := "__Host-codex_control";
  csrf_cookie_name := "codex_csrf";
  csrf_header_name := "x-csrf-token";
  cookie_secure := true;
  cookie_samesite := "strict";
  trust_forwarded_for := false;
|}.

Definition bootstrap_worst_case_bytes (s : Settings) : Z :=
  let devices := bootstrap_max_devices s *
    (BOOTSTRAP_DEVICE_SUMMARY_MAX_BYTES + BOOTSTRAP_MODEL_CATALOG_MAX_BYTES
     + BOOTSTRAP_MODEL_MAP_ENTRY_OVERHEAD_BYTES) in
  let threads := bootstrap_max_threads s * (BOOTSTRAP_THREAD_SUMMARY_MAX_BYTES + 1) in
  let approvals := bootstrap_max_pending_approvals s * (BOOTSTRAP_APPROVAL_ITEM_MAX_BYTES + 1) in
  BOOTSTRAP_BASE_OVERHEAD_BYTES + BOOTSTRAP_CONNECTOR_RELEASE_MAX_BYTES
  + devices + threads + approvals.

(** [Settings()] validates: the ranges and the cross-field checks. *)
Definition settings_valid (s : Settings) : bool :=
  forallb field_in_range (field_ranges s)
  && negb (owner_max_session_records s <? owner_max_active_sessions s)
  && negb (owner_max_command_records s <? device_max_command_records s)
  && negb (owner_max_thread_records s <? bootstrap_max_threads s)
  && negb (device_max_approval_records s <? device_max_pending_approvals s)
  && negb (owner_max_approval_records s <? bootstrap_max_pending_approvals s)
  && negb (browser_max_connections_per_user s <? browser_max_connections_per_session s)
  && negb (bootstrap_max_response_bytes s <? bootstrap_worst_case_bytes s).

Lemma default_settings_valid : settings_valid default_settings = true.
Proof. reflexivity. Qed.

(** A valid limit lies in its declared range. *)
Lemma field_bounds s lo v hi :
  settings_valid s = true → (lo, v, hi) ∈ field_ranges s → lo ≤ v ≤ hi.
Proof.
  unfold settings_valid. intros H Hin. do 7 (apply andb_true_iff in H as [H _]).
  rewrite forallb_forall in H. specialize (H (lo, v, hi)).
  specialize (H (proj1 (list_elem_of_In _ _) Hin)). simpl in H. reflect_bools. lia.
Qed.
