(* ===== verification/Base64.v ===== *)
(** * Base64 ([base64], [binascii] of the standard library)

    What [security.py], [services.py] and [device_auth.py] use of it: encoding,
    and the state machine of [binascii.a2b_base64] in its lenient mode, which
    skips what is not in the alphabet, and in its strict mode.  Text and bytes
    are lists of code points and of byte values. *)

From stdpp Require Import base list.
From Stdlib Require Import NArith ZArith Lia.
From S2P Require Import Prelude.
Open Scope N_scope.

(** ** The alphabet *)

Definition b64_char (v : N) : N :=
  if v <? 26 then 65 + v
  else if v <? 52 then 71 + v
  else if v <? 62 then v - 4
  else if v =? 62 then 43 else 47.

Definition b64_value (c : N) : option N :=
  if (65 <=? c) && (c <=? 90) then Some (c - 65)
  else if (97 <=? c) && (c <=? 122) then Some (c - 71)
  else if (48 <=? c) && (c <=? 57) then Some (c + 4)
  else if c =? 43 then Some 62
  else if c =? 47 then Some 63
  else None.

Definition pad : N := 61.

(** [bytes.translate(maketrans(b"-_", b"+/"))] and back. *)
Definition from_urlsafe (c : N) : N := if c =? 45 then 43 else if c =? 95 then 47 else c.
Definition to_urlsafe (c : N) : N := if c =? 43 then 45 else if c =? 47 then 95 else c.

(** ** Encoding: [binascii.b2a_base64], without its newline *)

Fixpoint b64encode (l : list N) : list N :=
  match l with
  | [] => []
  | [a] => [b64_char (a / 4); b64_char (a mod 4 * 16); pad; pad]
  | [a; b] => [b64_char (a / 4); b64_char (a mod 4 * 16 + b / 16); b64_char (b mod 16 * 4); pad]
  | a :: b :: c :: l =>
      b64_char (a / 4) :: b64_char (a mod 4 * 16 + b / 16) :: b64_char (b mod 16 * 4 + c / 64)
      :: b64_char (c mod 64) :: b64encode l
  end.

(** ** Decoding: [binascii.a2b_base64]

    [quad_pos], [leftchar], [pads] and [padding_started] are the variables of
    its loop, [out] the bytes produced so far, last first. *)
Fixpoint a2b_loop (strict : bool) (l : list N) (quad_pos leftchar pads : N)
    (padding_started : bool) (out : list N) : option (list N) :=
  match l with
  | [] => if quad_pos =? 0 then Some (reverse out) else None
  | c :: l =>
      if c =? pad then
        if strict && (quad_pos =? 0) then None
        else if 2 <=? quad_pos then
          if 4 <=? quad_pos + (pads + 1) then
            match l with
            | _ :: _ => if strict then None else Some (reverse out)
            | [] => Some (reverse out)
            end
          else a2b_loop strict l quad_pos leftchar (pads + 1) true out
        else a2b_loop strict l quad_pos leftchar pads true out
      else
        match b64_value c with
        | None =>
            if strict then None else a2b_loop strict l quad_pos leftchar pads padding_started out
        | Some v =>
            if strict && padding_started then None
            else if quad_pos =? 0 then a2b_loop strict l 1 v 0 padding_started out
            else if quad_pos =? 1 then
              a2b_loop strict l 2 (v mod 16) 0 padding_started (leftchar * 4 + v / 16 :: out)
            else if quad_pos =? 2 then
              a2b_loop strict l 3 (v mod 4) 0 padding_started (leftchar * 16 + v / 4 :: out)
            else a2b_loop strict l 0 0 0 padding_started (leftchar * 64 + v :: out)
        end
  end.

Definition a2b_base64 (strict : bool) (l : list N) : option (list N) :=
  a2b_loop strict l 0 0 0 false [].

(** A [str] argument must be ASCII. *)
Definition is_ascii (l : list N) : bool := forallb (λ c, c <? 128) l.

(** [base64.urlsafe_b64decode(text)] and
    [base64.b64decode(text, altchars=b"-_", validate=True)]; [None] is their
    [ValueError]. *)
Definition urlsafe_b64decode (l : list N) : option (list N) :=
  if is_ascii l then a2b_base64 false (from_urlsafe <$> l) else None.

Definition b64decode_validated (l : list N) : option (list N) :=
  if is_ascii l then a2b_base64 true (from_urlsafe <$> l) else None.

Definition urlsafe_b64encode (l : list N) : list N := to_urlsafe <$> b64encode l.

(** [text + "=" * (-len(text) % 4)]. *)
Definition padded4 (l : list N) : list N :=
  l ++ replicate (Z.to_nat (- Z.of_nat (length l) mod 4)) pad.

(** [.rstrip(b"=")]. *)
Fixpoint lstrip_pad (l : list N) : list N :=
  match l with
  | c :: l' => if c =? pad then lstrip_pad l' else l
  | [] => []
  end.

Definition rstrip_pad (l : list N) : list N := reverse (lstrip_pad (reverse l)).

(** ** Round trip *)

Definition is_byte (b : N) : Prop := b < 256.

Lemma below_64 (Q : N → Prop) : Forall Q (N.of_nat <$> seq 0 64) → ∀ v, v < 64 → Q v.
Proof.
  intros H v Hv. rewrite Forall_forall in H. apply H, list_elem_of_fmap.
  exists (N.to_nat v). split; [lia|]. apply elem_of_seq. lia.
Qed.

Lemma b64_char_ok v : v < 64 →
  b64_value (b64_char v) = Some v ∧ b64_char v ≠ pad ∧ b64_char v < 128
  ∧ from_urlsafe (to_urlsafe (b64_char v)) = b64_char v ∧ to_urlsafe (b64_char v) ≠ pad
  ∧ to_urlsafe (b64_char v) < 128.
Proof.
  revert v. apply below_64. repeat constructor; vm_compute; congruence.
Qed.

(** The loop over one character of the alphabet. *)
Lemma a2b_loop_char strict v l q left pads out : v < 64 →
  a2b_loop strict (b64_char v :: l) q left pads false out =
    if q =? 0 then a2b_loop strict l 1 v 0 false out
    else if q =? 1 then a2b_loop strict l 2 (v mod 16) 0 false (left * 4 + v / 16 :: out)
    else if q =? 2 then a2b_loop strict l 3 (v mod 4) 0 false (left * 16 + v / 4 :: out)
    else a2b_loop strict l 0 0 0 false (left * 64 + v :: out).
Proof.
  intros Hv. destruct (b64_char_ok v Hv) as (E & Hp & _). cbn [a2b_loop].
  rewrite (proj2 (N.eqb_neq _ _) Hp), E, andb_false_r. done.
Qed.

#[local] Ltac Zify.zify_post_hook ::= Z.to_euclidean_division_equations.

Lemma quad_1 a b : a < 256 → b < 256 → a / 4 * 4 + (a mod 4 * 16 + b / 16) / 16 = a.
Proof. lia. Qed.

Lemma quad_2 a b c : a < 256 → b < 256 → c < 256 →
  (a mod 4 * 16 + b / 16) mod 16 * 16 + (b mod 16 * 4 + c / 64) / 4 = b.
Proof. lia. Qed.

Lemma quad_3 b c : b < 256 → c < 256 → (b mod 16 * 4 + c / 64) mod 4 * 64 + c mod 64 = c.
Proof. lia. Qed.

Lemma quad_1_end a : a < 256 → a / 4 * 4 + (a mod 4 * 16) / 16 = a.
Proof. lia. Qed.

Lemma quad_2_end a b : a < 256 → b < 256 →
  (a mod 4 * 16 + b / 16) mod 16 * 16 + (b mod 16 * 4) / 4 = b.
Proof. lia. Qed.

(** Three bytes at a time. *)
Lemma list_ind_3 {A} (Q : list A → Prop) :
  Q [] → (∀ a, Q [a]) → (∀ a b, Q [a; b]) → (∀ a b c l, Q l → Q (a :: b :: c :: l)) →
  ∀ l, Q l.
Proof.
  intros H0 H1 H2 H3. fix go 1. intros [|a [|b [|c l]]]; [done..|]. apply H3, go.
Qed.

Lemma a2b_loop_encode strict l out : Forall is_byte l →
  a2b_loop strict (b64encode l) 0 0 0 false out = Some (reverse out ++ l).
Proof.
  unfold is_byte. revert out. induction l as [|a|a b|a b c l IH] using list_ind_3; intros out Hl.
  - by rewrite app_nil_r.
  - apply Forall_cons in Hl as [Ha _]. cbn [b64encode].
    rewrite !a2b_loop_char by lia. cbn [N.eqb Pos.eqb a2b_loop]. rewrite andb_false_r. simpl.
    by rewrite quad_1_end, reverse_cons by done.
  - apply Forall_cons in Hl as [Ha [Hb _]%Forall_cons]. cbn [b64encode].
    rewrite !a2b_loop_char by lia. cbn [N.eqb Pos.eqb a2b_loop]. rewrite andb_false_r. simpl.
    by rewrite quad_1, quad_2_end, !reverse_cons, <- app_assoc by done.
  - apply Forall_cons in Hl as [Ha [Hb [Hc Hl]%Forall_cons]%Forall_cons]. cbn [b64encode].
    rewrite !a2b_loop_char by lia. cbn [N.eqb Pos.eqb]. rewrite IH by done.
    rewrite quad_1, quad_2, quad_3, !reverse_cons by done. by rewrite <- !app_assoc.
Qed.

Lemma a2b_base64_encode strict l : Forall is_byte l → a2b_base64 strict (b64encode l) = Some l.
Proof. intros Hl. unfold a2b_base64. by rewrite a2b_loop_encode. Qed.

(** The characters of an encoding, and what stripping its padding keeps. *)
Lemma b64encode_urlsafe l : Forall is_byte l →
  from_urlsafe <$> urlsafe_b64encode l = b64encode l ∧ is_ascii (urlsafe_b64encode l) = true.
Proof.
  unfold is_byte, urlsafe_b64encode, is_ascii.
  induction l as [|a|a b|a b c l IH] using list_ind_3; intros Hl; [done|..];
    rewrite ?Forall_cons in Hl; decompose [and] Hl; clear Hl; cbn [b64encode fmap list_fmap forallb];
    repeat match goal with
    | |- context [b64_char ?v] =>
        let H := fresh in
        assert (H : v < 64) by lia; apply b64_char_ok in H as (_ & _ & _ & H & _ & ?);
        generalize dependent (b64_char v); intros
    end.
  - split; [by repeat f_equal|]. by rewrite !andb_true_iff, !N.ltb_lt.
  - split; [by repeat f_equal|]. by rewrite !andb_true_iff, !N.ltb_lt.
  - destruct IH as [IH1 IH2]; [done|]. split; [by repeat f_equal|].
    by rewrite !andb_true_iff, !N.ltb_lt.
Qed.

(** ** Without padding ([security._base64url_encode] and [_base64url_decode]) *)

Definition _base64url_encode (value : list N) : list N := rstrip_pad (urlsafe_b64encode value).

Definition _base64url_decode (value : list N) : option (list N) :=
  b64decode_validated (padded4 value).

Lemma lstrip_pad_replicate k l : lstrip_pad (replicate k pad ++ l) = lstrip_pad l.
Proof. induction k; [done|]. simpl. done. Qed.

Lemma rstrip_pad_body body k : pad ∉ body → rstrip_pad (body ++ replicate k pad) = body.
Proof.
  intros Hb. unfold rstrip_pad. rewrite reverse_app, reverse_replicate, lstrip_pad_replicate.
  assert (Hr : lstrip_pad (reverse body) = reverse body).
  { destruct (reverse body) as [|c l] eqn:E; [done|]. cbn [lstrip_pad].
    rewrite (proj2 (N.eqb_neq c pad)); [done|]. intros ->. apply Hb.
    apply elem_of_reverse. rewrite E. by left. }
  by rewrite Hr, reverse_involutive.
Qed.

Lemma padded4_body body k :
  (k < 4)%nat → ((length body + k) mod 4 = 0)%nat → padded4 body = body ++ replicate k pad.
Proof.
  intros Hk Hm. unfold padded4. f_equal. f_equal.
  pose proof (Nat.div_mod_eq (length body + k)%nat 4). lia.
Qed.

(** A character of the URL-safe alphabet. *)
Definition urlsafe_char (c : N) : Prop := ∃ v, v < 64 ∧ c = to_urlsafe (b64_char v).

Lemma urlsafe_char_not_pad body : Forall urlsafe_char body → pad ∉ body.
Proof.
  rewrite Forall_forall. intros H Hin. destruct (H _ Hin) as (v & Hv & E).
  destruct (b64_char_ok v Hv) as (_ & _ & _ & _ & Hne & _). congruence.
Qed.

Ltac urlsafe_body :=
  rewrite ?Forall_cons; split_and?; try apply Forall_nil_2; try assumption;
  (eexists; split; [|reflexivity]; lia).

(** An encoding is a body without padding, and at most two pads. *)
Lemma urlsafe_b64encode_shape l : Forall is_byte l →
  ∃ body k, urlsafe_b64encode l = body ++ replicate k pad ∧ Forall urlsafe_char body
    ∧ (k < 4)%nat ∧ ((length body + k) mod 4 = 0)%nat.
Proof.
  unfold is_byte, urlsafe_b64encode.
  induction l as [|a|a b|a b c l IH] using list_ind_3; intros Hl;
    rewrite ?Forall_cons in Hl; decompose [and] Hl; clear Hl.
  - exists [], 0%nat. split_and!; [done|constructor|lia|done].
  - exists [to_urlsafe (b64_char (a / 4)); to_urlsafe (b64_char (a mod 4 * 16))], 2%nat.
    split_and!; [done|urlsafe_body|lia|done].
  - exists [to_urlsafe (b64_char (a / 4)); to_urlsafe (b64_char (a mod 4 * 16 + b / 16));
      to_urlsafe (b64_char (b mod 16 * 4))], 1%nat. split_and!; [done|urlsafe_body|lia|done].
  - destruct IH as (body & k & E & Hp & Hk & Hm); [done|].
    exists (to_urlsafe (b64_char (a / 4)) :: to_urlsafe (b64_char (a mod 4 * 16 + b / 16))
      :: to_urlsafe (b64_char (b mod 16 * 4 + c / 64)) :: to_urlsafe (b64_char (c mod 64)) :: body), k.
    split_and!; [|urlsafe_body|done|].
    + cbn [b64encode fmap list_fmap]. cbn [fmap] in E. simpl. by rewrite <- E.
    + simpl length. replace (_ + k)%nat with (length body + k + 1 * 4)%nat by lia.
      by rewrite Nat.Div0.mod_add.
Qed.

Lemma base64url_encode_chars l : Forall is_byte l → Forall urlsafe_char (_base64url_encode l).
Proof.
  intros Hl. unfold _base64url_encode.
  destruct (urlsafe_b64encode_shape l Hl) as (body & k & -> & Hb & _).
  by rewrite rstrip_pad_body by (by apply urlsafe_char_not_pad).
Qed.

(** Adding the padding back. *)
(** What is encoded is ASCII. *)
Definition ascii_char (c : N) : Prop := c < 128.

Lemma b64_char_ascii v : ascii_char (to_urlsafe (b64_char v)).
Proof.
  assert (H : b64_char v < 128) by (unfold b64_char;
    destruct (N.ltb_spec v 26), (N.ltb_spec v 52), (N.ltb_spec v 62); try case_match; lia).
  unfold ascii_char, to_urlsafe. repeat case_match; lia.
Qed.

Lemma urlsafe_b64encode_ascii l : Forall ascii_char (urlsafe_b64encode l).
Proof.
  unfold urlsafe_b64encode. induction l as [|a|a b|a b c l IH] using list_ind_3; simpl.
  - constructor.
  - repeat constructor; apply b64_char_ascii.
  - repeat constructor; apply b64_char_ascii.
  - repeat (constructor; [apply b64_char_ascii|]). exact IH.
Qed.

Lemma base64url_encode_ascii l : Forall ascii_char (_base64url_encode l).
Proof.
  assert (Hl : ∀ l, Forall ascii_char l → Forall ascii_char (lstrip_pad l)).
  { intros k Hk. induction Hk as [|x k Hx Hk IH]; simpl; [constructor|].
    destruct (_ =? _); [exact IH|by constructor]. }
  unfold _base64url_encode, rstrip_pad. apply Forall_reverse, Hl, Forall_reverse,
    urlsafe_b64encode_ascii.
Qed.

Lemma padded4_encode l : Forall is_byte l → padded4 (_base64url_encode l) = urlsafe_b64encode l.
Proof.
  intros Hl. unfold _base64url_encode.
  destruct (urlsafe_b64encode_shape l Hl) as (body & k & E & Hb & Hk & Hm). rewrite E.
  rewrite rstrip_pad_body by (by apply urlsafe_char_not_pad). by apply padded4_body.
Qed.

Lemma base64url_round_trip l :
  Forall is_byte l → _base64url_decode (_base64url_encode l) = Some l.
Proof.
  intros Hl. unfold _base64url_decode, b64decode_validated. rewrite padded4_encode by done.
  destruct (b64encode_urlsafe l Hl) as [H1 ->]. rewrite H1. by apply a2b_base64_encode.
Qed.

Lemma urlsafe_round_trip l :
  Forall is_byte l → urlsafe_b64decode (padded4 (_base64url_encode l)) = Some l.
Proof.
  intros Hl. unfold urlsafe_b64decode. rewrite padded4_encode by done.
  destruct (b64encode_urlsafe l Hl) as [H1 ->]. rewrite H1. by apply a2b_base64_encode.
Qed.

(** ** The decoder produces bytes *)

Definition left_bound (quad_pos : N) : N :=
  if quad_pos =? 1 then 64 else if quad_pos =? 2 then 16 else if quad_pos =? 3 then 4 else 1.

Lemma b64_value_bound c v : b64_value c = Some v → v < 64.
Proof.
  unfold b64_value. repeat case_match; intros [= <-]; try lia;
    rewrite ?andb_true_iff, ?N.leb_le in *; lia.
Qed.

Lemma a2b_loop_bytes strict l q left pads started out r :
  q < 4 → left < left_bound q → Forall is_byte out →
  a2b_loop strict l q left pads started out = Some r → Forall is_byte r.
Proof.
  unfold is_byte. revert q left pads started out.
  induction l as [|c l IH]; intros q left pads started out Hq Hl Ho; cbn [a2b_loop].
  { destruct (q =? 0); [|done]. intros [= <-]. by apply Forall_reverse. }
  destruct (c =? pad).
  - destruct (strict && (q =? 0)); [done|]. destruct (2 <=? q); [|by apply IH].
    destruct (4 <=? q + (pads + 1)); [|by apply IH].
    destruct l; [|destruct strict; [done|]]; intros [= <-]; by apply Forall_reverse.
  - destruct (b64_value c) as [v|] eqn:Hv; [|destruct strict; [done|by apply IH]].
    apply b64_value_bound in Hv. destruct (strict && started); [done|].
    unfold left_bound in Hl.
    destruct (N.eqb_spec q 0) as [->|H0]; [apply IH; [lia|exact Hv|done]|].
    destruct (N.eqb_spec q 1) as [->|H1].
    { apply IH; [lia|cbn; lia|]. constructor; [cbn in Hl; lia|done]. }
    destruct (N.eqb_spec q 2) as [->|H2].
    { apply IH; [lia|cbn; lia|]. constructor; [cbn in Hl; lia|done]. }
    destruct (N.eqb_spec q 3) as [->|H3]; [|lia].
    apply IH; [lia|cbn; lia|]. constructor; [cbn in Hl; lia|done].
Qed.

Lemma urlsafe_b64decode_bytes l r : urlsafe_b64decode l = Some r → Forall is_byte r.
Proof.
  unfold urlsafe_b64decode, a2b_base64. destruct (is_ascii l); [|done].
  apply a2b_loop_bytes; [lia|done|constructor].
Qed.
