(* ===== verification/Json.v ===== *)
(** * JSON values, their encodings and the renderings used on the wire

    Models what the Control API uses of Python's [json], [uuid] and [datetime]
    modules: [json.dumps] with and without [ensure_ascii], [str(uuid)],
    [datetime.isoformat], and the byte measures the program derives from them
    ([protocol.py], [command_budget.py], [thread_snapshot.py],
    [realtime.py]). *)

From stdpp Require Import base list gmap.
From Stdlib Require Import NArith ZArith Lia.
From S2P Require Import Prelude.

(** ** Values

    A float is kept as the text [json.dumps] emits for it, together with
    whether it is finite ([allow_nan=False] rejects the others).  A dict is an
    association list: Python dicts keep insertion order and have no duplicate
    key. *)

#[warnings="-register-all"]
Inductive json :=
| JNull
| JBool (b : bool)
| JInt (z : Z)
| JFloat (finite : bool) (text : pystr)
| JStr (s : pystr)
| JArr (l : list json)
| JObj (l : list (pystr * json)).

#[global] Instance json_inhabited : Inhabited json := populate JNull.

Section json_induction.
  Context (P : json → Prop).
  Context (Hnull : P JNull) (Hbool : ∀ b, P (JBool b)) (Hint : ∀ z, P (JInt z)).
  Context (Hfloat : ∀ f t, P (JFloat f t)) (Hstr : ∀ s, P (JStr s)).
  Context (Harr : ∀ l, Forall P l → P (JArr l)).
  Context (Hobj : ∀ l, Forall (λ kv, P kv.2) l → P (JObj l)).

Fixpoint json_rect_forall (j : json) : P j :=
  match j with
  | JNull => Hnull
  | JBool b => Hbool b
  | JInt z => Hint z
  | JFloat f t => Hfloat f t
  | JStr s => Hstr s
  | JArr l =>
      Harr l ((fix go l : Forall P l :=
        match l with
        | [] => List.Forall_nil _
        | x :: l => List.Forall_cons _ x l (json_rect_forall x) (go l)
        end) l)
  | JObj l =>
      Hobj l ((fix go l : Forall (λ kv, P kv.2) l :=
        match l with
        | [] => List.Forall_nil _
        | x :: l => List.Forall_cons _ x l (json_rect_forall x.2) (go l)
        end) l)
  end.
End json_induction.

(** ** Dict operations *)

Fixpoint assoc_get (k : pystr) (l : list (pystr * json)) : option json :=
  match l with
  | [] => None
  | (k', v) :: l => if decide (k = k') then Some v else assoc_get k l
  end.

(** [d[k] = v]: in place for a present key, at the end for a new one. *)
Fixpoint assoc_set (k : pystr) (v : json) (l : list (pystr * json)) : list (pystr * json) :=
  match l with
  | [] => [(k, v)]
  | (k', v') :: l =>
      if decide (k = k') then (k, v) :: l else (k', v') :: assoc_set k v l
  end.

(** [v.get(k)] for a dict, nothing for any other value. *)
Definition jget (k : pystr) (j : json) : option json :=
  match j with JObj l => assoc_get k l | _ => None end.

Definition is_dict (j : json) : bool := match j with JObj _ => true | _ => false end.

Definition jstr (j : json) : option pystr := match j with JStr s => Some s | _ => None end.

(** ** Decimal, hexadecimal and zero padded renderings *)

Definition digit (d : Z) : N := Z.to_N (48 + d).

Fixpoint dec_digits (fuel : nat) (n : Z) (acc : list N) : list N :=
  match fuel with
  | O => acc
  | S fuel =>
      let acc := digit (n mod 10) :: acc in
      if (n / 10 =? 0)%Z then acc else dec_digits fuel (n / 10) acc
  end.

(** [str(z)]: the fuel is the bit length, at least one decimal digit each. *)
Definition py_str_int (z : Z) : list N :=
  let n := Z.abs z in
  let body := dec_digits (S (Z.to_nat (Z.log2 n))) n [] in
  if (z <? 0)%Z then 45%N :: body else body.

(** [int(text)] on a text of decimal digits. *)
Fixpoint parse_dec (l : list N) (acc : Z) : Z :=
  match l with
  | [] => acc
  | c :: l => parse_dec l (10 * acc + (Z.of_N c - 48))
  end.

Definition py_int (s : pystr) : Z := parse_dec (codepoints s) 0.

Fixpoint padded (k : nat) (n : Z) : list N :=
  match k with
  | O => []
  | S k => padded k (n / 10) ++ [digit (n mod 10)]
  end.

Definition hex_digit (d : Z) : N :=
  if (d <? 10)%Z then Z.to_N (48 + d) else Z.to_N (87 + d).

Fixpoint hex_padded (k : nat) (n : Z) : list N :=
  match k with
  | O => []
  | S k => hex_padded k (n / 16) ++ [hex_digit (n mod 16)]
  end.

(** A UUID is its 128-bit integer; [str(u)] is the hyphenated form. *)
Definition uuid_str (u : N) : pystr :=
  let h := hex_padded 32 (Z.of_N u) in
  PyStr (take 8 h ++ [45%N] ++ take 4 (drop 8 h) ++ [45%N] ++ take 4 (drop 12 h)
         ++ [45%N] ++ take 4 (drop 16 h) ++ [45%N] ++ drop 20 h).

(** ** Timestamps

    An aware UTC [datetime] is its number of microseconds since the epoch.
    The civil date of a day number is computed with the proleptic Gregorian
    calendar, as Python's [datetime] does. *)

Definition day_micros : Z := 86400000000.

Definition civil_of_days (z : Z) : Z * Z * Z :=
  let z := (z + 719468)%Z in
  let era := (z / 146097)%Z in
  let doe := (z - era * 146097)%Z in
  let yoe := ((doe - doe / 1460 + doe / 36524 - doe / 146096) / 365)%Z in
  let doy := (doe - (365 * yoe + yoe / 4 - yoe / 100))%Z in
  let mp := ((5 * doy + 2) / 153)%Z in
  let d := (doy - (153 * mp + 2) / 5 + 1)%Z in
  let m := (if mp <? 10 then mp + 3 else mp - 9)%Z in
  let y := (yoe + era * 400 + (if m <=? 2 then 1 else 0))%Z in
  (y, m, d).

(** [_iso]: [value.isoformat().replace("+00:00", "Z")]; the fraction is left
    out when the microseconds are zero. *)
Definition iso (t : Z) : pystr :=
  let '(y, m, d) := civil_of_days (t / day_micros) in
  let us := (t mod day_micros)%Z in
  let s := (us / 1000000)%Z in
  let frac := (us mod 1000000)%Z in
  PyStr (padded 4 y ++ [45%N] ++ padded 2 m ++ [45%N] ++ padded 2 d ++ [84%N]
         ++ padded 2 (s / 3600) ++ [58%N] ++ padded 2 ((s / 60) mod 60) ++ [58%N]
         ++ padded 2 (s mod 60)
         ++ (if (frac =? 0)%Z then [] else 46%N :: padded 6 frac) ++ [90%N]).

(** ** [json.dumps] with compact separators *)

Definition u_escape (n : N) : list N := [92; 117]%N ++ hex_padded 4 (Z.of_N n).

(** The escapes both modes share: quotes, backslash and the short forms. *)
Definition short_escape (c : N) : option (list N) :=
  if (c =? 34)%N then Some [92; 34]%N
  else if (c =? 92)%N then Some [92; 92]%N
  else if (c =? 10)%N then Some [92; 110]%N
  else if (c =? 13)%N then Some [92; 114]%N
  else if (c =? 9)%N then Some [92; 116]%N
  else if (c =? 12)%N then Some [92; 102]%N
  else if (c =? 8)%N then Some [92; 98]%N
  else None.

(** [ensure_ascii=True]: everything outside [' '..'~'] becomes [\uXXXX], a
    code point beyond the BMP a surrogate pair. *)
Definition escape_ascii (c : N) : list N :=
  match short_escape c with
  | Some e => e
  | None =>
      if ((32 <=? c) && (c <=? 126))%N then [c]
      else if (c <? 65536)%N then u_escape c
      else let n := (c - 65536)%N in
           u_escape (55296 + n / 1024)%N ++ u_escape (56320 + n mod 1024)%N
  end.

(** [ensure_ascii=False]: only quotes, backslash and control characters. *)
Definition escape_plain (c : N) : list N :=
  match short_escape c with
  | Some e => e
  | None => if (c <? 32)%N then u_escape c else [c]
  end.

Section dumps.
  Context (escape : N → list N).

Definition dumps_str (s : pystr) : list N :=
  34%N :: concat (escape <$> codepoints s) ++ [34%N].

Fixpoint join_comma (parts : list (list N)) : list N :=
  match parts with
  | [] => []
  | [p] => p
  | p :: parts => p ++ 44%N :: join_comma parts
  end.

Fixpoint dumps (j : json) : list N :=
  match j with
  | JNull => [110; 117; 108; 108]%N
  | JBool true => [116; 114; 117; 101]%N
  | JBool false => [102; 97; 108; 115; 101]%N
  | JInt z => py_str_int z
  | JFloat _ t => codepoints t
  | JStr s => dumps_str s
  | JArr l => 91%N :: join_comma (map dumps l) ++ [93%N]
  | JObj l =>
      123%N :: join_comma (map (λ kv, dumps_str kv.1 ++ 58%N :: dumps kv.2) l) ++ [125%N]
  end.
End dumps.

(** [allow_nan=False] raises when some float is not finite. *)
Fixpoint all_finite (j : json) : bool :=
  match j with
  | JFloat f _ => f
  | JArr l => forallb all_finite l
  | JObj l => forallb (λ kv, all_finite kv.2) l
  | _ => true
  end.

(** [ensure_ascii_json_byte_length]: [None] is its [ValueError]. *)
Definition ensure_ascii_json_byte_length (v : json) : option Z :=
  if all_finite v then Some (Z.of_nat (length (dumps escape_ascii v))) else None.

Definition ensure_ascii_string_content_byte_length (s : pystr) : Z :=
  (Z.of_nat (length (dumps escape_ascii (JStr s))) - 2)%Z.

(** UTF-8 length of a text; a lone surrogate cannot be encoded. *)
Definition utf8_char_len (c : N) : option Z :=
  if (c <? 128)%N then Some 1%Z
  else if (c <? 2048)%N then Some 2%Z
  else if ((55296 <=? c) && (c <=? 57343))%N then None
  else if (c <? 65536)%N then Some 3%Z
  else Some 4%Z.

Fixpoint utf8_len (l : list N) : option Z :=
  match l with
  | [] => Some 0%Z
  | c :: l =>
      match utf8_char_len c, utf8_len l with
      | Some a, Some b => Some (a + b)%Z
      | _, _ => None
      end
  end.

(** [serialized_json_byte_length]: [None] is [ThreadSnapshotTooLarge]. *)
Definition serialized_json_byte_length (v : json) : option Z :=
  utf8_len (dumps escape_plain v).

(** [connector_compact_json_size]: Go's encoder also escapes [<], [>], [&],
    U+2028 and U+2029; unpaired surrogates fall back to the canonical size. *)
Definition go_escape (c : N) : list N :=
  if ((c =? 60) || (c =? 62) || (c =? 38) || (c =? 8232) || (c =? 8233))%N
  then u_escape c else [c].

Definition connector_compact_json_size (v : json) : option Z :=
  match utf8_len (concat (go_escape <$> dumps escape_plain v)) with
  | Some n => Some n
  | None => ensure_ascii_json_byte_length v
  end.

(** ** Decidable equality of values *)

#[global] Instance json_eq_dec : EqDecision json.
Proof.
  unfold EqDecision. fix go 1. intros x y.
  destruct x as [|b|z|f t|s|l|l], y as [|b'|z'|f' t'|s'|l'|l'];
    try (right; congruence).
  - by left.
  - destruct (decide (b = b')); [left|right]; congruence.
  - destruct (decide (z = z')); [left|right]; congruence.
  - destruct (decide (f = f')); [|right; congruence].
    destruct (decide (t = t')); [left|right]; congruence.
  - destruct (decide (s = s')); [left|right]; congruence.
  - assert (Decision (l = l')) as [|]; [|left; congruence|right; congruence].
    revert l'. induction l as [|a l IH]; intros [|a' l']; try (right; congruence).
    + by left.
    + destruct (go a a'); [|right; congruence].
      destruct (IH l'); [left|right]; congruence.
  - assert (Decision (l = l')) as [|]; [|left; congruence|right; congruence].
    revert l'. induction l as [|[k a] l IH]; intros [|[k' a'] l']; try (right; congruence).
    + by left.
    + destruct (decide (k = k')); [|right; congruence].
      destruct (go a a'); [|right; congruence].
      destruct (IH l'); [left|right]; congruence.
Defined.

(** ** Decimal round trip *)

Lemma parse_dec_digits fuel n acc :
  (0 ≤ n < 10 ^ Z.of_nat fuel)%Z → parse_dec (dec_digits fuel n acc) 0 = parse_dec acc n.
Proof.
  revert n acc. induction fuel as [|fuel IH]; intros n acc Hn.
  { simpl in *. f_equal. lia. }
  assert (Hd : (Z.of_N (digit (n mod 10)) - 48 = n mod 10)%Z).
  { unfold digit. pose proof (Z.mod_pos_bound n 10 eq_refl). lia. }
  pose proof (Z.div_mod n 10 ltac:(lia)) as Hdm.
  cbn [dec_digits]. destruct (n / 10 =? 0)%Z eqn:E; reflect_bools.
  - cbn [parse_dec]. f_equal. lia.
  - rewrite IH.
    + cbn [parse_dec]. f_equal. lia.
    + rewrite Nat2Z.inj_succ, Z.pow_succ_r in Hn by lia.
      split; [apply Z.div_pos; lia|]. apply Z.div_lt_upper_bound; lia.
Qed.

Lemma py_int_str n : (0 ≤ n)%Z → py_int (PyStr (py_str_int n)) = n.
Proof.
  intros Hn. unfold py_int, py_str_int. cbv zeta. cbn [codepoints].
  destruct (n <? 0)%Z eqn:E; reflect_bools; [lia|]. rewrite Z.abs_eq by done.
  rewrite parse_dec_digits; [done|]. split; [done|].
  destruct (decide (n = 0%Z)) as [->|Hne]; [done|].
  pose proof (Z.log2_spec n ltac:(lia)) as [_ Hlt].
  pose proof (Z.log2_nonneg n).
  eapply Z.lt_le_trans; [exact Hlt|].
  rewrite Nat2Z.inj_succ, Z2Nat.id by done.
  apply Z.pow_le_mono_l. lia.
Qed.

(** ** UTF-8 and sorted keys *)

Definition utf8_encode_char (c : N) : option (list N) :=
  (if c <? 128 then Some [c]
   else if c <? 2048 then Some [192 + c / 64; 128 + c mod 64]
   else if (55296 <=? c) && (c <=? 57343) then None
   else if c <? 65536 then Some [224 + c / 4096; 128 + (c / 64) mod 64; 128 + c mod 64]
   else Some [240 + c / 262144; 128 + (c / 4096) mod 64; 128 + (c / 64) mod 64;
              128 + c mod 64])%N.

(** [text.encode("utf-8")]; [None] is [UnicodeEncodeError]. *)
Definition utf8_encode (s : pystr) : option (list N) :=
  @concat N <$> mapM utf8_encode_char (codepoints s).

(** Lexicographic order of code points, the order of [sort_keys=True]. *)
Fixpoint lex_le (a b : list N) : bool :=
  match a, b with
  | [], _ => true
  | _ :: _, [] => false
  | x :: a, y :: b => (x <? y)%N || ((x =? y)%N && lex_le a b)
  end.

Fixpoint sort_keys (j : json) : json :=
  match j with
  | JArr l => JArr (map sort_keys l)
  | JObj l =>
      JObj (order_by (λ a b, lex_le (codepoints a.1) (codepoints b.1))
              (map (λ kv, (kv.1, sort_keys kv.2)) l))
  | j => j
  end.

(** [json.dumps(v, sort_keys=True, separators=(",", ":"), ensure_ascii=True)]. *)
Definition canonical_dumps (v : json) : list N := dumps escape_ascii (sort_keys v).
