(* ===== verification/Utf8.v ===== *)
(** * UTF-8 decoding ([bytes.decode("utf-8")])

    The strict decoder of the standard library, which rejects overlong,
    truncated and out-of-range sequences and surrogates, and its round trip with
    the encoder of [Json.v]. *)

From stdpp Require Import base list.
From Stdlib Require Import NArith ZArith Lia.
From S2P Require Import Prelude Json.
Open Scope N_scope.

Definition is_surrogate (c : N) : bool := (55296 <=? c) && (c <=? 57343).

(** The six low bits of a continuation byte. *)
Definition continuation (b : N) : option N :=
  if (128 <=? b) && (b <? 192) then Some (b - 128) else None.

Definition accept (c : N) (rest : option (list N)) : option (list N) :=
  match rest with Some l => Some (c :: l) | None => None end.

Fixpoint utf8_decode (l : list N) : option (list N) :=
  match l with
  | [] => Some []
  | b :: l =>
      if b <? 128 then accept b (utf8_decode l)
      else if (194 <=? b) && (b <? 224) then
        match l with
        | b1 :: l =>
            match continuation b1 with
            | Some x => accept ((b - 192) * 64 + x) (utf8_decode l)
            | None => None
            end
        | [] => None
        end
      else if (224 <=? b) && (b <? 240) then
        match l with
        | b1 :: b2 :: l =>
            match continuation b1, continuation b2 with
            | Some x, Some y =>
                let c := (b - 224) * 4096 + x * 64 + y in
                if (c <? 2048) || is_surrogate c then None else accept c (utf8_decode l)
            | _, _ => None
            end
        | _ => None
        end
      else if (240 <=? b) && (b <? 245) then
        match l with
        | b1 :: b2 :: b3 :: l =>
            match continuation b1, continuation b2, continuation b3 with
            | Some x, Some y, Some z =>
                let c := (b - 240) * 262144 + x * 4096 + y * 64 + z in
                if (c <? 65536) || (1114112 <=? c) then None else accept c (utf8_decode l)
            | _, _, _ => None
            end
        | _ => None
        end
      else None
  end.

#[local] Ltac Zify.zify_post_hook ::= Z.to_euclidean_division_equations.

Lemma continuation_low x : x < 64 → continuation (128 + x) = Some x.
Proof.
  intros Hx. unfold continuation. destruct (N.leb_spec 128 (128 + x)); [|lia].
  destruct (N.ltb_spec (128 + x) 192); [|lia]. simpl. f_equal. lia.
Qed.

Lemma utf8_char_decode c a l :
  c < 1114112 → utf8_encode_char c = Some a → utf8_decode (a ++ l) = accept c (utf8_decode l).
Proof.
  unfold utf8_encode_char. intros Hc. destruct (N.ltb_spec c 128) as [H1|H1].
  { intros [= <-]. simpl. by rewrite (proj2 (N.ltb_lt c 128)). }
  destruct (N.ltb_spec c 2048) as [H2|H2].
  { intros [= <-]. cbn [app utf8_decode].
    rewrite (proj2 (N.ltb_ge (192 + c / 64) 128)) by lia.
    rewrite (proj2 (N.leb_le 194 (192 + c / 64))), (proj2 (N.ltb_lt (192 + c / 64) 224)) by lia.
    rewrite continuation_low by lia. cbn [andb]. f_equal. lia. }
  destruct (_ && _) eqn:Hs; [done|]. destruct (N.ltb_spec c 65536) as [H3|H3].
  { intros [= <-]. cbn [app utf8_decode].
    rewrite (proj2 (N.ltb_ge (224 + c / 4096) 128)), (proj2 (N.ltb_ge (224 + c / 4096) 224)) by lia.
    rewrite (proj2 (N.leb_le 224 (224 + c / 4096))), (proj2 (N.ltb_lt (224 + c / 4096) 240)) by lia.
    rewrite !continuation_low by lia. rewrite andb_false_r. cbn [andb].
    replace ((224 + c / 4096 - 224) * 4096 + c / 64 mod 64 * 64 + c mod 64) with c by lia.
    unfold is_surrogate. by rewrite Hs, (proj2 (N.ltb_ge c 2048)). }
  intros [= <-]. cbn [app utf8_decode].
  rewrite (proj2 (N.ltb_ge (240 + c / 262144) 128)), (proj2 (N.ltb_ge (240 + c / 262144) 224)),
    (proj2 (N.ltb_ge (240 + c / 262144) 240)) by lia.
  rewrite (proj2 (N.leb_le 240 (240 + c / 262144))), (proj2 (N.ltb_lt (240 + c / 262144) 245)) by lia.
  rewrite !continuation_low by lia. rewrite !andb_false_r. cbn [andb].
  replace ((240 + c / 262144 - 240) * 262144 + c / 4096 mod 64 * 4096 + c / 64 mod 64 * 64
    + c mod 64) with c by lia.
  by rewrite (proj2 (N.ltb_ge c 65536)), (proj2 (N.leb_gt 1114112 c)).
Qed.

Lemma utf8_round_trip s b :
  Forall (λ c, c < 1114112) (codepoints s) → utf8_encode s = Some b →
  utf8_decode b = Some (codepoints s).
Proof.
  unfold utf8_encode. generalize (codepoints s). intros l Hl (m & Hm & ->)%fmap_Some.
  apply mapM_Some in Hm. revert Hl. induction Hm as [|c a l m Ha _ IH]; [done|].
  intros [Hc Hl]%Forall_cons. simpl. rewrite (utf8_char_decode c a) by done. by rewrite IH.
Qed.

Lemma utf8_encode_bytes s b :
  Forall (λ c, c < 1114112) (codepoints s) → utf8_encode s = Some b → Forall (λ x, x < 256) b.
Proof.
  unfold utf8_encode. generalize (codepoints s). intros l Hl (m & Hm & ->)%fmap_Some.
  apply mapM_Some in Hm. revert Hl. induction Hm as [|c a l m Ha _ IH]; [constructor|].
  intros [Hc Hl]%Forall_cons. simpl. apply Forall_app. split; [|by apply IH].
  revert Ha. unfold utf8_encode_char.
  destruct (N.ltb_spec c 128); [intros [= <-]; repeat constructor; lia|].
  destruct (N.ltb_spec c 2048); [intros [= <-]; repeat constructor; lia|].
  destruct (_ && _); [done|].
  destruct (N.ltb_spec c 65536); intros [= <-]; repeat constructor; lia.
Qed.

Lemma utf8_encode_ascii s :
  Forall (λ c, c < 128) (codepoints s) → utf8_encode s = Some (codepoints s).
Proof.
  unfold utf8_encode. generalize (codepoints s). intros l Hl.
  assert (H : mapM utf8_encode_char l = Some ((λ c, [c]) <$> l)).
  { apply mapM_Some. induction Hl as [|c l Hc _ IH]; constructor; [|done].
    unfold utf8_encode_char. by rewrite (proj2 (N.ltb_lt c 128)). }
  rewrite H. simpl. f_equal. clear. induction l as [|c l IH]; [done|]. simpl. by f_equal.
Qed.
