(* ===== verification/Paths.v ===== *)
(** * Workspace paths ([control_api/security.py], [_cwd_in_roots] of
    [control_api/realtime.py])

    A device announces the workspace roots it may act in; every thread the
    device reports is confined to them by a comparison of strings.  The file
    models [posixpath.normpath], [canonicalize_workspace_roots] and
    [_cwd_in_roots], and shows that the string comparison decides containment
    of paths: no [..], doubled slash or common name prefix escapes a root. *)

From stdpp Require Import base list.
From Stdlib Require Import NArith ZArith Lia.
From S2P Require Import Prelude Json.

Definition slash : N := 47.
Definition dot : list N := [46%N].
Definition dotdot : list N := [46%N; 46%N].

(** [s.split("/")] and ["/".join(parts)]. *)
Fixpoint split_slash (l : list N) : list (list N) :=
  match l with
  | [] => [[]]
  | c :: l =>
      if (c =? slash)%N then [] :: split_slash l
      else match split_slash l with
           | [] => [[c]]
           | p :: ps => (c :: p) :: ps
           end
  end.

Fixpoint join_slash (parts : list (list N)) : list N :=
  match parts with
  | [] => []
  | [p] => p
  | p :: parts => p ++ slash :: join_slash parts
  end.

Definition starts_with (prefix l : list N) : bool := bool_decide (prefix `prefix_of` l).

(** ** [posixpath.normpath]

    [new_comps] is kept reversed, so its last element is the head. *)
Definition norm_step (initial_slashes : bool) (new_comps : list (list N)) (comp : list N) :
    list (list N) :=
  if bool_decide (comp = []) || bool_decide (comp = dot) then new_comps
  else if negb (bool_decide (comp = dotdot))
          || (negb initial_slashes && bool_decide (new_comps = []))
          || bool_decide (head new_comps = Some dotdot)
  then comp :: new_comps
  else tail new_comps.

Definition normpath (path : list N) : list N :=
  match path with
  | [] => dot
  | _ =>
      let slashes :=
        if starts_with [slash; slash; slash] path then [slash]
        else if starts_with [slash; slash] path then [slash; slash]
        else if starts_with [slash] path then [slash] else [] in
      let initial := bool_decide (slashes ≠ []) in
      let comps := reverse (foldl (norm_step initial) [] (split_slash path)) in
      match slashes ++ join_slash comps with
      | [] => dot
      | path => path
      end
  end.

(** ** [canonicalize_workspace_roots]; [None] is its [ValueError]. *)
Definition root_accepted (seen : list pystr) (root : pystr) : bool :=
  let r := codepoints root in
  negb (bool_decide (r = []))
  && match utf8_len r with Some n => (n <=? 4096)%Z | None => false end
  && negb (existsb (λ c, c <? 32)%N r)
  && starts_with [slash] r && negb (starts_with [slash; slash] r)
  && negb (bool_decide (r = [slash]))
  && bool_decide (normpath r = r)
  && negb (bool_decide (root ∈ seen)).

Fixpoint canonical_loop (seen roots : list pystr) : option (list pystr) :=
  match roots with
  | [] => Some []
  | root :: roots =>
      if root_accepted seen root then
        rest ← canonical_loop (root :: seen) roots;
        Some (root :: rest)
      else None
  end.

Definition canonicalize_workspace_roots (roots : list pystr) : option (list pystr) :=
  if bool_decide (roots = []) then None
  else if (32 <? Z.of_nat (length roots))%Z then None
  else canonical_loop [] roots.

(** ** [_cwd_in_roots] *)
Definition _cwd_in_roots (cwd : pystr) (roots : list pystr) : bool :=
  match canonicalize_workspace_roots [cwd] with
  | Some (canonical :: _) =>
      existsb (λ root, bool_decide (canonical = root)
                       || starts_with (codepoints root ++ [slash]) (codepoints canonical)) roots
  | _ => false
  end.

(** ** Paths as lists of names *)

(** A directory name: not empty, not [.] or [..], without a slash. *)
Definition name_ok (p : list N) : Prop := p ≠ [] ∧ p ≠ dot ∧ p ≠ dotdot ∧ slash ∉ p.

(** [path_of p names]: [p] is the absolute path of these names. *)
Definition path_of (p : pystr) (names : list (list N)) : Prop :=
  names ≠ [] ∧ Forall name_ok names ∧ codepoints p = slash :: join_slash names.

Lemma split_slash_ne l : split_slash l ≠ [].
Proof. destruct l as [|c l]; simpl; [done|]. destruct (c =? slash)%N; [done|]. by destruct (split_slash l). Qed.

Lemma split_no_slash p : slash ∉ p → split_slash p = [p].
Proof.
  induction p as [|c p IH]; intros Hp; [done|]. simpl.
  apply not_elem_of_cons in Hp as [Hc Hp]. rewrite (IH Hp).
  destruct (c =? slash)%N eqn:E; [|done]. apply N.eqb_eq in E. congruence.
Qed.

Lemma split_app a b : split_slash (a ++ slash :: b) = split_slash a ++ split_slash b.
Proof.
  induction a as [|c a IH]; [done|]. simpl. rewrite IH.
  destruct (c =? slash)%N; [done|]. destruct (split_slash a) as [|p ps] eqn:E; [|done].
  by apply split_slash_ne in E.
Qed.

Lemma split_join names :
  names ≠ [] → Forall (λ p, slash ∉ p) names → split_slash (join_slash names) = names.
Proof.
  intros Hne Hall. induction names as [|p names IH]; [done|].
  apply Forall_cons in Hall as [Hp Hall]. destruct names as [|q names].
  - by apply split_no_slash.
  - change (join_slash (p :: q :: names)) with (p ++ slash :: join_slash (q :: names)).
    rewrite split_app, split_no_slash by done. rewrite IH by done. done.
Qed.

Lemma split_parts l p : p ∈ split_slash l → slash ∉ p.
Proof.
  revert p. induction l as [|c l IH]; intros p; simpl.
  - rewrite list_elem_of_singleton. intros ->. apply not_elem_of_nil.
  - destruct (c =? slash)%N eqn:E.
    + intros [->|Hp]%elem_of_cons; [apply not_elem_of_nil|by apply IH].
    + apply N.eqb_neq in E. destruct (split_slash l) as [|q qs].
      * rewrite list_elem_of_singleton. intros ->. apply not_elem_of_cons.
        split; [congruence|apply not_elem_of_nil].
      * intros [->|Hp]%elem_of_cons; [|apply IH; by right].
        apply not_elem_of_cons. split; [congruence|]. apply IH. by left.
Qed.

Lemma name_ok_slash names : Forall name_ok names → Forall (λ p, slash ∉ p) names.
Proof. intros H. eapply Forall_impl; [exact H|]. by intros p (_ & _ & _ & ?). Qed.

Lemma path_of_inj p q names : path_of p names → path_of q names → p = q.
Proof. intros (_ & _ & Hp) (_ & _ & Hq). destruct p, q. simpl in *. congruence. Qed.

(** With an initial slash the normalised components are names. *)
Lemma norm_fold_names comps acc :
  Forall name_ok acc → (∀ p, p ∈ comps → slash ∉ p) →
  Forall name_ok (foldl (norm_step true) acc comps).
Proof.
  revert acc. induction comps as [|c comps IH]; intros acc Hacc Hc; [done|]. simpl.
  apply IH; [|intros p Hp; apply Hc; by right].
  unfold norm_step. case_bool_decide; [done|]. case_bool_decide; [done|]. simpl.
  destruct (bool_decide (c = dotdot)) eqn:Edd; reflect_bools; simpl.
  - case_bool_decide as Hh.
    + destruct acc as [|a acc]; [done|]. injection Hh as ->.
      apply Forall_cons in Hacc as [(_ & _ & ? & _) _]. done.
    + destruct acc; [done|]. by apply Forall_cons in Hacc as [_ ?].
  - constructor; [|done]. split_and!; try done. apply Hc. by left.
Qed.

Lemma norm_fold_id names acc :
  Forall name_ok names → foldl (norm_step true) acc names = reverse names ++ acc.
Proof.
  revert acc. induction names as [|p names IH]; intros acc Hall; [done|]. simpl.
  apply Forall_cons in Hall as [(H1 & H2 & H3 & _) Hall]. rewrite IH by done.
  unfold norm_step. rewrite !bool_decide_false by done. simpl.
  by rewrite reverse_cons, <- app_assoc.
Qed.

Lemma starts_with_cons c l : starts_with [c] l = true ↔ head l = Some c.
Proof.
  unfold starts_with. rewrite bool_decide_eq_true. destruct l as [|x l]; simpl.
  - split; [|done]. by intros ?%prefix_nil_not.
  - split; [intros [k Hk]; simplify_eq/=; done|]. intros [= ->]. by exists l.
Qed.

Lemma starts_with_double body :
  body ≠ [] → starts_with [slash; slash] (slash :: body) = starts_with [slash] body.
Proof.
  intros Hb. apply eq_bool_prop_intro. unfold starts_with. rewrite !bool_decide_spec.
  split; [apply prefix_cons_inv_2|apply prefix_cons].
Qed.

(** A path with one leading slash normalises to the path of its components. *)
Lemma normpath_absolute body :
  head body ≠ Some slash →
  normpath (slash :: body) =
    slash :: join_slash (reverse (foldl (norm_step true) [] (split_slash body))).
Proof.
  intros Hb. unfold normpath.
  assert (H2 : starts_with [slash; slash] (slash :: body) = false).
  { apply not_true_iff_false. unfold starts_with. rewrite bool_decide_eq_true.
    intros [k Hk]. simplify_eq/=. }
  assert (H3 : starts_with [slash; slash; slash] (slash :: body) = false).
  { apply not_true_iff_false. unfold starts_with. rewrite bool_decide_eq_true.
    intros [k Hk]. simplify_eq/=. }
  assert (H1 : starts_with [slash] (slash :: body) = true) by by apply starts_with_cons.
  rewrite H2, H3, H1. done.
Qed.

(** ** What the checks admit *)

Lemma root_accepted_spec seen root :
  root_accepted seen root = true →
  (∃ names, path_of root names) ∧ (root ∉ seen)
  ∧ Forall (λ c, (32 ≤ c)%N) (codepoints root)
  ∧ ∃ n, utf8_len (codepoints root) = Some n ∧ (n ≤ 4096)%Z.
Proof.
  unfold root_accepted. set (r := codepoints root). intros H. reflect_bools.
  destruct (utf8_len r) as [n|] eqn:En; [|done]. reflect_bools.
  destruct r as [|c body] eqn:Er; [done|].
  match goal with H : starts_with [slash] _ = true |- _ =>
    apply starts_with_cons in H; injection H as -> end.
  assert (Hne : body ≠ []) by (intros ->; done).
  assert (Hhd : head body ≠ Some slash).
  { intros Hh. apply starts_with_cons in Hh.
    match goal with H : starts_with [slash; slash] _ = false |- _ =>
      rewrite starts_with_double in H by done; congruence end. }
  match goal with H : normpath _ = _ |- _ => rename H into Hnorm end.
  rewrite normpath_absolute in Hnorm by done. injection Hnorm as Hbody.
  set (names := reverse (foldl (norm_step true) [] (split_slash body))) in *.
  assert (Hnames : Forall name_ok names).
  { subst names. rewrite reverse_Permutation. apply norm_fold_names; [constructor|].
    intros p. apply split_parts. }
  split; [exists names; split_and!; [|done|]|].
  - intros Hn. rewrite Hn in Hbody. simpl in Hbody. congruence.
  - fold r. rewrite Er, Hbody. done.
  - split; [done|]. split; [|by exists n].
    apply Forall_forall. intros x Hx. apply N.le_ngt. intros Hlt.
    match goal with H : existsb _ _ = false |- _ => apply not_true_iff_false in H; apply H end.
    apply existsb_exists. exists x. split; [by apply list_elem_of_In|]. by apply N.ltb_lt.
Qed.

Lemma path_normal p names : path_of p names → normpath (codepoints p) = codepoints p.
Proof.
  intros (Hne & Hall & ->). rewrite normpath_absolute.
  - rewrite split_join by (done || by apply name_ok_slash). rewrite norm_fold_id by done.
    by rewrite app_nil_r, reverse_involutive.
  - destruct names as [|q names]; [done|]. apply Forall_cons in Hall as [(H1 & _ & _ & H4) _].
    destruct q as [|c q]; [done|]. apply not_elem_of_cons in H4 as [H4 _].
    destruct names; simpl; congruence.
Qed.

Lemma canonical_loop_spec seen roots out :
  canonical_loop seen roots = Some out →
  out = roots ∧ NoDup roots ∧ (∀ r, r ∈ roots → r ∉ seen)
  ∧ Forall (λ r, ∃ names, path_of r names) roots.
Proof.
  revert seen out. induction roots as [|r roots IH]; intros seen out; simpl.
  - intros [= <-]. split_and!; [done|constructor|by intros r Hr%not_elem_of_nil|constructor].
  - destruct (root_accepted seen r) eqn:Ha; [|done].
    destruct (canonical_loop (r :: seen) roots) as [rest|] eqn:Hl; [|done]. simpl.
    intros [= <-]. destruct (IH _ _ Hl) as (-> & Hnd & Hns & Hp).
    apply root_accepted_spec in Ha as (Hpath & Hr & _).
    split_and!; [done|constructor; [|done]| |by constructor].
    + intros Hin. apply (Hns r Hin). by left.
    + intros x [->|Hx]%elem_of_cons; [done|]. intros Hs. apply (Hns x Hx). by right.
Qed.

(** [a] is [b] or lies below it, by names. *)
Lemma containment a b na nb :
  path_of a na → path_of b nb →
  bool_decide (a = b) || starts_with (codepoints b ++ [slash]) (codepoints a) = true
  ↔ nb `prefix_of` na.
Proof.
  intros Ha Hb. rewrite orb_true_iff. unfold starts_with. rewrite !bool_decide_eq_true.
  destruct Ha as (Hane & Haok & Ha), Hb as (Hbne & Hbok & Hb). split.
  - intros [->|[k Hk]].
    + rewrite Ha in Hb. injection Hb as Hb.
      rewrite <- (split_join na), <- (split_join nb) by (done || by apply name_ok_slash).
      by rewrite Hb.
    + rewrite Ha, Hb in Hk. simpl in Hk. injection Hk as Hk.
      rewrite <- app_assoc in Hk. simpl in Hk. apply (f_equal split_slash) in Hk.
      rewrite split_app, !split_join in Hk by (done || by apply name_ok_slash).
      by eexists.
  - intros [k ->]. destruct k as [|q k].
    + left. rewrite app_nil_r in Ha. destruct a, b; simpl in *; congruence.
    + right. rewrite Ha, Hb. exists (join_slash (q :: k)). simpl. f_equal.
      rewrite <- app_assoc. simpl. clear -Hbne. induction nb as [|p nb IH]; [done|].
      destruct nb as [|p' nb]; [done|].
      change (join_slash ((p :: p' :: nb) ++ q :: k)) with
        (p ++ slash :: join_slash ((p' :: nb) ++ q :: k)).
      rewrite IH by done.
      change (join_slash (p :: p' :: nb)) with (p ++ slash :: join_slash (p' :: nb)).
      by rewrite <- app_assoc.
Qed.

(** An admitted list of workspace roots is returned unchanged, has between
    1 and 32 entries, no duplicates, and every entry is an absolute path made of
    proper names: no empty, [.] or [..] component and not the file system root. *)
Theorem canonical_roots_are_paths roots out :
  canonicalize_workspace_roots roots = Some out →
  out = roots ∧ (1 ≤ length roots ≤ 32)%nat ∧ NoDup roots
  ∧ Forall (λ r, ∃ names, path_of r names) roots.
Proof.
  unfold canonicalize_workspace_roots. case_bool_decide as Hne; [done|].
  destruct (32 <? _)%Z eqn:Hlen; [done|]. reflect_bools. intros H.
  apply canonical_loop_spec in H as (-> & Hnd & _ & Hp). split_and!; try done; [|lia].
  destruct roots; [done|simpl; lia].
Qed.

Lemma canonical_roots_are_paths_witness :
  canonicalize_workspace_roots ["/srv/app"; "/home/u"] = Some ["/srv/app"; "/home/u"]
  ∧ NoDup ["/srv/app"; "/home/u"].
Proof.
  split; [vm_compute; reflexivity|].
  apply (canonical_roots_are_paths _ ["/srv/app"; "/home/u"]). vm_compute. reflexivity.
Defined.

(** For admitted roots, [_cwd_in_roots] accepts a working directory exactly
    when it passes the same path checks and its names extend the names of one of
    the roots: neither [..], doubled slashes nor a sibling with a common name
    prefix (such as /srv/app-old for the root /srv/app) gets through. *)
Theorem cwd_in_roots_containment roots cwd :
  canonicalize_workspace_roots roots = Some roots →
  _cwd_in_roots cwd roots = true ↔
    root_accepted [] cwd = true
    ∧ ∃ cn root rn, path_of cwd cn ∧ root ∈ roots ∧ path_of root rn ∧ rn `prefix_of` cn.
Proof.
  unfold canonicalize_workspace_roots at 1. case_bool_decide; [done|].
  destruct (32 <? _)%Z; [done|]. intros (_ & _ & _ & Hp)%canonical_loop_spec.
  unfold _cwd_in_roots, canonicalize_workspace_roots. simpl.
  destruct (root_accepted [] cwd) eqn:Ha; simpl; [|naive_solver].
  apply root_accepted_spec in Ha as Hc. destruct Hc as ((cn & Hcn) & _).
  rewrite existsb_exists. setoid_rewrite <- list_elem_of_In. split.
  - intros (root & Hin & Hroot). split; [done|].
    rewrite Forall_forall in Hp. destruct (Hp root Hin) as [rn Hrn].
    exists cn, root, rn. split_and!; try done. by eapply containment.
  - intros (_ & cn' & root & rn & Hcn' & Hin & Hrn & Hpre). exists root. split; [done|].
    by eapply containment.
Qed.

Lemma cwd_in_roots_containment_witness :
  _cwd_in_roots "/srv/app/sub" ["/srv/app"] = true
  ∧ _cwd_in_roots "/srv/app-old" ["/srv/app"] = false
  ∧ ∃ cn root rn, path_of "/srv/app/sub" cn ∧ root ∈ ["/srv/app"] ∧ path_of root rn
      ∧ rn `prefix_of` cn.
Proof.
  split; [vm_compute; reflexivity|]. split; [vm_compute; reflexivity|].
  apply (cwd_in_roots_containment ["/srv/app"] "/srv/app/sub"); vm_compute; reflexivity.
Defined.
