(* ===== verification/Models.v ===== *)
(** * The durable schema ([control_api/models.py])

    One record per ORM class, one inductive type per [StrEnum].  The primary
    key of a table is the key of its map, so it is not repeated in the row.
    Timestamps are microseconds since the epoch, UUIDs are 128-bit numbers.
    [Device.updated_at] and the descriptive columns no statement of the
    modelled services reads or decides on are left out. *)

From stdpp Require Import base list gmap.
From Stdlib Require Import NArith ZArith.
From S2P Require Import Prelude Json.

Definition uuid : Type := N.

(** ** Enumerations *)

Inductive PairingStatus := PsPending | PsClaimed | PsCompleted | PsExpired | PsCancelled.
Inductive DeviceStatus := DsActive | DsRevoked.
Inductive ConnectionStatus := CnConnected | CnDisconnected.
Inductive CommandStatus :=
| CsQueued | CsDispatched | CsAcknowledged | CsSucceeded | CsFailed | CsDenied
| CsCancelled | CsExpired.
Inductive ThreadBindingStatus :=
| TsIdle | TsRunning | TsWaitingForApproval | TsFailed | TsClosed | TsStale.
Inductive ApprovalStatus := AsPending | AsApproved | AsDenied | AsExpired | AsCancelled.
Inductive AuditOutcome := AoSucceeded | AoDenied | AoFailed.

#[global] Instance PairingStatus_eq_dec : EqDecision PairingStatus.
Proof. solve_decision. Defined.
#[global] Instance DeviceStatus_eq_dec : EqDecision DeviceStatus.
Proof. solve_decision. Defined.
#[global] Instance ConnectionStatus_eq_dec : EqDecision ConnectionStatus.
Proof. solve_decision. Defined.
#[global] Instance CommandStatus_eq_dec : EqDecision CommandStatus.
Proof. solve_decision. Defined.
#[global] Instance ThreadBindingStatus_eq_dec : EqDecision ThreadBindingStatus.
Proof. solve_decision. Defined.
#[global] Instance ApprovalStatus_eq_dec : EqDecision ApprovalStatus.
Proof. solve_decision. Defined.
#[global] Instance AuditOutcome_eq_dec : EqDecision AuditOutcome.
Proof. solve_decision. Defined.

(** The [.value] strings. *)
Definition command_status_value (s : CommandStatus) : pystr :=
  match s with
  | CsQueued => "queued" | CsDispatched => "dispatched"
  | CsAcknowledged => "acknowledged" | CsSucceeded => "succeeded"
  | CsFailed => "failed" | CsDenied => "denied" | CsCancelled => "cancelled"
  | CsExpired => "expired"
  end.

Definition thread_status_value (s : ThreadBindingStatus) : pystr :=
  match s with
  | TsIdle => "idle" | TsRunning => "running"
  | TsWaitingForApproval => "waiting_for_approval" | TsFailed => "failed"
  | TsClosed => "closed" | TsStale => "stale"
  end.

(** ** Rows *)

Record ControlSession := {
  cs_token_hash : pystr;
  cs_csrf_token_hash : pystr;
  cs_user_id : pystr;
  cs_username : option pystr;
  cs_email : option pystr;
  cs_display_name : option pystr;
  cs_token_version : option pystr;
  cs_issued_at : Z;
  cs_expires_at : Z;
  cs_last_seen_at : Z;
  cs_revoked_at : option Z;
  cs_request_ip : option pystr;
  cs_user_agent : option pystr;
}.
#[global] Instance ControlSession_eta : Eta ControlSession := λ r,
  Build_ControlSession (cs_token_hash r) (cs_csrf_token_hash r) (cs_user_id r) (cs_username r)
    (cs_email r) (cs_display_name r) (cs_token_version r) (cs_issued_at r) (cs_expires_at r)
    (cs_last_seen_at r) (cs_revoked_at r) (cs_request_ip r) (cs_user_agent r).

Record DevicePairing := {
  dp_code_hash : pystr;
  dp_poll_token_hash : pystr;
  dp_refresh_credential_hash : option pystr;
  dp_protocol_version : Z;
  dp_proof_created_at : option Z;
  dp_audience : option pystr;
  dp_public_key : pystr;
  dp_device_name : pystr;
  dp_device_metadata : json;
  dp_workspace_roots : list pystr;
  dp_status : PairingStatus;
  dp_claimed_by_user_id : option pystr;
  dp_claimed_by_session_id : option uuid;
  dp_device_id : option uuid;
  dp_created_at : Z;
  dp_expires_at : Z;
  dp_claimed_at : option Z;
  dp_credential_delivered_at : option Z;
  dp_completed_at : option Z;
  dp_source_ip : option pystr;
}.
#[global] Instance DevicePairing_eta : Eta DevicePairing := λ r,
  Build_DevicePairing (dp_code_hash r) (dp_poll_token_hash r)
    (dp_refresh_credential_hash r) (dp_protocol_version r) (dp_proof_created_at r)
    (dp_audience r) (dp_public_key r) (dp_device_name r) (dp_device_metadata r)
    (dp_workspace_roots r) (dp_status r) (dp_claimed_by_user_id r)
    (dp_claimed_by_session_id r) (dp_device_id r) (dp_created_at r)
    (dp_expires_at r) (dp_claimed_at r) (dp_credential_delivered_at r)
    (dp_completed_at r) (dp_source_ip r).

Record Device := {
  d_owner_user_id : pystr;
  d_name : pystr;
  d_public_key : pystr;
  d_refresh_credential_hash : option pystr;
  d_credential_version : Z;
  d_credential_scheme : Z;
  d_status : DeviceStatus;
  d_device_metadata : json;
  d_workspace_roots : list pystr;
  d_model_catalog : list json;
  d_model_catalog_updated_at : option Z;
  d_active_epoch : option pystr;
  d_active_connection_nonce : option pystr;
  d_last_device_sequence : Z;
  d_last_server_sequence : Z;
  d_last_server_acked_sequence : Z;
  d_last_event_sequence : Z;
  d_created_at : Z;
  d_last_seen_at : option Z;
  d_revoked_at : option Z;
}.
#[global] Instance Device_eta : Eta Device := λ r,
  Build_Device (d_owner_user_id r) (d_name r) (d_public_key r)
    (d_refresh_credential_hash r) (d_credential_version r) (d_credential_scheme r)
    (d_status r) (d_device_metadata r) (d_workspace_roots r) (d_model_catalog r)
    (d_model_catalog_updated_at r) (d_active_epoch r) (d_active_connection_nonce r)
    (d_last_device_sequence r) (d_last_server_sequence r)
    (d_last_server_acked_sequence r) (d_last_event_sequence r) (d_created_at r)
    (d_last_seen_at r) (d_revoked_at r).

Record DeviceConnection := {
  dc_device_id : uuid;
  dc_connection_nonce : pystr;
  dc_status : ConnectionStatus;
  dc_appserver_epoch : option pystr;
  dc_connected_at : Z;
  dc_last_heartbeat_at : Z;
  dc_disconnected_at : option Z;
  dc_remote_address : option pystr;
  dc_connector_version : option pystr;
  dc_codex_version : option pystr;
  dc_connection_metadata : json;
  dc_last_device_sequence : Z;
  dc_last_server_sequence : Z;
  dc_last_server_acked_sequence : Z;
  dc_closed_reason : option pystr;
}.
#[global] Instance DeviceConnection_eta : Eta DeviceConnection := λ r,
  Build_DeviceConnection (dc_device_id r) (dc_connection_nonce r) (dc_status r)
    (dc_appserver_epoch r) (dc_connected_at r) (dc_last_heartbeat_at r)
    (dc_disconnected_at r) (dc_remote_address r) (dc_connector_version r)
    (dc_codex_version r) (dc_connection_metadata r) (dc_last_device_sequence r)
    (dc_last_server_sequence r) (dc_last_server_acked_sequence r)
    (dc_closed_reason r).

(** The primary key of an outbox frame is (device id, sequence). *)
Record DeviceOutbox := {
  ob_encoded_envelope : pystr;
  ob_ack_sequence : Z;
  ob_frame_type : pystr;
  ob_byte_size : Z;
  ob_created_at : Z;
  ob_retained_until : Z;
  ob_acked_at : option Z;
}.
#[global] Instance DeviceOutbox_eta : Eta DeviceOutbox := λ r,
  Build_DeviceOutbox (ob_encoded_envelope r) (ob_ack_sequence r) (ob_frame_type r)
    (ob_byte_size r) (ob_created_at r) (ob_retained_until r) (ob_acked_at r).

Record ThreadBinding := {
  tb_owner_user_id : pystr;
  tb_device_id : uuid;
  tb_remote_thread_id : option pystr;
  tb_status : ThreadBindingStatus;
  tb_cwd : option pystr;
  tb_title : pystr;
  tb_model : pystr;
  tb_active_turn_id : option pystr;
  tb_snapshot : json;
  tb_last_error : option pystr;
  tb_appserver_epoch : pystr;
  tb_created_at : Z;
  tb_updated_at : Z;
}.
#[global] Instance ThreadBinding_eta : Eta ThreadBinding := λ r,
  Build_ThreadBinding (tb_owner_user_id r) (tb_device_id r) (tb_remote_thread_id r)
    (tb_status r) (tb_cwd r) (tb_title r) (tb_model r) (tb_active_turn_id r)
    (tb_snapshot r) (tb_last_error r) (tb_appserver_epoch r) (tb_created_at r)
    (tb_updated_at r).
#[global] Instance ThreadBinding_eq_dec : EqDecision ThreadBinding.
Proof. solve_decision. Defined.

Record Command := {
  cmd_owner_user_id : pystr;
  cmd_device_id : uuid;
  cmd_thread_binding_id : option uuid;
  cmd_idempotency_key : pystr;
  cmd_idempotency_scope : pystr;
  cmd_request_hash : pystr;
  cmd_method : pystr;
  cmd_payload : json;
  cmd_status : CommandStatus;
  cmd_appserver_epoch : option pystr;
  cmd_result : json;
  cmd_error_code : option pystr;
  cmd_error_message : option pystr;
  cmd_created_at : Z;
  cmd_dispatched_at : option Z;
  cmd_acknowledged_at : option Z;
  cmd_completed_at : option Z;
  cmd_expires_at : option Z;
}.
#[global] Instance Command_eta : Eta Command := λ r,
  Build_Command (cmd_owner_user_id r) (cmd_device_id r) (cmd_thread_binding_id r)
    (cmd_idempotency_key r) (cmd_idempotency_scope r) (cmd_request_hash r)
    (cmd_method r) (cmd_payload r) (cmd_status r) (cmd_appserver_epoch r)
    (cmd_result r) (cmd_error_code r) (cmd_error_message r) (cmd_created_at r)
    (cmd_dispatched_at r) (cmd_acknowledged_at r) (cmd_completed_at r)
    (cmd_expires_at r).

Record Approval := {
  ap_owner_user_id : pystr;
  ap_device_id : uuid;
  ap_command_id : option uuid;
  ap_external_command_id : option pystr;
  ap_decided_by_session_id : option uuid;
  ap_approval_kind : pystr;
  ap_summary : pystr;
  ap_request : json;
  ap_request_hash : pystr;
  ap_status : ApprovalStatus;
  ap_appserver_epoch : pystr;
  ap_requested_at : Z;
  ap_expires_at : Z;
  ap_decided_at : option Z;
  ap_decision_dispatched_at : option Z;
  ap_decision_reason : option pystr;
}.
#[global] Instance Approval_eta : Eta Approval := λ r,
  Build_Approval (ap_owner_user_id r) (ap_device_id r) (ap_command_id r)
    (ap_external_command_id r) (ap_decided_by_session_id r) (ap_approval_kind r)
    (ap_summary r) (ap_request r) (ap_request_hash r) (ap_status r)
    (ap_appserver_epoch r) (ap_requested_at r) (ap_expires_at r) (ap_decided_at r)
    (ap_decision_dispatched_at r) (ap_decision_reason r).

(** The types of [schemas.BrowserEvent]. *)
Inductive BrowserEventType :=
| DeviceUpdated | ThreadUpdated | TurnDelta | TurnCompleted
| ApprovalCreated | ApprovalResolved | CommandUpdated.
#[global] Instance BrowserEventType_eq_dec : EqDecision BrowserEventType.
Proof. solve_decision. Defined.

Definition event_type_value (t : BrowserEventType) : pystr :=
  match t with
  | DeviceUpdated => "device.updated" | ThreadUpdated => "thread.updated"
  | TurnDelta => "turn.delta" | TurnCompleted => "turn.completed"
  | ApprovalCreated => "approval.created" | ApprovalResolved => "approval.resolved"
  | CommandUpdated => "command.updated"
  end.

Record EventLog := {
  ev_owner_user_id : pystr;
  ev_owner_cursor : Z;
  ev_device_id : uuid;
  ev_thread_binding_id : option uuid;
  ev_sequence : Z;
  ev_event_type : BrowserEventType;
  ev_payload : json;
  ev_occurred_at : Z;
  ev_ingested_at : Z;
}.
#[global] Instance EventLog_eta : Eta EventLog := λ r,
  Build_EventLog (ev_owner_user_id r) (ev_owner_cursor r) (ev_device_id r)
    (ev_thread_binding_id r) (ev_sequence r) (ev_event_type r) (ev_payload r)
    (ev_occurred_at r) (ev_ingested_at r).

(** [schemas.BrowserEvent]: the cursor is the decimal text of the owner cursor. *)
Record BrowserEvent := {
  be_cursor : pystr;
  be_type : BrowserEventType;
  be_occurred_at : Z;
  be_data : json;
}.

Definition browser_event_json (e : BrowserEvent) : json :=
  JObj [("cursor", JStr (be_cursor e)); ("type", JStr (event_type_value (be_type e)));
        ("occurred_at", JStr (iso (be_occurred_at e))); ("data", be_data e)].

Record EventOwnerCursor := {
  oc_last_cursor : Z;
  oc_minimum_resume_cursor : Z;
}.
#[global] Instance EventOwnerCursor_eta : Eta EventOwnerCursor := λ r,
  Build_EventOwnerCursor (oc_last_cursor r) (oc_minimum_resume_cursor r).

Record AuditEvent := {
  au_actor_user_id : option pystr;
  au_actor_session_id : option uuid;
  au_actor_device_id : option uuid;
  au_action : pystr;
  au_outcome : AuditOutcome;
  au_resource_type : option pystr;
  au_resource_id : option pystr;
  au_request_id : option pystr;
  au_source_ip : option pystr;
  au_user_agent : option pystr;
  au_details : json;
  au_created_at : Z;
}.

(** ** The database

    The event log and the audit table have an autoincrement key, so they are
    kept as lists in insertion order. *)

Record database := {
  devices : gmap uuid Device;
  connections : gmap uuid DeviceConnection;
  outbox : gmap (uuid * Z) DeviceOutbox;
  threads : gmap uuid ThreadBinding;
  commands : gmap uuid Command;
  approvals : gmap uuid Approval;
  event_log : list EventLog;
  cursors : gmap pystr EventOwnerCursor;
  audit : list AuditEvent;
  sessions : gmap uuid ControlSession;
  pairings : gmap uuid DevicePairing;
}.
#[global] Instance database_eta : Eta database := λ r,
  Build_database (devices r) (connections r) (outbox r) (threads r) (commands r)
    (approvals r) (event_log r) (cursors r) (audit r) (sessions r) (pairings r).

Definition empty_database : database :=
  {| devices := ∅; connections := ∅; outbox := ∅; threads := ∅; commands := ∅;
     approvals := ∅; event_log := []; cursors := ∅; audit := []; sessions := ∅;
     pairings := ∅ |}.
