(* ===== verification/Storage.v ===== *)
(** * The key-value store ([control_api/storage.py])

    [KeyValueStore] is the interface of the [KeyValueStore] protocol: its
    operations, and their laws stated on the live view of a store, the map of
    the keys that have not expired at a given time.  [InMemory] models
    [InMemoryKeyValueStore] and discharges the interface. *)

From stdpp Require Import base list gmap.
From Stdlib Require Import NArith ZArith Lia.
From S2P Require Import Prelude Json.
Open Scope Z_scope.

(** The view after writing [k := v] at [now] with time to live [ttl]. *)
Definition view_set (t now : Z) (k v : pystr) (ttl : Z) (m : gmap pystr pystr) :
    gmap pystr pystr :=
  if t <? now + ttl then <[k := v]> m else delete k m.

Class KeyValueStore (S : Type) := {
  kv_empty : S;
  kv_get : Z → pystr → S → option pystr * S;
  kv_set : Z → pystr → pystr → Z → S → S;
  kv_set_if_absent : Z → pystr → pystr → Z → S → bool * S;
  kv_compare_refresh : Z → pystr → pystr → Z → S → bool * S;
  kv_compare_delete : Z → pystr → pystr → S → bool * S;
  kv_delete : pystr → S → S;
  kv_increment : Z → pystr → Z → S → Z * S;
  kv_view : Z → S → gmap pystr pystr;

  kv_view_empty t : kv_view t kv_empty = ∅;
  kv_view_expires s t t' k v :
    t ≤ t' → kv_view t' s !! k = Some v → kv_view t s !! k = Some v;
  kv_get_spec now k s : (kv_get now k s).1 = kv_view now s !! k;
  kv_get_view now k s t : now ≤ t → kv_view t (kv_get now k s).2 = kv_view t s;
  kv_set_view now k v ttl s t :
    now ≤ t → kv_view t (kv_set now k v ttl s) = view_set t now k v ttl (kv_view t s);
  kv_set_if_absent_taken now k v ttl s :
    is_Some (kv_view now s !! k) →
    (kv_set_if_absent now k v ttl s).1 = false ∧
    ∀ t, now ≤ t → kv_view t (kv_set_if_absent now k v ttl s).2 = kv_view t s;
  kv_set_if_absent_free now k v ttl s :
    kv_view now s !! k = None →
    (kv_set_if_absent now k v ttl s).1 = true ∧
    ∀ t, now ≤ t →
      kv_view t (kv_set_if_absent now k v ttl s).2 = view_set t now k v ttl (kv_view t s);
  kv_compare_refresh_owned now k v ttl s :
    kv_view now s !! k = Some v →
    (kv_compare_refresh now k v ttl s).1 = true ∧
    ∀ t, now ≤ t →
      kv_view t (kv_compare_refresh now k v ttl s).2 = view_set t now k v ttl (kv_view t s);
  kv_compare_refresh_lost now k v ttl s :
    kv_view now s !! k ≠ Some v →
    (kv_compare_refresh now k v ttl s).1 = false ∧
    ∀ t, now ≤ t → kv_view t (kv_compare_refresh now k v ttl s).2 = kv_view t s;
  kv_compare_delete_owned now k v s :
    kv_view now s !! k = Some v →
    (kv_compare_delete now k v s).1 = true ∧
    ∀ t, now ≤ t → kv_view t (kv_compare_delete now k v s).2 = delete k (kv_view t s);
  kv_compare_delete_lost now k v s :
    kv_view now s !! k ≠ Some v →
    (kv_compare_delete now k v s).1 = false ∧
    ∀ t, now ≤ t → kv_view t (kv_compare_delete now k v s).2 = kv_view t s;
  kv_delete_view k s t : kv_view t (kv_delete k s) = delete k (kv_view t s);
  kv_increment_first now k ttl s :
    kv_view now s !! k = None →
    (kv_increment now k ttl s).1 = 1 ∧
    ∀ t, now ≤ t →
      kv_view t (kv_increment now k ttl s).2 = view_set t now k (PyStr (py_str_int 1)) ttl
                                                 (kv_view t s);
  kv_increment_next now k ttl s v :
    kv_view now s !! k = Some v →
    (kv_increment now k ttl s).1 = py_int v + 1 ∧
    ∀ t, now ≤ t →
      kv_view t (kv_increment now k ttl s).2 =
        if decide (is_Some (kv_view t s !! k))
        then <[k := PyStr (py_str_int (py_int v + 1))]> (kv_view t s) else kv_view t s;
}.

(** ** [InMemoryKeyValueStore]

    [_values] maps a key to its value and the monotonic time it expires at.
    The prefix [_key] adds to every key is a fixed injection, so the map is
    keyed by the unprefixed name. *)

Module InMemory.

Record _MemoryValue := { mv_value : pystr; mv_expires_at : Z }.

Definition _values : Type := gmap pystr _MemoryValue.

Definition _purge_expired (key : pystr) (now : Z) (s : gmap pystr _MemoryValue) :
    gmap pystr _MemoryValue :=
  match s !! key with
  | Some value => if mv_expires_at value <=? now then delete key s else s
  | None => s
  end.

Definition get (now : Z) (key : pystr) (s : gmap pystr _MemoryValue) :
    option pystr * gmap pystr _MemoryValue :=
  let s := _purge_expired key now s in (mv_value <$> s !! key, s).

Definition set (now : Z) (key value : pystr) (ttl_seconds : Z)
    (s : gmap pystr _MemoryValue) : gmap pystr _MemoryValue :=
  <[key := {| mv_value := value; mv_expires_at := now + ttl_seconds |}]> s.

Definition set_if_absent (now : Z) (key value : pystr) (ttl_seconds : Z)
    (s : gmap pystr _MemoryValue) : bool * gmap pystr _MemoryValue :=
  let s := _purge_expired key now s in
  match s !! key with
  | Some _ => (false, s)
  | None => (true, <[key := {| mv_value := value; mv_expires_at := now + ttl_seconds |}]> s)
  end.

Definition compare_refresh (now : Z) (key expected_value : pystr) (ttl_seconds : Z)
    (s : gmap pystr _MemoryValue) : bool * gmap pystr _MemoryValue :=
  let s := _purge_expired key now s in
  match s !! key with
  | Some current =>
      if bool_decide (mv_value current ≠ expected_value) then (false, s)
      else (true, <[key := {| mv_value := mv_value current;
                              mv_expires_at := now + ttl_seconds |}]> s)
  | None => (false, s)
  end.

Definition compare_delete (now : Z) (key expected_value : pystr)
    (s : gmap pystr _MemoryValue) : bool * gmap pystr _MemoryValue :=
  let s := _purge_expired key now s in
  match s !! key with
  | Some current =>
      if bool_decide (mv_value current ≠ expected_value) then (false, s)
      else (true, delete key s)
  | None => (false, s)
  end.

Definition delete (key : pystr) (s : gmap pystr _MemoryValue) : gmap pystr _MemoryValue :=
  base.delete key s.

Definition increment (now : Z) (key : pystr) (ttl_seconds : Z)
    (s : gmap pystr _MemoryValue) : Z * gmap pystr _MemoryValue :=
  let s := _purge_expired key now s in
  let count :=
    match s !! key with
    | Some current => py_int (mv_value current) + 1
    | None => 1
    end in
  let expires_at :=
    match s !! key with
    | Some current => mv_expires_at current
    | None => now + ttl_seconds
    end in
  (count, <[key := {| mv_value := PyStr (py_str_int count);
                      mv_expires_at := expires_at |}]> s).

(** *** The live view and the laws *)

Definition live (t : Z) (v : _MemoryValue) : option pystr :=
  if mv_expires_at v <=? t then None else Some (mv_value v).

Definition view (t : Z) (s : gmap pystr _MemoryValue) : gmap pystr pystr :=
  omap (live t) s.

Lemma lookup_view t s k : view t s !! k = s !! k ≫= live t.
Proof. apply lookup_omap. Qed.

Lemma live_mono t t' v x : t ≤ t' → live t' v = Some x → live t v = Some x.
Proof. unfold live. intros ?. repeat case_match; reflect_bools; try congruence; lia. Qed.

Lemma lookup_purge key now s k :
  _purge_expired key now s !! k =
    if decide (key = k) then s !! k ≫= (λ v, if mv_expires_at v <=? now then None else Some v)
    else s !! k.
Proof.
  unfold _purge_expired. case_decide as Hk; [subst k|].
  - destruct (s !! key) as [v|] eqn:E; simpl; [|done].
    destruct (mv_expires_at v <=? now); [by rewrite lookup_delete_eq|done].
  - destruct (s !! key) as [v|]; [|done].
    destruct (_ <=? _); [by rewrite lookup_delete_ne|done].
Qed.

Lemma view_purge t key now s : now ≤ t → view t (_purge_expired key now s) = view t s.
Proof.
  intros Ht. apply map_eq. intros k. rewrite !lookup_view, lookup_purge.
  case_decide; [|done]. destruct (s !! k) as [v|]; simpl; [|done].
  destruct (mv_expires_at v <=? now) eqn:E; simpl; [|done].
  unfold live. reflect_bools. destruct (_ <=? t) eqn:E'; [done|]. reflect_bools. lia.
Qed.

(** After the purge a key is present exactly when it is live. *)
Lemma purge_live now key s :
  mv_value <$> _purge_expired key now s !! key = view now s !! key.
Proof.
  rewrite lookup_view, lookup_purge, decide_True by done.
  destruct (s !! key) as [v|]; simpl; [|done]. unfold live. by destruct (_ <=? _).
Qed.

Lemma view_insert t now k v ttl s :
  view t (<[k := {| mv_value := v; mv_expires_at := now + ttl |}]> s)
  = view_set t now k v ttl (view t s).
Proof.
  unfold view_set. apply map_eq. intros i. rewrite lookup_view.
  destruct (decide (k = i)) as [->|Hne].
  - rewrite lookup_insert_eq. simpl. unfold live. simpl.
    destruct (t <? now + ttl) eqn:E, (now + ttl <=? t) eqn:E'; reflect_bools;
      [lia|by rewrite lookup_insert_eq|by rewrite lookup_delete_eq|lia].
  - rewrite lookup_insert_ne by done. rewrite <- lookup_view.
    destruct (t <? _); [by rewrite lookup_insert_ne|by rewrite lookup_delete_ne].
Qed.

Lemma view_delete t k s : view t (base.delete k s) = base.delete k (view t s).
Proof. unfold view. by rewrite omap_delete. Qed.

Lemma purge_view_None now key s :
  _purge_expired key now s !! key = None ↔ view now s !! key = None.
Proof. rewrite <- purge_live. destruct (_ !! key); simpl; naive_solver. Qed.

#[export] Program Instance InMemoryKeyValueStore : KeyValueStore (gmap pystr _MemoryValue) := {
  kv_empty := ∅;
  kv_get := get;
  kv_set := set;
  kv_set_if_absent := set_if_absent;
  kv_compare_refresh := compare_refresh;
  kv_compare_delete := compare_delete;
  kv_delete := delete;
  kv_increment := increment;
  kv_view := view;
}.
Next Obligation. intros t. apply map_eq. intros k. rewrite lookup_view. done. Qed.
Next Obligation.
  intros s t t' k v Ht. rewrite !lookup_view.
  destruct (s !! k); simpl; [by apply live_mono|done].
Qed.
Next Obligation. intros now k s. apply purge_live. Qed.
Next Obligation. intros now k s t Ht. by apply view_purge. Qed.
Next Obligation. intros. apply view_insert. Qed.
Next Obligation.
  intros now k v ttl s [x Hx]. unfold set_if_absent. rewrite <- purge_live in Hx.
  destruct (_ !! k); [|done]. split; [done|]. intros. by apply view_purge.
Qed.
Next Obligation.
  intros now k v ttl s Hx. unfold set_if_absent. apply purge_view_None in Hx. rewrite Hx.
  split; [done|]. intros t Ht. simpl. by rewrite view_insert, view_purge.
Qed.
Next Obligation.
  intros now k v ttl s Hx. unfold compare_refresh. rewrite <- purge_live in Hx.
  destruct (_ !! k) as [c|]; simplify_eq/=. case_bool_decide; [done|].
  split; [done|]. intros t Ht. simpl. by rewrite view_insert, view_purge.
Qed.
Next Obligation.
  intros now k v ttl s Hx. unfold compare_refresh. rewrite <- purge_live in Hx.
  destruct (_ !! k) as [c|] eqn:E; simpl in *.
  - case_bool_decide; [|naive_solver]. split; [done|]. intros. by apply view_purge.
  - split; [done|]. intros. by apply view_purge.
Qed.
Next Obligation.
  intros now k v s Hx. unfold compare_delete. rewrite <- purge_live in Hx.
  destruct (_ !! k) as [c|]; simplify_eq/=. case_bool_decide; [done|].
  split; [done|]. intros t Ht. simpl. by rewrite view_delete, view_purge.
Qed.
Next Obligation.
  intros now k v s Hx. unfold compare_delete. rewrite <- purge_live in Hx.
  destruct (_ !! k) as [c|] eqn:E; simpl in *.
  - case_bool_decide; [|naive_solver]. split; [done|]. intros. by apply view_purge.
  - split; [done|]. intros. by apply view_purge.
Qed.
Next Obligation. intros. apply view_delete. Qed.
Next Obligation.
  intros now k ttl s Hx. unfold increment. apply purge_view_None in Hx. rewrite Hx.
  split; [done|]. intros t Ht. cbn [fst snd]. by rewrite view_insert, view_purge.
Qed.
Next Obligation.
  intros now k ttl s v Hx. unfold increment. rewrite <- purge_live in Hx.
  destruct (_purge_expired k now s !! k) as [c|] eqn:E; simplify_eq/=.
  split; [done|]. intros t Ht. rewrite <- (view_purge t k now s Ht).
  apply map_eq. intros i. rewrite lookup_view.
  destruct (decide (k = i)) as [<-|Hne].
  - rewrite lookup_insert_eq, !lookup_view, E. simpl. unfold live. simpl.
    destruct (mv_expires_at c <=? t) eqn:E'.
    + rewrite decide_False by (by intros [? ?]). rewrite lookup_view, E. simpl.
      unfold live. by rewrite E'.
    + rewrite decide_True by done. by rewrite lookup_insert_eq.
  - rewrite lookup_insert_ne by done. case_decide; [rewrite lookup_insert_ne by done|];
      by rewrite lookup_view.
Qed.
End InMemory.
