(* ===== verification/World.v ===== *)
(** * Transactions: the state the services run in

    A request of the Control API runs against three things: an SQLAlchemy
    session ([db]), the shared key-value store, and the environment it reads
    (clock, random UUIDs, store faults).  [world] holds them, [tx] is the
    state-and-exception monad of the handlers:

    - [working] is what the open session sees, [durable] what is committed;
      [commit] publishes the former, [rollback] (and closing a session)
      discards it.  A Python exception leaves [working] as it is, so
      [try_catch] keeps the state at the raise.
    - The sessions are created with [autoflush=False].  A write of the model is
      visible to the next query; in every modelled handler the statements that
      filter on a changed column run after an explicit [flush].
    - Every reading of the clock, of [uuid4] or of the store consumes a fresh
      index [ticks] of the environment's streams, so no two readings are
      assumed equal or ordered.
    - [effects] is the log of what leaves the process: published messages,
      WebSocket frames, metrics; [hub] is the process's table of open device
      sockets ([ConnectionHub]), by connection nonce.

    Row locks ([FOR UPDATE] on the device, then on the owner cursor) make each
    handler's transaction a single step on the rows it touches. *)

From stdpp Require Import base list gmap.
From Stdlib Require Import NArith ZArith Lia.
From S2P Require Import Prelude Config Json Models Storage.
Open Scope Z_scope.

(** ** Exceptions of the services *)

Inductive exn :=
| ValueError (msg : pystr)
| TypeError
| AttributeError
| IntegrityError
| DataError
| StoreUnavailable
| EventCursorExhausted
| BrowserCursorResetRequired (msg : pystr)
| BrowserEventTooLarge (cursor serialized_bytes byte_limit : Z)
| OwnerCapacityExceeded (code : pystr)
| ThreadSnapshotTooLarge (msg : pystr)
| CommandPayloadTooLarge (msg : pystr)
| CommandObjectNotFound
| DeviceOffline
| CommandIdempotencyConflict
| CommandCapacityExceeded (msg : pystr)
| TurnStartInProgress
| ApprovalNotFound
| ApprovalExpired
| ApprovalStaleEpoch
| ApprovalDeviceOffline
| ApprovalDecisionConflict
| RealtimeProtocolError (msg : pystr)
| SequenceGap (got after : Z)
| StaleConnection (msg : pystr)
| BrowserSocketClose (code : Z) (reason : pystr)
| RuntimeError
| SendTimeout
| WebSocketDisconnect (code : option Z)
| BrowserConnectionLimitExceeded
| DeviceCredentialRejected
| DeviceProofRejected
| DeviceProofReplay
| PairingNotFound
| PairingUnauthorized
| PairingExpired
| PairingConflict
| PairingProofRejected
| PairingCapacityExceeded
| RateLimitExceeded (retry_after : Z)
| SessionCapacityExceeded
| SessionCredentialTooLarge
| DisabledSub2APIUser
| RevokedSub2APIToken
| InvalidSub2APIToken
| Sub2APIUnavailable
| Sub2APIProtocolError
| OverflowError
| InvalidRequestError
| StaleDataError
| HTTPException (status : Z) (detail : pystr).

(** ** What leaves the process *)

Inductive metric :=
| MSessionExchange (outcome : pystr)
| MPairing (operation outcome : pystr)
| MCommandTransition (from to : pystr) (duration : option Z)
| MCommandIdempotency (outcome : pystr)
| MRpcPolicy (cls outcome : pystr)
| MApprovalOutcome (outcome reason : pystr)
| MReconciliation (phase outcome : pystr) (items : Z)
| MMaintenance (phase outcome : pystr) (items limit : Z)
| MWebsocketReplaced (kind : pystr)
| MWebsocketOpened (kind : pystr)
| MWebsocketClosed (kind reason : pystr)
| MWebsocketRejected (kind reason : pystr).

Inductive effect :=
| EPublish (channel : pystr) (message : json)
| ESend (connection_nonce : pystr) (frame : pystr)
| EClose (connection_nonce : pystr) (code : Z)
| EEvent (websocket : uuid) (event : BrowserEvent)
| EMetric (m : metric).

(** ** The platform the program runs on

    Everything here is outside the repository: the clocks, [uuid4], the store
    and whether a call to it (or a WebSocket send) fails, SHA-256 and HMAC, [secrets.token_bytes],
    Ed25519 signatures (key, signature, message), AES-GCM under the session key (nonce, text,
    associated data), the instance id, the byte
    length of pydantic's [model_dump_json] of a browser event, Python's and
    pydantic's JSON readers, pydantic's datetime reader, [str()] of a list or dict, [uuid.UUID(text)],
    [datetime.fromtimestamp] of a float, [datetime.fromisoformat] (the instant, and whether the
    text names a time zone) and [int()] of what is not an integer. *)

Class Platform := {
  settings : Settings;
  clock : nat → Z;
  monotonic : nat → Z;
  uuid4 : nat → uuid;
  store_up : nat → bool;
  send_up : nat → bool;
  instance_id : pystr;
  sha256 : list N → list N;
  session_hmac_hex : pystr → pystr;
  model_dump_json_bytes : BrowserEvent → Z;
  json_loads : pystr → option json;
  pydantic_json : pystr → option json;
  pydantic_datetime : pystr → option Z;
  py_repr : json → pystr;
  uuid_of_text : pystr → option uuid;
  float_timestamp : pystr → option Z;
  fromisoformat : pystr → option (Z * bool);
  int_of_json : json → option Z;
  token_bytes : nat → nat → list N;
  ed25519_verify : list N → list N → list N → bool;
  aead_encrypt : list N → list N → list N → list N;
  aead_decrypt : list N → list N → list N → option (list N);
  kvs : Type;
  kvs_store :: KeyValueStore kvs;
}.

Section world.
Context {P : Platform}.

(** [hashlib.sha256(value).hexdigest()]. *)
Definition sha256_hex (value : list N) : pystr :=
  PyStr (concat ((λ b, hex_padded 2 (Z.of_N b)) <$> sha256 value)).

Record world := World {
  working : database;
  durable : database;
  store : kvs;
  ticks : nat;
  effects : list effect;
  hub : gmap uuid pystr;
}.

#[global] Instance world_eta : Eta world := λ w,
  World (working w) (durable w) (store w) (ticks w) (effects w) (hub w).

(** ** The monad *)

Inductive outcome (A : Type) := Ok (a : A) | Raise (e : exn).
Arguments Ok {A} a.
Arguments Raise {A} e.

Definition tx (A : Type) : Type := world → outcome A * world.

#[global] Instance tx_ret : MRet tx := λ A a w, (Ok a, w).
#[global] Instance tx_bind : MBind tx := λ A B f m w,
  match m w with
  | (Ok a, w) => f a w
  | (Raise e, w) => (Raise e, w)
  end.

Definition raise {A} (e : exn) : tx A := λ w, (Raise e, w).

Definition query {A} (f : database → A) : tx A := λ w, (Ok (f (working w)), w).

Definition modify (f : database → database) : tx unit := λ w,
  (Ok tt, w <| working := f (working w) |>).

Definition commit : tx unit := λ w, (Ok tt, w <| durable := working w |>).

Definition rollback : tx unit := λ w, (Ok tt, w <| working := durable w |>).

(** [datetime.now(UTC)], [time.monotonic()], [uuid.uuid4()]. *)
Definition now : tx Z := λ w, (Ok (clock (ticks w)), w <| ticks := S (ticks w) |>).

Definition monotonic_now : tx Z := λ w,
  (Ok (monotonic (ticks w)), w <| ticks := S (ticks w) |>).

Definition fresh_uuid : tx uuid := λ w,
  (Ok (uuid4 (ticks w)), w <| ticks := S (ticks w) |>).

(** [secrets.token_bytes(n)]. *)
Definition fresh_bytes (n : nat) : tx (list N) := λ w,
  (Ok (token_bytes (ticks w) n), w <| ticks := S (ticks w) |>).

Definition emit (e : effect) : tx unit := λ w,
  (Ok tt, w <| effects := effects w ++ [e] |>).

Definition measure (m : metric) : tx unit := emit (EMetric m).

(** A store operation reads the monotonic clock; it may fail. *)
Definition store_op {A} (f : Z → kvs → A * kvs) : tx A := λ w,
  if store_up (ticks w) then
    let '(a, s) := f (monotonic (ticks w)) (store w) in
    (Ok a, w <| store := s |> <| ticks := S (ticks w) |>)
  else (Raise StoreUnavailable, w <| ticks := S (ticks w) |>).

Definition store_get (k : pystr) : tx (option pystr) := store_op (λ t, kv_get t k).

Definition store_set (k v : pystr) (ttl : Z) : tx unit :=
  store_op (λ t s, (tt, kv_set t k v ttl s)).

Definition store_compare_refresh (k v : pystr) (ttl : Z) : tx bool :=
  store_op (λ t, kv_compare_refresh t k v ttl).

Definition store_compare_delete (k v : pystr) : tx bool :=
  store_op (λ t, kv_compare_delete t k v).

Definition store_increment (k : pystr) (ttl : Z) : tx Z :=
  store_op (λ t, kv_increment t k ttl).

Definition store_delete (k : pystr) : tx unit := store_op (λ t s, (tt, kv_delete k s)).

(** A computation that only returns or raises. *)
Definition of_outcome {A} (r : outcome A) : tx A := λ w, (r, w).

(** [await websocket.send_text(frame)] under a timeout. *)
Definition send_text (nonce frame : pystr) : tx unit := λ w,
  if send_up (ticks w) then emit (ESend nonce frame) (w <| ticks := S (ticks w) |>)
  else (Raise SendTimeout, w <| ticks := S (ticks w) |>).

Definition close_socket (nonce : pystr) (code : Z) : tx unit := emit (EClose nonce code).

(** [await store.publish(channel, value)]. *)
Definition publish (channel : pystr) (message : json) : tx unit := λ w,
  if store_up (ticks w) then
    emit (EPublish channel message) (w <| ticks := S (ticks w) |>)
  else (Raise StoreUnavailable, w <| ticks := S (ticks w) |>).

Definition store_set_if_absent (k v : pystr) (ttl : Z) : tx bool :=
  store_op (λ t, kv_set_if_absent t k v ttl).

(** [try: m except E: h], with the handler choosing on the exception. *)
Definition try_catch {A} (m : tx A) (h : exn → tx A) : tx A := λ w,
  match m w with
  | (Raise e, w) => h e w
  | r => r
  end.

(** [try: m except Exception: log]. *)
Definition best_effort (m : tx unit) : tx unit := try_catch m (λ _, mret tt).

(** [async with session_factory() as db: m]: a new session starts from the
    committed state, and closing it discards what was not committed. *)
Definition with_session {A} (m : tx A) : tx A := λ w,
  let '(r, w) := m (w <| working := durable w |>) in
  (r, w <| working := durable w |>).

(** What other transactions commit while the session holds no write. *)
Definition other_transactions (meanwhile : database → database) : tx unit := λ w,
  (Ok tt, w <| durable := meanwhile (durable w) |> <| working := meanwhile (durable w) |>).

(** What other processes do to the shared store meanwhile. *)
Definition other_processes (f : kvs → kvs) : tx unit := λ w,
  (Ok tt, w <| store := f (store w) |>).

Definition guard_exn (b : bool) (e : exn) : tx unit :=
  if b then raise e else mret tt.

Fixpoint for_each {A} (f : A → tx unit) (l : list A) : tx unit :=
  match l with
  | [] => mret tt
  | x :: l => f x ≫= λ _, for_each f l
  end.

(** Loops that accumulate a result over a list. *)
Fixpoint fold_tx {A B} (f : B → A → tx B) (b : B) (l : list A) : tx B :=
  match l with
  | [] => mret b
  | x :: l => f b x ≫= λ b, fold_tx f b l
  end.

(** [db.add(AuditEvent(...))]; [created_at] has the default [utc_now]. *)
Record RequestMetadata := {
  rm_request_id : option pystr;
  rm_source_ip : option pystr;
  rm_user_agent : option pystr;
}.

Definition no_metadata : RequestMetadata :=
  {| rm_request_id := None; rm_source_ip := None; rm_user_agent := None |}.

Definition add_audit (actor_user_id : option pystr) (actor_session_id actor_device_id : option uuid)
    (action : pystr) (outcome : AuditOutcome) (resource_type resource_id : pystr)
    (metadata : RequestMetadata) (details : json) : tx unit :=
  t ← now;
  modify (λ db, db <| audit := audit db ++
    [{| au_actor_user_id := actor_user_id; au_actor_session_id := actor_session_id;
        au_actor_device_id := actor_device_id; au_action := action; au_outcome := outcome;
        au_resource_type := Some resource_type; au_resource_id := Some resource_id;
        au_request_id := rm_request_id metadata; au_source_ip := rm_source_ip metadata;
        au_user_agent := rm_user_agent metadata; au_details := details;
        au_created_at := t |}] |>).

(** ** Reasoning: weakest preconditions *)

Definition wp {A} (m : tx A) (Q : outcome A → world → Prop) (w : world) : Prop :=
  Q (m w).1 (m w).2.

Lemma wp_bind {A B} (m : tx A) (f : A → tx B) Q w :
  wp m (λ r w, match r with Ok a => wp (f a) Q w | Raise e => Q (Raise e) w end) w →
  wp (m ≫= f) Q w.
Proof.
  unfold wp, mbind, tx_bind. destruct (m w) as [[a|e] w'] eqn:E; simpl; auto.
Qed.

Lemma wp_mono {A} (m : tx A) (Q Q' : outcome A → world → Prop) w :
  wp m Q w → (∀ r w', Q r w' → Q' r w') → wp m Q' w.
Proof. unfold wp. auto. Qed.

Lemma wp_conj {A} (m : tx A) (Q Q' : outcome A → world → Prop) w :
  wp m Q w → wp m Q' w → wp m (λ r w', Q r w' ∧ Q' r w') w.
Proof. by split. Qed.

Section wp.
Context {A : Type} (Q : outcome A → world → Prop) (w : world).

Lemma wp_ret (a : A) : Q (Ok a) w → wp (mret a) Q w.
Proof. done. Qed.

Lemma wp_raise e : Q (Raise e) w → wp (raise e) Q w.
Proof. done. Qed.

Lemma wp_query (f : database → A) : Q (Ok (f (working w))) w → wp (query f) Q w.
Proof. done. Qed.
End wp.

Lemma wp_modify (Q : outcome unit → world → Prop) f w :
  (∀ w', working w' = f (working w) → durable w' = durable w → Q (Ok tt) w') → wp (modify f) Q w.
Proof. intros H. by apply H. Qed.

Lemma wp_commit (Q : outcome unit → world → Prop) w :
  (∀ w', working w' = working w → durable w' = working w → Q (Ok tt) w') → wp commit Q w.
Proof. intros H. by apply H. Qed.

Lemma wp_rollback (Q : outcome unit → world → Prop) w :
  (∀ w', working w' = durable w → durable w' = durable w → Q (Ok tt) w') → wp rollback Q w.
Proof. intros H. by apply H. Qed.

Lemma wp_guard (Q : outcome unit → world → Prop) (b : bool) e w :
  (b = true → Q (Raise e) w) → (b = false → Q (Ok tt) w) → wp (guard_exn b e) Q w.
Proof. intros H1 H2. destruct b; [by apply H1|by apply H2]. Qed.

Lemma wp_try_catch {A} (m : tx A) h (Q : outcome A → world → Prop) w :
  wp m (λ r w', match r with Ok a => Q (Ok a) w' | Raise e => wp (h e) Q w' end) w →
  wp (try_catch m h) Q w.
Proof. unfold wp, try_catch. by destruct (m w) as [[a|e] w']. Qed.

(** [silent m]: [m] leaves the session and the committed state alone. *)
Definition silent {A} (m : tx A) : Prop :=
  ∀ w, working (m w).2 = working w ∧ durable (m w).2 = durable w.

Lemma wp_silent {A} (m : tx A) (Q : outcome A → world → Prop) w :
  silent m → (∀ r w', working w' = working w → durable w' = durable w → Q r w') → wp m Q w.
Proof. intros Hm H. destruct (Hm w). by apply H. Qed.

(** A silent operation that returns. *)
Lemma wp_silent_ok {A} (m : tx A) (Q : outcome A → world → Prop) w :
  silent m → (∀ w, ∃ a, (m w).1 = Ok a) →
  (∀ a w', working w' = working w → durable w' = durable w → Q (Ok a) w') → wp m Q w.
Proof.
  intros Hm Hok H. destruct (Hm w). destruct (Hok w) as [a Ha]. unfold wp. rewrite Ha. by apply H.
Qed.

Lemma silent_ret {A} (a : A) : silent (mret a).
Proof. done. Qed.
Lemma silent_raise {A} e : silent (@raise A e).
Proof. done. Qed.
Lemma silent_query {A} (f : database → A) : silent (query f).
Proof. done. Qed.
Lemma silent_now : silent now.
Proof. done. Qed.
Lemma silent_uuid : silent fresh_uuid.
Proof. done. Qed.
Lemma silent_bytes n : silent (fresh_bytes n).
Proof. done. Qed.
Lemma silent_emit e : silent (emit e).
Proof. done. Qed.
Lemma silent_guard b e : silent (guard_exn b e).
Proof. by destruct b. Qed.
Lemma silent_store_op {A} (f : Z → kvs → A * kvs) : silent (store_op f).
Proof. intros w. unfold store_op. destruct (store_up _); [by destruct (f _ _)|done]. Qed.
Lemma silent_of_outcome {A} (r : outcome A) : silent (of_outcome r).
Proof. done. Qed.
Lemma silent_publish c m : silent (publish c m).
Proof. intros w. unfold publish. by destruct (store_up _). Qed.
Lemma silent_send_text c m : silent (send_text c m).
Proof. intros w. unfold send_text. by destruct (send_up _). Qed.

Lemma silent_bind {A B} (m : tx A) (k : A → tx B) :
  silent m → (∀ a, silent (k a)) → silent (m ≫= k).
Proof.
  intros Hm Hk w. unfold mbind, tx_bind. destruct (Hm w) as [H1 H2].
  destruct (m w) as [[a|e] w'] eqn:E; simpl in *; [|done].
  destruct (Hk a w') as [-> ->]. done.
Qed.

Lemma silent_try_catch {A} (m : tx A) h :
  silent m → (∀ e, silent (h e)) → silent (try_catch m h).
Proof.
  intros Hm Hh w. unfold try_catch. destruct (Hm w) as [H1 H2].
  destruct (m w) as [[a|e] w'] eqn:E; simpl in *; [done|]. destruct (Hh e w') as [-> ->]. done.
Qed.

Lemma silent_best_effort m : silent m → silent (best_effort m).
Proof. intros Hm. apply silent_try_catch; [done|]. intros e. apply silent_ret. Qed.

Lemma silent_for_each {A} (f : A → tx unit) l : (∀ a, silent (f a)) → silent (for_each f l).
Proof.
  intros Hf. induction l as [|x l IH]; simpl; [apply silent_ret|].
  apply silent_bind; [apply Hf|done].
Qed.

Lemma silent_fold_tx {A B} (f : B → A → tx B) b l : (∀ b a, silent (f b a)) → silent (fold_tx f b l).
Proof.
  intros Hf. revert b. induction l as [|x l IH]; intros b; simpl; [apply silent_ret|].
  apply silent_bind; [apply Hf|done].
Qed.

Lemma best_effort_ok m w : ∃ a, (best_effort m w).1 = Ok a.
Proof. unfold best_effort, try_catch. destruct (m w) as [[a|e] w']; simpl; eauto. Qed.

Lemma for_each_ok {A} (f : A → tx unit) l w :
  (∀ a w, ∃ u, (f a w).1 = Ok u) → ∃ u, (for_each f l w).1 = Ok u.
Proof.
  intros Hf. revert w. induction l as [|x l IH]; intros w; simpl; [by eexists|].
  unfold mbind, tx_bind. destruct (Hf x w) as [u Hu].
  destruct (f x w) as [r w'] eqn:E. simpl in Hu. subst r. apply IH.
Qed.

(** [stable I m]: [m] keeps [I] true of the session's view and of the
    committed state, whatever its outcome. *)
Definition stable (I : database → Prop) {A} (m : tx A) : Prop :=
  ∀ w, I (working w) → I (durable w) →
    wp m (λ _ w', I (working w') ∧ I (durable w')) w.

Section stable.
Context (I : database → Prop).

Lemma stable_ret {A} (a : A) : stable I (mret a).
Proof. done. Qed.

Lemma stable_raise {A} e : stable I (@raise A e).
Proof. done. Qed.

Lemma stable_bind {A B} (m : tx A) (f : A → tx B) :
  stable I m → (∀ a, stable I (f a)) → stable I (m ≫= f).
Proof.
  intros Hm Hf w H1 H2. apply wp_bind. eapply wp_mono; [by apply Hm|].
  intros [a|e] w' [? ?]; [by apply Hf|done].
Qed.

Lemma stable_query {A} (f : database → A) : stable I (query f).
Proof. done. Qed.

Lemma stable_modify f : (∀ db, I db → I (f db)) → stable I (modify f).
Proof. intros H w H1 H2. split; [by apply H|done]. Qed.

Lemma stable_commit : stable I commit.
Proof. done. Qed.

Lemma stable_rollback : stable I rollback.
Proof. done. Qed.

Lemma stable_now : stable I now.
Proof. done. Qed.

Lemma stable_monotonic_now : stable I monotonic_now.
Proof. done. Qed.

Lemma stable_fresh_uuid : stable I fresh_uuid.
Proof. done. Qed.

Lemma stable_fresh_bytes n : stable I (fresh_bytes n).
Proof. done. Qed.

Lemma stable_emit e : stable I (emit e).
Proof. done. Qed.

Lemma stable_store_op {A} (f : Z → kvs → A * kvs) : stable I (store_op f).
Proof.
  intros w H1 H2. unfold wp, store_op. destruct (store_up _); [|done].
  by destruct (f _ _).
Qed.

Lemma stable_other_processes f : stable I (other_processes f).
Proof. done. Qed.

Lemma stable_of_outcome {A} (r : outcome A) : stable I (of_outcome r).
Proof. done. Qed.

Lemma stable_send_text c m : stable I (send_text c m).
Proof. intros w H1 H2. unfold wp, send_text. by destruct (send_up _). Qed.

Lemma stable_publish c m : stable I (publish c m).
Proof. intros w H1 H2. unfold wp, publish. by destruct (store_up _). Qed.

Lemma stable_try_catch {A} (m : tx A) h :
  stable I m → (∀ e, stable I (h e)) → stable I (try_catch m h).
Proof.
  intros Hm Hh w H1 H2. pose proof (Hm w H1 H2) as H. unfold wp, try_catch in *.
  destruct (m w) as [[a|e] w'] eqn:E; simpl in *; [done|]. destruct H. by apply Hh.
Qed.

Lemma stable_with_session {A} (m : tx A) : stable I m → stable I (with_session m).
Proof.
  intros Hm w H1 H2. pose proof (Hm (w <| working := durable w |>) H2 H2) as H.
  unfold wp, with_session in *. destruct (m _) as [r w']; simpl in *. by destruct H.
Qed.

Lemma stable_guard b e : stable I (guard_exn b e).
Proof. by destruct b. Qed.

Lemma stable_for_each {A} (f : A → tx unit) l :
  (∀ a, stable I (f a)) → stable I (for_each f l).
Proof.
  intros Hf. induction l as [|x l IH]; simpl; [apply stable_ret|].
  apply stable_bind; [apply Hf|done].
Qed.

Lemma stable_fold_tx {A B} (f : B → A → tx B) b l :
  (∀ b a, stable I (f b a)) → stable I (fold_tx f b l).
Proof.
  intros Hf. revert b. induction l as [|x l IH]; intros b; simpl; [apply stable_ret|].
  apply stable_bind; [apply Hf|done].
Qed.

Lemma stable_mapM {A B} (f : A → tx B) l :
  (∀ a, stable I (f a)) → stable I (mapM f l).
Proof.
  intros Hf. induction l as [|x l IH]; simpl; [apply stable_ret|].
  apply stable_bind; [apply Hf|]. intros b. apply stable_bind; [done|].
  intros bs. apply stable_ret.
Qed.
End stable.

(** [moves R m]: one transaction.  [m] either rolls back, or takes the
    session's view by [R] and commits it or leaves the committed state alone. *)
Definition moves (R : database → database → Prop) {A} (m : tx A) : Prop :=
  ∀ w, (working (m w).2 = durable w ∧ durable (m w).2 = durable w)
    ∨ (R (working w) (working (m w).2)
       ∧ (durable (m w).2 = working (m w).2 ∨ durable (m w).2 = durable w)).

Lemma moves_stable (I : database → Prop) (R : database → database → Prop) {A} (m : tx A) :
  (∀ db db', I db → R db db' → I db') → moves R m → stable I m.
Proof.
  intros Hcl Hm w H1 H2. unfold wp. destruct (Hm w) as [[-> ->]|[HR [-> | ->]]]; eauto.
Qed.

(** ** Triples

    [hoare I pre m post]: from a world whose session view satisfies [pre], [m]
    keeps the invariant [I] of the session's view and of the committed state
    whatever its outcome, and a normal result satisfies [post] on the view. *)

Definition hoare (I : database → Prop) (pre : database → Prop) {A} (m : tx A)
    (post : A → database → Prop) : Prop :=
  ∀ w, I (working w) → I (durable w) → pre (working w) →
    I (working (m w).2) ∧ I (durable (m w).2)
    ∧ ∀ a, (m w).1 = Ok a → post a (working (m w).2).

Section hoare.
Context (I : database → Prop).

Lemma hoare_stable (pre : database → Prop) {A} (m : tx A) post :
  (∀ db, pre db) → hoare I pre m post → stable I m.
Proof. intros Hp H w H1 H2. destruct (H w H1 H2 (Hp _)) as (? & ? & _). done. Qed.

Lemma hoare_of_stable pre {A} (m : tx A) : stable I m → hoare I pre m (λ _ _, True).
Proof. intros H w H1 H2 _. destruct (H w H1 H2). done. Qed.

Lemma hoare_bind {A B} pre (m : tx A) (mid : A → database → Prop) (k : A → tx B) post :
  hoare I pre m mid → (∀ a, hoare I (mid a) (k a) post) → hoare I pre (m ≫= k) post.
Proof.
  intros Hm Hk w H1 H2 Hp. destruct (Hm w H1 H2 Hp) as (H3 & H4 & H5).
  unfold mbind, tx_bind. destruct (m w) as [[a|e] w'] eqn:E; simpl in *.
  - by apply Hk, H5.
  - split_and!; done.
Qed.

Lemma hoare_weaken {A} (pre pre' : database → Prop) (m : tx A) post :
  (∀ db, I db → pre db → pre' db) → hoare I pre' m post → hoare I pre m post.
Proof. intros Hp H w H1 H2 H3. apply H; auto. Qed.

Lemma hoare_post {A} pre (m : tx A) (post post' : A → database → Prop) :
  hoare I pre m post → (∀ a db, I db → post a db → post' a db) → hoare I pre m post'.
Proof.
  intros H Hpost w H1 H2 H3. destruct (H w H1 H2 H3) as (? & ? & H4). split_and!; auto.
Qed.

Lemma hoare_ret {A} (pre : database → Prop) (a : A) :
  hoare I pre (mret a) (λ r db, r = a ∧ pre db).
Proof. intros w H1 H2 H3. split_and!; try done. intros ? [= <-]. done. Qed.

Lemma hoare_raise {A} pre e (post : A → database → Prop) : hoare I pre (raise e) post.
Proof. intros w H1 H2 H3. done. Qed.

Lemma hoare_query {A} pre (f : database → A) :
  hoare I pre (query f) (λ a db, pre db ∧ f db = a).
Proof. intros w H1 H2 H3. split_and!; try done. intros ? [= <-]. done. Qed.

Lemma hoare_modify (pre : database → Prop) f :
  (∀ db, I db → pre db → I (f db)) →
  hoare I pre (modify f) (λ _ db', ∃ db, I db ∧ pre db ∧ db' = f db).
Proof. intros H w H1 H2 H3. split_and!; simpl; eauto. Qed.

(** Operations that do not touch the session's view. *)
Definition quiet {A} (m : tx A) : Prop :=
  ∀ w, working (m w).2 = working w ∧ (durable (m w).2 = durable w ∨ durable (m w).2 = working w).

Lemma hoare_quiet {A} pre (m : tx A) : quiet m → hoare I pre m (λ _, pre).
Proof.
  intros Hq w H1 H2 H3. destruct (Hq w) as [-> [-> | ->]]; split_and!; done.
Qed.

Lemma hoare_try {A} pre (m : tx A) h mid post :
  hoare I pre m post → (∀ e, hoare I mid (h e) post) → (∀ db, mid db) →
  hoare I pre (try_catch m h) post.
Proof.
  intros Hm Hh Hmid w H1 H2 H3. destruct (Hm w H1 H2 H3) as (H4 & H5 & H6).
  unfold try_catch. destruct (m w) as [[a|e] w'] eqn:E; simpl in *; [done|].
  apply (Hh e w'); auto.
Qed.
End hoare.

(** ** Transactions

    [txn I pre m post]: [m] keeps the invariant [I] of the committed state
    whatever its outcome; on the session's view it is an ordinary triple for a
    normal result.  An invariant that is broken between two statements of a
    handler, and restored before it commits, is proved with it: a raise leaves
    a view that its session discards. *)
Definition txn (I : database → Prop) (pre : database → Prop) {A} (m : tx A)
    (post : A → database → Prop) : Prop :=
  ∀ w, I (durable w) → pre (working w) →
    I (durable (m w).2) ∧ ∀ a, (m w).1 = Ok a → post a (working (m w).2).

Section txn.
Context (I : database → Prop).

Lemma txn_bind {A B} pre (m : tx A) (mid : A → database → Prop) (k : A → tx B) post :
  txn I pre m mid → (∀ a, txn I (mid a) (k a) post) → txn I pre (m ≫= k) post.
Proof.
  intros Hm Hk w H1 H2. destruct (Hm w H1 H2) as (H3 & H4).
  unfold mbind, tx_bind. destruct (m w) as [[a|e] w'] eqn:E; simpl in *.
  - by apply Hk, H4.
  - done.
Qed.

Lemma txn_weaken {A} (pre pre' : database → Prop) (m : tx A) post post' :
  txn I pre' m post' → (∀ db, pre db → pre' db) → (∀ a db, post' a db → post a db) →
  txn I pre m post.
Proof. intros H Hp Hq w H1 H2. destruct (H w H1 (Hp _ H2)) as [? ?]. auto. Qed.

Lemma txn_ret {A} (pre : database → Prop) (a : A) : txn I pre (mret a) (λ r db, r = a ∧ pre db).
Proof. intros w H1 H2. split; [done|]. intros ? [= <-]. done. Qed.

Lemma txn_raise {A} pre e (post : A → database → Prop) : txn I pre (raise e) post.
Proof. by intros w H1 H2. Qed.

Lemma txn_query {A} pre (f : database → A) : txn I pre (query f) (λ a db, pre db ∧ f db = a).
Proof. intros w H1 H2. split; [done|]. intros ? [= <-]. done. Qed.

Lemma txn_modify (pre : database → Prop) f :
  txn I pre (modify f) (λ _ db', ∃ db, pre db ∧ db' = f db).
Proof. intros w H1 H2. split; [done|]. simpl. eauto. Qed.

Lemma txn_commit (pre : database → Prop) :
  (∀ db, pre db → I db) → txn I pre commit (λ _, pre).
Proof. intros H w H1 H2. split; [by apply H|done]. Qed.

Lemma txn_guard (pre : database → Prop) b e :
  txn I pre (guard_exn b e) (λ _ db, pre db ∧ b = false).
Proof. intros w H1 H2. by destruct b. Qed.

(** A session starts from the committed state. *)
Lemma txn_session {A} (m : tx A) post pre :
  txn I I m post → txn I pre (with_session m) (λ _ db, I db).
Proof.
  intros H w H1 H2. specialize (H (w <| working := durable w |>)).
  destruct H as [H3 H4]; [exact H1..|].
  unfold with_session. destruct (m _) as [r w'] eqn:E. simpl in *. split; [done|].
  intros a _. done.
Qed.

(** Whatever keeps a property of the view without committing anything else. *)
Lemma txn_stable {A} (m : tx A) :
  stable I m → txn I I m (λ _, I).
Proof. intros H w H1 H2. destruct (H w H2 H1). done. Qed.
End txn.

(** ** Runs that return *)

Lemma bind_ok_inv {A B} (m : tx A) (f : A → tx B) w b w' :
  (m ≫= f) w = (Ok b, w') → ∃ a w1, m w = (Ok a, w1) ∧ f a w1 = (Ok b, w').
Proof. unfold mbind, tx_bind. destruct (m w) as [[a|e] w1]; [eauto|done]. Qed.

Lemma run_bind {A B} (m : tx A) (f : A → tx B) w a w' : m w = (Ok a, w') → (m ≫= f) w = f a w'.
Proof. intros E. unfold mbind, tx_bind. by rewrite E. Qed.

Lemma of_outcome_ok_inv {A} (r : outcome A) w a w' :
  of_outcome r w = (Ok a, w') → r = Ok a ∧ w' = w.
Proof. by intros [= -> ->]. Qed.

Lemma query_ok_inv {A} (f : database → A) w a w' :
  query f w = (Ok a, w') → a = f (working w) ∧ w' = w.
Proof. by intros [= <- <-]. Qed.

Lemma raise_ok_inv {A} e w (a : A) w' : raise e w = (Ok a, w') → False.
Proof. done. Qed.

Lemma guard_ok_inv (b : bool) e w u w' : guard_exn b e w = (Ok u, w') → b = false ∧ w' = w.
Proof. destruct b; [done|]. by intros [= _ <-]. Qed.

Lemma store_op_ok_inv {A} (f : Z → kvs → A * kvs) w a w' :
  store_op f w = (Ok a, w') →
  a = (f (monotonic (ticks w)) (store w)).1 ∧ ticks w' = S (ticks w)
  ∧ store w' = (f (monotonic (ticks w)) (store w)).2 ∧ working w' = working w
  ∧ durable w' = durable w.
Proof.
  unfold store_op. destruct (store_up _); [|done]. destruct (f _ _) as [x s]. by intros [= <- <-].
Qed.

Lemma wp_of_outcome {A} (r : outcome A) (Q : outcome A → world → Prop) w :
  (∀ a, r = Ok a → Q (Ok a) w) → (∀ e, r = Raise e → Q (Raise e) w) → wp (of_outcome r) Q w.
Proof. intros H1 H2. destruct r; [by apply H1|by apply H2]. Qed.

Lemma quiet_now : quiet now.
Proof. intros w. split; [done|by left]. Qed.
Lemma quiet_uuid : quiet fresh_uuid.
Proof. intros w. split; [done|by left]. Qed.
Lemma quiet_emit e : quiet (emit e).
Proof. intros w. split; [done|by left]. Qed.
Lemma quiet_guard b e : quiet (guard_exn b e).
Proof. intros w. destruct b; (split; [done|by left]). Qed.
Lemma quiet_commit : quiet commit.
Proof. intros w. split; [done|by right]. Qed.
Lemma quiet_store_op {A} (f : Z → kvs → A * kvs) : quiet (store_op f).
Proof.
  intros w. unfold store_op. destruct (store_up _); [destruct (f _ _)|]; (split; [done|by left]).
Qed.
Lemma quiet_send_text c m : quiet (send_text c m).
Proof. intros w. unfold send_text. destruct (send_up _); (split; [done|by left]). Qed.
Lemma quiet_publish c m : quiet (publish c m).
Proof. intros w. unfold publish. destruct (store_up _); (split; [done|by left]). Qed.
End world.

Arguments Ok {A} a.
Arguments Raise {A} e.
Arguments tx {P} A.

Create HintDb stable.
#[export] Hint Resolve stable_ret stable_raise stable_query stable_commit stable_rollback
  stable_now stable_monotonic_now stable_fresh_uuid stable_fresh_bytes stable_emit stable_store_op stable_other_processes stable_publish stable_send_text
  stable_guard stable_of_outcome : stable.

(** [solve_stable]: symbolic execution of a handler; the leaves are closed by
    the [stable] database, which holds a lemma per operation a handler calls
    and per table the invariant does not mention. *)
Ltac stable_step :=
  match goal with
  | |- stable _ (match ?x with _ => _ end) => destruct x eqn:?
  | |- stable _ (if ?x then _ else _) => destruct x eqn:?
  | |- stable _ (let '(_, _) := ?x in _) => destruct x eqn:?
  | |- stable _ (mbind _ _) => apply stable_bind; [|intros ?]
  | |- stable _ (try_catch _ _) => apply stable_try_catch; [|intros ?]
  | |- stable _ (with_session _) => apply stable_with_session
  | |- stable _ (best_effort _) => apply stable_try_catch; [|intros ?]
  | |- stable _ (for_each _ _) => apply stable_for_each; intros ?
  | |- stable _ (fold_tx _ _ _) => apply stable_fold_tx; intros ? ?
  | |- stable _ (mapM _ _) => apply stable_mapM; intros ?
  | |- stable _ (modify _) =>
      apply stable_modify; intros ? ?; first [assumption | solve [eauto with stable] | idtac]
  | |- stable _ (measure _) => apply stable_emit
  | |- stable _ (store_get _) => apply stable_store_op
  | |- stable _ (store_set _ _ _) => apply stable_store_op
  | |- stable _ (store_set_if_absent _ _ _) => apply stable_store_op
  | |- stable _ (store_compare_refresh _ _ _) => apply stable_store_op
  | |- stable _ (store_compare_delete _ _) => apply stable_store_op
  | |- stable _ (store_increment _ _) => apply stable_store_op
  | |- stable _ (store_delete _) => apply stable_store_op
  | |- stable _ _ => solve [eauto with stable typeclass_instances]
  | |- stable _ (add_audit _ _ _ _ _ _ _ _ _) => unfold add_audit
  end.
Ltac solve_stable := repeat stable_step.

Create HintDb quiet.
#[export] Hint Resolve quiet_now quiet_uuid quiet_emit quiet_guard quiet_commit quiet_store_op
  quiet_publish quiet_send_text : quiet.

(** An invariant of the worlds of a loop. *)
Lemma wp_fold_tx {P : Platform} {A B} (J : world → Prop) (f : B → A → tx B) b l w :
  (∀ b a w, J w → wp (f b a) (λ _ w', J w') w) → J w → wp (fold_tx f b l) (λ _ w', J w') w.
Proof.
  intros Hf. revert b w. induction l as [|a l IH]; intros b w Hw; simpl; [done|].
  apply wp_bind. eapply wp_mono; [by apply Hf|]. intros [b'|e] w' Hw'; [by apply IH|done].
Qed.

Create HintDb silent.
#[export] Hint Resolve silent_ret silent_raise silent_query silent_now silent_uuid silent_bytes silent_emit
  silent_guard silent_store_op silent_publish silent_send_text silent_best_effort
  silent_of_outcome : silent.

(** [solve_silent] closes [silent] goals; [wp_step] executes the next statement
    of a handler, remembering what it learnt; worlds are described by the
    equations of their two databases, which [rewrite_worlds] rewrites with. *)
Ltac silent_step :=
  match goal with
  | |- silent (match ?x with _ => _ end) => destruct x eqn:?
  | |- silent (if ?x then _ else _) => destruct x eqn:?
  | |- silent (let '(_, _) := ?x in _) => destruct x eqn:?
  | |- silent (mbind _ _) => apply silent_bind; [|intros ?]
  | |- silent (try_catch _ _) => apply silent_try_catch; [|intros ?]
  | |- silent (best_effort _) => apply silent_best_effort
  | |- silent (for_each _ _) => apply silent_for_each; intros ?
  | |- silent (fold_tx _ _ _) => apply silent_fold_tx; intros ? ?
  | |- silent (measure _) => apply silent_emit
  | |- silent (store_get _) => apply silent_store_op
  | |- silent (store_set _ _ _) => apply silent_store_op
  | |- silent (store_set_if_absent _ _ _) => apply silent_store_op
  | |- silent (store_compare_refresh _ _ _) => apply silent_store_op
  | |- silent (store_compare_delete _ _) => apply silent_store_op
  | |- silent (store_increment _ _) => apply silent_store_op
  | |- silent (store_delete _) => apply silent_store_op
  | |- silent _ => solve [eauto with silent]
  end.
Ltac solve_silent := repeat silent_step.

Ltac rewrite_worlds :=
  repeat match goal with
  | H : working ?w = _ |- context [working ?w] => rewrite H
  | H : durable ?w = _ |- context [durable ?w] => rewrite H
  end.

Ltac wp_intro :=
  let w := fresh "w" in let Hw := fresh "Hw" in let Hd := fresh "Hd" in
  intros w Hw Hd;
  repeat match goal with
  | H : working ?x = _, H' : context [working ?x] |- _ =>
      lazymatch H' with H => fail | _ => rewrite H in H' end
  | H : durable ?x = _, H' : context [durable ?x] |- _ =>
      lazymatch H' with H => fail | _ => rewrite H in H' end
  end.

Ltac wp_step :=
  cbv beta iota;
  lazymatch goal with
  | |- wp (mbind _ _) _ _ => apply wp_bind
  | |- wp (mret _) _ _ => apply wp_ret
  | |- wp (raise _) _ _ => apply wp_raise
  | |- wp (query _) _ _ => apply wp_query; rewrite_worlds
  | |- wp (modify _) _ _ => apply wp_modify; wp_intro
  | |- wp commit _ _ => apply wp_commit; wp_intro
  | |- wp rollback _ _ => apply wp_rollback; wp_intro
  | |- wp (of_outcome _) _ _ =>
      let H := fresh "Hout" in apply wp_of_outcome; intros ? H
  | |- wp (guard_exn _ _) _ _ =>
      let H := fresh "Hguard" in apply wp_guard; intros H
  | |- wp (try_catch _ _) _ _ => apply wp_try_catch
  | |- wp (now) _ _ =>
      apply wp_silent_ok; [solve_silent|by eauto|let t := fresh "t" in intros t; wp_intro]
  | |- wp (fresh_uuid) _ _ =>
      apply wp_silent_ok; [solve_silent|by eauto|let t := fresh "u" in intros t; wp_intro]
  | |- wp (fresh_bytes _) _ _ =>
      apply wp_silent_ok; [solve_silent|by eauto|let t := fresh "b" in intros t; wp_intro]
  | |- wp (measure _) _ _ =>
      apply wp_silent_ok; [solve_silent|by eauto|intros []; wp_intro]
  | |- wp (best_effort _) _ _ =>
      apply wp_silent_ok; [solve_silent|apply best_effort_ok|intros []; wp_intro]
  | |- wp (for_each _ _) _ _ =>
      apply wp_silent_ok; [solve_silent|intros ?; apply for_each_ok|intros []; wp_intro]
  end.

(** ** Time passes

    No operation takes back a reading of the environment. *)
Definition forward {P : Platform} {A} (m : tx A) : Prop := ∀ w, (ticks w ≤ ticks (m w).2)%nat.

Section forward.
Context {P : Platform}.

Lemma forward_bind {A B} (m : tx A) (k : A → tx B) :
  forward m → (∀ a, forward (k a)) → forward (m ≫= k).
Proof.
  intros Hm Hk w. unfold mbind, tx_bind. specialize (Hm w).
  destruct (m w) as [[a|e] w']; simpl in *; [etrans; [exact Hm|apply Hk]|done].
Qed.
Lemma forward_try_catch {A} (m : tx A) h :
  forward m → (∀ e, forward (h e)) → forward (try_catch m h).
Proof.
  intros Hm Hh w. unfold try_catch. specialize (Hm w).
  destruct (m w) as [[a|e] w']; simpl in *; [done|etrans; [exact Hm|apply Hh]].
Qed.
Lemma forward_with_session {A} (m : tx A) : forward m → forward (with_session m).
Proof.
  intros Hm w. unfold with_session.
  match goal with |- context [m ?v] => specialize (Hm v) end. by destruct (m _).
Qed.
Lemma forward_for_each {A} (f : A → tx unit) l : (∀ a, forward (f a)) → forward (for_each f l).
Proof.
  intros Hf. induction l; simpl; [by intros w|]. by apply forward_bind.
Qed.
Lemma forward_fold_tx {A B} (f : B → A → tx B) b l :
  (∀ b a, forward (f b a)) → forward (fold_tx f b l).
Proof.
  intros Hf. revert b. induction l as [|a l IH]; intros b; simpl; [by intros w|].
  by apply forward_bind.
Qed.
Lemma forward_ret {A} (a : A) : forward (mret a).
Proof. by intros w. Qed.
Lemma forward_raise {A} e : forward (@raise P A e).
Proof. by intros w. Qed.
Lemma forward_query {A} (f : database → A) : forward (query f).
Proof. by intros w. Qed.
Lemma forward_modify f : forward (modify f).
Proof. by intros w. Qed.
Lemma forward_commit : forward commit.
Proof. by intros w. Qed.
Lemma forward_rollback : forward rollback.
Proof. by intros w. Qed.
Lemma forward_others f : forward (other_transactions f).
Proof. by intros w. Qed.
Lemma forward_processes f : forward (other_processes f).
Proof. by intros w. Qed.
Lemma forward_now : forward now.
Proof. intros w. simpl. lia. Qed.
Lemma forward_fresh_uuid : forward fresh_uuid.
Proof. intros w. simpl. lia. Qed.
Lemma forward_fresh_bytes n : forward (fresh_bytes n).
Proof. intros w. simpl. lia. Qed.
Lemma forward_emit e : forward (emit e).
Proof. by intros w. Qed.
Lemma forward_guard b e : forward (guard_exn b e).
Proof. by destruct b; intros w. Qed.
Lemma forward_of_outcome {A} (r : outcome A) : forward (of_outcome r).
Proof. by intros w. Qed.
Lemma forward_store_op {A} (f : Z → kvs → A * kvs) : forward (store_op f).
Proof. intros w. unfold store_op. destruct (store_up _); [destruct (f _ _)|]; simpl; lia. Qed.
Lemma forward_publish c m : forward (publish c m).
Proof. intros w. unfold publish. destruct (store_up _); simpl; lia. Qed.
Lemma forward_send_text c m : forward (send_text c m).
Proof. intros w. unfold send_text. destruct (send_up _); simpl; lia. Qed.
End forward.

Create HintDb forward.
#[export] Hint Resolve forward_ret forward_raise forward_query forward_modify forward_commit
  forward_rollback forward_others forward_processes forward_now forward_fresh_uuid forward_fresh_bytes forward_emit
  forward_guard forward_of_outcome forward_store_op forward_publish forward_send_text : forward.

(** [solve_forward]: an operation is unfolded unless the database knows it. *)
Ltac head_of t := lazymatch t with ?f _ => head_of f | _ => t end.
Ltac forward_step :=
  cbv beta iota zeta;
  lazymatch goal with
  | |- forward (mbind _ _) => apply forward_bind; [|intros ?]
  | |- forward (match ?x with _ => _ end) => destruct x
  | |- forward (try_catch _ _) => apply forward_try_catch; [|intros ?]
  | |- forward (with_session _) => apply forward_with_session
  | |- forward (for_each _ _) => apply forward_for_each; intros ?
  | |- forward (fold_tx _ _ _) => apply forward_fold_tx; intros ? ?
  | |- forward ?m => first [solve [eauto with forward] | let h := head_of m in unfold h]
  end.
Ltac solve_forward := repeat forward_step.

(** ** Keys that are left alone *)

Class MonotonicClock (P : Platform) : Prop :=
  cl_monotonic i j : (i ≤ j)%nat → monotonic i ≤ monotonic j.

(** The entry under [k] is in [w'] what it was in [w], but for its age. *)
Definition left_alone {P : Platform} (k : pystr) (w w' : world) : Prop :=
  (ticks w ≤ ticks w')%nat
  ∧ ∀ t, monotonic (ticks w') ≤ t → kv_view t (store w') !! k = kv_view t (store w) !! k.

(** [m] does not write [k]. *)
Definition leaves {P : Platform} (k : pystr) {A} (m : tx A) : Prop :=
  ∀ w, left_alone k w (m w).2.

Lemma leaves_run {P : Platform} k {A} (m : tx A) w r w' :
  leaves k m → m w = (r, w') → left_alone k w w'.
Proof. intros H E. specialize (H w). by rewrite E in H. Qed.

Section leaves.
Context {P : Platform} `{!MonotonicClock P} (k : pystr).

#[export] Instance left_alone_preorder : PreOrder (left_alone k).
Proof.
  split; [by intros w|]. intros w1 w2 w3 [T1 V1] [T2 V2]. split; [lia|].
  intros t Ht. rewrite V2 by done. apply V1. etrans; [|exact Ht]. by apply cl_monotonic.
Qed.

Lemma left_alone_same w w' :
  store w' = store w → (ticks w ≤ ticks w')%nat → left_alone k w w'.
Proof. intros Hs Ht. split; [done|]. intros t _. by rewrite Hs. Qed.

Lemma leaves_same {A} (m : tx A) :
  (∀ w, store (m w).2 = store w ∧ (ticks w ≤ ticks (m w).2)%nat) → leaves k m.
Proof. intros H w. destruct (H w). by apply left_alone_same. Qed.

Lemma leaves_bind {A B} (m : tx A) (f : A → tx B) :
  leaves k m → (∀ a, leaves k (f a)) → leaves k (m ≫= f).
Proof.
  intros Hm Hf w. unfold mbind, tx_bind. specialize (Hm w).
  destruct (m w) as [[a|e] w']; simpl in *; [etrans; [exact Hm|apply Hf]|done].
Qed.
Lemma leaves_try_catch {A} (m : tx A) h :
  leaves k m → (∀ e, leaves k (h e)) → leaves k (try_catch m h).
Proof.
  intros Hm Hh w. unfold try_catch. specialize (Hm w).
  destruct (m w) as [[a|e] w']; simpl in *; [done|etrans; [exact Hm|apply Hh]].
Qed.
Lemma leaves_with_session {A} (m : tx A) : leaves k m → leaves k (with_session m).
Proof.
  intros Hm w. unfold with_session.
  match goal with |- context [m ?v] => specialize (Hm v) end. by destruct (m _).
Qed.
Lemma leaves_for_each {A} (f : A → tx unit) l : (∀ a, leaves k (f a)) → leaves k (for_each f l).
Proof. intros Hf. induction l; simpl; [by intros w|]. by apply leaves_bind. Qed.
Lemma leaves_ret {A} (a : A) : leaves k (mret a).
Proof. by apply leaves_same. Qed.
Lemma leaves_raise {A} e : leaves k (@raise P A e).
Proof. by apply leaves_same. Qed.
Lemma leaves_query {A} (f : database → A) : leaves k (query f).
Proof. by apply leaves_same. Qed.
Lemma leaves_modify f : leaves k (modify f).
Proof. by apply leaves_same. Qed.
Lemma leaves_commit : leaves k commit.
Proof. by apply leaves_same. Qed.
Lemma leaves_rollback : leaves k rollback.
Proof. by apply leaves_same. Qed.
Lemma leaves_others f : leaves k (other_transactions f).
Proof. by apply leaves_same. Qed.
Lemma leaves_now : leaves k now.
Proof. apply leaves_same. intros w. simpl. split; [done|lia]. Qed.
Lemma leaves_fresh_uuid : leaves k fresh_uuid.
Proof. apply leaves_same. intros w. simpl. split; [done|lia]. Qed.
Lemma leaves_fresh_bytes n : leaves k (fresh_bytes n).
Proof. apply leaves_same. intros w. simpl. split; [done|lia]. Qed.
Lemma leaves_emit e : leaves k (emit e).
Proof. by apply leaves_same. Qed.
Lemma leaves_guard b e : leaves k (guard_exn b e).
Proof. apply leaves_same. by destruct b. Qed.
Lemma leaves_of_outcome {A} (r : outcome A) : leaves k (of_outcome r).
Proof. by apply leaves_same. Qed.
Lemma leaves_publish c m : leaves k (publish c m).
Proof. apply leaves_same. intros w. unfold publish. destruct (store_up _); simpl; split; done || lia. Qed.
Lemma leaves_store_op {A} (f : Z → kvs → A * kvs) :
  (∀ now s t, now ≤ t → kv_view t (f now s).2 !! k = kv_view t s !! k) → leaves k (store_op f).
Proof.
  intros Hf w. unfold store_op. destruct (store_up _); [|by apply left_alone_same; simpl; [|lia]].
  specialize (Hf (monotonic (ticks w)) (store w)). destruct (f _ _) as [a s]. simpl in *.
  split; simpl; [lia|]. intros t Ht. apply Hf. etrans; [|exact Ht]. apply cl_monotonic. lia.
Qed.
Lemma leaves_store_get k' : leaves k (store_get k').
Proof. apply leaves_store_op. intros now s t Ht. by rewrite kv_get_view. Qed.
Lemma leaves_store_set k' v ttl : k ≠ k' → leaves k (store_set k' v ttl).
Proof.
  intros Hk. apply leaves_store_op. intros now s t Ht. simpl. rewrite kv_set_view by done.
  unfold view_set. destruct (_ <? _); [by rewrite lookup_insert_ne|by rewrite lookup_delete_ne].
Qed.
Lemma leaves_store_delete k' : k ≠ k' → leaves k (store_delete k').
Proof.
  intros Hk. apply leaves_store_op. intros now s t Ht. simpl. rewrite kv_delete_view.
  by rewrite lookup_delete_ne.
Qed.
Lemma leaves_store_set_if_absent k' v ttl : k ≠ k' → leaves k (store_set_if_absent k' v ttl).
Proof.
  intros Hk. apply leaves_store_op. intros now s t Ht.
  destruct (kv_view now s !! k') as [v'|] eqn:E.
  - destruct (kv_set_if_absent_taken now k' v ttl s) as [_ H]; [by eexists|]. by rewrite H.
  - destruct (kv_set_if_absent_free now k' v ttl s E) as [_ H]. rewrite H by done.
    unfold view_set. destruct (_ <? _); [by rewrite lookup_insert_ne|by rewrite lookup_delete_ne].
Qed.
End leaves.

Create HintDb leaves.
#[export] Hint Resolve leaves_ret leaves_raise leaves_query leaves_modify leaves_commit
  leaves_rollback leaves_others leaves_now leaves_fresh_uuid leaves_fresh_bytes leaves_emit
  leaves_guard leaves_of_outcome leaves_publish leaves_store_get leaves_store_set
  leaves_store_delete leaves_store_set_if_absent : leaves.

(** [solve_leaves]: that the keys differ is left to the [leaves] database. *)
Ltac leaves_step :=
  cbv beta iota zeta;
  lazymatch goal with
  | |- leaves _ (mbind _ _) => apply leaves_bind; [|intros ?]
  | |- leaves _ (match ?x with _ => _ end) => destruct x
  | |- leaves _ (try_catch _ _) => apply leaves_try_catch; [|intros ?]
  | |- leaves _ (with_session _) => apply leaves_with_session
  | |- leaves _ (for_each _ _) => apply leaves_for_each; intros ?
  | |- leaves _ ?m => first [solve [eauto with leaves] | let h := head_of m in unfold h]
  end.
Ltac solve_leaves := repeat leaves_step.
