(* ===== verification/Testbed.v ===== *)
(** * A concrete platform

    An executable instance of [Platform]: the in-memory store, clocks that
    advance one step per reading, distinct UUIDs, a small JSON reader and a
    calendar reader.  Witnesses evaluate the handlers on it. *)

From stdpp Require Import base list gmap.
From Stdlib Require Import NArith ZArith.
From S2P Require Import Prelude Config Json Models Storage World.
Open Scope Z_scope.

(** ** A JSON reader: objects, arrays, strings without escapes, integers and
    the literals; the fuel is the length of the text. *)

Fixpoint span_string (l acc : list N) : option (list N * list N) :=
  match l with
  | [] => None
  | 34%N :: l => Some (reverse acc, l)
  | 92%N :: _ => None
  | c :: l => span_string l (c :: acc)
  end.

Fixpoint span_digits (l acc : list N) : list N * list N :=
  match l with
  | c :: l' => if ((48 <=? c) && (c <=? 57))%N then span_digits l' (c :: acc) else (reverse acc, l)
  | [] => (reverse acc, [])
  end.

Fixpoint read_value (fuel : nat) (l : list N) : option (json * list N) :=
  match fuel with
  | O => None
  | S fuel =>
      match l with
      | 34%N :: l => '(s, l) ← span_string l []; Some (JStr (PyStr s), l)
      | 110%N :: 117%N :: 108%N :: 108%N :: l => Some (JNull, l)
      | 116%N :: 114%N :: 117%N :: 101%N :: l => Some (JBool true, l)
      | 102%N :: 97%N :: 108%N :: 115%N :: 101%N :: l => Some (JBool false, l)
      | 91%N :: 93%N :: l => Some (JArr [], l)
      | 91%N :: l => '(vs, l) ← read_items fuel l []; Some (JArr vs, l)
      | 123%N :: 125%N :: l => Some (JObj [], l)
      | 123%N :: l => '(kvs, l) ← read_members fuel l []; Some (JObj kvs, l)
      | _ =>
          match span_digits l [] with
          | ([], _) => None
          | (ds, l) => Some (JInt (parse_dec ds 0), l)
          end
      end
  end
with read_items (fuel : nat) (l : list N) (acc : list json) : option (list json * list N) :=
  match fuel with
  | O => None
  | S fuel =>
      '(v, l) ← read_value fuel l;
      match l with
      | 44%N :: l => read_items fuel l (v :: acc)
      | 93%N :: l => Some (reverse (v :: acc), l)
      | _ => None
      end
  end
with read_members (fuel : nat) (l : list N) (acc : list (pystr * json)) :
    option (list (pystr * json) * list N) :=
  match fuel with
  | O => None
  | S fuel =>
      match l with
      | 34%N :: l =>
          '(k, l) ← span_string l [];
          match l with
          | 58%N :: l =>
              '(v, l) ← read_value fuel l;
              match l with
              | 44%N :: l => read_members fuel l ((PyStr k, v) :: acc)
              | 125%N :: l => Some (reverse ((PyStr k, v) :: acc), l)
              | _ => None
              end
          | _ => None
          end
      | _ => None
      end
  end.

Definition read_json (s : pystr) : option json :=
  match read_value (S (length (codepoints s))) (codepoints s) with
  | Some (v, []) => Some v
  | _ => None
  end.

(** ** A calendar reader for [YYYY-MM-DDTHH:MM:SS[.ffffff]Z]. *)

Definition days_of_civil (y m d : Z) : Z :=
  let y := if m <=? 2 then y - 1 else y in
  let era := y / 400 in
  let yoe := y - era * 400 in
  let doy := (153 * (if 2 <? m then m - 3 else m + 9) + 2) / 5 + d - 1 in
  let doe := yoe * 365 + yoe / 4 - yoe / 100 + doy in
  era * 146097 + doe - 719468.

Definition read_datetime (s : pystr) : option Z :=
  let l := codepoints s in
  let num i n := parse_dec (take n (drop i l)) 0 in
  let frac :=
    match drop 19 l with
    | 46%N :: r => parse_dec (take 6 r) 0
    | _ => 0
    end in
  Some (days_of_civil (num 0%nat 4%nat) (num 5%nat 2%nat) (num 8%nat 2%nat) * day_micros
        + (num 11%nat 2%nat * 3600 + num 14%nat 2%nat * 60 + num 17%nat 2%nat) * 1000000 + frac).

Definition read_hex (l : list N) : N :=
  foldl (λ acc c, if c =? 45 then acc
                  else 16 * acc + (if c <=? 57 then c - 48 else c - 87))%N 0%N l.

(** ** A 256-bit checksum in place of SHA-256 *)

Definition checksum_value (l : list N) : Z :=
  foldl (λ h c, (h * 1099511628211 + Z.of_N c + 1) mod 2 ^ 256) 7 l.

Definition checksum (l : list N) : pystr := PyStr (hex_padded 64 (checksum_value l)).

(** The [k] low bytes of a number, most significant first. *)
Fixpoint be_bytes (k : nat) (n : Z) : list N :=
  match k with
  | O => []
  | S k => be_bytes k (n / 256) ++ [Z.to_N (n mod 256)]
  end.

Definition checksum_bytes (l : list N) : list N := be_bytes 32 (checksum_value l).

(** Signatures and sealed boxes that the checksum authenticates. *)
Definition sealing_tag (nonce text aad : list N) : list N :=
  take 16 (checksum_bytes (nonce ++ text ++ [256%N] ++ aad)).

Definition toy_decrypt (nonce sealed aad : list N) : option (list N) :=
  let text := take (length sealed - 16) sealed in
  if bool_decide (sealed = text ++ sealing_tag nonce text aad) then Some text else None.

Definition toy_signature (key message : list N) : list N :=
  checksum_bytes (key ++ message) ++ checksum_bytes (message ++ key).

Definition start_micros : Z := 1700000000000000.

#[export] Instance testbed : Platform := {|
  settings := default_settings;
  clock n := start_micros + 1000 * Z.of_nat n;
  monotonic n := Z.of_nat n / 1000;
  uuid4 n := (2 ^ 64 + N.of_nat n)%N;
  store_up _ := true;
  send_up _ := true;
  instance_id := "instance-1";
  sha256 := checksum_bytes;
  session_hmac_hex s := checksum (codepoints s);
  model_dump_json_bytes e := Z.of_nat (length (dumps escape_plain (browser_event_json e)));
  json_loads := read_json;
  pydantic_json := read_json;
  pydantic_datetime := read_datetime;
  py_repr j := PyStr (dumps escape_plain j);
  uuid_of_text s := if bool_decide (length (codepoints s) = 36%nat)
                    then Some (read_hex (codepoints s)) else None;
  float_timestamp _ := None;
  fromisoformat s := (λ t, (t, true)) <$> read_datetime s;
  int_of_json _ := None;
  token_bytes n k := be_bytes k (checksum_value [N.of_nat n]);
  ed25519_verify key signature message := bool_decide (signature = toy_signature key message);
  aead_encrypt nonce text aad := text ++ sealing_tag nonce text aad;
  aead_decrypt := toy_decrypt;
  kvs := gmap pystr InMemory._MemoryValue;
  kvs_store := InMemory.InMemoryKeyValueStore;
|}.

Lemma read_json_sample :
  read_json (PyStr (dumps escape_ascii (JObj [("a", JInt 12); ("b", JArr [JStr "x"; JNull])])))
  = Some (JObj [("a", JInt 12); ("b", JArr [JStr "x"; JNull])]).
Proof. vm_compute. reflexivity. Qed.

Lemma read_datetime_sample : read_datetime (iso 1700000012345678) = Some 1700000012345678.
Proof. vm_compute. reflexivity. Qed.

(** An active device of owner [alice]. *)
Definition sample_device : Device :=
  {| d_owner_user_id := "alice"; d_name := "laptop"; d_public_key := "key";
     d_refresh_credential_hash := None; d_credential_version := 1; d_credential_scheme := 2;
     d_status := DsActive; d_device_metadata := JObj []; d_workspace_roots := ["/srv/app"];
     d_model_catalog := []; d_model_catalog_updated_at := None;
     d_active_epoch := Some "epoch-0000000001"; d_active_connection_nonce := Some "nonce-1";
     d_last_device_sequence := 0; d_last_server_sequence := 0; d_last_server_acked_sequence := 0;
     d_last_event_sequence := 0; d_created_at := 0; d_last_seen_at := None;
     d_revoked_at := None |}.

(** A world with the given tables, committed, and an empty store. *)
Definition start_world (db : database) : world :=
  {| working := db; durable := db; store := (kv_empty : @kvs testbed); ticks := 0; effects := [];
     hub := ∅ |}.

Definition sample_database : database :=
  empty_database <| devices := {[ 1%N := sample_device ]} |>.

(** The world after [m], on the testbed. *)
Definition after {A} (m : @tx testbed A) (w : world) : world := (m w).2.
