(* ===== verification/Wire.v ===== *)
(** * The device wire protocol ([control_api/protocol.py])

    Frames are JSON objects.  Each pydantic model is a record with a reader
    from [json]; [None] is pydantic's [ValidationError] (a [ValueError]).  The
    readers reject extra fields, apply the declared lengths and ranges and run
    the validators in the order of the source.  [_validate_json_shape] of
    [control_api/realtime.py], the iterative limit check on device frames, is
    here too. *)

From stdpp Require Import base list gmap.
From Stdlib Require Import NArith ZArith Lia.
From S2P Require Import Prelude Config Json Paths Models Storage World.
Open Scope Z_scope.

Definition PROTOCOL_VERSION : Z := 1.
Definition MAX_FRAME_BYTES : Z := 262144.
Definition MAX_ENSURE_ASCII_PARAMS_BYTES : Z := 229376.
Definition MAX_ENSURE_ASCII_PROJECTED_BYTES : Z := 229376.
Definition MAX_ENSURE_ASCII_TEXT_BYTES : Z := 200000.
Definition MAX_TEXT_CODE_POINTS : Z := 200000.
Definition MAX_SEQUENCE : Z := 9223372036854775807.

Definition ALLOWED_RPC_METHODS : list pystr :=
  ["model/list"; "thread/start"; "thread/list"; "thread/read"; "thread/resume";
   "turn/start"; "turn/steer"; "turn/interrupt"].

Definition PROTOCOL_ERROR_CODES : list pystr :=
  ["invalid_envelope"; "unsupported_version"; "unauthorized"; "policy_denied";
   "invalid_epoch"; "expired"; "conflict"; "upstream_error"; "invalid_upstream";
   "indeterminate"; "internal_error"].

Inductive EnvelopeType :=
| THello | THelloAck | THeartbeat | THeartbeatAck | TCommand | TCommandAck | TEvent
| TApprovalRequest | TApprovalDecision | TTokenRefresh | TError.
#[global] Instance EnvelopeType_eq_dec : EqDecision EnvelopeType.
Proof. solve_decision. Defined.

Definition envelope_type_value (t : EnvelopeType) : pystr :=
  match t with
  | THello => "hello" | THelloAck => "hello_ack" | THeartbeat => "heartbeat"
  | THeartbeatAck => "heartbeat_ack" | TCommand => "command"
  | TCommandAck => "command_ack" | TEvent => "event"
  | TApprovalRequest => "approval_request" | TApprovalDecision => "approval_decision"
  | TTokenRefresh => "token_refresh" | TError => "error"
  end.

Definition all_envelope_types : list EnvelopeType :=
  [THello; THelloAck; THeartbeat; THeartbeatAck; TCommand; TCommandAck; TEvent;
   TApprovalRequest; TApprovalDecision; TTokenRefresh; TError].

Definition envelope_type_of (s : pystr) : option EnvelopeType :=
  find (λ t, bool_decide (envelope_type_value t = s)) all_envelope_types.

Definition DEVICE_OUTBOUND_TYPES : list EnvelopeType :=
  [THello; THeartbeat; THeartbeatAck; TCommandAck; TEvent; TApprovalRequest; TError].
Definition SERVER_OUTBOUND_TYPES : list EnvelopeType :=
  [THelloAck; THeartbeat; THeartbeatAck; TCommand; TApprovalDecision; TTokenRefresh].

(** ** Readers of field types *)

Definition is_hex (c : N) : bool :=
  ((48 <=? c) && (c <=? 57) || (65 <=? c) && (c <=? 70) || (97 <=? c) && (c <=? 102))%N.

Definition hex_value (c : N) : N :=
  (if c <=? 57 then c - 48 else if c <=? 70 then c - 55 else c - 87)%N.

(** [_CANONICAL_UUID.fullmatch] followed by [uuid.UUID(value)]. *)
Definition canonical_uuid_shape (l : list N) : bool :=
  let seg a n := forallb is_hex (take n (drop a l)) in
  let dash i := bool_decide (l !! i = Some 45%N) in
  bool_decide (length l = 36%nat)
  && seg 0%nat 8%nat && dash 8%nat && seg 9%nat 4%nat && dash 13%nat && seg 14%nat 4%nat
  && dash 18%nat && seg 19%nat 4%nat && dash 23%nat && seg 24%nat 12%nat.

Definition hex_number (l : list N) : N :=
  foldl (λ acc c, if (c =? 45)%N then acc else 16 * acc + hex_value c)%N 0%N l.

Definition wire_uuid (j : json) : option uuid :=
  match j with
  | JStr s => if canonical_uuid_shape (codepoints s) then Some (hex_number (codepoints s)) else None
  | _ => None
  end.

Definition str_between (lo hi : Z) (j : json) : option pystr :=
  match j with
  | JStr s => if (lo <=? py_len s) && (py_len s <=? hi) then Some s else None
  | _ => None
  end.

(** [int] with [strict=True]: neither a bool nor a float is accepted. *)
Definition strict_int (lo hi : Z) (j : json) : option Z :=
  match j with
  | JInt z => if (lo <=? z) && (z <=? hi) then Some z else None
  | _ => None
  end.

Definition str_list (lo hi : Z) (j : json) : option (list pystr) :=
  match j with
  | JArr l =>
      strs ← mapM jstr l;
      if (lo <=? Z.of_nat (length strs)) && (Z.of_nat (length strs) <=? hi)
      then Some strs else None
  | _ => None
  end.

Definition jdict (j : json) : option (list (pystr * json)) :=
  match j with JObj l => Some l | _ => None end.

(** [extra="forbid"]. *)
Definition only_fields (names : list pystr) (l : list (pystr * json)) : option unit :=
  if forallb (λ kv, py_in kv.1 names) l then Some tt else None.

Definition literal (values : list pystr) (j : json) : option pystr :=
  match j with JStr s => if py_in s values then Some s else None | _ => None end.

Definition require (b : bool) : option unit := if b then Some tt else None.

(** [str.isspace] per character, for [value.strip()]. *)
Definition is_space (c : N) : bool :=
  ((9 <=? c) && (c <=? 13) || (28 <=? c) && (c <=? 32) || (c =? 133) || (c =? 160)
   || (c =? 5760) || (8192 <=? c) && (c <=? 8202) || (c =? 8232) || (c =? 8233)
   || (c =? 8239) || (c =? 8287) || (c =? 12288))%N.

Definition is_blank (s : pystr) : bool := forallb is_space (codepoints s).

(** [ensure_ascii_json_byte_length(v) > limit] raises or rejects. *)
Definition within_bytes (limit : Z) (v : json) : bool :=
  match ensure_ascii_json_byte_length v with Some n => n <=? limit | None => false end.

#[global] Arguments str_between _ _ _ : simpl never.
#[global] Arguments strict_int _ _ _ : simpl never.
#[global] Arguments within_bytes _ _ : simpl never.

(** ** Payload models *)

Record HelloPayload := {
  hl_connector_version : pystr;
  hl_codex_version : pystr;
  hl_schema_digest : pystr;
  hl_public_key : pystr;
  hl_capabilities : list pystr;
  hl_workspace_roots : list pystr;
  hl_resumed_from_seq : Z;
}.

Record ProtocolErrorPayload := { pe_code : pystr; pe_message : pystr; pe_retryable : bool }.

Record CommandPayload := {
  cp_command_id : uuid;
  cp_idempotency_key : pystr;
  cp_method : pystr;
  cp_params : list (pystr * json);
  cp_deadline_at : Z;
}.

Inductive AckState := AckAccepted | AckRunning | AckCompleted | AckFailed | AckExpired | AckDenied.
#[global] Instance AckState_eq_dec : EqDecision AckState.
Proof. solve_decision. Defined.

(** [ca_result] and [ca_error] are [None] when the field is not in
    [model_fields_set]; an explicit null error is [Some None]. *)
Record CommandAckPayload := {
  ca_command_id : uuid;
  ca_state : AckState;
  ca_result : option json;
  ca_error : option (option ProtocolErrorPayload);
}.

Record DeviceEventPayload := { de_method : pystr; de_params : list (pystr * json) }.

Record ApprovalRequestPayload := {
  ar_approval_id : uuid;
  ar_command_id : pystr;
  ar_kind : pystr;
  ar_summary : pystr;
  ar_details : list (pystr * json);
  ar_expires_at : Z;
}.

Record HelloAckPayload := {
  ha_connection_id : uuid;
  ha_device_id : uuid;
  ha_epoch : pystr;
  ha_schema_digest : pystr;
  ha_received_seq : Z;
  ha_heartbeat_timeout_seconds : Z;
}.

Record ApprovalDecisionPayload := {
  ad_approval_id : uuid; ad_decision : pystr; ad_decided_at : Z;
}.

Inductive wire_payload :=
| PHello (p : HelloPayload)
| PHelloAck (p : HelloAckPayload)
| PHeartbeat
| PHeartbeatAck (received_seq : Z)
| PCommand (p : CommandPayload)
| PCommandAck (p : CommandAckPayload)
| PEvent (p : DeviceEventPayload)
| PApprovalRequest (p : ApprovalRequestPayload)
| PApprovalDecision (p : ApprovalDecisionPayload)
| PTokenRefresh
| PError (p : ProtocolErrorPayload).

Record ControlEnvelope := {
  en_id : uuid;
  en_device_id : uuid;
  en_epoch : pystr;
  en_seq : Z;
  en_ack : option Z;
  en_type : EnvelopeType;
  en_sent_at : Z;
  en_payload : list (pystr * json);
}.

Section readers.
Context {P : Platform}.

(** The digits of the pattern are matched before pydantic reads the value; a
    text pydantic accepts here has the RFC 3339 shape. *)
Definition is_digit (c : N) : bool := ((48 <=? c) && (c <=? 57))%N.

Definition digits_at (l : list N) (i n : nat) : bool :=
  bool_decide (length (take n (drop i l)) = n) && forallb is_digit (take n (drop i l)).

Definition rfc3339_zone (l : list N) : bool :=
  match l with
  | [90%N] => true
  | c :: l => ((c =? 43) || (c =? 45))%N && bool_decide (length l = 5%nat)
              && digits_at l 0 2 && bool_decide (l !! 2%nat = Some 58%N) && digits_at l 3 2
  | [] => false
  end.

Fixpoint skip_digits (l : list N) : list N :=
  match l with c :: l' => if is_digit c then skip_digits l' else l | [] => [] end.

Definition rfc3339_shape (l : list N) : bool :=
  digits_at l 0 4 && bool_decide (l !! 4%nat = Some 45%N) && digits_at l 5 2
  && bool_decide (l !! 7%nat = Some 45%N) && digits_at l 8 2
  && bool_decide (l !! 10%nat = Some 84%N) && digits_at l 11 2
  && bool_decide (l !! 13%nat = Some 58%N) && digits_at l 14 2
  && bool_decide (l !! 16%nat = Some 58%N) && digits_at l 17 2
  && match drop 19 l with
     | 46%N :: rest => digits_at rest 0 1 && rfc3339_zone (skip_digits rest)
     | rest => rfc3339_zone rest
     end.

Definition wire_datetime (j : json) : option Z :=
  match j with
  | JStr s => if rfc3339_shape (codepoints s) then pydantic_datetime s else None
  | _ => None
  end.

Definition read_hello (l : list (pystr * json)) : option HelloPayload :=
  only_fields ["connector_version"; "codex_version"; "schema_digest"; "public_key";
               "capabilities"; "workspace_roots"; "resumed_from_seq"] l;;
  v ← assoc_get "connector_version" l ≫= str_between 1 64;
  c ← assoc_get "codex_version" l ≫= str_between 1 64;
  d ← assoc_get "schema_digest" l ≫= str_between 16 256;
  k ← assoc_get "public_key" l ≫= str_between 40 256;
  caps ← assoc_get "capabilities" l ≫= str_list 1 32;
  require (bool_decide (NoDup caps));;
  require (forallb (λ m, py_in m ALLOWED_RPC_METHODS) caps);;
  roots ← assoc_get "workspace_roots" l ≫= str_list 1 32;
  roots ← canonicalize_workspace_roots roots;
  seq ← match assoc_get "resumed_from_seq" l with
        | None => Some 0
        | Some j => strict_int 0 MAX_SEQUENCE j
        end;
  Some {| hl_connector_version := v; hl_codex_version := c; hl_schema_digest := d;
          hl_public_key := k; hl_capabilities := caps; hl_workspace_roots := roots;
          hl_resumed_from_seq := seq |}.

Definition read_hello_ack (l : list (pystr * json)) : option HelloAckPayload :=
  only_fields ["connection_id"; "protocol_version"; "device_id"; "epoch"; "schema_digest";
               "received_seq"; "heartbeat_timeout_seconds"] l;;
  cid ← assoc_get "connection_id" l ≫= wire_uuid;
  v ← assoc_get "protocol_version" l;
  require (bool_decide (v = JInt 1));;
  did ← assoc_get "device_id" l ≫= wire_uuid;
  e ← assoc_get "epoch" l ≫= str_between 16 128;
  d ← assoc_get "schema_digest" l ≫= str_between 16 256;
  r ← assoc_get "received_seq" l ≫= strict_int 0 MAX_SEQUENCE;
  h ← assoc_get "heartbeat_timeout_seconds" l ≫= strict_int 5 300;
  Some {| ha_connection_id := cid; ha_device_id := did; ha_epoch := e; ha_schema_digest := d;
          ha_received_seq := r; ha_heartbeat_timeout_seconds := h |}.

(** [validate_param_budget] of [CommandPayload]. *)
Definition turn_input_ok (params : list (pystr * json)) : bool :=
  match assoc_get "input" params with
  | Some (JArr [JObj item]) =>
      forallb (λ kv, py_in kv.1 ["type"; "text"; "text_elements"]) item
      && bool_decide (assoc_get "type" item = Some (JStr "text"))
      && match assoc_get "text_elements" item with
         | Some v => bool_decide (v = JArr [])
         | None => true
         end
      && match assoc_get "text" item with
         | Some (JStr text) =>
             negb (is_blank text) && (py_len text <=? MAX_TEXT_CODE_POINTS)
             && (ensure_ascii_string_content_byte_length text <=? MAX_ENSURE_ASCII_TEXT_BYTES)
         | _ => false
         end
  | _ => false
  end.

Definition read_command (l : list (pystr * json)) : option CommandPayload :=
  only_fields ["command_id"; "idempotency_key"; "method"; "params"; "deadline_at"] l;;
  cid ← assoc_get "command_id" l ≫= wire_uuid;
  k ← assoc_get "idempotency_key" l ≫= str_between 1 128;
  m ← assoc_get "method" l ≫= literal ALLOWED_RPC_METHODS;
  params ← assoc_get "params" l ≫= jdict;
  d ← assoc_get "deadline_at" l ≫= wire_datetime;
  require (within_bytes MAX_ENSURE_ASCII_PARAMS_BYTES (JObj params));;
  require (negb (py_in m ["turn/start"; "turn/steer"]) || turn_input_ok params);;
  Some {| cp_command_id := cid; cp_idempotency_key := k; cp_method := m; cp_params := params;
          cp_deadline_at := d |}.

Definition read_error (l : list (pystr * json)) : option ProtocolErrorPayload :=
  only_fields ["code"; "message"; "retryable"] l;;
  c ← assoc_get "code" l ≫= literal PROTOCOL_ERROR_CODES;
  m ← assoc_get "message" l ≫= str_between 1 4096;
  require (negb (is_blank m));;
  r ← assoc_get "retryable" l;
  match r with
  | JBool b => Some {| pe_code := c; pe_message := m; pe_retryable := b |}
  | _ => None
  end.

Definition read_ack_state (j : json) : option AckState :=
  match j with
  | JStr s =>
      if decide (s = "accepted") then Some AckAccepted
      else if decide (s = "running") then Some AckRunning
      else if decide (s = "completed") then Some AckCompleted
      else if decide (s = "failed") then Some AckFailed
      else if decide (s = "expired") then Some AckExpired
      else if decide (s = "denied") then Some AckDenied
      else None
  | _ => None
  end.

(** [validate_state_shape]. *)
Definition ack_shape_ok (a : CommandAckPayload) : bool :=
  let has_result := bool_decide (is_Some (ca_result a)) in
  let has_error := bool_decide (is_Some (ca_error a)) in
  match ca_state a with
  | AckAccepted | AckRunning => negb (has_result || has_error)
  | AckCompleted => has_result && negb has_error
  | AckFailed | AckExpired | AckDenied =>
      match ca_error a with Some (Some _) => negb has_result | _ => false end
  end
  && match ca_result a with
     | Some r => within_bytes MAX_ENSURE_ASCII_PROJECTED_BYTES r
     | None => true
     end.

Definition read_command_ack (l : list (pystr * json)) : option CommandAckPayload :=
  only_fields ["command_id"; "state"; "result"; "error"] l;;
  cid ← assoc_get "command_id" l ≫= wire_uuid;
  st ← assoc_get "state" l ≫= read_ack_state;
  err ← match assoc_get "error" l with
        | None => Some None
        | Some JNull => Some (Some None)
        | Some (JObj e) => e ← read_error e; Some (Some (Some e))
        | Some _ => None
        end;
  let a := {| ca_command_id := cid; ca_state := st; ca_result := assoc_get "result" l;
              ca_error := err |} in
  require (ack_shape_ok a);;
  Some a.

Definition read_event (l : list (pystr * json)) : option DeviceEventPayload :=
  only_fields ["method"; "params"] l;;
  m ← assoc_get "method" l ≫= str_between 1 128;
  params ← assoc_get "params" l ≫= jdict;
  require (within_bytes MAX_ENSURE_ASCII_PROJECTED_BYTES (JObj params));;
  Some {| de_method := m; de_params := params |}.

Definition read_approval_request (l : list (pystr * json)) : option ApprovalRequestPayload :=
  only_fields ["approval_id"; "command_id"; "kind"; "summary"; "details"; "expires_at"] l;;
  aid ← assoc_get "approval_id" l ≫= wire_uuid;
  cid ← assoc_get "command_id" l ≫= str_between 1 255;
  k ← assoc_get "kind" l ≫= literal ["command"; "file_change"; "permission"];
  s ← assoc_get "summary" l ≫= str_between 1 512;
  d ← assoc_get "details" l ≫= jdict;
  e ← assoc_get "expires_at" l ≫= wire_datetime;
  Some {| ar_approval_id := aid; ar_command_id := cid; ar_kind := k; ar_summary := s;
          ar_details := d; ar_expires_at := e |}.

Definition read_approval_decision (l : list (pystr * json)) : option ApprovalDecisionPayload :=
  only_fields ["approval_id"; "decision"; "decided_at"] l;;
  aid ← assoc_get "approval_id" l ≫= wire_uuid;
  d ← assoc_get "decision" l ≫= literal ["approve"; "deny"];
  t ← assoc_get "decided_at" l ≫= wire_datetime;
  Some {| ad_approval_id := aid; ad_decision := d; ad_decided_at := t |}.

(** [WIRE_PAYLOAD_MODELS[type].model_validate(payload)]. *)
Definition read_payload (t : EnvelopeType) (l : list (pystr * json)) : option wire_payload :=
  match t with
  | THello => PHello <$> read_hello l
  | THelloAck => PHelloAck <$> read_hello_ack l
  | THeartbeat =>
      only_fields ["status"] l;;
      _ ← assoc_get "status" l ≫= literal ["ok"];
      Some PHeartbeat
  | THeartbeatAck =>
      only_fields ["received_seq"] l;;
      PHeartbeatAck <$> (assoc_get "received_seq" l ≫= strict_int 0 MAX_SEQUENCE)
  | TCommand => PCommand <$> read_command l
  | TCommandAck => PCommandAck <$> read_command_ack l
  | TEvent => PEvent <$> read_event l
  | TApprovalRequest => PApprovalRequest <$> read_approval_request l
  | TApprovalDecision => PApprovalDecision <$> read_approval_decision l
  | TTokenRefresh => only_fields [] l;; Some PTokenRefresh
  | TError => PError <$> read_error l
  end.

Definition validate_envelope_payload (e : ControlEnvelope) : option wire_payload :=
  read_payload (en_type e) (en_payload e).

Definition is_handshake (t : EnvelopeType) : bool := py_in t [THello; THelloAck].

(** [ack: int | None]. *)
Definition optional_sequence (j : option json) : option (option Z) :=
  match j with
  | None => Some None
  | Some JNull => Some None
  | Some j => Some <$> strict_int 0 MAX_SEQUENCE j
  end.

Definition read_type (j : json) : option EnvelopeType :=
  match j with JStr s => envelope_type_of s | _ => None end.

(** [ControlEnvelope.model_validate]. *)
Definition read_envelope (j : json) : option ControlEnvelope :=
  l ← jdict j;
  require (within_bytes MAX_FRAME_BYTES j);;
  only_fields ["version"; "id"; "device_id"; "epoch"; "seq"; "ack"; "type"; "sent_at";
               "payload"] l;;
  v ← assoc_get "version" l;
  require (bool_decide (v = JInt PROTOCOL_VERSION));;
  i ← assoc_get "id" l ≫= wire_uuid;
  d ← assoc_get "device_id" l ≫= wire_uuid;
  e ← assoc_get "epoch" l ≫= str_between 16 128;
  s ← assoc_get "seq" l ≫= strict_int 0 MAX_SEQUENCE;
  a ← optional_sequence (assoc_get "ack" l);
  t ← assoc_get "type" l ≫= read_type;
  sent ← assoc_get "sent_at" l ≫= wire_datetime;
  p ← assoc_get "payload" l ≫= jdict;
  require (negb (is_handshake t && negb (s =? 0)));;
  require (negb (negb (is_handshake t) && (s =? 0)));;
  read_payload t p;;
  Some {| en_id := i; en_device_id := d; en_epoch := e; en_seq := s; en_ack := a;
          en_type := t; en_sent_at := sent; en_payload := p |}.

Definition require_device_outbound (e : ControlEnvelope) : option unit :=
  require (py_in (en_type e) DEVICE_OUTBOUND_TYPES).
End readers.

(** ** [_validate_json_shape]

    An explicit stack, last pushed first popped; the head of the list is the
    top.  [None] is acceptance, [Some msg] a [RealtimeProtocolError].  Every
    iteration counts a node, so [max_nodes + 1] iterations are enough. *)

Section shape.
Context (max_depth max_nodes max_string_chars : Z).

Definition NODE_LIMIT : pystr := "JSON payload exceeds the node limit".
Definition DEPTH_LIMIT : pystr := "JSON payload exceeds the nesting limit".
Definition STRING_LIMIT : pystr := "JSON string exceeds the character limit".
Definition KEY_LIMIT : pystr := "JSON object key exceeds the character limit".

Fixpoint shape_loop (fuel : nat) (stack : list (json * Z)) (nodes : Z) : option pystr :=
  match fuel with
  | O => Some NODE_LIMIT
  | S fuel =>
      match stack with
      | [] => None
      | (current, depth) :: stack =>
          let nodes := nodes + 1 in
          if max_nodes <? nodes then Some NODE_LIMIT
          else if max_depth <? depth then Some DEPTH_LIMIT
          else
            match current with
            | JStr s =>
                if max_string_chars <? py_len s then Some STRING_LIMIT
                else shape_loop fuel stack nodes
            | JObj l =>
                if existsb (λ kv, max_string_chars <? py_len kv.1) l then Some KEY_LIMIT
                else shape_loop fuel (reverse ((λ kv, (kv.2, depth + 1)) <$> l) ++ stack) nodes
            | JArr l =>
                shape_loop fuel (reverse ((λ v, (v, depth + 1)) <$> l) ++ stack) nodes
            | _ => shape_loop fuel stack nodes
            end
      end
  end.

Definition _validate_json_shape (value : json) : option pystr :=
  shape_loop (S (S (Z.to_nat max_nodes))) [(value, 1)] 0.

(** *** The recursive reference *)

Fixpoint node_count (v : json) : Z :=
  1 + match v with
      | JArr l => foldr Z.add 0 (map node_count l)
      | JObj l => foldr Z.add 0 (map (λ kv, node_count kv.2) l)
      | _ => 0
      end.

Fixpoint json_fits (depth : Z) (v : json) : bool :=
  (depth <=? max_depth)
  && match v with
     | JStr s => py_len s <=? max_string_chars
     | JArr l => forallb (json_fits (depth + 1)) l
     | JObj l =>
         forallb (λ kv, (py_len kv.1 <=? max_string_chars) && json_fits (depth + 1) kv.2) l
     | _ => true
     end.

Definition stack_nodes (stack : list (json * Z)) : Z :=
  foldr Z.add 0 (map (λ p, node_count p.1) stack).

Lemma sum_perm (l k : list Z) : l ≡ₚ k → foldr Z.add 0 l = foldr Z.add 0 k.
Proof. induction 1; simpl; lia. Qed.

Lemma sum_app (l k : list Z) : foldr Z.add 0 (l ++ k) = foldr Z.add 0 l + foldr Z.add 0 k.
Proof. induction l; simpl; lia. Qed.

Lemma node_count_pos v : 1 ≤ node_count v.
Proof.
  induction v using json_rect_forall; simpl; try lia.
  - assert (0 ≤ foldr Z.add 0 (map node_count l)); [|lia].
    induction H; simpl; lia.
  - assert (0 ≤ foldr Z.add 0 (map (λ kv, node_count kv.2) l)); [|lia].
    induction H; simpl; lia.
Qed.

Lemma stack_nodes_nonneg stack : 0 ≤ stack_nodes stack.
Proof.
  unfold stack_nodes. induction stack as [|[v d] stack IH]; simpl; [lia|].
  pose proof (node_count_pos v). simpl. lia.
Qed.

(** Pushing children keeps the count and the per-value checks. *)
Lemma push_children {A} (f : A → json) d (l : list A) stack :
  stack_nodes (reverse ((λ x, (f x, d)) <$> l) ++ stack)
    = foldr Z.add 0 (map (λ x, node_count (f x)) l) + stack_nodes stack
  ∧ forallb (λ p, json_fits p.2 p.1) (reverse ((λ x, (f x, d)) <$> l) ++ stack)
    = forallb (λ x, json_fits d (f x)) l && forallb (λ p, json_fits p.2 p.1) stack.
Proof.
  split.
  - unfold stack_nodes. rewrite map_app, sum_app. f_equal.
    rewrite <- (sum_perm (map (λ p, node_count p.1) ((λ x, (f x, d)) <$> l))).
    + f_equal. induction l as [|a l IHl]; simpl; [done|]. by f_equal.
    + apply Permutation_map. symmetry. apply reverse_Permutation.
  - rewrite forallb_app. f_equal. apply eq_bool_prop_intro. rewrite !forallb_True.
    rewrite reverse_Permutation. rewrite Forall_fmap. done.
Qed.

Lemma key_checks l d :
  forallb (λ kv : pystr * json, (py_len kv.1 <=? max_string_chars) && json_fits d kv.2) l
  = negb (existsb (λ kv, max_string_chars <? py_len kv.1) l)
    && forallb (λ kv, json_fits d kv.2) l.
Proof.
  induction l as [|[k v] l IH]; simpl; [done|]. rewrite IH.
  rewrite Z.leb_antisym. destruct (max_string_chars <? _); simpl; [done|].
  destruct (json_fits d v); simpl; [done|]. by rewrite andb_false_r.
Qed.

Lemma shape_loop_spec fuel stack nodes :
  (Z.to_nat (max_nodes - nodes) < fuel)%nat → nodes ≤ max_nodes →
  shape_loop fuel stack nodes = None ↔
    nodes + stack_nodes stack ≤ max_nodes ∧ forallb (λ p, json_fits p.2 p.1) stack = true.
Proof.
  revert stack nodes. induction fuel as [|fuel IH]; intros stack nodes Hf Hn; [lia|].
  destruct stack as [|[v d] stack]; simpl.
  { unfold stack_nodes. simpl. split; [intros _; split; [lia|done]|done]. }
  pose proof (node_count_pos v) as Hpos. pose proof (stack_nodes_nonneg stack) as Hnn.
  unfold stack_nodes at 1. simpl. fold (stack_nodes stack).
  destruct (max_nodes <? nodes + 1) eqn:E1; reflect_bools.
  { split; [done|]. lia. }
  destruct (max_depth <? d) eqn:E2; reflect_bools.
  { split; [done|]. intros [_ H]. destruct v; simpl in H; reflect_bools; lia. }
  assert (Hfuel : (Z.to_nat (max_nodes - (nodes + 1)) < fuel)%nat) by lia.
  assert (Hd : (d <=? max_depth) = true) by (apply Z.leb_le; lia).
  destruct v; simpl; rewrite ?Hd; simpl; try (rewrite IH by done; rewrite Z.add_assoc; done).
  - rewrite Z.leb_antisym. destruct (max_string_chars <? py_len s); simpl.
    + split; [done|]. by intros [_ ?].
    + rewrite IH by done. rewrite Z.add_assoc. done.
  - rewrite IH by done. destruct (push_children id (d + 1) l stack) as [Hc Hk].
    unfold id in Hc, Hk. rewrite Hc, Hk, !Z.add_assoc. done.
  - rewrite key_checks. destruct (existsb _ l); simpl.
    + split; [done|]. by intros [_ ?].
    + rewrite IH by done. destruct (push_children snd (d + 1) l stack) as [Hc Hk].
      rewrite Hc, Hk, !Z.add_assoc. done.
Qed.
End shape.

(** The iterative limit check on device frames accepts a value exactly when
    the recursive reference does: at most [max_nodes] nodes, nesting at most
    [max_depth], every string and object key at most [max_string_chars] long. *)
Theorem validate_json_shape_correct max_depth max_nodes max_string_chars v :
  0 ≤ max_nodes →
  _validate_json_shape max_depth max_nodes max_string_chars v = None ↔
    node_count v ≤ max_nodes ∧ json_fits max_depth max_string_chars 1 v = true.
Proof.
  intros Hn. unfold _validate_json_shape. rewrite shape_loop_spec by lia.
  unfold stack_nodes. simpl. rewrite andb_true_r. rewrite !Z.add_0_r. done.
Qed.

Lemma validate_json_shape_correct_witness :
  (0 ≤ 4 ∧ _validate_json_shape 2 4 3 (JArr [JStr "abc"; JObj []; JNull]) = None)
  ∧ node_count (JArr [JStr "abc"; JObj []; JNull]) ≤ 4.
Proof.
  split; [split; [lia|vm_compute; reflexivity]|].
  apply (validate_json_shape_correct 2 4 3); [lia|]. vm_compute. reflexivity.
Defined.
