(* ===== verification/Security.v ===== *)
(** * Credentials ([control_api/security.py])

    Digests of secrets, pairing codes and proofs, the canonical form of device
    keys, and the session cookie that seals the upstream access token.  HMAC,
    SHA-256, AES-GCM and Ed25519 are the platform's. *)

From stdpp Require Import base list.
From Stdlib Require Import NArith ZArith Lia.
From S2P Require Import Prelude Config Base64 Json Utf8 Models Storage World Testbed Wire.
Open Scope Z_scope.

Definition CONTROL_SESSION_DIGEST_PURPOSE : pystr := "control-session-v2".
Definition MAX_CONTROL_SESSION_COOKIE_VALUE_BYTES : Z := 3500.
Definition PAIRING_START_PROOF_DOMAIN : list N :=
  codepoints "sub2api-codex-control/pairing-start/v2" ++ [0%N].
Definition SESSION_CREDENTIAL_DOMAIN : list N :=
  codepoints "sub2api-codex-control/session-credential/v1" ++ [0%N].

Record SessionCredential := { sc_session_id : uuid; sc_access_token : pystr }.

Record CookieTokens := { ct_session_token : pystr; ct_csrf_token : pystr }.

(** [n.to_bytes(k, "big")] and back; [uuid.bytes] and [struct.pack(">I", n)]. *)
Fixpoint big_endian (k : nat) (n : N) : list N :=
  match k with
  | O => []
  | S k => big_endian k (n / 256) ++ [(n mod 256)%N]
  end.

Definition from_big_endian (l : list N) : N := foldl (λ acc b, acc * 256 + b)%N 0%N l.

(** The text before the first dot, and what follows it. *)
Fixpoint break_dot (l : list N) : list N * option (list N) :=
  match l with
  | [] => ([], None)
  | c :: l =>
      if (c =? 46)%N then ([], Some l)
      else let '(a, r) := break_dot l in (c :: a, r)
  end.

(** [text.split(".", 2)]. *)
Definition split_dot_2 (l : list N) : list (list N) :=
  match break_dot l with
  | (a, None) => [a]
  | (a, Some r) => match break_dot r with (b, None) => [a; b] | (b, Some c) => [a; b; c] end
  end.

(** [str.strip] and [str.removeprefix]. *)
Fixpoint lstrip (l : list N) : list N :=
  match l with c :: l' => if is_space c then lstrip l' else l | [] => [] end.

Definition py_strip (l : list N) : list N := reverse (lstrip (reverse (lstrip l))).

Fixpoint strip_prefix (prefix l : list N) : option (list N) :=
  match prefix, l with
  | [], _ => Some l
  | p :: prefix, c :: l => if (p =? c)%N then strip_prefix prefix l else None
  | _ :: _, [] => None
  end.

Definition removeprefix (prefix l : list N) : list N := default l (strip_prefix prefix l).

Section security.
Context {P : Platform}.

(** [value.encode("utf-8")]; a lone surrogate is a [UnicodeEncodeError]. *)
Definition encode (value : pystr) : outcome (list N) :=
  match utf8_encode value with
  | Some b => Ok b
  | None => Raise (ValueError "surrogates not allowed")
  end.

(** ** [TokenDigester] *)

Definition digest (purpose value : pystr) : pystr :=
  session_hmac_hex (purpose +++ PyStr [0%N] +++ value).

Definition matches (purpose value expected_digest : pystr) : bool :=
  bool_decide (digest purpose value = expected_digest).

Definition random_token (byte_count : nat) : tx pystr :=
  b ← fresh_bytes byte_count;
  mret (PyStr (_base64url_encode b)).

Definition pairing_secret_commitment (value : pystr) : outcome pystr :=
  match encode value with Ok b => Ok (sha256_hex b) | Raise e => Raise e end.

(** ** Pairing *)

Definition encode_digest (value : pystr) : outcome (list N) :=
  match encode value with Ok b => Ok (sha256 b) | Raise e => Raise e end.

Fixpoint encode_digests (values : list pystr) : outcome (list N) :=
  match values with
  | [] => Ok []
  | v :: values =>
      match encode_digest v with
      | Raise e => Raise e
      | Ok d => match encode_digests values with Ok l => Ok (d ++ l) | Raise e => Raise e end
      end
  end.

Definition pairing_start_proof (pairing_id : uuid) (created_at audience public_key code_commitment
    poll_token_commitment refresh_credential_commitment display_name connector_version
    codex_version : pystr) (workspace_roots : list pystr) : outcome (list N) :=
  match encode_digests [uuid_str pairing_id; created_at; audience; public_key; code_commitment;
          poll_token_commitment; refresh_credential_commitment; display_name; connector_version;
          codex_version] with
  | Raise e => Raise e
  | Ok fields =>
      match encode_digests workspace_roots with
      | Raise e => Raise e
      | Ok roots =>
          Ok (PAIRING_START_PROOF_DOMAIN ++ fields
              ++ big_endian 4 (N.of_nat (length workspace_roots)) ++ roots)
      end
  end.

(** The alphabet of [_PAIRING_CODE_PATTERN]. *)
Definition code_char (c : N) : bool :=
  bool_decide (c ∈ codepoints "23456789ABCDEFGHJKLMNPQRSTUVWXYZ").

Definition code_group (l : list N) : bool := (length l =? 4)%nat && forallb code_char l.

(** Four groups of four, separated by dashes. *)
Definition pairing_code_matches (code : pystr) : bool :=
  let l := codepoints code in
  let g i := take 4 (drop (5 * i) l) in
  (length l =? 19)%nat && code_group (g 0%nat) && code_group (g 1%nat) && code_group (g 2%nat)
  && code_group (g 3%nat)
  && forallb (λ i, bool_decide (l !! i = Some 45%N)) [4%nat; 9%nat; 14%nat].

Definition normalize_pairing_code (code : pystr) : outcome pystr :=
  if pairing_code_matches code
  then Ok (PyStr (filter (λ c, c ≠ 45%N) (codepoints code)))
  else Raise (ValueError "pairing code is not canonical").

Definition canonicalize_ed25519_public_key (value : pystr) : outcome pystr :=
  let encoded := removeprefix (codepoints "ed25519:") (py_strip (codepoints value)) in
  match urlsafe_b64decode (padded4 encoded) with
  | None => Raise (ValueError "public_key must be base64url-encoded Ed25519 key material")
  | Some raw =>
      if negb (length raw =? 32)%nat
      then Raise (ValueError "public_key must decode to exactly 32 bytes")
      else Ok (PyStr (_base64url_encode raw))
  end.

(** ** [SessionCredentialProtector] *)

Definition seal (session_id : uuid) (access_token : pystr) : tx pystr :=
  handle ← fresh_bytes (Z.to_nat (session_token_bytes settings));
  nonce ← fresh_bytes 12;
  text ← of_outcome (encode access_token);
  let ciphertext := aead_encrypt nonce (big_endian 16 session_id ++ text)
                      (SESSION_CREDENTIAL_DOMAIN ++ handle) in
  let token := codepoints "v1." ++ _base64url_encode handle ++ [46%N]
               ++ _base64url_encode (nonce ++ ciphertext) in
  guard_exn (MAX_CONTROL_SESSION_COOKIE_VALUE_BYTES <? Z.of_nat (length token))
    SessionCredentialTooLarge;;
  mret (PyStr token).

(** The body of [unseal]'s [try]; [None] is its [except] clause too. *)
Definition open_token (token : list N) : option SessionCredential :=
  match split_dot_2 token with
  | [version; encoded_handle; encoded_payload] =>
      if negb (bool_decide (version = codepoints "v1")) then None else
      handle ← _base64url_decode encoded_handle;
      payload ← _base64url_decode encoded_payload;
      if negb (Z.of_nat (length handle) =? session_token_bytes settings)
         || (length payload <? 12 + 16 + 16)%nat then None else
      plaintext ← aead_decrypt (take 12 payload) (drop 12 payload)
                    (SESSION_CREDENTIAL_DOMAIN ++ handle);
      if (length plaintext <=? 16)%nat then None else
      access_token ← utf8_decode (drop 16 plaintext);
      match access_token with
      | [] => None
      | _ => Some {| sc_session_id := from_big_endian (take 16 plaintext);
                     sc_access_token := PyStr access_token |}
      end
  | _ => None
  end.

Definition unseal (token : pystr) : outcome (option SessionCredential) :=
  match encode token with
  | Raise e => Raise e
  | Ok b =>
      if MAX_CONTROL_SESSION_COOKIE_VALUE_BYTES <? Z.of_nat (length b) then Ok None
      else Ok (open_token (codepoints token))
  end.
End security.

(** ** Canonical keys *)

Lemma below_urlsafe (Q : N → Prop) :
  Forall Q ((λ v, to_urlsafe (b64_char (N.of_nat v))) <$> seq 0 64) →
  ∀ c, urlsafe_char c → Q c.
Proof.
  intros H c (v & Hv & ->). rewrite Forall_forall in H. apply H, list_elem_of_fmap.
  exists (N.to_nat v). rewrite N2Nat.id. split; [done|]. apply elem_of_seq. lia.
Qed.

Lemma urlsafe_char_plain c : urlsafe_char c → is_space c = false ∧ c ≠ 58%N ∧ c ≠ 46%N ∧ (c < 128)%N.
Proof. revert c. apply below_urlsafe. repeat constructor; vm_compute; congruence. Qed.

Lemma lstrip_plain l : Forall (λ c, is_space c = false) l → lstrip l = l.
Proof. intros H. destruct H as [|c l Hc _]; [done|]. simpl. by rewrite Hc. Qed.

Lemma py_strip_plain l : Forall (λ c, is_space c = false) l → py_strip l = l.
Proof.
  intros H. unfold py_strip. rewrite (lstrip_plain l) by done.
  rewrite lstrip_plain by (by apply Forall_reverse). apply reverse_involutive.
Qed.

Lemma strip_prefix_In prefix l r c : strip_prefix prefix l = Some r → c ∈ prefix → c ∈ l.
Proof.
  revert l. induction prefix as [|p prefix IH]; intros l; simpl.
  { intros _ H. by apply not_elem_of_nil in H. }
  destruct l as [|d l]; [done|]. destruct (N.eqb_spec p d) as [->|]; [|done].
  intros H [->|Hc]%elem_of_cons; [by left|right; eauto].
Qed.

Lemma removeprefix_plain prefix l c : c ∈ prefix → c ∉ l → removeprefix prefix l = l.
Proof.
  intros Hc Hl. unfold removeprefix. destruct (strip_prefix prefix l) as [r|] eqn:E; [|done].
  destruct Hl. by eapply strip_prefix_In.
Qed.

Section keys.
Context {P : Platform}.

(** The raw bytes behind an accepted key. *)
Lemma canonical_key_raw value key :
  canonicalize_ed25519_public_key value = Ok key →
  ∃ raw, Forall is_byte raw ∧ length raw = 32%nat ∧ key = PyStr (_base64url_encode raw).
Proof.
  unfold canonicalize_ed25519_public_key. destruct (urlsafe_b64decode _) as [raw|] eqn:E; [|done].
  destruct (Nat.eqb_spec (length raw) 32); simpl; [|done]. intros [= <-].
  exists raw. split_and!; [|done|done]. by eapply urlsafe_b64decode_bytes.
Qed.

Lemma canonicalize_encoded raw :
  Forall is_byte raw → length raw = 32%nat →
  canonicalize_ed25519_public_key (PyStr (_base64url_encode raw)) = Ok (PyStr (_base64url_encode raw)).
Proof.
  intros Hr Hn. unfold canonicalize_ed25519_public_key. cbn [codepoints].
  pose proof (base64url_encode_chars raw Hr) as Hc.
  rewrite py_strip_plain.
  2: { eapply Forall_impl; [exact Hc|]. intros c H. by apply urlsafe_char_plain. }
  rewrite (removeprefix_plain _ _ 58%N).
  - by rewrite urlsafe_round_trip, Hn.
  - vm_compute. repeat constructor.
  - intros H. rewrite Forall_forall in Hc. by destruct (urlsafe_char_plain _ (Hc _ H)) as (_ & ? & _).
Qed.

(** The canonical form of a key is a normal form: canonicalizing it again
    changes nothing, and a key has one canonical form, whatever its spelling. *)
Lemma canonical_key_idempotent value key :
  canonicalize_ed25519_public_key value = Ok key →
  canonicalize_ed25519_public_key key = Ok key.
Proof. intros (raw & Hr & Hn & ->)%canonical_key_raw. by apply canonicalize_encoded. Qed.
End keys.

(** ** The session cookie *)

Lemma break_dot_plain l r : 46%N ∉ l → break_dot (l ++ 46%N :: r) = (l, Some r).
Proof.
  induction l as [|c l IH]; [done|]. intros [Hc Hl]%not_elem_of_cons. simpl.
  rewrite (proj2 (N.eqb_neq c 46)) by congruence. by rewrite IH.
Qed.

Lemma break_dot_none l : 46%N ∉ l → break_dot l = (l, None).
Proof.
  induction l as [|c l IH]; [done|]. intros [Hc Hl]%not_elem_of_cons. simpl.
  rewrite (proj2 (N.eqb_neq c 46)) by congruence. by rewrite IH.
Qed.

Lemma split_dot_2_join a b c : 46%N ∉ a → 46%N ∉ b →
  split_dot_2 (a ++ 46%N :: b ++ 46%N :: c) = [a; b; c].
Proof. intros Ha Hb. unfold split_dot_2. by rewrite !break_dot_plain. Qed.

Lemma big_endian_length k n : length (big_endian k n) = k.
Proof. revert n. induction k as [|k IH]; intros n; simpl; [done|]. rewrite length_app, IH. simpl. lia. Qed.

Lemma big_endian_bytes k n : Forall is_byte (big_endian k n).
Proof.
  revert n. induction k as [|k IH]; intros n; simpl; [constructor|].
  apply Forall_app. split; [done|]. constructor; [|constructor]. by apply N.mod_lt.
Qed.

Lemma from_big_endian_inv k n : (n < 256 ^ N.of_nat k)%N → from_big_endian (big_endian k n) = n.
Proof.
  unfold from_big_endian. revert n. induction k as [|k IH]; intros n Hn; simpl.
  { simpl in Hn. lia. }
  rewrite Nat2N.inj_succ, N.pow_succ_r' in Hn. rewrite foldl_app. simpl.
  rewrite IH by (apply N.Div0.div_lt_upper_bound; lia).
  pose proof (N.div_mod' n 256). lia.
Qed.

Lemma dot_not_urlsafe l : Forall urlsafe_char l → 46%N ∉ l.
Proof.
  rewrite Forall_forall. intros H Hd. by destruct (urlsafe_char_plain _ (H _ Hd)) as (_ & _ & ? & _).
Qed.

(** What the protector relies on: AES-GCM with its 16-byte tag decrypts what it
    encrypted, and random bytes are as many bytes as were asked for. *)
Class SealingLaws (P : Platform) : Prop := {
  sl_decrypt nonce text aad :
    Forall is_byte text → aead_decrypt nonce (aead_encrypt nonce text aad) aad = Some text;
  sl_bytes nonce text aad : Forall is_byte text → Forall is_byte (aead_encrypt nonce text aad);
  sl_length nonce text aad : length (aead_encrypt nonce text aad) = (length text + 16)%nat;
  sl_random n k : length (token_bytes n k) = k ∧ Forall is_byte (token_bytes n k);
}.

Lemma urlsafe_ascii l : Forall urlsafe_char l → Forall (λ c, (c < 128)%N) l.
Proof. intros H. eapply Forall_impl; [exact H|]. intros c Hc. by apply urlsafe_char_plain. Qed.

Lemma sealed_ascii handle payload :
  Forall is_byte handle → Forall is_byte payload →
  Forall (λ c, (c < 128)%N) (codepoints (PyStr (codepoints "v1." ++ _base64url_encode handle
    ++ [46%N] ++ _base64url_encode payload))).
Proof.
  intros Hh Hp. cbn [codepoints]. rewrite !Forall_app. split_and!.
  - repeat constructor.
  - by apply urlsafe_ascii, base64url_encode_chars.
  - by repeat constructor.
  - by apply urlsafe_ascii, base64url_encode_chars.
Qed.

Section cookies.
Context {P : Platform} `{!SealingLaws P}.

Lemma open_sealed handle nonce session_id text :
  Forall is_byte handle → Z.of_nat (length handle) = session_token_bytes settings →
  Forall is_byte nonce → length nonce = 12%nat → (session_id < 2 ^ 128)%N →
  Forall (λ c, (c < 1114112)%N) (codepoints text) → codepoints text ≠ [] →
  ∀ b, utf8_encode text = Some b →
  open_token (codepoints "v1." ++ _base64url_encode handle ++ [46%N]
    ++ _base64url_encode (nonce ++ aead_encrypt nonce (big_endian 16 session_id ++ b)
                                     (SESSION_CREDENTIAL_DOMAIN ++ handle)))
  = Some {| sc_session_id := session_id; sc_access_token := text |}.
Proof.
  intros Hh Hhl Hn Hnl Hid Ht Hne b Hb.
  pose proof (utf8_encode_bytes _ _ Ht Hb) as Hbb.
  assert (Hplain : Forall is_byte (big_endian 16 session_id ++ b)).
  { apply Forall_app. split; [apply big_endian_bytes|done]. }
  unfold open_token. change (codepoints "v1.") with (codepoints "v1" ++ [46%N]).
  rewrite <- app_assoc. cbn [app]. rewrite split_dot_2_join.
  2: { change (codepoints "v1") with [118; 49]%N. rewrite !not_elem_of_cons.
       split_and!; [done..|apply not_elem_of_nil]. }
  2: { by apply dot_not_urlsafe, base64url_encode_chars. }
  cbv beta iota. rewrite bool_decide_true by reflexivity. cbn [negb].
  rewrite (base64url_round_trip handle) by done. cbn [mbind option_bind].
  rewrite base64url_round_trip by (apply Forall_app; split; [done|by apply sl_bytes]).
  cbn [mbind option_bind].
  rewrite length_app, sl_length, length_app, big_endian_length, Hnl, Hhl, Z.eqb_refl.
  rewrite take_app_length', drop_app_length' by done.
  destruct (Nat.ltb_spec (12 + (16 + length b + 16)) (12 + 16 + 16)); [lia|]. cbn [negb orb].
  rewrite sl_decrypt by done. cbn [mbind option_bind].
  rewrite length_app, big_endian_length, take_app_length', drop_app_length'
    by (by rewrite big_endian_length).
  rewrite (utf8_round_trip text b) by done. cbn [mbind option_bind].
  rewrite from_big_endian_inv by exact Hid.
  destruct (Nat.leb_spec (16 + length b) 16) as [Hl|Hl].
  { destruct b; [|simpl in Hl; lia]. pose proof (utf8_round_trip text [] Ht Hb) as E.
    injection E as E. by rewrite <- E in Hne. }
  destruct (codepoints text) as [|c l] eqn:E; [done|]. rewrite <- E. by destruct text.
Qed.

Lemma seal_opens session_id access_token w token w' :
  0 ≤ session_token_bytes settings → (session_id < 2 ^ 128)%N →
  Forall (λ c, (c < 1114112)%N) (codepoints access_token) → codepoints access_token ≠ [] →
  seal session_id access_token w = (Ok token, w') →
  unseal token = Ok (Some {| sc_session_id := session_id; sc_access_token := access_token |}).
Proof.
  intros Hst Hid Ht Hne. unfold seal, mbind, tx_bind, fresh_bytes. cbv beta iota zeta.
  destruct (sl_random (ticks w) (Z.to_nat (session_token_bytes settings))) as [Hl1 Hb1].
  revert Hl1 Hb1. generalize (token_bytes (ticks w) (Z.to_nat (session_token_bytes settings))).
  intros handle Hl1 Hb1.
  match goal with |- context [token_bytes ?n 12] => destruct (sl_random n 12) as [Hl2 Hb2];
    revert Hl2 Hb2; generalize (token_bytes n 12) end.
  intros nonce Hl2 Hb2.
  unfold of_outcome, encode. destruct (utf8_encode access_token) as [b|] eqn:Hb; [|done].
  unfold guard_exn. set (sealed := codepoints "v1." ++ _).
  destruct (_ <? Z.of_nat (length sealed)) eqn:Hlen; [done|]. intros [= <- _].
  assert (Hplain : Forall is_byte (big_endian 16 session_id ++ b)).
  { apply Forall_app. split; [apply big_endian_bytes|by eapply utf8_encode_bytes]. }
  unfold unseal, encode. rewrite utf8_encode_ascii.
  - change (codepoints (PyStr sealed)) with sealed. rewrite Hlen. f_equal. apply open_sealed; try done; [by rewrite Hl1; lia].
  - apply sealed_ascii; [done|]. apply Forall_app. split; [done|by apply sl_bytes].
Qed.
(** A session cookie carries its session: whatever [seal] returns, [unseal]
    opens to the same session id and access token. *)
Theorem session_credential_round_trip session_id access_token w token w' :
  0 ≤ session_token_bytes settings → (session_id < 2 ^ 128)%N →
  Forall (λ c, (c < 1114112)%N) (codepoints access_token) → codepoints access_token ≠ [] →
  seal session_id access_token w = (Ok token, w') →
  unseal token = Ok (Some {| sc_session_id := session_id; sc_access_token := access_token |}).
Proof. apply seal_opens. Qed.
End cookies.

(** The testbed's sealing satisfies the laws. *)
Lemma be_bytes_length k n : length (be_bytes k n) = k.
Proof. revert n. induction k as [|k IH]; intros n; simpl; [done|]. rewrite length_app, IH. simpl. lia. Qed.

Lemma be_bytes_are_bytes k n : Forall is_byte (be_bytes k n).
Proof.
  revert n. induction k as [|k IH]; intros n; simpl; [constructor|].
  apply Forall_app. split; [done|]. constructor; [|constructor]. unfold is_byte.
  pose proof (Z.mod_pos_bound n 256). lia.
Qed.

Lemma sealing_tag_length nonce text aad : length (sealing_tag nonce text aad) = 16%nat.
Proof. unfold sealing_tag, checksum_bytes. by rewrite length_take, be_bytes_length. Qed.

#[export] Instance testbed_sealing : SealingLaws testbed.
Proof.
  split; cbn [aead_encrypt aead_decrypt token_bytes testbed].
  - intros nonce text aad _. unfold toy_decrypt.
    rewrite length_app, sealing_tag_length, Nat.add_sub, take_app_length.
    by rewrite bool_decide_true.
  - intros nonce text aad Ht. apply Forall_app. split; [done|].
    apply Forall_take, be_bytes_are_bytes.
  - intros nonce text aad. by rewrite length_app, sealing_tag_length.
  - intros n k. split; [apply be_bytes_length|apply be_bytes_are_bytes].
Qed.

Definition sample_seal : outcome pystr := (seal 5%N "upstream-token" (start_world empty_database)).1.

Definition sample_cookie : pystr := match sample_seal with Ok t => t | Raise _ => "" end.

Lemma session_credential_round_trip_witness :
  py_len sample_cookie = 125
  ∧ unseal sample_cookie
    = Ok (Some {| sc_session_id := 5%N; sc_access_token := "upstream-token" |}).
Proof.
  split; [vm_compute; reflexivity|].
  apply (session_credential_round_trip 5%N "upstream-token" (start_world empty_database)
    sample_cookie (seal 5%N "upstream-token" (start_world empty_database)).2).
  - vm_compute. congruence.
  - reflexivity.
  - repeat constructor.
  - discriminate.
  - etrans; [apply surjective_pairing|]. apply (f_equal (λ r, (r, _))). vm_compute. reflexivity.
Defined.
