(* ===== verification/Budget.v ===== *)
(** * Command size budgets ([control_api/command_budget.py])

    A command is admitted only if its text, its parameters, the parameters as
    the Connector will project them, and a worst-case envelope around them fit
    the wire limits.  The theorems relate the admitted worst case to the frame
    that is actually sent. *)

From stdpp Require Import base list gmap.
From Stdlib Require Import NArith ZArith Lia.
From S2P Require Import Prelude Config Json Paths Models Storage World Wire.
Open Scope Z_scope.

Definition MAX_DEVICE_ENVELOPE_BYTES : Z := MAX_FRAME_BYTES.
Definition MAX_COMMAND_PARAMS_BYTES : Z := MAX_ENSURE_ASCII_PARAMS_BYTES.
Definition MAX_PROJECTED_COMMAND_PARAMS_BYTES : Z := MAX_ENSURE_ASCII_PROJECTED_BYTES.
Definition MAX_TURN_TEXT_ENCODED_BYTES : Z := MAX_ENSURE_ASCII_TEXT_BYTES.
Definition MAX_TURN_TEXT_CODE_POINTS : Z := MAX_TEXT_CODE_POINTS.

Definition _UUID_PLACEHOLDER : pystr := "ffffffff-ffff-ffff-ffff-ffffffffffff".
Definition _TIMESTAMP_PLACEHOLDER : pystr := "9999-12-31T23:59:59.999999Z".

Definition NOT_SERIALIZABLE : exn := ValueError "wire value is not JSON serializable".

Definition compact_ensure_ascii_size (v : json) : outcome Z :=
  match ensure_ascii_json_byte_length v with Some n => Ok n | None => Raise NOT_SERIALIZABLE end.

(** [if size(v) > limit: raise e]. *)
Definition check_size (v : json) (limit : Z) (e : exn) (k : outcome unit) : outcome unit :=
  match compact_ensure_ascii_size v with
  | Ok n => if limit <? n then Raise e else k
  | Raise e => Raise e
  end.

Definition validate_turn_text_budget (text : pystr) : outcome unit :=
  if MAX_TURN_TEXT_CODE_POINTS <? py_len text then
    Raise (CommandPayloadTooLarge "turn text exceeds the Unicode code point limit")
  else if MAX_TURN_TEXT_ENCODED_BYTES <? ensure_ascii_string_content_byte_length text then
    Raise (CommandPayloadTooLarge "turn text exceeds the compact ensure_ascii byte limit")
  else Ok tt.

Definition sandbox_policy : json :=
  JObj [("type", JStr "workspaceWrite"); ("writableRoots", JArr []);
        ("networkAccess", JBool false); ("excludeSlashTmp", JBool true);
        ("excludeTmpdirEnvVar", JBool true)].

Definition projected_command_params (method : pystr) (params : list (pystr * json))
    (workspace_roots : list pystr) : list (pystr * json) :=
  if py_in method ["thread/start"; "thread/resume"] then
    assoc_set "approvalsReviewer" (JStr "user")
      (assoc_set "approvalPolicy" (JStr "on-request")
        (assoc_set "sandbox" (JStr "workspace-write") params))
  else if bool_decide (method = "thread/list") then
    match assoc_get "cwd" params with
    | None | Some JNull => assoc_set "cwd" (JArr (JStr <$> workspace_roots)) params
    | Some (JStr cwd) => assoc_set "cwd" (JArr [JStr cwd]) params
    | _ => params
    end
  else if bool_decide (method = "thread/read")
          && bool_decide (assoc_get "includeTurns" params = None) then
    assoc_set "includeTurns" (JBool false) params
  else if py_in method ["turn/start"; "turn/steer"] then
    let projected :=
      match assoc_get "input" params with
      | Some (JArr [JObj item]) =>
          if bool_decide (assoc_get "type" item = Some (JStr "text")) then
            assoc_set "input" (JArr [JObj (assoc_set "text_elements" (JArr []) item)]) params
          else params
      | _ => params
      end in
    if bool_decide (method = "turn/start") then
      assoc_set "approvalsReviewer" (JStr "user")
        (assoc_set "approvalPolicy" (JStr "on-request")
          (assoc_set "sandboxPolicy" sandbox_policy projected))
    else projected
  else params.

(** The shape of a command frame, shared by the measured worst case and by the
    frame [_persist_envelope_locked] writes. *)
Definition command_envelope (id device_id epoch : pystr) (seq ack : Z) (sent_at command_id
    idempotency_key method : pystr) (params : list (pystr * json)) (deadline_at : pystr) : json :=
  JObj [("version", JInt 1); ("id", JStr id); ("device_id", JStr device_id);
        ("epoch", JStr epoch); ("seq", JInt seq); ("ack", JInt ack); ("type", JStr "command");
        ("sent_at", JStr sent_at);
        ("payload", JObj [("command_id", JStr command_id);
                          ("idempotency_key", JStr idempotency_key); ("method", JStr method);
                          ("params", JObj params); ("deadline_at", JStr deadline_at)])].

Definition turn_text (params : list (pystr * json)) : option pystr :=
  match assoc_get "input" params with
  | Some (JArr [JObj item]) =>
      match assoc_get "text" item with Some (JStr text) => Some text | _ => None end
  | _ => None
  end.

Definition validate_command_budget (device_id : uuid) (epoch : pystr)
    (workspace_roots : list pystr) (method : pystr) (params : list (pystr * json))
    (idempotency_key : pystr) (max_envelope_bytes : Z) : outcome unit :=
  let text_check :=
    if py_in method ["turn/start"; "turn/steer"] then
      match turn_text params with Some text => validate_turn_text_budget text | None => Ok tt end
    else Ok tt in
  match text_check with
  | Raise e => Raise e
  | Ok _ =>
      check_size (JObj params) MAX_COMMAND_PARAMS_BYTES
        (CommandPayloadTooLarge "command params exceed the compact ensure_ascii byte limit")
      (let projected := JObj (projected_command_params method params workspace_roots) in
       let too_large := CommandPayloadTooLarge
         "projected command params exceed the compact ensure_ascii byte limit" in
       check_size projected MAX_PROJECTED_COMMAND_PARAMS_BYTES too_large
         (match connector_compact_json_size projected with
          | None => Raise NOT_SERIALIZABLE
          | Some n =>
              if MAX_PROJECTED_COMMAND_PARAMS_BYTES <? n then Raise too_large
              else check_size
                (command_envelope _UUID_PLACEHOLDER (uuid_str device_id) epoch MAX_SEQUENCE
                   MAX_SEQUENCE _TIMESTAMP_PLACEHOLDER _UUID_PLACEHOLDER idempotency_key method
                   params _TIMESTAMP_PLACEHOLDER)
                (Z.min max_envelope_bytes MAX_DEVICE_ENVELOPE_BYTES)
                (CommandPayloadTooLarge
                   "command envelope exceeds the compact ensure_ascii byte limit")
                (Ok tt)
          end))
  end.

(** ** Sizes of encoded values *)

Definition size (v : json) : Z := Z.of_nat (length (dumps escape_ascii v)).

Definition members (l : list (pystr * json)) : Z :=
  foldr (λ kv n, size (JStr kv.1) + 1 + size kv.2 + n) 0 l.

Lemma join_comma_length parts :
  Z.of_nat (length (join_comma parts)) =
    foldr (λ p n, Z.of_nat (length p) + n) 0 parts
    + Z.max 0 (Z.of_nat (length parts) - 1).
Proof.
  induction parts as [|p [|q parts] IH]; [done|simpl; lia|].
  change (join_comma (p :: q :: parts)) with (p ++ 44%N :: join_comma (q :: parts)).
  rewrite length_app. change (length (44%N :: ?x)) with (S (length x)).
  rewrite Nat2Z.inj_add, Nat2Z.inj_succ, IH. simpl. lia.
Qed.

Lemma size_obj l : size (JObj l) = 2 + members l + Z.max 0 (Z.of_nat (length l) - 1).
Proof.
  unfold size at 1.
  change (dumps escape_ascii (JObj l)) with (123%N :: join_comma
    (map (λ kv, dumps_str escape_ascii kv.1 ++ 58%N :: dumps escape_ascii kv.2) l) ++ [125%N]).
  rewrite length_cons, length_app, Nat2Z.inj_succ, Nat2Z.inj_add.
  rewrite join_comma_length, length_map. change (length [125%N]) with 1%nat.
  assert (foldr (λ (p : list N) n, Z.of_nat (length p) + n) 0
    (map (λ kv, dumps_str escape_ascii kv.1 ++ 58%N :: dumps escape_ascii kv.2) l) = members l)
    as ->; [|lia].
  unfold members. induction l as [|[k v] l IH]; [done|]. cbn [map foldr]. rewrite IH.
  rewrite length_app. unfold size. simpl. lia.
Qed.

(** A text the encoder copies: printable ASCII without quote or backslash. *)
Definition copied (c : N) : bool :=
  ((32 <=? c) && (c <=? 126) && negb (c =? 34) && negb (c =? 92))%N.

Lemma escape_copied c : copied c = true → escape_ascii c = [c].
Proof.
  unfold copied, escape_ascii, short_escape. intros H. reflect_bools.
  repeat match goal with
  | H : (_ <=? _)%N = true |- _ => apply N.leb_le in H
  | H : (_ =? _)%N = false |- _ => apply N.eqb_neq in H
  end.
  repeat match goal with
  | |- context [(c =? ?k)%N] => destruct (N.eqb_spec c k); [lia|]
  end.
  destruct (N.leb_spec 32 c); [|lia]. destruct (N.leb_spec c 126); [done|lia].
Qed.

Lemma size_copied s : forallb copied (codepoints s) = true → size (JStr s) = py_len s + 2.
Proof.
  intros H. unfold size, py_len. simpl. rewrite length_app. simpl.
  assert (concat (escape_ascii <$> codepoints s) = codepoints s) as ->; [|lia].
  induction (codepoints s) as [|c l IH]; [done|]. simpl in H. reflect_bools. simpl.
  rewrite escape_copied by done. simpl. f_equal. auto.
Qed.

Lemma hex_digit_copied z : copied (hex_digit (z mod 16)) = true.
Proof.
  unfold copied, hex_digit. pose proof (Z.mod_pos_bound z 16 eq_refl) as Hb.
  set (d := z mod 16) in *. clearbody d.
  assert (d = 0 ∨ d = 1 ∨ d = 2 ∨ d = 3 ∨ d = 4 ∨ d = 5 ∨ d = 6 ∨ d = 7 ∨ d = 8 ∨ d = 9
    ∨ d = 10 ∨ d = 11 ∨ d = 12 ∨ d = 13 ∨ d = 14 ∨ d = 15) as H by lia.
  repeat destruct H as [->|H]; try reflexivity. by subst.
Qed.

Lemma digit_copied z : copied (digit (z mod 10)) = true.
Proof.
  unfold copied, digit. pose proof (Z.mod_pos_bound z 10 eq_refl) as Hb.
  set (d := z mod 10) in *. clearbody d.
  assert (d = 0 ∨ d = 1 ∨ d = 2 ∨ d = 3 ∨ d = 4 ∨ d = 5 ∨ d = 6 ∨ d = 7 ∨ d = 8 ∨ d = 9)
    as H by lia.
  repeat destruct H as [->|H]; try reflexivity. by subst.
Qed.

Lemma hex_padded_spec k n : length (hex_padded k n) = k ∧ forallb copied (hex_padded k n) = true.
Proof.
  revert n. induction k as [|k IH]; intros n; [done|]. simpl. destruct (IH (n / 16)) as [Hl Hc].
  rewrite length_app, Hl, forallb_app, Hc. simpl. rewrite hex_digit_copied. split; [lia|done].
Qed.

Lemma padded_spec k n : length (padded k n) = k ∧ forallb copied (padded k n) = true.
Proof.
  revert n. induction k as [|k IH]; intros n; [done|]. simpl. destruct (IH (n / 10)) as [Hl Hc].
  rewrite length_app, Hl, forallb_app, Hc. simpl. rewrite digit_copied. split; [lia|done].
Qed.

Lemma forallb_take {A} (f : A → bool) n l : forallb f l = true → forallb f (take n l) = true.
Proof.
  intros H. rewrite <- (take_drop n l), forallb_app in H. by apply andb_true_iff in H as [? _].
Qed.

Lemma forallb_drop {A} (f : A → bool) n l : forallb f l = true → forallb f (drop n l) = true.
Proof.
  intros H. rewrite <- (take_drop n l), forallb_app in H. by apply andb_true_iff in H as [_ ?].
Qed.

Lemma size_uuid u : size (JStr (uuid_str u)) = 38.
Proof.
  destruct (hex_padded_spec 32 (Z.of_N u)) as [Hl Hc]. rewrite size_copied.
  - unfold py_len, uuid_str. cbn [codepoints].
    repeat rewrite length_app || rewrite length_take || rewrite length_drop.
    rewrite Hl. done.
  - unfold uuid_str. cbn [codepoints]. rewrite !forallb_app.
    rewrite !forallb_take, !forallb_drop by (rewrite ?forallb_drop; done). done.
Qed.

Lemma size_iso t : size (JStr (iso t)) ≤ 29.
Proof.
  unfold iso. destruct (civil_of_days _) as [[y m] d]. cbv zeta.
  set (s := t mod day_micros / 1000000). set (f := (t mod day_micros) mod 1000000).
  rewrite size_copied.
  - unfold py_len. cbn [codepoints]. rewrite !length_app.
    repeat match goal with |- context [length (padded ?k ?n)] =>
      rewrite (proj1 (padded_spec k n)) end.
    destruct (f =? 0); simpl; lia.
  - cbn [codepoints]. rewrite !forallb_app. rewrite !(proj2 (padded_spec _ _)).
    destruct (f =? 0); [done|]. change (46%N :: padded 6 f) with ([46%N] ++ padded 6 f).
    rewrite forallb_app, (proj2 (padded_spec _ _)). done.
Qed.

Lemma dec_digits_length fuel n acc (k : nat) :
  0 ≤ n < 10 ^ Z.of_nat k → (1 ≤ k)%nat →
  (length (dec_digits fuel n acc) ≤ k + length acc)%nat.
Proof.
  revert n acc k. induction fuel as [|fuel IH]; intros n acc k Hn Hk; cbn [dec_digits]; [lia|].
  destruct (n / 10 =? 0) eqn:E; reflect_bools; [simpl; lia|].
  destruct k as [|[|k]]; [lia| |].
  - exfalso. apply E. apply Z.div_small. lia.
  - etrans; [apply (IH _ _ (S k))|simpl; lia]; [|lia].
    rewrite Nat2Z.inj_succ, Z.pow_succ_r in Hn by lia.
    split; [apply Z.div_pos; lia|apply Z.div_lt_upper_bound; lia].
Qed.

Lemma size_sequence z : 0 ≤ z ≤ MAX_SEQUENCE → size (JInt z) ≤ 19.
Proof.
  intros Hz. unfold size. cbn [dumps]. unfold py_str_int. cbv zeta.
  destruct (z <? 0) eqn:E; reflect_bools; [lia|]. rewrite Z.abs_eq by lia.
  pose proof (dec_digits_length (S (Z.to_nat (Z.log2 z))) z [] 19) as H.
  change (10 ^ Z.of_nat 19) with 10000000000000000000 in H. unfold MAX_SEQUENCE in Hz.
  specialize (H ltac:(lia) ltac:(lia)). change (length (@nil N)) with 0%nat in H. lia.
Qed.

(** Everything in a command frame but its variable parts. *)
Definition FRAME_OVERHEAD : Z := 163.

Lemma command_envelope_size id device_id epoch seq ack sent_at command_id key method params
    deadline_at :
  size (command_envelope id device_id epoch seq ack sent_at command_id key method params
          deadline_at) =
    FRAME_OVERHEAD + size (JStr id) + size (JStr device_id) + size (JStr epoch) + size (JInt seq)
    + size (JInt ack) + size (JStr sent_at) + size (JStr command_id) + size (JStr key)
    + size (JStr method) + size (JObj params) + size (JStr deadline_at).
Proof.
  unfold command_envelope. rewrite (size_obj [_; _; _; _; _; _; _; _; _]).
  unfold members. cbn [foldr fst snd].
  rewrite (size_obj [_; _; _; _; _]). unfold members. cbn [foldr fst snd length].
  repeat match goal with
  | |- context [size (JStr (PyStr ?l))] =>
      let n := eval vm_compute in (size (JStr (PyStr l))) in
      change (size (JStr (PyStr l))) with n
  end.
  change (size (JInt 1)) with 1. unfold FRAME_OVERHEAD. lia.
Qed.

(** What admission establishes. *)
Lemma check_size_ok v limit e k :
  check_size v limit e k = Ok tt → all_finite v = true ∧ size v ≤ limit ∧ k = Ok tt.
Proof.
  unfold check_size, compact_ensure_ascii_size, ensure_ascii_json_byte_length, size.
  destruct (all_finite v); [|done]. destruct (limit <? _) eqn:E; [done|]. reflect_bools. done.
Qed.

Lemma validate_command_budget_ok device_id epoch roots method params key limit :
  validate_command_budget device_id epoch roots method params key limit = Ok tt →
  size (JObj params) ≤ MAX_COMMAND_PARAMS_BYTES
  ∧ size (command_envelope _UUID_PLACEHOLDER (uuid_str device_id) epoch MAX_SEQUENCE
           MAX_SEQUENCE _TIMESTAMP_PLACEHOLDER _UUID_PLACEHOLDER key method params
           _TIMESTAMP_PLACEHOLDER) ≤ Z.min limit MAX_DEVICE_ENVELOPE_BYTES.
Proof.
  unfold validate_command_budget. cbv zeta. intros H.
  match type of H with context [match ?x with Ok _ => _ | Raise _ => _ end] => destruct x end;
    [|done].
  apply check_size_ok in H as (_ & Hp & H). apply check_size_ok in H as (_ & _ & H).
  destruct (connector_compact_json_size _); [|done]. destruct (_ <? z); [done|].
  apply check_size_ok in H as (_ & He & _). done.
Qed.

Lemma escape_ascii_length c : (length (escape_ascii c) ≤ 12)%nat.
Proof.
  assert (Hu : ∀ n, length (u_escape n) = 6%nat).
  { intros n. unfold u_escape. rewrite length_app, (proj1 (hex_padded_spec _ _)). done. }
  unfold escape_ascii. destruct (short_escape c) as [e|] eqn:E.
  - unfold short_escape in E. repeat (case_match; simplify_eq/=; try lia).
  - destruct (_ && _); [simpl; lia|]. destruct (c <? 65536)%N; [rewrite Hu; lia|].
    rewrite length_app, !Hu. lia.
Qed.

Lemma size_str_bound s : size (JStr s) ≤ 12 * py_len s + 2.
Proof.
  unfold size, py_len. cbn [dumps]. unfold dumps_str. rewrite length_cons, length_app. simpl.
  assert (length (concat (escape_ascii <$> codepoints s)) ≤ 12 * length (codepoints s))%nat;
    [|lia].
  induction (codepoints s) as [|c l IH]; [simpl; lia|]. cbn [fmap list_fmap concat].
  rewrite length_app. pose proof (escape_ascii_length c). simpl in *. lia.
Qed.

Lemma size_method m : m ∈ ALLOWED_RPC_METHODS → size (JStr m) ≤ 16.
Proof.
  intros Hm. assert (Forall (λ m, size (JStr m) ≤ 16) ALLOWED_RPC_METHODS) as Hall.
  { unfold ALLOWED_RPC_METHODS. repeat constructor; vm_compute; discriminate. }
  rewrite Forall_forall in Hall. by apply Hall.
Qed.

(** Sizes of the parts of a frame the sender fills in. *)
Lemma frame_size_le id device_id epoch seq ack sent_at command_id key method params deadline :
  0 ≤ seq ≤ MAX_SEQUENCE → 0 ≤ ack ≤ MAX_SEQUENCE →
  size (command_envelope (uuid_str id) (uuid_str device_id) epoch seq ack (iso sent_at)
          (uuid_str command_id) key method params (iso deadline))
  ≤ FRAME_OVERHEAD + 210 + size (JStr epoch) + size (JStr key) + size (JStr method)
    + size (JObj params).
Proof.
  intros Hs Ha. rewrite command_envelope_size, !size_uuid.
  pose proof (size_sequence seq Hs). pose proof (size_sequence ack Ha).
  pose proof (size_iso sent_at). pose proof (size_iso deadline). lia.
Qed.

(** The frame sent for an admitted command never exceeds the protocol's
    262144 bytes; it also respects a smaller configured limit whenever the key
    written on the wire encodes to no more bytes than the key that was
    measured at admission. *)
Theorem admitted_command_frame_fits device_id epoch roots method params key limit
    wire_key id command_id seq ack sent_at deadline :
  validate_command_budget device_id epoch roots method params key limit = Ok tt →
  py_len epoch ≤ 128 → method ∈ ALLOWED_RPC_METHODS →
  py_len wire_key = 64 → forallb copied (codepoints wire_key) = true →
  0 ≤ seq ≤ MAX_SEQUENCE → 0 ≤ ack ≤ MAX_SEQUENCE →
  let frame := command_envelope (uuid_str id) (uuid_str device_id) epoch seq ack (iso sent_at)
                 (uuid_str command_id) wire_key method params (iso deadline) in
  size frame ≤ MAX_FRAME_BYTES
  ∧ (size (JStr wire_key) ≤ size (JStr key) → size frame ≤ limit).
Proof.
  intros Hok Hep Hm Hlen Hcp Hs Ha frame.
  apply validate_command_budget_ok in Hok as [Hparams Henv].
  pose proof (frame_size_le id device_id epoch seq ack sent_at command_id wire_key method params
    deadline Hs Ha) as Hf. fold frame in Hf.
  pose proof (size_str_bound epoch). pose proof (size_method method Hm).
  pose proof (size_copied wire_key Hcp).
  unfold FRAME_OVERHEAD, MAX_COMMAND_PARAMS_BYTES, MAX_ENSURE_ASCII_PARAMS_BYTES in *.
  split; [unfold MAX_FRAME_BYTES; lia|]. intros Hkey.
  rewrite command_envelope_size in Henv. rewrite size_uuid in Henv.
  change (size (JStr _UUID_PLACEHOLDER)) with 38 in Henv.
  change (size (JInt MAX_SEQUENCE)) with 19 in Henv.
  change (size (JStr _TIMESTAMP_PLACEHOLDER)) with 29 in Henv.
  unfold FRAME_OVERHEAD in Henv. lia.
Qed.

Definition sample_epoch : pystr := "epoch-0000000001".
Definition sample_wire_key : pystr :=
  "aaaaaaaaaaaaaaaaaaaaaaaaaaaaaaaaaaaaaaaaaaaaaaaaaaaaaaaaaaaaaaaa".

Lemma admitted_command_frame_fits_witness :
  validate_command_budget 5%N sample_epoch ["/srv"] "thread/list" [] "k" 262144 = Ok tt
  ∧ size (command_envelope (uuid_str 1%N) (uuid_str 5%N) sample_epoch 7 3 (iso 0)
            (uuid_str 2%N) sample_wire_key "thread/list" [] (iso 1)) ≤ MAX_FRAME_BYTES.
Proof.
  split; [vm_compute; reflexivity|].
  refine (proj1 (admitted_command_frame_fits 5%N sample_epoch ["/srv"] "thread/list" [] "k"
    262144 sample_wire_key 1%N 2%N 7 3 0 1 _ _ _ _ _ _ _)).
  - vm_compute. reflexivity.
  - apply Z.leb_le. vm_compute. reflexivity.
  - unfold ALLOWED_RPC_METHODS. set_solver.
  - vm_compute. reflexivity.
  - vm_compute. reflexivity.
  - unfold MAX_SEQUENCE. lia.
  - unfold MAX_SEQUENCE. lia.
Defined.

(** The parameters of a [thread/list] whose worst case is exactly 4096 bytes
    with a one-character key. *)
Definition tight_params : list (pystr * json) :=
  [("cwd", JStr (PyStr (repeat 97%N 3679)))].

(** The admission check measures the client's idempotency key while the
    frame carries a 64-character digest, so under the smallest configurable
    envelope limit (4096) a command is admitted whose frame cannot be sent. *)
Theorem short_key_admission_gap :
  validate_command_budget 5%N sample_epoch ["/srv"] "thread/list" tight_params "k" 4096 = Ok tt
  ∧ 4096 < size (command_envelope (uuid_str 1%N) (uuid_str 5%N) sample_epoch 1000 1000
             (iso 1700000000000001) (uuid_str 2%N) sample_wire_key "thread/list" tight_params
             (iso 1700000030000001)).
Proof. split; vm_compute; reflexivity. Qed.
