(* ===== verification/Snapshot.v ===== *)
(** * Thread snapshots ([control_api/thread_snapshot.py])

    A thread's message history is cut to a byte and message budget by dropping
    its oldest messages, except a message that must be kept; the number to drop
    is found by binary search.  The theorems show that the search returns the
    least sufficient number, which needs the measures to be monotone in the
    messages kept. *)

From stdpp Require Import base list gmap.
From Stdlib Require Import NArith ZArith Lia.
From S2P Require Import Prelude Config Json Paths Models Storage World.
Open Scope Z_scope.

Definition MAX_THREAD_SNAPSHOT_BYTES : Z := 512 * 1024.
Definition MAX_THREAD_SNAPSHOT_MESSAGES : Z := 1000.

Definition dict : Type := list (pystr * json).

(** [[dict(item) for item in snapshot.get("messages", []) if isinstance(item, dict)]]:
    iterating a string or a dict yields no dicts, iterating any other value
    that is not a list raises. *)
Definition only_dicts (l : list json) : list dict :=
  omap (λ j, match j with JObj d => Some d | _ => None end) l.

Definition snapshot_messages (snapshot : dict) : outcome (list dict) :=
  match assoc_get "messages" snapshot with
  | None => Ok []
  | Some (JArr l) => Ok (only_dicts l)
  | Some (JStr _) | Some (JObj _) => Ok []
  | Some _ => Raise TypeError
  end.

(** The last index whose message has the required id. *)
Definition has_id (id : pystr) (m : dict) : bool := bool_decide (assoc_get "id" m = Some (JStr id)).

Fixpoint last_index (id : pystr) (messages : list dict) (index : nat) : option nat :=
  match messages with
  | [] => None
  | m :: messages =>
      match last_index id messages (S index) with
      | Some i => Some i
      | None => if has_id id m then Some index else None
      end
  end.

Definition removable (n : nat) (required_index : option nat) : list nat :=
  filter (λ i, Some i ≠ required_index) (seq 0 n).

(** The messages whose index is not dropped. *)
Definition keep (messages : list dict) (dropped : list nat) : list dict :=
  snd <$> filter (λ p, p.1 ∉ dropped) (zip (seq 0 (length messages)) messages).

Definition candidate (snapshot : dict) (messages : list dict) (rem : list nat)
    (drop_count : nat) : dict :=
  assoc_set "messages" (JArr (JObj <$> keep messages (take drop_count rem))) snapshot.

Definition not_serializable : exn := ThreadSnapshotTooLarge "thread snapshot is not serializable".

Definition fits (limit : Z) (value : dict) : outcome bool :=
  match ensure_ascii_json_byte_length (JObj value) with
  | None => Raise not_serializable
  | Some n =>
      if n <=? limit then
        match serialized_json_byte_length (JObj value) with
        | None => Raise not_serializable
        | Some n => Ok (n <=? limit)
        end
      else Ok false
  end.

(** [while low < high]; the interval shrinks at every iteration, so its width
    is enough fuel. *)
Fixpoint search (test : nat → outcome bool) (fuel low high : nat) : outcome nat :=
  match fuel with
  | O => Ok low
  | S fuel =>
      if (low <? high)%nat then
        let middle := ((low + high) / 2)%nat in
        match test middle with
        | Raise e => Raise e
        | Ok true => search test fuel low middle
        | Ok false => search test fuel (S middle) high
        end
      else Ok low
  end.

Definition required_index_of (required_message_id : option pystr) (messages : list dict) :
    outcome (option nat) :=
  match required_message_id with
  | None => Ok None
  | Some id =>
      match last_index id messages 0 with
      | Some i => Ok (Some i)
      | None => Raise (ThreadSnapshotTooLarge "required thread message is missing")
      end
  end.

Definition compact_thread_snapshot (snapshot : dict) (max_bytes : Z)
    (required_message_id : option pystr) (max_messages : Z) : outcome dict :=
  let limit := Z.min max_bytes MAX_THREAD_SNAPSHOT_BYTES in
  if (limit <=? 0) || (max_messages <=? 0) then
    Raise (ThreadSnapshotTooLarge "thread snapshot budget is invalid")
  else
    match snapshot_messages snapshot with
    | Raise e => Raise e
    | Ok messages =>
        match required_index_of required_message_id messages with
        | Raise e => Raise e
        | Ok required_index =>
            let rem := removable (length messages) required_index in
            let minimum_drop := Z.to_nat (Z.of_nat (length messages) - max_messages) in
            if (length rem <? minimum_drop)%nat then
              Raise (ThreadSnapshotTooLarge "required thread message exceeds the history limit")
            else
              let test k := fits limit (candidate snapshot messages rem k) in
              match test (length rem) with
              | Raise e => Raise e
              | Ok false => Raise (ThreadSnapshotTooLarge
                              "required thread message exceeds the snapshot byte limit")
              | Ok true =>
                  match search test (length rem) minimum_drop (length rem) with
                  | Raise e => Raise e
                  | Ok low => Ok (candidate snapshot messages rem low)
                  end
              end
        end
    end.

(** ** Encodings grow with the messages kept

    [weight] is a byte count per character: 1 for the ASCII form, the UTF-8
    length for the other; [encodable] marks the characters that have one. *)

Section measure.
Context (weight : N → Z) (encodable : N → bool).
Context (weight_nonneg : ∀ c, 0 ≤ weight c) (comma_ok : encodable 44%N = true).

Definition wsum (l : list N) : Z := foldr (λ c n, weight c + n) 0 l.
Definition wok (l : list N) : bool := forallb encodable l.

Lemma wsum_app a b : wsum (a ++ b) = wsum a + wsum b.
Proof. induction a; simpl; lia. Qed.
Lemma wok_app a b : wok (a ++ b) = wok a && wok b.
Proof. apply forallb_app. Qed.
Lemma wsum_nonneg l : 0 ≤ wsum l.
Proof. induction l as [|c l IH]; simpl; [lia|]. pose proof (weight_nonneg c). lia. Qed.

(** [a] costs no more than [b] and is encodable when [b] is. *)
Definition cheaper (a b : list N) : Prop := wsum a ≤ wsum b ∧ (wok b = true → wok a = true).

Lemma cheaper_refl a : cheaper a a.
Proof. split; [lia|done]. Qed.
Lemma cheaper_trans a b c : cheaper a b → cheaper b c → cheaper a c.
Proof. intros [] []. split; [lia|auto]. Qed.
Lemma cheaper_app a a' b b' : cheaper a a' → cheaper b b' → cheaper (a ++ b) (a' ++ b').
Proof.
  intros [H1 H2] [H3 H4]. split; [rewrite !wsum_app; lia|]. rewrite !wok_app, !andb_true_iff.
  naive_solver.
Qed.
Lemma cheaper_app_r a b : cheaper b (a ++ b).
Proof.
  split; [rewrite wsum_app; pose proof (wsum_nonneg a); lia|].
  rewrite wok_app, andb_true_iff. tauto.
Qed.
Lemma cheaper_nil b : cheaper [] b.
Proof. split; [apply wsum_nonneg|done]. Qed.

Lemma join_cons p parts :
  join_comma (p :: parts) = p ++ match parts with [] => [] | _ => 44%N :: join_comma parts end.
Proof. destruct parts; simpl; [by rewrite app_nil_r|done]. Qed.

Lemma join_sublist parts parts' :
  parts' `sublist_of` parts → cheaper (join_comma parts') (join_comma parts).
Proof.
  induction 1 as [|p k l H IH|p k l H IH].
  - apply cheaper_refl.
  - rewrite !join_cons. apply cheaper_app; [apply cheaper_refl|].
    destruct k as [|x k]; [apply cheaper_nil|]. destruct l as [|y l]; [by inversion H|].
    apply (cheaper_app [44%N] [44%N]); [apply cheaper_refl|done].
  - rewrite (join_cons p). destruct l as [|y l].
    + apply sublist_nil_r in H. subst. apply cheaper_nil.
    + eapply cheaper_trans; [exact IH|]. eapply cheaper_trans; [|apply cheaper_app_r].
      apply (cheaper_app_r [44%N]).
Qed.

Lemma join_pointwise parts parts' :
  Forall2 cheaper parts' parts → cheaper (join_comma parts') (join_comma parts).
Proof.
  induction 1 as [|p' p k l H Hkl IH]; [apply cheaper_refl|]. rewrite !join_cons.
  apply cheaper_app; [done|]. destruct Hkl; [apply cheaper_refl|].
  apply (cheaper_app [44%N] [44%N]); [apply cheaper_refl|done].
Qed.

Lemma cheaper_array escape l l' :
  l' `sublist_of` l → cheaper (dumps escape (JArr l')) (dumps escape (JArr l)).
Proof.
  intros H. cbn [dumps]. apply (cheaper_app [91%N] [91%N]); [apply cheaper_refl|].
  apply cheaper_app; [|apply cheaper_refl]. apply join_sublist. by apply (fmap_sublist (dumps escape)).
Qed.

Lemma cheaper_field escape k v v' (d : dict) :
  cheaper (dumps escape v') (dumps escape v) →
  cheaper (dumps escape (JObj (assoc_set k v' d))) (dumps escape (JObj (assoc_set k v d))).
Proof.
  intros H. cbn [dumps]. apply (cheaper_app [123%N] [123%N]); [apply cheaper_refl|].
  apply cheaper_app; [|apply cheaper_refl]. apply join_pointwise.
  assert (Hfield : ∀ k, cheaper (dumps_str escape k ++ 58%N :: dumps escape v')
    (dumps_str escape k ++ 58%N :: dumps escape v)).
  { intros k'. apply cheaper_app; [apply cheaper_refl|].
    apply (cheaper_app [58%N] [58%N]); [apply cheaper_refl|done]. }
  assert (Hsame : ∀ l : dict, Forall2 cheaper
    (map (λ kv, dumps_str escape kv.1 ++ 58%N :: dumps escape kv.2) l)
    (map (λ kv, dumps_str escape kv.1 ++ 58%N :: dumps escape kv.2) l)).
  { induction l as [|x l IH]; simpl; constructor; [apply cheaper_refl|done]. }
  induction d as [|[k' w] d IH]; simpl; [constructor; [apply Hfield|constructor]|].
  case_decide; simpl; constructor; [apply Hfield|apply Hsame|apply cheaper_refl|done].
Qed.
End measure.

Definition utf8_weight (c : N) : Z := match utf8_char_len c with Some n => n | None => 0 end.
Definition utf8_encodable (c : N) : bool :=
  match utf8_char_len c with Some _ => true | None => false end.

Lemma utf8_weight_nonneg c : 0 ≤ utf8_weight c.
Proof. unfold utf8_weight, utf8_char_len. repeat case_match; simplify_eq; lia. Qed.

Lemma utf8_len_measure l :
  utf8_len l = if wok utf8_encodable l then Some (wsum utf8_weight l) else None.
Proof.
  induction l as [|c l IH]; [done|]. cbn [utf8_len]. rewrite IH. unfold wok, wsum.
  cbn [forallb foldr].
  assert (Hc : utf8_char_len c = if utf8_encodable c then Some (utf8_weight c) else None).
  { unfold utf8_encodable, utf8_weight. by destruct (utf8_char_len c). }
  rewrite Hc. destruct (utf8_encodable c); [|done]. by destruct (forallb utf8_encodable l).
Qed.

Lemma length_measure l : Z.of_nat (length l) = wsum (λ _, 1) l.
Proof. induction l; simpl; lia. Qed.

(** ** Dropping more messages *)

Lemma filter_sublist_impl {A} (Q R : A → Prop) `{!∀ x, Decision (Q x), !∀ x, Decision (R x)} l :
  (∀ x, Q x → R x) → filter Q l `sublist_of` filter R l.
Proof.
  intros Himp. induction l as [|x l IH]; [done|]. destruct (decide (Q x)).
  - rewrite !filter_cons_True by auto. by apply sublist_skip.
  - rewrite (filter_cons_False Q) by done. destruct (decide (R x)).
    + rewrite filter_cons_True by done. by apply sublist_cons.
    + by rewrite filter_cons_False.
Qed.

Lemma keep_sublist messages d d' :
  (∀ i, i ∈ d → i ∈ d') → keep messages d' `sublist_of` keep messages d.
Proof.
  intros H. unfold keep. apply fmap_sublist, filter_sublist_impl. naive_solver.
Qed.

Lemma take_subset {A} (l : list A) k k' x : (k ≤ k')%nat → x ∈ take k l → x ∈ take k' l.
Proof. intros Hk. rewrite !elem_of_take. intros (i & ? & ?). exists i. split; [done|lia]. Qed.

Lemma all_finite_field k v v' (d : dict) :
  (all_finite v = true → all_finite v' = true) →
  all_finite (JObj (assoc_set k v d)) = true → all_finite (JObj (assoc_set k v' d)) = true.
Proof.
  intros H. simpl. induction d as [|[k' w] d IH]; simpl; [rewrite !andb_true_r; done|].
  case_decide; simpl; rewrite !andb_true_iff; tauto.
Qed.

Lemma all_finite_sublist l l' :
  l' `sublist_of` l → all_finite (JArr l) = true → all_finite (JArr l') = true.
Proof.
  simpl. induction 1; simpl; rewrite ?andb_true_iff; naive_solver.
Qed.

Section candidates.
Context (snapshot : dict) (messages : list dict) (rem : list nat) (limit : Z).
Let cand := candidate snapshot messages rem.
Let test k := fits limit (cand k).

Lemma candidate_array k k' :
  (k ≤ k')%nat →
  JObj <$> keep messages (take k' rem) `sublist_of` JObj <$> keep messages (take k rem).
Proof.
  intros Hk. apply fmap_sublist, keep_sublist. intros i. by apply take_subset.
Qed.

Lemma candidate_finite k k' :
  (k ≤ k')%nat → all_finite (JObj (cand k)) = true → all_finite (JObj (cand k')) = true.
Proof.
  intros Hk. unfold cand, candidate. apply all_finite_field.
  by apply all_finite_sublist, candidate_array.
Qed.

Lemma candidate_cheaper weight encodable escape k k' :
  (∀ c, 0 ≤ weight c) → (k ≤ k')%nat →
  cheaper weight encodable (dumps escape (JObj (cand k'))) (dumps escape (JObj (cand k))).
Proof.
  intros Hw Hk. apply cheaper_field. apply cheaper_array; [done|]. by apply candidate_array.
Qed.

(** Once a candidate fits, every smaller one does. *)
Lemma fits_mono k k' : (k ≤ k')%nat → test k = Ok true → test k' = Ok true.
Proof.
  intros Hk. unfold test, fits, ensure_ascii_json_byte_length, serialized_json_byte_length.
  destruct (all_finite (JObj (cand k))) eqn:Hfin; [|done].
  rewrite (candidate_finite k k' Hk Hfin). rewrite !length_measure, !utf8_len_measure.
  destruct (candidate_cheaper (λ _, 1) (λ _, true) escape_ascii k k') as [Ha _];
    [intros; lia|done|].
  destruct (candidate_cheaper utf8_weight utf8_encodable escape_plain k k') as [Hu Ho];
    [apply utf8_weight_nonneg|done|].
  destruct (_ <=? limit) eqn:E1; [|done]. reflect_bools.
  destruct (wok utf8_encodable (dumps escape_plain (JObj (cand k)))) eqn:Eok; [|done].
  destruct (wsum utf8_weight (dumps escape_plain (JObj (cand k))) <=? limit) eqn:E2; [|done].
  intros _. reflect_bools. rewrite (Ho eq_refl).
  rewrite (proj2 (Z.leb_le _ limit)) by lia. f_equal. apply Z.leb_le. lia.
Qed.

(** Without NaN and lone surrogates no candidate raises. *)
Lemma fits_total k :
  all_finite (JObj (cand 0)) = true → is_Some (serialized_json_byte_length (JObj (cand 0))) →
  ∃ b, test k = Ok b.
Proof.
  intros Hfin [n Hn]. unfold test, fits, ensure_ascii_json_byte_length.
  rewrite (candidate_finite 0 k) by (done || lia).
  destruct (_ <=? limit); [|by eexists].
  unfold serialized_json_byte_length in *. rewrite utf8_len_measure in Hn |- *.
  destruct (candidate_cheaper utf8_weight utf8_encodable escape_plain 0 k) as [_ Ho];
    [apply utf8_weight_nonneg|lia|].
  destruct (wok utf8_encodable (dumps escape_plain (JObj (cand 0)))); [|done].
  rewrite (Ho eq_refl). by eexists.
Qed.
End candidates.

(** ** The binary search *)

Lemma search_ok test fuel low high r :
  (high - low ≤ fuel)%nat → (low ≤ high)%nat → test high = Ok true →
  search test fuel low high = Ok r →
  (low ≤ r ≤ high)%nat ∧ test r = Ok true ∧ ((low < r)%nat → test (pred r) = Ok false).
Proof.
  revert low high. induction fuel as [|fuel IH]; intros low high Hf Hle Hh; cbn [search].
  { intros [= <-]. replace low with high by lia. split_and!; [lia..|done|lia]. }
  destruct (Nat.ltb_spec low high) as [Hlt|Hge].
  2:{ intros [= <-]. replace low with high by lia. split_and!; [lia..|done|lia]. }
  assert (Hm : (low ≤ (low + high) / 2 < high)%nat).
  { split; [apply Nat.div_le_lower_bound|apply Nat.Div0.div_lt_upper_bound]; lia. }
  set (m := ((low + high) / 2)%nat) in *. destruct (test m) as [[]|] eqn:Et; [| |done].
  - intros H. destruct (IH low m) as (H1 & H2 & H3); [lia|lia|done..|].
    split_and!; [lia..|done|done].
  - intros H. destruct (IH (S m) high) as (H1 & H2 & H3); [lia|lia|done..|].
    split_and!; [lia..|done|]. intros _. destruct (decide (r = S m)) as [->|Hne]; [done|].
    apply H3. lia.
Qed.

Lemma search_total test fuel low high :
  (∀ k, ∃ b, test k = Ok b) → ∃ r, search test fuel low high = Ok r.
Proof.
  intros Ht. revert low high. induction fuel as [|fuel IH]; intros low high; cbn [search];
    [by eexists|].
  destruct (_ <? _)%nat; [|by eexists].
  destruct (Ht ((low + high) / 2)%nat) as [[] ->]; apply IH.
Qed.

(** ** Which messages are kept *)

Lemma zip_filter_length (Q : nat → Prop) `{!∀ i, Decision (Q i)} (s : list nat) (m : list dict) :
  length s = length m →
  length (filter (λ p : nat * dict, Q p.1) (zip s m)) = length (filter Q s).
Proof.
  revert m. induction s as [|i s IH]; intros [|x m] Hl; try done. simpl in Hl. simpl.
  destruct (decide (Q i)).
  - rewrite !filter_cons_True by done. simpl. rewrite IH by lia. done.
  - rewrite !filter_cons_False by done. rewrite IH by lia. done.
Qed.

Lemma keep_length messages d :
  NoDup d → (∀ i, i ∈ d → (i < length messages)%nat) →
  length (keep messages d) = (length messages - length d)%nat.
Proof.
  intros Hnd Hin. unfold keep. rewrite length_fmap.
  pose proof (zip_filter_length (λ i, i ∉ d) (seq 0 (length messages)) messages) as Hz.
  rewrite length_seq in Hz. etrans; [by apply Hz|].
  assert (Hp : filter (λ i, i ∈ d) (seq 0 (length messages)) ≡ₚ d).
  { apply NoDup_Permutation; [apply NoDup_filter, NoDup_seq|done|].
    intros i. rewrite list_elem_of_filter, elem_of_seq. specialize (Hin i).
    split; [tauto|]. intros Hi. specialize (Hin Hi). split; [done|lia]. }
  pose proof (filter_app_complement (λ i, i ∈ d) (seq 0 (length messages))) as Hc.
  apply Permutation_length in Hc, Hp. rewrite length_app, length_seq in Hc. lia.
Qed.

Lemma removable_spec n r : NoDup (removable n r) ∧ ∀ i, i ∈ removable n r → (i < n)%nat ∧ Some i ≠ r.
Proof.
  unfold removable. split; [apply NoDup_filter, NoDup_seq|].
  intros i [? ?%elem_of_seq]%list_elem_of_filter. split; [lia|done].
Qed.

Lemma last_index_spec id messages index i :
  last_index id messages index = Some i →
  ∃ m, messages !! (i - index)%nat = Some m ∧ (index ≤ i)%nat ∧ has_id id m = true.
Proof.
  revert index. induction messages as [|m messages IH]; intros index; simpl; [done|].
  destruct (last_index id messages (S index)) as [j|] eqn:E.
  - intros [= <-]. destruct (IH _ E) as (x & Hx & Hj & Hid). exists x.
    replace (j - index)%nat with (S (j - S index)) by lia. split_and!; [done|lia|done].
  - destruct (has_id id m) eqn:Hm; [|done]. intros [= <-]. exists m.
    rewrite Nat.sub_diag. split_and!; [done|lia|done].
Qed.

Lemma keep_elem messages d i m : messages !! i = Some m → i ∉ d → m ∈ keep messages d.
Proof.
  intros Hm Hi. unfold keep. apply list_elem_of_fmap. exists (i, m). split; [done|].
  apply list_elem_of_filter. split; [done|]. apply list_elem_of_lookup. exists i.
  apply lookup_zip_Some. split; [|done]. apply lookup_lt_Some in Hm.
  rewrite lookup_seq. split; lia.
Qed.

Definition byte_limit (max_bytes : Z) : Z := Z.min max_bytes MAX_THREAD_SNAPSHOT_BYTES.
Definition minimum_drop (messages : list dict) (max_messages : Z) : nat :=
  Z.to_nat (Z.of_nat (length messages) - max_messages).

(** What a successful compaction went through. *)
Lemma compact_inv snapshot max_bytes req max_messages out :
  compact_thread_snapshot snapshot max_bytes req max_messages = Ok out →
  ∃ messages ri k, 0 < max_messages ∧ snapshot_messages snapshot = Ok messages
    ∧ required_index_of req messages = Ok ri
    ∧ let rem := removable (length messages) ri in
      let test j := fits (byte_limit max_bytes) (candidate snapshot messages rem j) in
      out = candidate snapshot messages rem k
      ∧ (minimum_drop messages max_messages ≤ k ≤ length rem)%nat
      ∧ test k = Ok true
      ∧ ((minimum_drop messages max_messages < k)%nat → test (pred k) = Ok false).
Proof.
  unfold compact_thread_snapshot. cbv zeta. fold (byte_limit max_bytes).
  destruct (_ || _) eqn:Hb; [done|]. reflect_bools.
  destruct (snapshot_messages snapshot) as [messages|] eqn:Hm; [|done].
  destruct (required_index_of req messages) as [ri|] eqn:Hri; [|done].
  fold (minimum_drop messages max_messages).
  destruct (Nat.ltb_spec (length (removable (length messages) ri))
    (minimum_drop messages max_messages)) as [|Hmin]; [done|].
  set (rem := removable (length messages) ri) in *. set (test := λ k, fits _ _).
  change (fits (byte_limit max_bytes) (candidate snapshot messages rem (length rem)))
    with (test (length rem)).
  destruct (test (length rem)) as [[]|] eqn:Etop; [|done..].
  destruct (search test _ _ _) as [k|] eqn:Es; [|done]. intros [= <-].
  apply search_ok in Es as (H1 & H2 & H3); [|lia|done|done].
  exists messages, ri, k. split_and!; try done; apply H1.
Qed.

(** A compacted snapshot fits the byte limit in both encodings (its own
    and the 512 KiB cap), keeps at most [max_messages] messages and the required
    one, and drops no more messages than needed: every smaller admissible number
    of dropped messages is too large. *)
Theorem compact_thread_snapshot_optimal snapshot max_bytes req max_messages out :
  compact_thread_snapshot snapshot max_bytes req max_messages = Ok out →
  ∃ messages ri k, snapshot_messages snapshot = Ok messages
    ∧ out = candidate snapshot messages (removable (length messages) ri) k
    ∧ fits (Z.min max_bytes MAX_THREAD_SNAPSHOT_BYTES) out = Ok true
    ∧ Z.of_nat (length (keep messages (take k (removable (length messages) ri)))) ≤ max_messages
    ∧ (∀ id, req = Some id →
        ∃ m, m ∈ keep messages (take k (removable (length messages) ri)) ∧ has_id id m = true)
    ∧ ∀ j, (minimum_drop messages max_messages ≤ j < k)%nat →
        fits (Z.min max_bytes MAX_THREAD_SNAPSHOT_BYTES)
          (candidate snapshot messages (removable (length messages) ri) j) ≠ Ok true.
Proof.
  intros H. apply compact_inv in H as (messages & ri & k & Hpos & Hm & Hri & -> & Hk & Hfit & Hmin).
  exists messages, ri, k. destruct (removable_spec (length messages) ri) as [Hnd Hin].
  split_and!; try done.
  - rewrite keep_length.
    + rewrite length_take. unfold minimum_drop in Hk. lia.
    + eapply sublist_NoDup; [exact Hnd|]. apply sublist_take.
    + intros i (j & Hj & _)%elem_of_take. by eapply Hin, list_elem_of_lookup_2.
  - intros id ->. unfold required_index_of in Hri.
    destruct (last_index id messages 0) as [i|] eqn:Hi; [|done]. injection Hri as <-.
    apply last_index_spec in Hi as (m & Hlk & _ & Hid). rewrite Nat.sub_0_r in Hlk.
    exists m. split; [|done]. eapply keep_elem; [exact Hlk|].
    intros (j & Hj & _)%elem_of_take. apply list_elem_of_lookup_2 in Hj.
    by apply Hin in Hj as [_ ?].
  - intros j Hj Hbad. eapply (fits_mono _ _ _ _ j (pred k)) in Hbad; [|lia].
    unfold byte_limit in Hmin. rewrite Hmin in Hbad by lia. done.
Qed.

Definition sample_snapshot : dict :=
  [("messages", JArr [JObj [("id", JStr "a"); ("text", JStr "first")];
                      JObj [("id", JStr "b"); ("text", JStr "second")];
                      JObj [("id", JStr "c"); ("text", JStr "third")]])].

Definition sample_compacted : dict :=
  [("messages", JArr [JObj [("id", JStr "a"); ("text", JStr "first")];
                      JObj [("id", JStr "c"); ("text", JStr "third")]])].

Lemma compact_thread_snapshot_optimal_witness :
  compact_thread_snapshot sample_snapshot 80 (Some "a") 3 = Ok sample_compacted
  ∧ fits 80 sample_compacted = Ok true.
Proof.
  split; [vm_compute; reflexivity|].
  destruct (compact_thread_snapshot_optimal sample_snapshot 80 (Some "a") 3 sample_compacted)
    as (messages & ri & k & _ & _ & Hfit & _); [vm_compute; reflexivity|exact Hfit].
Defined.

(** Compaction succeeds whenever it can: with a valid budget, a history
    without NaN or lone surrogates and a required message (if any) that exists,
    it fails only when the message count or the bytes are over budget with
    every removable message dropped. *)
Theorem compact_thread_snapshot_total snapshot max_bytes req max_messages messages ri :
  0 < max_bytes → 0 < max_messages →
  snapshot_messages snapshot = Ok messages → required_index_of req messages = Ok ri →
  let rem := removable (length messages) ri in
  (minimum_drop messages max_messages ≤ length rem)%nat →
  all_finite (JObj (candidate snapshot messages rem 0)) = true →
  is_Some (serialized_json_byte_length (JObj (candidate snapshot messages rem 0))) →
  fits (Z.min max_bytes MAX_THREAD_SNAPSHOT_BYTES) (candidate snapshot messages rem (length rem))
    = Ok true →
  ∃ out, compact_thread_snapshot snapshot max_bytes req max_messages = Ok out.
Proof.
  intros Hb Hmm Hm Hri rem Hmin Hfin Hser Hfit. unfold compact_thread_snapshot. cbv zeta.
  destruct (_ || _) eqn:Hbudget.
  { unfold MAX_THREAD_SNAPSHOT_BYTES in Hbudget. apply orb_true_iff in Hbudget as [?|?];
      reflect_bools; lia. }
  rewrite Hm, Hri. fold rem (minimum_drop messages max_messages).
  destruct (Nat.ltb_spec (length rem) (minimum_drop messages max_messages)); [lia|].
  rewrite Hfit.
  destruct (search_total (λ k, fits (Z.min max_bytes MAX_THREAD_SNAPSHOT_BYTES)
    (candidate snapshot messages rem k)) (length rem) (minimum_drop messages max_messages)
    (length rem)) as [r ->]; [|by eexists].
  intros k. by apply fits_total.
Qed.

Lemma compact_thread_snapshot_total_witness :
  ∃ out, compact_thread_snapshot sample_snapshot 80 (Some "a") 3 = Ok out.
Proof.
  refine (compact_thread_snapshot_total sample_snapshot 80 (Some "a") 3
    [[("id", JStr "a"); ("text", JStr "first")]; [("id", JStr "b"); ("text", JStr "second")];
     [("id", JStr "c"); ("text", JStr "third")]] (Some 0%nat) _ _ _ _ _ _ _ _).
  - lia.
  - lia.
  - vm_compute. reflexivity.
  - vm_compute. reflexivity.
  - vm_compute. lia.
  - vm_compute. reflexivity.
  - eexists. vm_compute. reflexivity.
  - vm_compute. reflexivity.
Defined.
