(* ===== verification/Events.v ===== *)
(** * The durable browser event stream ([control_api/events.py])

    [EventService] appends events to a per-owner stream whose cursors are
    allocated from [EventOwnerCursor], replays it in bounded pages, and prunes
    it.  The invariant [events_ok] says what the stream promises a browser:
    every cursor above the owner's resume cursor is still in the log, so a
    browser that resumes from an admitted cursor never misses an event. *)

From stdpp Require Import base list gmap sorting.
From Stdlib Require Import NArith ZArith Lia.
From S2P Require Import Prelude Config Json Models Storage World Testbed.
Open Scope Z_scope.

Definition MAX_EVENT_CURSOR : Z := 2 ^ 63 - 1.

Record BrowserEventPage := {
  pg_events : list BrowserEvent;
  pg_has_more : bool;
  pg_serialized_bytes : Z;
}.

(** The rows of [EventLog] that belong to an owner, and how they are ordered. *)
Definition owned (owner : pystr) (e : EventLog) : Prop := ev_owner_user_id e = owner.

Definition cursor_le (a b : EventLog) : Prop := ev_owner_cursor a ≤ ev_owner_cursor b.

#[global] Instance cursor_le_dec : RelDecision cursor_le.
Proof. intros a b. unfold cursor_le. apply _. Defined.
#[global] Instance cursor_le_trans : Transitive cursor_le.
Proof. intros a b c. unfold cursor_le. lia. Qed.
#[global] Instance cursor_le_total : Total cursor_le.
Proof. intros a b. unfold cursor_le. lia. Qed.

(** The two deletion predicates of [prune]. *)
Definition expired_before (owner : pystr) (cutoff : Z) (e : EventLog) : Prop :=
  ev_owner_user_id e = owner ∧ ev_ingested_at e < cutoff.

Definition below_cursor (owner : pystr) (threshold : Z) (e : EventLog) : Prop :=
  ev_owner_user_id e = owner ∧ ev_owner_cursor e < threshold.

#[global] Instance owned_dec owner e : Decision (owned owner e).
Proof. unfold owned. apply _. Defined.
#[global] Instance expired_before_dec owner cutoff e : Decision (expired_before owner cutoff e).
Proof. unfold expired_before. apply _. Defined.
#[global] Instance below_cursor_dec owner t e : Decision (below_cursor owner t e).
Proof. unfold below_cursor. apply _. Defined.

#[global] Typeclasses Opaque owned expired_before below_cursor.

(** [select(func.max(EventLog.owner_cursor))] over the given rows. *)
Fixpoint max_cursor (l : list EventLog) : option Z :=
  match l with
  | [] => None
  | e :: l =>
      match max_cursor l with
      | Some m => Some (Z.max (ev_owner_cursor e) m)
      | None => Some (ev_owner_cursor e)
      end
  end.

Definition days (n : Z) : Z := n * 86400000000.

Section events.
Context {P : Platform}.

(** ** Cursor allocation *)

(** The upsert of [_allocate_owner_cursor]: insert [1], or increment while
    below the bigint maximum; no row returned means exhaustion. *)
Definition _allocate_owner_cursor (owner_user_id : pystr) : tx Z :=
  c ← query (λ db, cursors db !! owner_user_id);
  match c with
  | None =>
      modify (λ db, db <| cursors :=
        <[owner_user_id := {| oc_last_cursor := 1; oc_minimum_resume_cursor := 0 |}]>
          (cursors db) |>);;
      mret 1
  | Some c =>
      if oc_last_cursor c <? MAX_EVENT_CURSOR then
        modify (λ db, db <| cursors :=
          <[owner_user_id := c <| oc_last_cursor := oc_last_cursor c + 1 |>]>
            (cursors db) |>);;
        mret (oc_last_cursor c + 1)
      else raise EventCursorExhausted
  end.

(** [lock_owner_cursor] (and [lock_snapshot_cursor]): insert a zero row when
    there is none, then read the head under its row lock. *)
Definition lock_owner_cursor (owner_user_id : pystr) : tx Z :=
  modify (λ db,
    match cursors db !! owner_user_id with
    | Some _ => db
    | None => db <| cursors :=
        <[owner_user_id := {| oc_last_cursor := 0; oc_minimum_resume_cursor := 0 |}]>
          (cursors db) |>
    end);;
  query (λ db, match cursors db !! owner_user_id with
               | Some c => oc_last_cursor c
               | None => 0
               end).

(** ** Appending *)

Definition append (owner_user_id : pystr) (device_id : uuid)
    (event_type : BrowserEventType) (data : json)
    (thread_binding_id : option uuid) (occurred_at : option Z) : tx BrowserEvent :=
  d ← query (λ db, devices db !! device_id);
  device_sequence ←
    match d with
    | Some d =>
        if bool_decide (d_owner_user_id d = owner_user_id) then
          if d_last_event_sequence d <? MAX_EVENT_CURSOR then
            modify (λ db, db <| devices :=
              <[device_id := d <| d_last_event_sequence := d_last_event_sequence d + 1 |>]>
                (devices db) |>);;
            mret (d_last_event_sequence d + 1)
          else raise DataError
        else raise (ValueError "event device ownership mismatch")
    | None => raise (ValueError "event device ownership mismatch")
    end;
  owner_cursor ← _allocate_owner_cursor owner_user_id;
  occurred ← match occurred_at with Some t => mret t | None => now end;
  ingested ← now;
  modify (λ db, db <| event_log := event_log db ++
    [{| ev_owner_user_id := owner_user_id; ev_owner_cursor := owner_cursor;
        ev_device_id := device_id; ev_thread_binding_id := thread_binding_id;
        ev_sequence := device_sequence; ev_event_type := event_type;
        ev_payload := data; ev_occurred_at := occurred; ev_ingested_at := ingested |}] |>);;
  mret {| be_cursor := PyStr (py_str_int owner_cursor); be_type := event_type;
          be_occurred_at := occurred; be_data := data |}.

Definition publish_event (owner_user_id : pystr) (event : BrowserEvent) : tx unit :=
  publish ("browser:" +++ owner_user_id) (browser_event_json event).

Definition emit_event (owner_user_id : pystr) (device_id : uuid)
    (event_type : BrowserEventType) (data : json)
    (thread_binding_id : option uuid) (occurred_at : option Z) : tx BrowserEvent :=
  event ← append owner_user_id device_id event_type data thread_binding_id occurred_at;
  commit;;
  publish_event owner_user_id event;;
  mret event.

(** ** Catching up *)

Definition event_of_row (row : EventLog) : BrowserEvent :=
  {| be_cursor := PyStr (py_str_int (ev_owner_cursor row)); be_type := ev_event_type row;
     be_occurred_at := ev_occurred_at row; be_data := ev_payload row |}.

(** The [async for row in rows] loop: [row_index] counts the consumed rows. *)
Fixpoint page_rows (row_limit byte_limit : Z) (rows : list EventLog)
    (row_index : Z) (events : list BrowserEvent) (serialized_bytes : Z) :
    outcome BrowserEventPage :=
  match rows with
  | [] => Ok {| pg_events := events; pg_has_more := false;
                pg_serialized_bytes := serialized_bytes |}
  | row :: rows =>
      if row_index =? row_limit then
        Ok {| pg_events := events; pg_has_more := true;
              pg_serialized_bytes := serialized_bytes |}
      else
        let event := event_of_row row in
        let event_bytes := model_dump_json_bytes event in
        if byte_limit <? serialized_bytes + event_bytes then
          match events with
          | [] => Raise (BrowserEventTooLarge (ev_owner_cursor row) event_bytes byte_limit)
          | _ => Ok {| pg_events := events; pg_has_more := true;
                       pg_serialized_bytes := serialized_bytes |}
          end
        else page_rows row_limit byte_limit rows (row_index + 1) (events ++ [event])
               (serialized_bytes + event_bytes)
  end.

(** [select(EventLog).where(owner, owner_cursor > cursor).order_by(owner_cursor)]. *)
Definition rows_after (owner_user_id : pystr) (cursor : Z) (db : database) : list EventLog :=
  merge_sort cursor_le
    (filter (λ e, ev_owner_user_id e = owner_user_id ∧ cursor < ev_owner_cursor e)
       (event_log db)).

Definition catch_up_page (owner_user_id : pystr) (cursor : Z) : tx BrowserEventPage :=
  state ← query (λ db, cursors db !! owner_user_id);
  match state with
  | None =>
      if negb (cursor =? 0) then
        raise (BrowserCursorResetRequired "event cursor is ahead of the owner stream")
      else mret {| pg_events := []; pg_has_more := false; pg_serialized_bytes := 0 |}
  | Some state =>
      if cursor <? oc_minimum_resume_cursor state then
        raise (BrowserCursorResetRequired "event cursor is older than retained history")
      else if oc_last_cursor state <? cursor then
        raise (BrowserCursorResetRequired "event cursor is ahead of the owner stream")
      else
        let row_limit := browser_event_catchup_limit settings in
        let byte_limit := browser_event_catchup_max_bytes settings in
        if row_limit <=? 0 then
          raise (ValueError "browser event catch-up row limit must be positive")
        else if byte_limit <=? 0 then
          raise (ValueError "browser event catch-up byte limit must be positive")
        else
          rows ← query (λ db,
            take (Z.to_nat (row_limit + 1)) (rows_after owner_user_id cursor db));
          match page_rows row_limit byte_limit rows 0 [] 0 with
          | Ok page => mret page
          | Raise e => raise e
          end
  end.

Definition catch_up (owner_user_id : pystr) (cursor : Z) : tx (list BrowserEvent) :=
  page ← catch_up_page owner_user_id cursor;
  mret (pg_events page).

(** ** Pruning *)

(** The body of the loop of [prune] for one owner; the result is the number of
    rows removed. *)
Definition prune_owner (now : Z) (owner_user_id : pystr) : tx Z :=
  state ← query (λ db, cursors db !! owner_user_id);
  match state with
  | None => rollback;; mret 0
  | Some state =>
      let cutoff := now - days (browser_event_retention_days settings) in
      let is_expired := expired_before owner_user_id cutoff in
      expired ← query (λ db, filter is_expired (event_log db));
      modify (λ db, db <| event_log := filter (λ e, ¬ is_expired e) (event_log db) |>);;
      let discarded_through :=
        match max_cursor expired with
        | Some m => Z.max (oc_minimum_resume_cursor state) m
        | None => oc_minimum_resume_cursor state
        end in
      threshold ← query (λ db,
        reverse (merge_sort cursor_le (filter (owned owner_user_id) (event_log db)))
          !! Z.to_nat (browser_event_max_per_owner settings - 1));
      overflow_result ←
        match threshold with
        | None => mret (0, discarded_through)
        | Some threshold =>
            let is_overflow := below_cursor owner_user_id (ev_owner_cursor threshold) in
            overflow ← query (λ db, filter is_overflow (event_log db));
            modify (λ db, db <| event_log := filter (λ e, ¬ is_overflow e) (event_log db) |>);;
            mret (Z.of_nat (length overflow),
              match max_cursor overflow with
              | Some m => Z.max discarded_through m
              | None => discarded_through
              end)
        end;
      modify (λ db, db <| cursors :=
        <[owner_user_id := state <| oc_minimum_resume_cursor := overflow_result.2 |>]>
          (cursors db) |>);;
      commit;;
      mret (Z.of_nat (length expired) + overflow_result.1)
  end.

Definition prune (now_arg : option Z) : tx Z :=
  t ← match now_arg with Some t => mret t | None => now end;
  owners ← query (λ db, (map_to_list (cursors db)).*1);
  fold_tx (λ removed owner, n ← prune_owner t owner; mret (removed + n)) 0 owners.
End events.

(** ** The stream invariant

    The cursors of an owner's log are distinct, positive and at most the head;
    every cursor in the resume window is present; the per-device sequences are
    distinct and at most the device's counter. *)

Definition stream_last (db : database) (owner : pystr) : Z :=
  match cursors db !! owner with Some c => oc_last_cursor c | None => 0 end.

Record events_ok (db : database) : Prop := {
  eo_window owner c :
    cursors db !! owner = Some c →
    0 ≤ oc_minimum_resume_cursor c ≤ oc_last_cursor c ∧ oc_last_cursor c ≤ MAX_EVENT_CURSOR;
  eo_bounds e :
    e ∈ event_log db → 0 < ev_owner_cursor e ≤ stream_last db (ev_owner_user_id e);
  eo_unique : NoDup ((λ e, (ev_owner_user_id e, ev_owner_cursor e)) <$> event_log db);
  eo_complete owner c k :
    cursors db !! owner = Some c → oc_minimum_resume_cursor c < k ≤ oc_last_cursor c →
    ∃ e, e ∈ event_log db ∧ ev_owner_user_id e = owner ∧ ev_owner_cursor e = k;
  eo_device e :
    e ∈ event_log db →
    ∃ d, devices db !! ev_device_id e = Some d ∧ d_owner_user_id d = ev_owner_user_id e
         ∧ 0 < ev_sequence e ≤ d_last_event_sequence d;
  eo_device_unique : NoDup ((λ e, (ev_device_id e, ev_sequence e)) <$> event_log db);
  eo_counter id d : devices db !! id = Some d → 0 ≤ d_last_event_sequence d;
}.

Lemma events_ok_empty : events_ok empty_database.
Proof.
  split; simpl; try (intros *; rewrite ?lookup_empty; done); try apply NoDup_nil_2;
    intros e He; by apply not_elem_of_nil in He.
Qed.

(** What [append] does to the tables, as one update. *)
Definition extend (db : database) (d : Device) (e : EventLog) (c : EventOwnerCursor) : database :=
  db <| devices := <[ev_device_id e := d <| d_last_event_sequence := ev_sequence e |>]> (devices db) |>
     <| cursors := <[ev_owner_user_id e := c]> (cursors db) |>
     <| event_log := event_log db ++ [e] |>.

Lemma stream_last_extend db d e c owner :
  stream_last (extend db d e c) owner =
    if decide (ev_owner_user_id e = owner) then oc_last_cursor c else stream_last db owner.
Proof.
  unfold stream_last, extend. simpl. rewrite lookup_insert. by case_decide.
Qed.

Lemma events_ok_extend db d e c :
  events_ok db →
  devices db !! ev_device_id e = Some d →
  d_owner_user_id d = ev_owner_user_id e →
  ev_sequence e = d_last_event_sequence d + 1 →
  ev_owner_cursor e = stream_last db (ev_owner_user_id e) + 1 →
  oc_last_cursor c = ev_owner_cursor e →
  oc_last_cursor c ≤ MAX_EVENT_CURSOR →
  oc_minimum_resume_cursor c =
    match cursors db !! ev_owner_user_id e with
    | Some c => oc_minimum_resume_cursor c | None => 0 end →
  events_ok (extend db d e c).
Proof.
  intros [Hwin Hb Hu Hc Hdev Hdu Hcnt] Hd Hown Hseq Hcur Hlast Hmax Hmin.
  assert (Hlast0 : 0 ≤ stream_last db (ev_owner_user_id e)).
  { unfold stream_last. destruct (cursors db !! _) eqn:E; [|done]. apply Hwin in E. lia. }
  split.
  - intros owner c'. unfold extend. simpl. rewrite lookup_insert. case_decide as Ho.
    + intros [= <-]. subst owner. rewrite Hlast, Hmin. unfold stream_last in *.
      destruct (cursors db !! _) as [c0|] eqn:E; [apply Hwin in E|]; lia.
    + apply Hwin.
  - intros x. unfold extend at 1. simpl. rewrite elem_of_app, list_elem_of_singleton.
    rewrite stream_last_extend.
    intros [Hx| ->]; [|rewrite decide_True by done; lia].
    pose proof (Hb x Hx). case_decide as Ho; [|done]. rewrite Ho in Hcur. lia.
  - unfold extend. simpl. rewrite fmap_app. apply NoDup_app. split; [done|]. split.
    + intros ? (x & -> & Hx)%list_elem_of_fmap. simpl. rewrite list_elem_of_singleton.
      intros [= Ho Hxc]. pose proof (Hb x Hx) as Hbx. rewrite Ho in Hbx. lia.
    + apply NoDup_singleton.
  - intros owner c' k. unfold extend. simpl. rewrite lookup_insert. case_decide as Ho.
    + intros [= <-] Hk. subst owner. destruct (decide (k = ev_owner_cursor e)) as [->|Hne].
      * exists e. split; [apply elem_of_app; right; by apply list_elem_of_singleton|done].
      * unfold stream_last in *. destruct (cursors db !! _) as [c0|] eqn:E; [|lia].
        destruct (Hc _ c0 k E ltac:(lia)) as (x & ? & ? & ?).
        exists x. split; [apply elem_of_app; by left|done].
    + intros H1 H2. destruct (Hc _ _ _ H1 H2) as (x & ? & ? & ?).
        exists x. split; [apply elem_of_app; by left|done].
  - intros x. unfold extend. simpl. rewrite elem_of_app, list_elem_of_singleton.
    rewrite lookup_insert. pose proof (Hcnt _ _ Hd). intros [Hx| ->].
    + destruct (Hdev x Hx) as (d' & Hd' & Ho' & Hs'). case_decide as Hi; [|by eauto].
      rewrite Hi in Hd. simplify_eq. exists (d <| d_last_event_sequence := ev_sequence e |>).
      split; [done|]. simpl. split; [done|]. lia.
    + rewrite decide_True by done. eexists. split; [done|]. simpl. split; [done|lia].
  - unfold extend. simpl. rewrite fmap_app. apply NoDup_app. split; [done|]. split.
    + intros ? (x & -> & Hx)%list_elem_of_fmap. simpl. rewrite list_elem_of_singleton.
      intros [= Ho Hxc]. destruct (Hdev x Hx) as (d' & Hd' & _ & Hs').
      rewrite Ho in Hd'. simplify_eq. lia.
    + apply NoDup_singleton.
  - intros id d'. unfold extend. simpl. rewrite lookup_insert. case_decide.
    + intros [= <-]. simpl. pose proof (Hcnt _ _ Hd). lia.
    + apply Hcnt.
Qed.

Section events_theory.
Context {P : Platform}.

(** Running [append] when its guards hold. *)
Lemma append_run owner dev ty data tb occ w d :
  devices (working w) !! dev = Some d →
  d_owner_user_id d = owner →
  d_last_event_sequence d < MAX_EVENT_CURSOR →
  stream_last (working w) owner < MAX_EVENT_CURSOR →
  ∃ e c w',
    append owner dev ty data tb occ w = (Ok (event_of_row e), w') ∧
    working w' = extend (working w) d e c ∧
    durable w' = durable w ∧ effects w' = effects w ∧ store w' = store w ∧
    ev_owner_user_id e = owner ∧ ev_device_id e = dev ∧ ev_thread_binding_id e = tb ∧
    ev_event_type e = ty ∧ ev_payload e = data ∧
    (∀ t, occ = Some t → ev_occurred_at e = t) ∧
    ev_sequence e = d_last_event_sequence d + 1 ∧
    ev_owner_cursor e = stream_last (working w) owner + 1 ∧
    oc_last_cursor c = ev_owner_cursor e ∧
    oc_minimum_resume_cursor c =
      match cursors (working w) !! owner with
      | Some c => oc_minimum_resume_cursor c | None => 0 end.
Proof.
  intros Hd Ho Hs Hl. unfold stream_last in *.
  unfold append, _allocate_owner_cursor, mbind, tx_bind, query, modify, mret, tx_ret.
  rewrite Hd. rewrite bool_decide_true by done.
  replace (d_last_event_sequence d <? MAX_EVENT_CURSOR) with true by (symmetry; by apply Z.ltb_lt).
  simpl. destruct (cursors (working w) !! owner) as [c|] eqn:Ec; simpl.
  - replace (oc_last_cursor c <? MAX_EVENT_CURSOR) with true by (symmetry; by apply Z.ltb_lt).
    destruct occ; simpl; eexists (Build_EventLog _ _ _ _ _ _ _ _ _), _, _;
      (split; [reflexivity|]); (split; [reflexivity|]); repeat split; try done; simpl; congruence.
  - destruct occ; simpl; eexists (Build_EventLog _ _ _ _ _ _ _ _ _), _, _;
      (split; [reflexivity|]); (split; [reflexivity|]); repeat split; try done; simpl; congruence.
Qed.

(** The other branches raise with the log, the committed state and the
    effects as they were. *)
Lemma append_raises owner dev ty data tb occ w :
  (∀ d, devices (working w) !! dev = Some d → d_owner_user_id d ≠ owner
     ∨ MAX_EVENT_CURSOR ≤ d_last_event_sequence d)
  ∨ MAX_EVENT_CURSOR ≤ stream_last (working w) owner →
  ∃ exc w', append owner dev ty data tb occ w = (Raise exc, w')
    ∧ (exc = ValueError "event device ownership mismatch" ∨ exc = DataError
       ∨ exc = EventCursorExhausted)
    ∧ event_log (working w') = event_log (working w)
    ∧ cursors (working w') = cursors (working w)
    ∧ durable w' = durable w ∧ effects w' = effects w.
Proof.
  intros Hcase. unfold stream_last in *.
  unfold append, _allocate_owner_cursor, mbind, tx_bind, query, modify, mret, tx_ret, raise.
  destruct (devices (working w) !! dev) as [d|] eqn:Hd; [|eauto 10].
  case_bool_decide as Ho; [|eauto 10].
  destruct (d_last_event_sequence d <? MAX_EVENT_CURSOR) eqn:Hs; [|eauto 10].
  simpl. reflect_bools. destruct Hcase as [H|H].
  { destruct (H d eq_refl); [done|lia]. }
  destruct (cursors (working w) !! owner) as [c|] eqn:Ec; simpl; [|unfold MAX_EVENT_CURSOR in H; lia].
  destruct (oc_last_cursor c <? MAX_EVENT_CURSOR) eqn:Hc; reflect_bools; [lia|].
  do 2 eexists. split; [done|]. simpl. eauto 10.
Qed.

(** A device row that keeps its owner and its event counter. *)
Definition event_fields_eq (d d' : Device) : Prop :=
  d_owner_user_id d' = d_owner_user_id d ∧ d_last_event_sequence d' = d_last_event_sequence d.

Lemma events_ok_same_stream (db db' : database) :
  event_log db' = event_log db → cursors db' = cursors db →
  (∀ id d, devices db !! id = Some d →
     ∃ d', devices db' !! id = Some d' ∧ event_fields_eq d d') →
  (∀ id d', devices db' !! id = Some d' → 0 ≤ d_last_event_sequence d') →
  events_ok db → events_ok db'.
Proof.
  intros Hl Hc Hd Hn [Hwin Hb Hu Hcm Hdev Hdu Hcnt].
  split; unfold stream_last in *; rewrite ?Hl, ?Hc; auto.
  intros e He. destruct (Hdev e He) as (d & Hd1 & Hd2 & Hd3).
  destruct (Hd _ _ Hd1) as (d' & ? & Ho & Hq). exists d'. rewrite Ho, Hq. done.
Qed.

Lemma events_ok_bump db id d :
  events_ok db → devices db !! id = Some d → d_last_event_sequence d < MAX_EVENT_CURSOR →
  events_ok (db <| devices :=
    <[id := d <| d_last_event_sequence := d_last_event_sequence d + 1 |>]> (devices db) |>).
Proof.
  intros [Hwin Hb Hu Hcm Hdev Hdu Hcnt] Hd Hs. split; simpl; auto.
  - intros e He. destruct (Hdev e He) as (d' & Hd1 & Hd2 & Hd3).
    rewrite lookup_insert. case_decide as Hi; [|by eauto].
    rewrite Hi in Hd. simplify_eq. eexists. split; [done|]. simpl. split; [done|lia].
  - intros i d'. rewrite lookup_insert. case_decide; [|by apply Hcnt].
    intros [= <-]. simpl. pose proof (Hcnt _ _ Hd). lia.
Qed.

Lemma append_stable owner dev ty data tb occ :
  stable events_ok (append owner dev ty data tb occ).
Proof.
  intros w Hw Hdur. unfold wp.
  destruct (devices (working w) !! dev) as [d|] eqn:Hd.
  - destruct (decide (d_owner_user_id d = owner)) as [Ho|Ho].
    + destruct (decide (d_last_event_sequence d < MAX_EVENT_CURSOR)) as [Hs|Hs].
      * destruct (decide (stream_last (working w) owner < MAX_EVENT_CURSOR)) as [Hl|Hl].
        -- destruct (append_run owner dev ty data tb occ w d Hd Ho Hs Hl)
             as (e & c & w' & Hrun & Hwk & Hdr & _ & _ & He1 & He2 & _ & _ & _ & _ & Hq & Hc1 & Hc2 & Hc3).
           rewrite Hrun. simpl. rewrite Hwk, Hdr. split; [|done].
           apply events_ok_extend; rewrite ?He1, ?He2; try done; lia.
        -- unfold append, _allocate_owner_cursor, mbind, tx_bind, query, modify, mret, tx_ret.
           rewrite Hd, bool_decide_true by done.
           replace (d_last_event_sequence d <? MAX_EVENT_CURSOR) with true
             by (symmetry; by apply Z.ltb_lt).
           unfold stream_last in Hl. simpl.
           destruct (cursors (working w) !! owner) as [c|] eqn:Ec; [|done]. simpl.
           replace (oc_last_cursor c <? MAX_EVENT_CURSOR) with false
             by (symmetry; apply Z.ltb_ge; lia).
           simpl. split; [by apply events_ok_bump|done].
      * unfold append, mbind, tx_bind, query. rewrite Hd, bool_decide_true by done.
        replace (d_last_event_sequence d <? MAX_EVENT_CURSOR) with false
          by (symmetry; apply Z.ltb_ge; lia). done.
    + unfold append, mbind, tx_bind, query. by rewrite Hd, bool_decide_false.
  - unfold append, mbind, tx_bind, query. by rewrite Hd.
Qed.

Lemma lock_owner_cursor_stable owner : stable events_ok (lock_owner_cursor owner).
Proof.
  apply stable_bind; [|intros; apply stable_query]. apply stable_modify. intros db Hdb.
  destruct (cursors db !! owner) as [c|] eqn:Ec; [done|].
  destruct Hdb as [Hwin Hb Hu Hcm Hdev Hdu Hcnt]. split; simpl; auto.
  - intros o c. rewrite lookup_insert. case_decide; [|apply Hwin].
    intros [= <-]. simpl. unfold MAX_EVENT_CURSOR. lia.
  - intros e He. pose proof (Hb e He) as Hbe. unfold stream_last in *. simpl.
    rewrite lookup_insert. case_decide as Ho; [|done].
    rewrite <- Ho in Hbe. rewrite Ec in Hbe. lia.
  - intros o c k. rewrite lookup_insert. case_decide; [|apply Hcm].
    intros [= <-]. simpl. lia.
Qed.

(** *** The rows a page is read from *)

Lemma elem_of_rows_after owner cursor db e :
  e ∈ rows_after owner cursor db ↔
    e ∈ event_log db ∧ ev_owner_user_id e = owner ∧ cursor < ev_owner_cursor e.
Proof.
  unfold rows_after. rewrite merge_sort_Permutation, list_elem_of_filter. tauto.
Qed.

(** In the resume window the selected rows are a gapless run of cursors. *)
Lemma rows_after_run owner cursor db c :
  events_ok db → cursors db !! owner = Some c →
  oc_minimum_resume_cursor c ≤ cursor ≤ oc_last_cursor c →
  ev_owner_cursor <$> rows_after owner cursor db =
    seqZ (cursor + 1) (oc_last_cursor c - cursor).
Proof.
  intros Hok Hc Hcur. pose proof (eo_unique _ Hok) as Hu.
  apply (StronglySorted_unique Z.le).
  - eapply StronglySorted_fmap; [|apply StronglySorted_merge_sort; apply _].
    by intros x y.
  - apply seqZ_sorted.
  - apply NoDup_Permutation; [|apply NoDup_seqZ|].
    + unfold rows_after. rewrite merge_sort_Permutation.
      apply NoDup_fmap_2_strong; [|by eapply NoDup_filter, NoDup_fmap_1].
      intros x y [[Hx _] Hxl]%list_elem_of_filter [[Hy _] Hyl]%list_elem_of_filter Hxy.
      eapply NoDup_fmap_inj; eauto. simpl. congruence.
    + intros k. rewrite list_elem_of_fmap, elem_of_seqZ. split.
      * intros (e & -> & (Hl & Ho & Hlt)%elem_of_rows_after).
        pose proof (eo_bounds _ Hok e Hl) as Hb. unfold stream_last in Hb.
        rewrite Ho, Hc in Hb. lia.
      * intros Hk. destruct (eo_complete _ Hok owner c k Hc) as (e & ? & ? & ?); [lia|].
        exists e. split; [done|]. apply elem_of_rows_after. split_and!; try done; lia.
Qed.

(** *** Pages *)

Definition sum_bytes (l : list BrowserEvent) : Z :=
  foldr (λ e n, model_dump_json_bytes e + n) 0 l.

Lemma sum_bytes_app l k : sum_bytes (l ++ k) = sum_bytes l + sum_bytes k.
Proof. induction l; simpl; lia. Qed.

(** What the loop consumes is a prefix of the rows; it stops early only at one
    of the two limits, and fails only on a first row that is too large. *)
Lemma page_rows_spec rl bl rows i evs sb :
  i = Z.of_nat (length evs) → sb = sum_bytes evs → i ≤ rl → sb ≤ bl → 0 < rl →
  match page_rows rl bl rows i evs sb with
  | Ok page => ∃ n, (n ≤ length rows)%nat
      ∧ pg_events page = evs ++ (event_of_row <$> take n rows)
      ∧ Z.of_nat (length (pg_events page)) ≤ rl
      ∧ pg_serialized_bytes page = sum_bytes (pg_events page)
      ∧ pg_serialized_bytes page ≤ bl
      ∧ (pg_has_more page = false → n = length rows)
      ∧ (pg_has_more page = true → (n < length rows)%nat ∧ pg_events page ≠ [])
  | Raise exc => evs = [] ∧ ∃ row rest, rows = row :: rest
      ∧ bl < model_dump_json_bytes (event_of_row row)
      ∧ exc = BrowserEventTooLarge (ev_owner_cursor row)
                (model_dump_json_bytes (event_of_row row)) bl
  end.
Proof.
  revert i evs sb. induction rows as [|row rows IH]; intros i evs sb Hi Hs Hrl Hbl Hpos; simpl.
  { exists 0%nat. simpl. rewrite app_nil_r. split_and!; try done; lia. }
  destruct (i =? rl) eqn:Ei; reflect_bools.
  { exists 0%nat. simpl. rewrite app_nil_r. split_and!; try done; try lia.
    intros _. split; [lia|]. intros ->. simpl in *. lia. }
  destruct (bl <? _) eqn:Eb; reflect_bools.
  - destruct evs as [|e evs].
    + split; [done|]. exists row, rows. simpl in *. split_and!; try done; lia.
    + exists 0%nat. simpl in *. rewrite app_nil_r. split_and!; try done; try lia.
      intros _. split; [lia|done].
  - specialize (IH (i + 1) (evs ++ [event_of_row row])
      (sb + model_dump_json_bytes (event_of_row row))).
    rewrite length_app in IH. rewrite sum_bytes_app in IH. simpl in IH.
    specialize (IH ltac:(lia) ltac:(lia) ltac:(lia) ltac:(lia) Hpos).
    destruct (page_rows _ _ _ _ _ _) as [page|exc].
    + destruct IH as (n & Hn & He & Hl & Hb1 & Hb2 & Hf & Ht). exists (S n). simpl.
      rewrite He, <- app_assoc. simpl. rewrite He, <- app_assoc in Hl, Hb1. simpl in Hl, Hb1.
      split_and!; try done; try lia.
      * intros H. specialize (Hf H). lia.
      * intros H. destruct (Ht H) as [? Hne]. split; [lia|]. by destruct evs.
    + destruct IH as [H _]. by destruct evs.
Qed.

(** The result of [catch_up_page] inside the resume window: a gapless run of
    the stream that starts right after the given cursor, or the refusal of a
    first event that does not fit in a page. *)
Definition page_of (db : database) (owner : pystr) (cursor last : Z) (page : BrowserEventPage) :
    Prop :=
  ∃ rows, pg_events page = event_of_row <$> rows
    ∧ (∀ e, e ∈ rows → e ∈ event_log db ∧ ev_owner_user_id e = owner)
    ∧ ev_owner_cursor <$> rows = seqZ (cursor + 1) (Z.of_nat (length rows))
    ∧ cursor + Z.of_nat (length rows) ≤ last
    ∧ Z.of_nat (length rows) ≤ browser_event_catchup_limit settings
    ∧ pg_serialized_bytes page = sum_bytes (pg_events page)
    ∧ pg_serialized_bytes page ≤ browser_event_catchup_max_bytes settings
    ∧ (pg_has_more page = false → cursor + Z.of_nat (length rows) = last)
    ∧ (pg_has_more page = true → rows ≠ [] ∧ cursor + Z.of_nat (length rows) < last).

Lemma take_seqZ (n : nat) m k :
  Z.of_nat n ≤ k → take n (seqZ m k) = seqZ m (Z.of_nat n).
Proof.
  intros Hn. replace k with (Z.of_nat n + (k - Z.of_nat n)) by lia.
  rewrite seqZ_app by lia. rewrite take_app_length'; [done|]. rewrite length_seqZ. lia.
Qed.

Lemma catch_up_page_spec owner cursor w c :
  events_ok (working w) → cursors (working w) !! owner = Some c →
  oc_minimum_resume_cursor c ≤ cursor ≤ oc_last_cursor c →
  0 < browser_event_catchup_limit settings →
  0 < browser_event_catchup_max_bytes settings →
  (∃ page, catch_up_page owner cursor w = (Ok page, w)
     ∧ page_of (working w) owner cursor (oc_last_cursor c) page)
  ∨ (∃ row, row ∈ event_log (working w) ∧ ev_owner_user_id row = owner
     ∧ ev_owner_cursor row = cursor + 1
     ∧ browser_event_catchup_max_bytes settings < model_dump_json_bytes (event_of_row row)
     ∧ catch_up_page owner cursor w =
         (Raise (BrowserEventTooLarge (cursor + 1) (model_dump_json_bytes (event_of_row row))
            (browser_event_catchup_max_bytes settings)), w)).
Proof.
  intros Hok Hc Hcur Hrl Hbl.
  unfold catch_up_page, mbind, tx_bind, query, mret, tx_ret, raise. rewrite Hc. simpl.
  destruct (cursor <? _) eqn:E1; reflect_bools; [lia|].
  destruct (oc_last_cursor c <? cursor) eqn:E2; reflect_bools; [lia|].
  destruct (_ <=? 0) eqn:E3; reflect_bools; [lia|].
  destruct (browser_event_catchup_max_bytes settings <=? 0) eqn:E4; reflect_bools; [lia|].
  pose proof (rows_after_run owner cursor (working w) c Hok Hc Hcur) as Hrun.
  set (rl := browser_event_catchup_limit settings) in *.
  set (all := rows_after owner cursor (working w)) in *.
  set (k := Z.to_nat (rl + 1)).
  assert (Hlen : Z.of_nat (length all) = oc_last_cursor c - cursor).
  { pose proof (f_equal length Hrun) as Hl. rewrite length_fmap, length_seqZ in Hl. lia. }
  assert (Hin : ∀ e, e ∈ all → e ∈ event_log (working w) ∧ ev_owner_user_id e = owner).
  { intros e He%elem_of_rows_after. tauto. }
  pose proof (page_rows_spec rl (browser_event_catchup_max_bytes settings)
    (take k all) 0 [] 0 eq_refl eq_refl) as Hp.
  specialize (Hp (Z.lt_le_incl _ _ Hrl) (Z.lt_le_incl _ _ Hbl) Hrl).
  destruct (page_rows _ _ _ _ _ _) as [page|exc].
  - left. exists page. split; [done|].
    destruct Hp as (n & Hn & He & Hl & Hb1 & Hb2 & Hf & Ht). rewrite length_take in *.
    rewrite app_nil_l, take_take in He.
    replace (n `min` k)%nat with n in He by lia.
    exists (take n all).
    assert (length (take n all) = n) as Hln by (rewrite length_take; lia). rewrite Hln.
    rewrite He, length_fmap, Hln in Hl.
    split_and!; try done.
    + intros e (i & Hi & _)%elem_of_take. by eapply Hin, list_elem_of_lookup_2.
    + rewrite fmap_take, Hrun. apply take_seqZ. lia.
    + lia.
    + intros Hm. specialize (Hf Hm). lia.
    + intros Hm. destruct (Ht Hm) as [? Hne]. split; [|lia].
      intros Hnil. rewrite He, Hnil in Hne. done.
  - right. destruct Hp as (_ & row & rest & Hr & Hbig & ->).
    destruct all as [|row' all'] eqn:Ea; [by destruct k|]. subst k.
    replace (Z.to_nat (rl + 1)) with (S (Z.to_nat rl)) in Hr by lia. simpl in Hr.
    injection Hr as -> _. destruct (Hin row ltac:(left)) as [? ?].
    simpl in Hlen. rewrite seqZ_cons in Hrun by lia. injection Hrun as Hfst _.
    exists row. rewrite Hfst. done.
Qed.

Lemma catch_up_page_reset owner cursor w :
  (match cursors (working w) !! owner with
   | None => cursor ≠ 0
   | Some c => cursor < oc_minimum_resume_cursor c ∨ oc_last_cursor c < cursor
   end) ↔
  ∃ msg, catch_up_page owner cursor w = (Raise (BrowserCursorResetRequired msg), w).
Proof.
  unfold catch_up_page, mbind, tx_bind, query, mret, tx_ret, raise.
  destruct (cursors (working w) !! owner) as [c|]; simpl.
  - destruct (cursor <? _) eqn:E1; reflect_bools; [split; [eauto|lia]|].
    destruct (oc_last_cursor c <? cursor) eqn:E2; reflect_bools; [split; [eauto|lia]|].
    split; [lia|]. intros [msg H].
    destruct (_ <=? 0) eqn:E3; [done|].
    destruct (browser_event_catchup_max_bytes settings <=? 0) eqn:E4; [done|].
    reflect_bools.
    pose proof (page_rows_spec (browser_event_catchup_limit settings)
      (browser_event_catchup_max_bytes settings) (take (Z.to_nat
      (browser_event_catchup_limit settings + 1)) (rows_after owner cursor (working w)))
      0 [] 0 eq_refl eq_refl (Z.lt_le_incl _ _ E3) (Z.lt_le_incl _ _ E4) E3) as Hp.
    destruct (page_rows _ _ _ _ _ _) as [page|exc]; [done|].
    destruct Hp as (_ & row & rest & _ & _ & ->). done.
  - destruct (cursor =? 0) eqn:E; reflect_bools; simpl; [|split; eauto].
    split; [done|]. by intros [? ?].
Qed.

(** *** Pruning *)

Lemma max_cursor_None l : max_cursor l = None → l = [].
Proof. destruct l as [|e l]; simpl; [done|]. by destruct (max_cursor l). Qed.

Lemma max_cursor_ge l m e : max_cursor l = Some m → e ∈ l → ev_owner_cursor e ≤ m.
Proof.
  revert m. induction l as [|x l IH]; intros m Hm He; [by apply not_elem_of_nil in He|].
  simpl in Hm. destruct (max_cursor l) as [m'|] eqn:E; simplify_eq.
  - apply elem_of_cons in He as [->|He]; [lia|]. specialize (IH m' eq_refl He). lia.
  - apply max_cursor_None in E. subst. apply elem_of_cons in He as [->|He]; [lia|].
    by apply not_elem_of_nil in He.
Qed.

Lemma max_cursor_elem l m : max_cursor l = Some m → ∃ e, e ∈ l ∧ ev_owner_cursor e = m.
Proof.
  revert m. induction l as [|x l IH]; intros m Hm; [done|].
  simpl in Hm. destruct (max_cursor l) as [m'|] eqn:E; simplify_eq.
  - destruct (IH m' eq_refl) as (e & He & Hc).
    destruct (Z.max_spec (ev_owner_cursor x) m') as [[_ ->]|[_ ->]].
    + exists e. split; [by right|done].
    + exists x. split; [by left|done].
  - exists x. split; [by left|done].
Qed.

(** [Z.max d] of the greatest cursor of some discarded rows. *)
Definition raise_to (d : Z) (l : list EventLog) : Z :=
  match max_cursor l with Some m => Z.max d m | None => d end.

Lemma raise_to_ge d l : d ≤ raise_to d l.
Proof. unfold raise_to. destruct (max_cursor l); lia. Qed.

Lemma raise_to_bound d l e : e ∈ l → ev_owner_cursor e ≤ raise_to d l.
Proof.
  unfold raise_to. intros He. destruct (max_cursor l) as [m|] eqn:E.
  - pose proof (max_cursor_ge _ _ _ E He). lia.
  - apply max_cursor_None in E. subst. by apply not_elem_of_nil in He.
Qed.

Lemma raise_to_le d l b :
  d ≤ b → (∀ e, e ∈ l → ev_owner_cursor e ≤ b) → raise_to d l ≤ b.
Proof.
  unfold raise_to. intros Hd Hl. destruct (max_cursor l) as [m|] eqn:E; [|done].
  apply max_cursor_elem in E as (e & He & <-). specialize (Hl e He). lia.
Qed.

(** Deleting rows of one owner and raising its resume cursor over them. *)
Definition discard (db : database) (owner : pystr) (c : EventOwnerCursor)
    (Q : EventLog → Prop) `{!∀ e, Decision (Q e)} : database :=
  db <| event_log := filter (λ e, ¬ Q e) (event_log db) |>
     <| cursors := <[owner := c <| oc_minimum_resume_cursor :=
          raise_to (oc_minimum_resume_cursor c) (filter Q (event_log db)) |>]> (cursors db) |>.

Lemma discard_stream_last db owner c (Q : EventLog → Prop) `{!∀ e, Decision (Q e)} :
  cursors db !! owner = Some c →
  ∀ o, stream_last (discard db owner c Q) o = stream_last db o.
Proof.
  intros Hc o. unfold stream_last, discard. simpl. rewrite lookup_insert.
  case_decide as Ho; [|done]. by rewrite <- Ho, Hc.
Qed.

Lemma events_ok_discard db owner c (Q : EventLog → Prop) `{!∀ e, Decision (Q e)} :
  events_ok db → cursors db !! owner = Some c →
  (∀ e, Q e → ev_owner_user_id e = owner) →
  events_ok (discard db owner c Q).
Proof.
  intros Hok Hc Hown. pose proof (raise_to_ge (oc_minimum_resume_cursor c)
    (filter Q (event_log db))) as Hge.
  assert (Hle : raise_to (oc_minimum_resume_cursor c) (filter Q (event_log db))
    ≤ oc_last_cursor c).
  { apply raise_to_le; [by apply (eo_window _ Hok owner)|].
    intros e [HQ He]%list_elem_of_filter. pose proof (eo_bounds _ Hok e He) as Hb.
    unfold stream_last in Hb. rewrite (Hown e HQ), Hc in Hb. lia. }
  pose proof (discard_stream_last db owner c Q Hc) as Hsl.
  split.
  - intros o c'. unfold discard. simpl. rewrite lookup_insert. case_decide.
    + intros [= <-]. simpl. pose proof (eo_window _ Hok owner c Hc). lia.
    + apply (eo_window _ Hok).
  - intros e. rewrite Hsl. unfold discard. simpl. intros [_ He]%list_elem_of_filter.
    by apply (eo_bounds _ Hok).
  - unfold discard. simpl. eapply sublist_NoDup; [apply (eo_unique _ Hok)|].
    apply fmap_sublist, sublist_filter.
  - intros o c' k. unfold discard. simpl. rewrite lookup_insert. case_decide as Ho.
    + intros [= <-]. simpl. intros Hk. subst o.
      destruct (eo_complete _ Hok owner c k Hc ltac:(lia)) as (e & He & Heo & Hek).
      exists e. split; [|done]. apply list_elem_of_filter. split; [|done]. intros HQ.
      pose proof (raise_to_bound (oc_minimum_resume_cursor c) (filter Q (event_log db)) e) as Hb.
      rewrite list_elem_of_filter in Hb. specialize (Hb (conj HQ He)). lia.
    + intros H1 H2. destruct (eo_complete _ Hok _ _ _ H1 H2) as (e & He & Heo & Hek).
      exists e. split; [|done]. apply list_elem_of_filter. split; [|done].
      intros HQ. apply Hown in HQ. congruence.
  - intros e. unfold discard. simpl. intros [_ He]%list_elem_of_filter.
    by apply (eo_device _ Hok).
  - unfold discard. simpl. eapply sublist_NoDup; [apply (eo_device_unique _ Hok)|].
    apply fmap_sublist, sublist_filter.
  - apply (eo_counter _ Hok).
Qed.

(** [prune_owner] is one discard for the expired rows followed, when the owner
    has at least [browser_event_max_per_owner] rows, by one for the overflow. *)
Definition prune_cutoff (t : Z) : Z := t - days (browser_event_retention_days settings).

Definition newest_first (owner : pystr) (db : database) : list EventLog :=
  reverse (merge_sort cursor_le (filter (owned owner) (event_log db))).

Definition pruned (t : Z) (owner : pystr) (c : EventOwnerCursor) (db : database) : database :=
  let db1 := discard db owner c (expired_before owner (prune_cutoff t)) in
  match newest_first owner db1 !! Z.to_nat (browser_event_max_per_owner settings - 1) with
  | None => db1
  | Some threshold =>
      discard db1 owner
        (c <| oc_minimum_resume_cursor := raise_to (oc_minimum_resume_cursor c)
                (filter (expired_before owner (prune_cutoff t)) (event_log db)) |>)
        (below_cursor owner (ev_owner_cursor threshold))
  end.

Lemma prune_owner_run t owner w c :
  cursors (working w) !! owner = Some c →
  ∃ n, prune_owner t owner w =
    (Ok n, w <| working := pruned t owner c (working w) |>
             <| durable := pruned t owner c (working w) |>)
  ∧ n = Z.of_nat (length (event_log (working w)))
        - Z.of_nat (length (event_log (pruned t owner c (working w)))).
Proof.
  intros Hc.
  assert (Hsplit : ∀ (Q : EventLog → Prop) `{!∀ e, Decision (Q e)} l,
    Z.of_nat (length (filter Q l)) = Z.of_nat (length l)
      - Z.of_nat (length (filter (λ e, ¬ Q e) l))).
  { intros Q ? l. rewrite <- (filter_app_complement Q l) at 2. rewrite length_app. lia. }
  unfold prune_owner, mbind, tx_bind, query, modify, commit, mret, tx_ret.
  rewrite Hc. unfold pruned, newest_first, prune_cutoff, discard, raise_to, update_field. simpl.
  destruct (reverse _ !! _) as [th|] eqn:Eth; simpl.
  - eexists. split.
    + by rewrite insert_insert_eq.
    + rewrite (Hsplit (expired_before _ _)), (Hsplit (below_cursor _ _)). lia.
  - eexists. split; [reflexivity|]. rewrite (Hsplit (expired_before _ _)). lia.
Qed.

Lemma pruned_ok t owner c db :
  events_ok db → cursors db !! owner = Some c → events_ok (pruned t owner c db).
Proof.
  intros Hok Hc. unfold pruned.
  assert (H1 : events_ok (discard db owner c (expired_before owner (prune_cutoff t)))).
  { apply events_ok_discard; [done..|]. by intros e [? _]. }
  destruct (newest_first _ _ !! _); [|done].
  apply events_ok_discard; [done| |by intros ? [? _]].
  unfold discard. simpl. by rewrite lookup_insert_eq.
Qed.

(** Pruning only removes rows, and never moves a stream's head. *)
Lemma pruned_sub t owner c db :
  cursors db !! owner = Some c →
  (∀ e, e ∈ event_log (pruned t owner c db) → e ∈ event_log db)
  ∧ ∀ o, stream_last (pruned t owner c db) o = stream_last db o.
Proof.
  intros Hc. unfold pruned. destruct (newest_first _ _ !! _) as [th|].
  - split.
    + intros e. unfold discard. simpl. rewrite !list_elem_of_filter. tauto.
    + intros o. rewrite discard_stream_last; [by apply discard_stream_last|].
      unfold discard. simpl. by rewrite lookup_insert_eq.
  - split; [|by apply discard_stream_last].
    intros e. unfold discard. simpl. rewrite list_elem_of_filter. tauto.
Qed.

Lemma prune_owner_stable t owner : stable events_ok (prune_owner t owner).
Proof.
  intros w Hw Hd. unfold wp. destruct (cursors (working w) !! owner) as [c|] eqn:Hc.
  - destruct (prune_owner_run t owner w c Hc) as (n & -> & _). simpl.
    by split; apply pruned_ok.
  - unfold prune_owner, mbind, tx_bind, query. rewrite Hc. done.
Qed.

Lemma prune_stable t : stable events_ok (prune t).
Proof.
  unfold prune. destruct t; solve_stable; apply prune_owner_stable.
Qed.

(** Rows past index [n] of [newest_first] are strictly older than the row there. *)
Lemma newest_first_drop owner db n th e :
  events_ok db → newest_first owner db !! n = Some th → e ∈ drop (S n) (newest_first owner db) →
  below_cursor owner (ev_owner_cursor th) e.
Proof.
  intros Hok Hth He. set (s := newest_first owner db) in *.
  assert (Hperm : s ≡ₚ filter (owned owner) (event_log db)).
  { subst s. unfold newest_first. by rewrite reverse_Permutation, merge_sort_Permutation. }
  assert (Hin : ∀ x, x ∈ s → ev_owner_user_id x = owner ∧ x ∈ event_log db).
  { intros x. rewrite Hperm, list_elem_of_filter. done. }
  assert (Hnd : NoDup s).
  { rewrite Hperm. by eapply NoDup_filter, NoDup_fmap_1, (eo_unique _ Hok). }
  pose proof (take_drop_middle s n th Hth) as Hs.
  assert (Hsort : StronglySorted cursor_le (reverse s)).
  { subst s. unfold newest_first. rewrite reverse_involutive.
    apply StronglySorted_merge_sort; apply _. }
  destruct (Hin e) as [Heo Hel].
  { rewrite <- Hs. apply elem_of_app. right. by right. }
  destruct (Hin th) as [Hto Htl]; [by eapply list_elem_of_lookup_2|].
  split; [done|].
  assert (Hle : cursor_le e th).
  { rewrite <- Hs, reverse_app, reverse_cons, <- app_assoc in Hsort.
    eapply StronglySorted_app_1_elem_of; [exact Hsort|by apply elem_of_reverse|].
    apply elem_of_app. left. by apply list_elem_of_singleton. }
  unfold cursor_le in Hle. apply Z.le_neq. split; [done|]. intros Heq.
  assert (e = th) as ->.
  { eapply NoDup_fmap_inj; [apply (eo_unique _ Hok)|done..|]. simpl. congruence. }
  rewrite <- Hs in Hnd. apply NoDup_app in Hnd as (_ & _ & [Hni _]%NoDup_cons). done.
Qed.

(** The owner keeps at most the configured number of rows. *)
Lemma pruned_bound t owner c db :
  events_ok db → cursors db !! owner = Some c → 0 < browser_event_max_per_owner settings →
  Z.of_nat (length (filter (owned owner) (event_log (pruned t owner c db))))
    ≤ browser_event_max_per_owner settings.
Proof.
  intros Hok Hc Hpos. unfold pruned.
  set (db1 := discard db owner c (expired_before owner (prune_cutoff t))).
  assert (Hok1 : events_ok db1).
  { apply events_ok_discard; [done..|]. by intros e [? _]. }
  assert (Hperm : filter (owned owner) (event_log db1) ≡ₚ newest_first owner db1).
  { unfold newest_first. by rewrite reverse_Permutation, merge_sort_Permutation. }
  clearbody db1. set (m := browser_event_max_per_owner settings) in *.
  destruct (newest_first _ _ !! _) as [th|] eqn:Eth.
  2:{ apply lookup_ge_None_1 in Eth. rewrite Hperm. lia. }
  unfold discard at 1. simpl. rewrite filter_swap, Hperm.
  rewrite <- (take_drop (S (Z.to_nat (m - 1))) (newest_first owner db1)), filter_app.
  rewrite (Forall_filter_nil _ (drop _ _)).
  - rewrite app_nil_r. etrans; [apply inj_le, length_filter|]. rewrite length_take. lia.
  - apply Forall_forall. intros x Hx Hnot. by eapply Hnot, newest_first_drop.
Qed.
(** The owner's window after pruning, and which rows are gone. *)
Lemma pruned_window t owner c db :
  cursors db !! owner = Some c →
  ∃ c', cursors (pruned t owner c db) !! owner = Some c'
    ∧ oc_last_cursor c' = oc_last_cursor c
    ∧ oc_minimum_resume_cursor c ≤ oc_minimum_resume_cursor c'
    ∧ (∀ e, e ∈ event_log (pruned t owner c db) →
         e ∈ event_log db ∧ ¬ expired_before owner (prune_cutoff t) e)
    ∧ (∀ e, e ∈ event_log db → e ∉ event_log (pruned t owner c db) →
         ev_owner_user_id e = owner ∧ ev_owner_cursor e ≤ oc_minimum_resume_cursor c').
Proof.
  intros Hc. unfold pruned. destruct (newest_first _ _ !! _) as [th|]; unfold discard; simpl;
    (eexists; split; [apply lookup_insert_eq|]; simpl; split; [done|]).
  - split; [etrans; apply raise_to_ge|]. split.
    + intros e. rewrite !list_elem_of_filter. tauto.
    + intros e He Hn. rewrite !list_elem_of_filter in Hn.
      destruct (decide (expired_before owner (prune_cutoff t) e)) as [Hx|Hx].
      * split; [apply Hx|]. etrans; [|apply raise_to_ge]. apply raise_to_bound.
        by apply list_elem_of_filter.
      * destruct (decide (below_cursor owner (ev_owner_cursor th) e)) as [Hb|Hb]; [|tauto].
        split; [apply Hb|]. apply raise_to_bound. rewrite !list_elem_of_filter. done.
  - split; [apply raise_to_ge|]. split.
    + intros e. rewrite list_elem_of_filter. tauto.
    + intros e He Hn. rewrite list_elem_of_filter in Hn.
      destruct (decide (expired_before owner (prune_cutoff t) e)) as [Hx|Hx]; [|tauto].
      split; [apply Hx|]. apply raise_to_bound. by apply list_elem_of_filter.
Qed.
End events_theory.

#[export] Hint Resolve append_stable lock_owner_cursor_stable prune_stable : stable.

(** ** Invariants of other tables

    [EventFree I]: [I] does not depend on what the event service, the audit
    table and the event counter of a device hold, so appending events and
    audit records keeps it. *)

Class EventFree (I : database → Prop) := {
  ef_counter db dev d n : I db → devices db !! dev = Some d →
    I (db <| devices := <[dev := d <| d_last_event_sequence := n |>]> (devices db) |>);
  ef_cursors db c : I db → I (db <| cursors := c |>);
  ef_log db l : I db → I (db <| event_log := l |>);
  ef_audit db l : I db → I (db <| audit := l |>);
}.

Section event_free.
Context {P : Platform} (I : database → Prop) {EF : EventFree I}.

Lemma append_event_free owner dev ty data tb occ : stable I (append owner dev ty data tb occ).
Proof.
  unfold append, _allocate_owner_cursor. intros w H1 H2.
  unfold wp, mbind, tx_bind, query, modify, raise, mret, tx_ret.
  destruct (devices (working w) !! dev) as [d|] eqn:Hd; simpl; [|done].
  case_bool_decide; [|done]. destruct (d_last_event_sequence d <? _); simpl; [|done].
  pose proof (ef_counter _ dev d (d_last_event_sequence d + 1) H1 Hd) as H3.
  destruct (cursors (working w) !! owner) as [c|]; simpl.
  - destruct (oc_last_cursor c <? _); simpl; [|done].
    destruct occ; simpl; split; try done; by apply ef_log, ef_cursors.
  - destruct occ; simpl; split; try done; by apply ef_log, ef_cursors.
Qed.

Lemma lock_owner_cursor_event_free owner : stable I (lock_owner_cursor owner).
Proof.
  unfold lock_owner_cursor. apply stable_bind; [|intros; apply stable_query].
  apply stable_modify. intros db Hdb. destruct (cursors db !! owner); [done|]. by apply ef_cursors.
Qed.

Lemma add_audit_event_free a b c d e f g h i : stable I (add_audit a b c d e f g h i).
Proof.
  unfold add_audit. apply stable_bind; [apply stable_now|]. intros t.
  apply stable_modify. intros db Hdb. by apply ef_audit.
Qed.

Lemma publish_event_stable owner ev : stable I (publish_event owner ev).
Proof. apply stable_publish. Qed.
End event_free.

#[export] Hint Resolve append_event_free lock_owner_cursor_event_free add_audit_event_free
  publish_event_stable : stable.

(** ** What the stream promises *)

Section event_claims.
Context {P : Platform}.

(** C5: every operation of [EventService] that writes (append, the cursor lock
    of a snapshot, emit, prune) keeps the stream invariant in the session and
    in the committed state, whether it returns or raises: cursors are unique,
    never beyond the head, and no cursor of the resume window is missing. *)
Theorem event_stream_invariant owner dev ty data tb occ t :
  stable events_ok (append owner dev ty data tb occ)
  ∧ stable events_ok (emit_event owner dev ty data tb occ)
  ∧ stable events_ok (lock_owner_cursor owner)
  ∧ stable events_ok (catch_up owner t)
  ∧ stable events_ok (prune (Some t)) ∧ stable events_ok (prune None).
Proof.
  split_and!; [by auto with stable| |by auto with stable| |by auto with stable..].
  - unfold emit_event, publish_event. solve_stable.
  - unfold catch_up, catch_up_page. solve_stable.
Qed.

(** For a device of the owner, [append] returns an event with the next
    owner cursor and the given contents, adds exactly one row (with the
    device's next sequence) at the end of the log, touches no other device or
    owner, and neither commits nor publishes. *)
Theorem append_next_event owner dev ty data tb occ w d :
  devices (working w) !! dev = Some d → d_owner_user_id d = owner →
  d_last_event_sequence d < MAX_EVENT_CURSOR →
  stream_last (working w) owner < MAX_EVENT_CURSOR →
  ∃ e w', append owner dev ty data tb occ w = (Ok (event_of_row e), w')
    ∧ event_log (working w') = event_log (working w) ++ [e]
    ∧ ev_owner_user_id e = owner ∧ ev_device_id e = dev ∧ ev_thread_binding_id e = tb
    ∧ ev_event_type e = ty ∧ ev_payload e = data
    ∧ ev_owner_cursor e = stream_last (working w) owner + 1
    ∧ ev_sequence e = d_last_event_sequence d + 1
    ∧ devices (working w') =
        <[dev := d <| d_last_event_sequence := d_last_event_sequence d + 1 |>]> (devices (working w))
    ∧ (∀ o, stream_last (working w') o =
         if decide (o = owner) then stream_last (working w) owner + 1 else stream_last (working w) o)
    ∧ durable w' = durable w ∧ effects w' = effects w.
Proof.
  intros Hd Ho Hs Hl.
  destruct (append_run owner dev ty data tb occ w d Hd Ho Hs Hl)
    as (e & c & w' & Hrun & Hw & Hdur & Heff & _ & He1 & He2 & He3 & He4 & He5 & _ & Hq & Hc1 & Hc2 & _).
  exists e, w'. split_and!; try done; rewrite ?Hw; try done.
  - unfold extend. simpl. by rewrite He2, Hq.
  - intros o. rewrite stream_last_extend, He1. repeat case_decide; congruence.
Qed.

(** A browser that resumes inside the owner's window gets a page whose
    events are exactly the next cursors after its own, without a gap, within
    the row and byte limits; [has_more] is false exactly when the page reaches
    the head.  The only other outcome is the explicit refusal of a first event
    that is larger than a page. *)
Theorem catch_up_page_gapless owner cursor w c :
  events_ok (working w) → cursors (working w) !! owner = Some c →
  oc_minimum_resume_cursor c ≤ cursor ≤ oc_last_cursor c →
  0 < browser_event_catchup_limit settings →
  0 < browser_event_catchup_max_bytes settings →
  (∃ page, catch_up_page owner cursor w = (Ok page, w)
     ∧ page_of (working w) owner cursor (oc_last_cursor c) page)
  ∨ (∃ row, row ∈ event_log (working w) ∧ ev_owner_user_id row = owner
     ∧ ev_owner_cursor row = cursor + 1
     ∧ browser_event_catchup_max_bytes settings < model_dump_json_bytes (event_of_row row)
     ∧ catch_up_page owner cursor w =
         (Raise (BrowserEventTooLarge (cursor + 1) (model_dump_json_bytes (event_of_row row))
            (browser_event_catchup_max_bytes settings)), w)).
Proof. apply catch_up_page_spec. Qed.

(** [catch_up_page] asks the browser to reset exactly when its cursor is
    below the resume window or ahead of the stream. *)
Theorem catch_up_reset_exact owner cursor w :
  (match cursors (working w) !! owner with
   | None => cursor ≠ 0
   | Some c => cursor < oc_minimum_resume_cursor c ∨ oc_last_cursor c < cursor
   end) ↔
  ∃ msg, catch_up_page owner cursor w = (Raise (BrowserCursorResetRequired msg), w).
Proof. apply catch_up_page_reset. Qed.

(** Pruning an owner commits, keeps the stream's head and the other rows'
    contents, leaves at most [browser_event_max_per_owner] rows of the owner
    and no row older than the retention, and raises the resume cursor over
    every row it deletes: a later browser is told to reset instead of silently
    missing events. *)
Theorem prune_owner_retention t owner w c :
  events_ok (working w) → cursors (working w) !! owner = Some c →
  0 < browser_event_max_per_owner settings →
  ∃ n w' c', prune_owner t owner w = (Ok n, w')
    ∧ durable w' = working w' ∧ events_ok (working w')
    ∧ cursors (working w') !! owner = Some c'
    ∧ oc_last_cursor c' = oc_last_cursor c
    ∧ oc_minimum_resume_cursor c ≤ oc_minimum_resume_cursor c'
    ∧ Z.of_nat (length (filter (owned owner) (event_log (working w'))))
        ≤ browser_event_max_per_owner settings
    ∧ (∀ e, e ∈ event_log (working w') → e ∈ event_log (working w)
         ∧ ¬ expired_before owner (prune_cutoff t) e)
    ∧ (∀ e, e ∈ event_log (working w) → e ∉ event_log (working w') →
         ev_owner_user_id e = owner ∧ ev_owner_cursor e ≤ oc_minimum_resume_cursor c').
Proof.
  intros Hok Hc Hmax. destruct (prune_owner_run t owner w c Hc) as (n & Hrun & _).
  destruct (pruned_window t owner c (working w) Hc) as (c' & Hc' & Hl & Hm & Hin & Hout).
  exists n. eexists. exists c'. split; [exact Hrun|]. simpl.
  split_and!; try done; [by apply pruned_ok|by apply pruned_bound].
Qed.
End event_claims.

(** ** A stream on the testbed: two events of the sample device *)

Definition sample_append : tx BrowserEvent :=
  append "alice" 1%N DeviceUpdated (JObj [("id", JInt 1)]) None None.

Definition sample_stream : world :=
  after (sample_append;; sample_append) (start_world sample_database).

Lemma sample_database_events : events_ok sample_database.
Proof.
  apply (events_ok_same_stream empty_database); [done..| |apply events_ok_empty].
  intros id d' Hd. change (({[1%N := sample_device]} : gmap uuid Device) !! id = Some d') in Hd.
  apply lookup_singleton_Some in Hd as [<- <-]. done.
Qed.

Lemma sample_stream_ok : events_ok (working sample_stream).
Proof.
  assert (stable events_ok (sample_append;; sample_append)) as H.
  { unfold sample_append. solve_stable. }
  apply (H (start_world sample_database)); apply sample_database_events.
Qed.

Definition sample_cursor : EventOwnerCursor :=
  {| oc_last_cursor := 2; oc_minimum_resume_cursor := 0 |}.

Lemma append_next_event_witness :
  ∃ e w', append "alice" 1%N TurnDelta JNull None None sample_stream = (Ok (event_of_row e), w')
    ∧ ev_owner_cursor e = 3 ∧ ev_sequence e = 3.
Proof.
  destruct (append_next_event "alice" 1%N TurnDelta JNull None None sample_stream
    (sample_device <| d_last_event_sequence := 2 |>))
    as (e & w' & ? & _ & _ & _ & _ & _ & _ & Hc & Hs & _);
    [vm_compute; reflexivity..|].
  exists e, w'. split; [done|]. split; [exact Hc|exact Hs].
Defined.

Lemma catch_up_page_gapless_witness :
  ∃ page, catch_up_page "alice" 1 sample_stream = (Ok page, sample_stream)
    ∧ page_of (working sample_stream) "alice" 1 2 page.
Proof.
  destruct (catch_up_page_gapless "alice" 1 sample_stream sample_cursor sample_stream_ok)
    as [H|(row & _ & _ & _ & _ & H)]; [vm_compute; reflexivity|by vm_compute|done|done|exact H|].
  apply (f_equal (λ r, match r.1 with Ok _ => true | Raise _ => false end)) in H.
  vm_compute in H. discriminate H.
Defined.

Lemma prune_owner_retention_witness :
  ∃ n w' c', prune_owner (start_micros + days 60) "alice" sample_stream = (Ok n, w')
    ∧ cursors (working w') !! ("alice" : pystr) = Some c' ∧ oc_last_cursor c' = 2.
Proof.
  destruct (prune_owner_retention (start_micros + days 60) "alice" sample_stream sample_cursor
    sample_stream_ok) as (n & w' & c' & ? & _ & _ & Hc & Hl & _);
    [vm_compute; reflexivity|done|].
  exists n, w', c'. split; [done|]. split; [exact Hc|exact Hl].
Defined.

(** ** What appending leaves alone

    [event_update db db']: [db'] differs from [db] in the event tables, the
    audit table and the devices' event counters only. *)

Definition counter_update (d d' : Device) : Prop :=
  d' = d <| d_last_event_sequence := d_last_event_sequence d' |>.

Record event_update (db db' : database) : Prop := {
  eu_devices id : option_Forall2 counter_update (devices db !! id) (devices db' !! id);
  eu_connections : connections db' = connections db;
  eu_outbox : outbox db' = outbox db;
  eu_threads : threads db' = threads db;
  eu_commands : commands db' = commands db;
  eu_approvals : approvals db' = approvals db;
  eu_sessions : sessions db' = sessions db;
  eu_pairings : pairings db' = pairings db;
}.

#[export] Instance counter_update_refl : Reflexive counter_update.
Proof. by intros []. Qed.

#[export] Instance event_update_refl : Reflexive event_update.
Proof. intros db. by split. Qed.

#[export] Instance event_update_trans : Transitive event_update.
Proof.
  intros a b c [D1 ? ? ? ? ? ? ?] [D2 ? ? ? ? ? ? ?]. split; try congruence.
  intros id. specialize (D1 id). specialize (D2 id).
  destruct D1 as [x y Hxy|]; inversion D2 as [y' z Hyz E1 E2|E1 E2]; subst; constructor.
  unfold counter_update in *. etrans; [exact Hyz|]. rewrite Hxy. reflexivity.
Qed.

Lemma event_update_device db db' id d :
  event_update db db' → devices db !! id = Some d →
  ∃ d', devices db' !! id = Some d' ∧ counter_update d d'.
Proof.
  intros [D _ _ _ _ _ _ _] Hd. specialize (D id). rewrite Hd in D.
  inversion D as [x y Hxy E1 E2|]; subst. eauto.
Qed.

Section event_wp.
Context {P : Platform}.

Lemma event_update_counter db id d n :
  devices db !! id = Some d →
  event_update db (db <| devices := <[id := d <| d_last_event_sequence := n |>]> (devices db) |>).
Proof.
  intros Hd. split; try done. intros i. simpl. rewrite lookup_insert. case_decide as Hi.
  - rewrite <- Hi, Hd. by constructor.
  - destruct (devices db !! i); constructor. reflexivity.
Qed.

Lemma append_world owner dev ty data tb occ w :
  event_update (working w) (working (append owner dev ty data tb occ w).2)
  ∧ durable (append owner dev ty data tb occ w).2 = durable w.
Proof.
  unfold append, _allocate_owner_cursor, mbind, tx_bind, query, modify, raise, mret, tx_ret.
  destruct (devices (working w) !! dev) as [d|] eqn:Hd; simpl; [|by split].
  case_bool_decide; simpl; [|by split].
  destruct (d_last_event_sequence d <? MAX_EVENT_CURSOR); simpl; [|by split].
  destruct (event_update_counter _ _ _ (d_last_event_sequence d + 1) Hd) as [D _ _ _ _ _ _ _].
  destruct (cursors (working w) !! owner) as [c|]; simpl.
  - destruct (oc_last_cursor c <? MAX_EVENT_CURSOR); simpl; [destruct occ; simpl|];
      (split; [by split|done]).
  - destruct occ; simpl; (split; [by split|done]).
Qed.

Lemma wp_append owner dev ty data tb occ (Q : outcome BrowserEvent → world → Prop) w :
  (∀ r w', event_update (working w) (working w') → durable w' = durable w → Q r w') →
  wp (append owner dev ty data tb occ) Q w.
Proof. intros HQ. destruct (append_world owner dev ty data tb occ w). by apply HQ. Qed.

Lemma lock_owner_cursor_run owner w :
  ∃ n w', lock_owner_cursor owner w = (Ok n, w') ∧ event_update (working w) (working w')
    ∧ durable w' = durable w ∧ ticks w' = ticks w.
Proof.
  eexists _, _. split; [reflexivity|]. simpl. split; [|done].
  by destruct (cursors (working w) !! owner).
Qed.

Lemma wp_lock_owner_cursor owner (Q : outcome Z → world → Prop) w :
  (∀ n w', event_update (working w) (working w') → durable w' = durable w → Q (Ok n) w') →
  wp (lock_owner_cursor owner) Q w.
Proof.
  intros HQ. apply HQ; [|done]. simpl. by destruct (cursors (working w) !! owner).
Qed.

Lemma wp_add_audit a b c d e f g h i (Q : outcome unit → world → Prop) w :
  (∀ w', event_update (working w) (working w') → durable w' = durable w → Q (Ok tt) w') →
  wp (add_audit a b c d e f g h i) Q w.
Proof. intros HQ. by apply HQ. Qed.
End event_wp.
