(* ===== verification/BrowserStream.v ===== *)
(** * The browser event channel ([RealtimeService], browser side)

    A browser WebSocket drains the durable stream page by page, both on connect
    ([handle_browser]) and on every wake-up ([_forward_browser_queue]); the
    notifications are only prompts.  The file models that drain loop, the
    interleaving of its page reads with other transactions, the gate that
    stops deliveries while a session is being verified again, and the leases
    that bound the number of sockets. *)

From stdpp Require Import base list gmap.
From Stdlib Require Import NArith ZArith Lia.
From S2P Require Import Prelude Config Json Models Storage World Testbed Events.
Open Scope Z_scope.

(** ** The drain loop *)

Section drain.
Context {P : Platform}.

(** [_send_browser_event_when_authorized]: the frame goes out, or a send
    timeout closes the socket. *)
Definition send_browser_event (ws : uuid) (event : BrowserEvent) : tx unit := λ w,
  if send_up (ticks w) then emit (EEvent ws event) (w <| ticks := S (ticks w) |>)
  else (Raise (BrowserSocketClose 1013 "browser event delivery unavailable"),
        w <| ticks := S (ticks w) |>).

(** [for event in page.events: send; latest_cursor[0] = int(event.cursor)]. *)
Fixpoint send_page (ws : uuid) (events : list BrowserEvent) (latest_cursor : Z) : tx Z :=
  match events with
  | [] => mret latest_cursor
  | event :: events =>
      send_browser_event ws event;;
      send_page ws events (py_int (be_cursor event))
  end.

Definition reset_to_close {A} (e : exn) : tx A :=
  match e with
  | BrowserCursorResetRequired _ =>
      raise (BrowserSocketClose 4409 "event cursor requires bootstrap")
  | e => raise e
  end.

(** The inner [while True] loop; [None] is running out of fuel. *)
Fixpoint forward_pages (fuel : nat) (ws : uuid) (owner_user_id : pystr) (latest_cursor : Z) :
    tx (option Z) :=
  match fuel with
  | O => mret None
  | S fuel =>
      page ← with_session (try_catch (catch_up_page owner_user_id latest_cursor) reset_to_close);
      latest_cursor ← send_page ws (pg_events page) latest_cursor;
      if negb (pg_has_more page) then mret (Some latest_cursor)
      else forward_pages fuel ws owner_user_id latest_cursor
  end.
End drain.

Section drain_theory.
Context {P : Platform}.

Definition next_cursor (latest : Z) (events : list BrowserEvent) : Z :=
  foldl (λ _ e, py_int (be_cursor e)) latest events.

Lemma send_page_ok ws events latest w :
  (∀ n, send_up n = true) →
  send_page ws events latest w =
    (Ok (next_cursor latest events),
     w <| ticks := (ticks w + length events)%nat |>
       <| effects := effects w ++ (EEvent ws <$> events) |>).
Proof.
  intros Hup. revert latest w. induction events as [|e events IH]; intros latest w; simpl.
  - destruct w. unfold update_field, mret, tx_ret. simpl. by rewrite Nat.add_0_r, app_nil_r.
  - unfold mbind, tx_bind, send_browser_event at 1. rewrite Hup. simpl. rewrite IH.
    unfold update_field. simpl. rewrite <- app_assoc. simpl.
    by replace (ticks w + S (length events))%nat with (S (ticks w + length events)) by lia.
Qed.

Lemma next_cursor_run latest rows :
  0 ≤ latest →
  ev_owner_cursor <$> rows = seqZ (latest + 1) (Z.of_nat (length rows)) →
  next_cursor latest (event_of_row <$> rows) = latest + Z.of_nat (length rows).
Proof.
  intros Hl. induction rows as [|row rows _] using rev_ind; simpl; [lia|].
  rewrite fmap_app, length_app. simpl. unfold next_cursor. rewrite fmap_app, foldl_app. simpl.
  replace (Z.of_nat (length rows + 1)) with (Z.of_nat (length rows) + 1) by lia.
  rewrite seqZ_app by lia. intros H. apply app_inj_2 in H as [_ H]; [|done].
  rewrite seqZ_cons in H by lia. injection H as H. rewrite py_int_str by lia. lia.
Qed.

(** The page as [forward_pages] reads it, from the committed state. *)
Lemma session_page owner cursor w c :
  events_ok (durable w) → cursors (durable w) !! owner = Some c →
  oc_minimum_resume_cursor c ≤ cursor ≤ oc_last_cursor c →
  0 < browser_event_catchup_limit settings →
  (∀ e, e ∈ event_log (durable w) →
     0 < model_dump_json_bytes (event_of_row e) ≤ browser_event_catchup_max_bytes settings) →
  0 < browser_event_catchup_max_bytes settings →
  ∃ page, with_session (try_catch (catch_up_page owner cursor) reset_to_close) w =
      (Ok page, w <| working := durable w |>)
    ∧ page_of (durable w) owner cursor (oc_last_cursor c) page.
Proof.
  intros Hok Hc Hcur Hrl Hfit Hbl. unfold with_session, try_catch.
  destruct (catch_up_page_spec owner cursor (w <| working := durable w |>) c)
    as [(page & -> & Hp)|(row & Hrow & _ & _ & Hbig & _)]; [done..|by eauto|].
  specialize (Hfit row Hrow). lia.
Qed.
End drain_theory.


Section drain_claims.
Context {P : Platform}.

(** A gapless run of an owner's rows is the start of the rows after the cursor. *)
Lemma rows_after_split owner cursor db c rows :
  events_ok db → cursors db !! owner = Some c →
  oc_minimum_resume_cursor c ≤ cursor →
  cursor + Z.of_nat (length rows) ≤ oc_last_cursor c →
  (∀ e, e ∈ rows → e ∈ event_log db ∧ ev_owner_user_id e = owner) →
  ev_owner_cursor <$> rows = seqZ (cursor + 1) (Z.of_nat (length rows)) →
  rows_after owner cursor db = rows ++ rows_after owner (cursor + Z.of_nat (length rows)) db.
Proof.
  intros Hok Hc Hmin Hle Hin Hrun. apply (fmap_inj_on ev_owner_cursor).
  - intros x y (Hx & Hxo & _)%elem_of_rows_after Hy Hxy.
    assert (y ∈ event_log db ∧ ev_owner_user_id y = owner) as [Hyl Hyo].
    { apply elem_of_app in Hy as [Hy|Hy%elem_of_rows_after]; [by apply Hin|tauto]. }
    eapply NoDup_fmap_inj; [apply (eo_unique _ Hok)|done..|]. simpl. congruence.
  - rewrite fmap_app, Hrun. rewrite !(rows_after_run _ _ _ c) by (done || lia).
    replace (oc_last_cursor c - cursor) with
      (Z.of_nat (length rows) + (oc_last_cursor c - (cursor + Z.of_nat (length rows)))) by lia.
    rewrite seqZ_app by lia. do 2 f_equal; lia.
Qed.

Lemma forward_pages_run fuel ws owner cursor w c :
  events_ok (durable w) → cursors (durable w) !! owner = Some c →
  oc_minimum_resume_cursor c ≤ cursor ≤ oc_last_cursor c →
  0 < browser_event_catchup_limit settings →
  0 < browser_event_catchup_max_bytes settings →
  (∀ e, e ∈ event_log (durable w) →
     0 < model_dump_json_bytes (event_of_row e) ≤ browser_event_catchup_max_bytes settings) →
  (∀ n, send_up n = true) →
  (Z.to_nat (oc_last_cursor c - cursor) < fuel)%nat →
  ∃ w', forward_pages fuel ws owner cursor w = (Ok (Some (oc_last_cursor c)), w')
    ∧ durable w' = durable w
    ∧ effects w' = effects w ++ (EEvent ws ∘ event_of_row <$> rows_after owner cursor (durable w)).
Proof.
  revert cursor w. induction fuel as [|fuel IH];
    intros cursor w Hok Hc Hcur Hrl Hbl Hfit Hup Hfuel; [lia|].
  destruct (session_page owner cursor w c) as (page & Hpage & Hof); [done..|].
  destruct Hof as (rows & Hev & Hin & Hrun & Hle & _ & _ & _ & Hlast & Hmore).
  assert (Hpos : 0 ≤ cursor) by (pose proof (eo_window _ Hok owner c Hc); lia).
  simpl. unfold mbind at 1, tx_bind at 1. rewrite Hpage.
  unfold mbind at 1, tx_bind at 1. rewrite send_page_ok by done. rewrite Hev.
  rewrite next_cursor_run by done.
  rewrite (rows_after_split owner cursor (durable w) c rows) by (done || lia).
  destruct (pg_has_more page); simpl.
  - destruct (Hmore eq_refl) as [Hne Hlt].
    assert (0 < Z.of_nat (length rows)) by (destruct rows; [done|simpl; lia]).
    edestruct (IH (cursor + Z.of_nat (length rows))) as (w' & -> & Hd & He);
      try done; simpl; [lia|lia|].
    exists w'. split; [done|]. rewrite Hd, He. simpl.
    split; [done|]. rewrite fmap_app, app_assoc. by rewrite <- list_fmap_compose.
  - rewrite (Hlast eq_refl). eexists. split; [reflexivity|]. simpl. split; [done|].
    assert (rows_after owner (oc_last_cursor c) (durable w) = []) as ->.
    { apply (fmap_nil_inv ev_owner_cursor). rewrite (rows_after_run _ _ _ c) by (done || lia).
      apply seqZ_nil. lia. }
    by rewrite app_nil_r, <- list_fmap_compose.
Qed.
End drain_claims.

(** ** Page reads interleaved with other transactions

    Between two page reads of a socket any number of events can be appended
    and pruned, by any instance.  [history] is a ghost list: the owner's events
    after the cursor the browser resumed from, in the order they were
    appended, whether or not they are still in the log. *)

Record browser := {
  br_db : database;
  br_history : list EventLog;
  br_latest : Z;
  br_sent : list BrowserEvent;
  br_closed : bool;
}.

Section interleaving.
Context {P : Platform} (owner : pystr) (start : Z).

Definition browser_init (db : database) : browser :=
  {| br_db := db; br_history := rows_after owner start db; br_latest := start;
     br_sent := []; br_closed := false |}.

Inductive browser_step : browser → browser → Prop :=
| br_append s o dev ty data tb occ w w' ev e :
    working w = br_db s →
    durable w = br_db s →
    append o dev ty data tb occ w = (Ok ev, w') →
    event_log (working w') = event_log (br_db s) ++ [e] →
    browser_step s {| br_db := working w'; br_history := br_history s ++ filter (owned owner) [e];
                      br_latest := br_latest s; br_sent := br_sent s; br_closed := br_closed s |}
| br_prune s t o w w' n :
    working w = br_db s →
    durable w = br_db s →
    prune_owner t o w = (Ok n, w') →
    browser_step s {| br_db := working w'; br_history := br_history s;
                      br_latest := br_latest s; br_sent := br_sent s; br_closed := br_closed s |}
| br_page s w page k :
    br_closed s = false →
    working w = br_db s →
    catch_up_page owner (br_latest s) w = (Ok page, w) →
    (** the sends of the page succeed up to index [k]; a failure closes the socket *)
    browser_step s {| br_db := br_db s; br_history := br_history s;
      br_latest := next_cursor (br_latest s) (take k (pg_events page));
      br_sent := br_sent s ++ take k (pg_events page);
      br_closed := bool_decide (k < length (pg_events page))%nat |}
| br_reset s w msg :
    br_closed s = false →
    working w = br_db s →
    catch_up_page owner (br_latest s) w = (Raise (BrowserCursorResetRequired msg), w) →
    browser_step s {| br_db := br_db s; br_history := br_history s; br_latest := br_latest s;
                      br_sent := br_sent s; br_closed := true |}.

Record browser_ok (s : browser) : Prop := {
  bo_events : events_ok (br_db s);
  bo_history : ev_owner_cursor <$> br_history s
    = seqZ (start + 1) (Z.of_nat (length (br_history s)));
  bo_last : stream_last (br_db s) owner = start + Z.of_nat (length (br_history s));
  bo_log e : e ∈ event_log (br_db s) → ev_owner_user_id e = owner → start < ev_owner_cursor e →
    e ∈ br_history s;
  bo_latest : 0 ≤ start ≤ br_latest s;
  bo_sent : br_sent s = event_of_row <$> take (Z.to_nat (br_latest s - start)) (br_history s);
  bo_bound : br_latest s ≤ stream_last (br_db s) owner;
}.

Lemma browser_init_ok db c :
  events_ok db → cursors db !! owner = Some c →
  oc_minimum_resume_cursor c ≤ start ≤ oc_last_cursor c →
  browser_ok (browser_init db).
Proof.
  intros Hok Hc Hs. pose proof (rows_after_run owner start db c Hok Hc Hs) as Hrun.
  pose proof (f_equal length Hrun) as Hl. rewrite length_fmap, length_seqZ in Hl.
  pose proof (eo_window _ Hok owner c Hc) as Hwin.
  assert (Hsl : stream_last db owner = oc_last_cursor c) by (unfold stream_last; by rewrite Hc).
  split; simpl; try done.
  - rewrite Hrun. f_equal. lia.
  - rewrite Hsl. lia.
  - intros e He Ho Hlt. by apply elem_of_rows_after.
  - lia.
  - by replace (Z.to_nat (start - start)) with 0%nat by lia.
  - rewrite Hsl. lia.
Qed.

(** The reads of a page that succeeds. *)
Lemma catch_up_page_inv cursor w page :
  events_ok (working w) → catch_up_page owner cursor w = (Ok page, w) →
  ∃ rows, pg_events page = event_of_row <$> rows
    ∧ (∀ e, e ∈ rows → e ∈ event_log (working w) ∧ ev_owner_user_id e = owner)
    ∧ ev_owner_cursor <$> rows = seqZ (cursor + 1) (Z.of_nat (length rows))
    ∧ cursor + Z.of_nat (length rows) ≤ stream_last (working w) owner.
Proof.
  intros Hok Hrun.
  destruct (cursors (working w) !! owner) as [c|] eqn:Hc.
  - destruct (decide (oc_minimum_resume_cursor c ≤ cursor ≤ oc_last_cursor c)) as [Hin|Hout].
    + assert (0 < browser_event_catchup_limit settings
        ∧ 0 < browser_event_catchup_max_bytes settings) as [? ?].
      { revert Hrun. unfold catch_up_page, mbind, tx_bind, query. rewrite Hc.
        repeat (case_match; try done). intros _. reflect_bools. lia. }
      destruct (catch_up_page_spec owner cursor w c) as [(p & Hp & Hof)|(r & _ & _ & _ & _ & Hp)];
        [done..| |]; rewrite Hrun in Hp; [|done].
      injection Hp as <-. destruct Hof as (rows & ? & ? & ? & ? & _).
      exists rows. unfold stream_last. rewrite Hc. done.
    + destruct (catch_up_page_reset owner cursor w) as [Hr _]. rewrite Hc in Hr.
      destruct Hr as [msg Hr]; [lia|]. by rewrite Hrun in Hr.
  - revert Hrun. unfold catch_up_page, mbind, tx_bind, query, mret, tx_ret, stream_last.
    rewrite Hc. destruct (cursor =? 0) eqn:E; reflect_bools; [|done]. intros [= <-].
    exists []. split_and!; try done; [by intros e He%not_elem_of_nil|simpl; lia].
Qed.

Lemma history_slice s rows :
  browser_ok s → (∀ e, e ∈ rows → e ∈ event_log (br_db s) ∧ ev_owner_user_id e = owner) →
  ev_owner_cursor <$> rows = seqZ (br_latest s + 1) (Z.of_nat (length rows)) →
  br_latest s + Z.of_nat (length rows) ≤ stream_last (br_db s) owner →
  take (Z.to_nat (br_latest s - start + Z.of_nat (length rows))) (br_history s) =
    take (Z.to_nat (br_latest s - start)) (br_history s) ++ rows.
Proof.
  intros [Hok Hh Hlast Hlog Hlat Hsent Hb] Hin Hrun Hle.
  set (n := Z.to_nat (br_latest s - start)).
  replace (Z.to_nat (br_latest s - start + Z.of_nat (length rows)))
    with (n + length rows)%nat by lia.
  rewrite <- take_take_drop. f_equal. symmetry. apply (fmap_inj_on ev_owner_cursor).
  - intros x y Hx (i & Hi & _)%elem_of_take. rewrite lookup_drop in Hi.
    apply list_elem_of_lookup_2 in Hi as Hy. intros Hxy.
    eapply (NoDup_fmap_inj ev_owner_cursor (br_history s)); try done.
    + rewrite Hh. apply NoDup_seqZ.
    + apply Hlog; [by apply Hin..|].
      assert (ev_owner_cursor x ∈ seqZ (br_latest s + 1) (Z.of_nat (length rows))) as Hs.
      { rewrite <- Hrun. by apply list_elem_of_fmap_2. }
      apply elem_of_seqZ in Hs. lia.
  - rewrite Hrun, fmap_take, fmap_drop, Hh.
    replace (Z.of_nat (length (br_history s))) with
      (Z.of_nat n + (Z.of_nat (length (br_history s)) - Z.of_nat n)) by lia.
    rewrite seqZ_app by lia. rewrite drop_app_length' by (rewrite length_seqZ; lia).
    rewrite take_seqZ by lia. f_equal. lia.
Qed.

Lemma take_rows_cursor cursor rows k :
  ev_owner_cursor <$> rows = seqZ (cursor + 1) (Z.of_nat (length rows)) →
  ev_owner_cursor <$> take k rows = seqZ (cursor + 1) (Z.of_nat (length (take k rows))).
Proof.
  intros Hrun. rewrite fmap_take, Hrun, length_take.
  destruct (decide (k ≤ length rows)%nat).
  - rewrite take_seqZ by lia. f_equal. lia.
  - rewrite take_ge by (rewrite length_seqZ; lia). f_equal. lia.
Qed.

Lemma browser_page_ok s w page k :
  browser_ok s → working w = br_db s →
  catch_up_page owner (br_latest s) w = (Ok page, w) →
  browser_ok {| br_db := br_db s; br_history := br_history s;
    br_latest := next_cursor (br_latest s) (take k (pg_events page));
    br_sent := br_sent s ++ take k (pg_events page);
    br_closed := bool_decide (k < length (pg_events page))%nat |}.
Proof.
  intros Hs Hw Hrun. pose proof Hs as [Hok Hh Hlast Hlog Hlat Hsent Hb].
  destruct (catch_up_page_inv _ _ _ ltac:(by rewrite Hw) Hrun) as (rows & He & Hin & Hc & Hle).
  rewrite Hw in Hin, Hle.
  apply (take_rows_cursor _ _ k) in Hc. set (sent := take k rows) in *.
  assert (Hin' : ∀ e, e ∈ sent → e ∈ event_log (br_db s) ∧ ev_owner_user_id e = owner).
  { intros e (i & Hi & _)%elem_of_take. by eapply Hin, list_elem_of_lookup_2. }
  assert (Hlen : (length sent ≤ length rows)%nat) by (subst sent; rewrite length_take; lia).
  pose proof (history_slice s sent Hs Hin' Hc ltac:(lia)) as Hslice.
  rewrite He, <- fmap_take, next_cursor_run by (done || lia). fold sent.
  split; simpl; try done; [lia| |lia].
  rewrite Hsent, <- fmap_app, <- Hslice. do 2 f_equal. lia.
Qed.

Lemma append_ok_inv o dev ty data tb occ w w' ev :
  append o dev ty data tb occ w = (Ok ev, w') →
  ∃ d e c, working w' = extend (working w) d e c ∧ ev_owner_user_id e = o
    ∧ oc_last_cursor c = ev_owner_cursor e
    ∧ ev_owner_cursor e = stream_last (working w) o + 1.
Proof.
  intros Hrun. assert (Hcase : ∃ d, devices (working w) !! dev = Some d
    ∧ d_owner_user_id d = o ∧ d_last_event_sequence d < MAX_EVENT_CURSOR
    ∧ stream_last (working w) o < MAX_EVENT_CURSOR).
  { revert Hrun. unfold append, _allocate_owner_cursor, mbind, tx_bind, query, raise.
    destruct (devices (working w) !! dev) as [d|]; [|done]. case_bool_decide; [|done].
    destruct (d_last_event_sequence d <? MAX_EVENT_CURSOR) eqn:E; [|done].
    intros Hrun. exists d. reflect_bools. split_and!; try done.
    revert Hrun. unfold stream_last. simpl.
    destruct (cursors (working w) !! o) as [c|]; simpl; [|done].
    destruct (oc_last_cursor c <? MAX_EVENT_CURSOR) eqn:E'; [by reflect_bools|done]. }
  destruct Hcase as (d & Hd & Ho & Hs & Hl).
  destruct (append_run o dev ty data tb occ w d Hd Ho Hs Hl)
    as (e & c & w'' & Hr & Hw & _ & _ & _ & He & _ & _ & _ & _ & _ & _ & Hc1 & Hc2 & _).
  rewrite Hr in Hrun. injection Hrun as _ <-. by exists d, e, c.
Qed.

Lemma browser_append_ok s o dev ty data tb occ w w' ev e :
  browser_ok s → working w = br_db s → durable w = br_db s →
  append o dev ty data tb occ w = (Ok ev, w') →
  event_log (working w') = event_log (br_db s) ++ [e] →
  browser_ok {| br_db := working w'; br_history := br_history s ++ filter (owned owner) [e];
                br_latest := br_latest s; br_sent := br_sent s; br_closed := br_closed s |}.
Proof.
  intros [Hok Hh Hlast Hlog Hlat Hsent Hb] Hw Hd Hrun Hev.
  assert (Hok' : events_ok (working w')).
  { pose proof (append_stable o dev ty data tb occ w) as H. rewrite Hw, Hd in H.
    specialize (H Hok Hok). unfold wp in H. rewrite Hrun in H. apply H. }
  destruct (append_ok_inv _ _ _ _ _ _ _ _ _ Hrun) as (d & e' & c & Hx & Ho & Hc1 & Hc2).
  rewrite Hw in Hx, Hc2. rewrite Hx in Hev. unfold extend in Hev. simpl in Hev.
  apply app_inv_head in Hev. injection Hev as ->.
  pose proof (stream_last_extend (br_db s) d e c owner) as Hsl. rewrite <- Hx in Hsl.
  assert (Hmem : ∀ x, x ∈ event_log (working w') → x ∈ event_log (br_db s) ∨ x = e).
  { intros x. rewrite Hx. unfold extend. simpl. by rewrite elem_of_app, list_elem_of_singleton. }
  destruct (decide (owned owner e)) as [Hown|Hown]; unfold owned in Hown.
  - rewrite filter_cons_True, filter_nil by done. rewrite decide_True in Hsl by done.
    rewrite <- Ho, Hown in Hc2.
    split; simpl; try done; rewrite ?length_app; simpl.
    + rewrite fmap_app, Hh. simpl.
      replace (Z.of_nat (length (br_history s) + 1)) with (Z.of_nat (length (br_history s)) + 1) by lia.
      rewrite seqZ_app by lia. f_equal. rewrite seqZ_cons, seqZ_nil by lia. f_equal. lia.
    + lia.
    + intros x [Hxl| ->]%Hmem Hxo Hxs; apply elem_of_app; [left; by apply Hlog|right; by left].
    + rewrite take_app_le by lia. done.
    + lia.
  - rewrite filter_cons_False, filter_nil, app_nil_r by done.
    rewrite decide_False in Hsl by done.
    split; simpl; try done; rewrite ?Hsl; try done.
    intros x [Hxl| ->]%Hmem Hxo Hxs; [by apply Hlog|done].
Qed.

Lemma browser_prune_ok s t o w w' n :
  browser_ok s → working w = br_db s → durable w = br_db s →
  prune_owner t o w = (Ok n, w') →
  browser_ok {| br_db := working w'; br_history := br_history s; br_latest := br_latest s;
                br_sent := br_sent s; br_closed := br_closed s |}.
Proof.
  intros [Hok Hh Hlast Hlog Hlat Hsent Hb] Hw Hd Hrun.
  assert (Hok' : events_ok (working w')).
  { pose proof (prune_owner_stable t o w) as H. rewrite Hw, Hd in H.
    specialize (H Hok Hok). unfold wp in H. rewrite Hrun in H. apply H. }
  assert (Hsub : (∀ x, x ∈ event_log (working w') → x ∈ event_log (br_db s))
    ∧ ∀ o', stream_last (working w') o' = stream_last (br_db s) o').
  { destruct (cursors (working w) !! o) as [c|] eqn:Hc.
    - destruct (prune_owner_run t o w c Hc) as (m & Hm & _). rewrite Hm in Hrun.
      injection Hrun as _ <-. simpl. rewrite <- Hw. by apply pruned_sub.
    - revert Hrun. unfold prune_owner, mbind, tx_bind, query. rewrite Hc.
      intros [= _ <-]. simpl. rewrite Hd. done. }
  destruct Hsub as [Hsub Hsl]. split; simpl; rewrite ?Hsl; try done. auto.
Qed.

Lemma browser_step_ok s s' : browser_ok s → browser_step s s' → browser_ok s'.
Proof.
  intros Hs Hstep. destruct Hstep.
  - by eapply browser_append_ok.
  - by eapply browser_prune_ok.
  - by eapply browser_page_ok.
  - destruct Hs. by split.
Qed.
End interleaving.

(** ** The session gate

    [BrowserSessionGate] is shared by the forwarding task and the session
    monitor.  Critical sections under [verification_lock] that do not await are
    single steps; the monitor keeps the lock for the whole verification
    ([MVerifying]), so a step that takes the lock needs another phase. *)

Module Gate.

Inductive monitor_phase := MIdle | MDraining | MDrained | MVerifying | MEnded.

#[global] Instance monitor_phase_eq_dec : EqDecision monitor_phase.
Proof. solve_decision. Defined.

Record gate := {
  authorized : bool;
  sends_drained : bool;
  in_flight_sends : Z;
  phase : monitor_phase;
  sending : gset nat;  (** the send operations between their two critical sections *)
}.
#[global] Instance gate_eta : Eta gate := λ g,
  Build_gate (authorized g) (sends_drained g) (in_flight_sends g) (phase g) (sending g).

Definition init : gate :=
  {| authorized := false; sends_drained := true; in_flight_sends := 0; phase := MIdle;
     sending := ∅ |}.

Definition begin_send (i : nat) (g : gate) : gate :=
  g <| in_flight_sends := in_flight_sends g + 1 |> <| sends_drained := false |>
    <| sending := {[i]} ∪ sending g |>.

Definition end_send (i : nat) (g : gate) : gate :=
  let n := in_flight_sends g - 1 in
  g <| in_flight_sends := n |>
    <| sends_drained := if n =? 0 then true else sends_drained g |>
    <| sending := sending g ∖ {[i]} |>.

Inductive step : gate → gate → Prop :=
| step_begin i g :
    phase g ≠ MVerifying → authorized g = true → i ∉ sending g → step g (begin_send i g)
| step_end i g : phase g ≠ MVerifying → i ∈ sending g → step g (end_send i g)
| step_clear g :
    phase g = MIdle → step g (g <| authorized := false |> <| phase := MDraining |>)
| step_drained g :
    phase g = MDraining → sends_drained g = true → step g (g <| phase := MDrained |>)
| step_lock g : phase g = MDrained → step g (g <| phase := MVerifying |>)
| step_verified g :
    phase g = MVerifying → step g (g <| authorized := true |> <| phase := MIdle |>)
| step_end_monitor g :
    (** a failed verification, a drain timeout or a revocation: the [finally] clause *)
    step g (g <| authorized := false |> <| phase := MEnded |>).

Record ok (g : gate) : Prop := {
  ok_count : in_flight_sends g = Z.of_nat (size (sending g));
  ok_drained : sends_drained g = true ↔ sending g = ∅;
  ok_unauthorized : phase g ≠ MIdle → authorized g = false;
  ok_quiet : phase g = MDrained ∨ phase g = MVerifying → sending g = ∅;
}.

Lemma init_ok : ok init.
Proof. split; simpl; naive_solver. Qed.

Lemma step_ok g g' : ok g → step g g' → ok g'.
Proof.
  intros [Hc Hd Hu Hq] Hstep. destruct Hstep as [i g Hp Ha Hi|i g Hp Hi|g Hp|g Hp Hdr|g Hp|g Hp|g].
  - split; simpl.
    + rewrite size_union by set_solver. rewrite size_singleton. lia.
    + split; [done|set_solver].
    + done.
    + assert (phase g = MIdle).
      { destruct (decide (phase g = MIdle)) as [|Hn]; [done|]. by rewrite (Hu Hn) in Ha. }
      intros []; congruence.
  - split; simpl.
    + rewrite size_difference by set_solver. rewrite size_singleton.
      assert (size (sending g) ≠ 0)%nat by (apply size_non_empty_iff; set_solver). lia.
    + assert (Hs : size (sending g ∖ {[i]}) = (size (sending g) - 1)%nat).
      { rewrite size_difference by set_solver. by rewrite size_singleton. }
      assert (size (sending g) ≠ 0)%nat by (apply size_non_empty_iff; set_solver).
      destruct (_ =? 0) eqn:E; reflect_bools.
      * split; [|done]. intros _. apply leibniz_equiv, size_empty_inv. lia.
      * split; [intros Hdr; apply Hd in Hdr; set_solver|].
        intros He. rewrite He, size_empty in Hs. lia.
    + done.
    + intros H. rewrite (Hq H). set_solver.
  - split; simpl; try done. by intros [].
  - split; simpl; try done.
    + intros _. apply Hu. congruence.
    + intros _. by apply Hd.
  - split; simpl; try done.
    + intros _. apply Hu. congruence.
    + intros _. apply Hq. by left.
  - split; simpl; try done. by intros [].
  - split; simpl; try done. by intros [].
Qed.

Lemma reachable_ok g : rtc step init g → ok g.
Proof.
  intros H. eapply rtc_invariant; [exact step_ok|exact H|apply init_ok].
Qed.
End Gate.

(** ** Connection leases *)

Section leases.
Context {P : Platform}.

Record BrowserLeaseSlot := { ls_key : pystr; ls_value : pystr }.
Record BrowserConnectionLease := { session_slot : BrowserLeaseSlot; user_slot : BrowserLeaseSlot }.

Definition lease_key (key_prefix : pystr) (slot : Z) : pystr :=
  key_prefix +++ ":" +++ PyStr (py_str_int slot).

(** [for slot in range(limit)], from [slot] on with [n] slots left. *)
Fixpoint acquire_slot_from (key_prefix lease_value : pystr) (slot : Z) (n : nat) :
    tx BrowserLeaseSlot :=
  match n with
  | O => raise BrowserConnectionLimitExceeded
  | S n =>
      let key := lease_key key_prefix slot in
      acquired ← store_set_if_absent key lease_value
                   (browser_connection_lease_ttl_seconds settings);
      if acquired : bool then mret {| ls_key := key; ls_value := lease_value |}
      else acquire_slot_from key_prefix lease_value (slot + 1) n
  end.

Definition _acquire_browser_lease_slot (key_prefix : pystr) (limit : Z) (lease_value : pystr) :
    tx BrowserLeaseSlot :=
  acquire_slot_from key_prefix lease_value 0 (Z.to_nat limit).

Definition _release_browser_lease_slots (slots : list BrowserLeaseSlot) : tx unit :=
  for_each (λ slot, best_effort (store_compare_delete (ls_key slot) (ls_value slot);; mret tt))
    slots.

Definition _acquire_browser_connection_lease (session_id : uuid) (owner_user_id : pystr) :
    tx BrowserConnectionLease :=
  u ← fresh_uuid;
  let lease_value := instance_id +++ ":" +++ uuid_str u in
  session_slot ← _acquire_browser_lease_slot ("browser-lease:session:" +++ uuid_str session_id)
                   (browser_max_connections_per_session settings) lease_value;
  user_slot ←
    try_catch
      (_acquire_browser_lease_slot
         ("browser-lease:user:" +++ session_hmac_hex ("browser-lease-owner:" +++ owner_user_id))
         (browser_max_connections_per_user settings) lease_value)
      (λ e, _release_browser_lease_slots [session_slot];; raise e);
  mret {| session_slot := session_slot; user_slot := user_slot |}.

Definition _release_browser_connection_lease (lease : BrowserConnectionLease) : tx unit :=
  _release_browser_lease_slots [user_slot lease; session_slot lease].
End leases.

Section leases_theory.
Context {P : Platform}.

Lemma acquire_slot_spec key_prefix v slot n w :
  (∀ i, store_up i = true) → (∀ i j, (i ≤ j)%nat → monotonic i ≤ monotonic j) →
  match acquire_slot_from key_prefix v slot n w with
  | (Ok s, w') => ∃ i k, slot ≤ i < slot + Z.of_nat n ∧ (ticks w ≤ k)%nat
      ∧ s = {| ls_key := lease_key key_prefix i; ls_value := v |}
      ∧ kv_view (monotonic k) (store w) !! ls_key s = None
      ∧ ∀ t, monotonic k ≤ t → kv_view t (store w') =
          view_set t (monotonic k) (ls_key s) v (browser_connection_lease_ttl_seconds settings)
            (kv_view t (store w))
  | (Raise e, w') => e = BrowserConnectionLimitExceeded ∧ (ticks w ≤ ticks w')%nat
      ∧ (∀ i, slot ≤ i < slot + Z.of_nat n →
           is_Some (kv_view (monotonic (ticks w)) (store w) !! lease_key key_prefix i))
      ∧ ∀ t, monotonic (ticks w') ≤ t → kv_view t (store w') = kv_view t (store w)
  end.
Proof.
  intros Hup Hmono. revert slot w. induction n as [|n IH]; intros slot w; simpl.
  { split_and!; try done. lia. }
  unfold mbind, tx_bind, store_set_if_absent, store_op. rewrite Hup.
  set (t0 := monotonic (ticks w)). set (key := lease_key key_prefix slot).
  set (ttl := browser_connection_lease_ttl_seconds settings).
  destruct (kv_view t0 (store w) !! key) as [v0|] eqn:Hview.
  - destruct (kv_set_if_absent_taken t0 key v ttl (store w)) as [Hb Hv]; [by eexists|].
    destruct (kv_set_if_absent t0 key v ttl (store w)) as [b s]. simpl in *. subst b.
    specialize (IH (slot + 1) (w <| store := s |> <| ticks := S (ticks w) |>)).
    destruct (acquire_slot_from _ _ _ _ _) as [[a|e] w']; simpl in IH.
    + destruct IH as (i & k & Hi & Hk & -> & Hfree & Hset).
      assert (t0 ≤ monotonic k) by (apply Hmono; lia).
      exists i, k. split_and!; try done; try lia.
      * rewrite <- (Hv (monotonic k)); done.
      * intros t Ht. rewrite (Hset t Ht), Hv by lia. done.
    + destruct IH as (-> & Hticks & Hall & Hsame). split; [done|]. split; [lia|]. split.
      * intros i Hi. destruct (decide (i = slot)) as [->|Hne]; [by eexists|].
        destruct (Hall i ltac:(lia)) as [x Hx].
        assert (t0 ≤ monotonic (S (ticks w))) by (apply Hmono; lia).
        rewrite Hv in Hx by done. exists x. by eapply kv_view_expires.
      * intros t Ht. rewrite Hsame by done. apply Hv. etrans; [|done]. apply Hmono. lia.
  - destruct (kv_set_if_absent_free t0 key v ttl (store w)) as [Hb Hv]; [done|].
    destruct (kv_set_if_absent t0 key v ttl (store w)) as [b s]. simpl in *. subst b.
    exists slot, (ticks w). split_and!; try done; lia.
Qed.
End leases_theory.

(** ** What the channel promises *)

Section browser_claims.
Context {P : Platform}.

(** One wake-up of the browser channel delivers every event after the
    socket's cursor up to the head of the stream, each exactly once and in
    cursor order, and ends with the head as the new cursor, when no send fails
    and every event fits in a page; the loop needs no more iterations than
    there are events, and writes nothing. *)
Theorem forward_queue_delivers_all fuel ws owner cursor w c :
  events_ok (durable w) → cursors (durable w) !! owner = Some c →
  oc_minimum_resume_cursor c ≤ cursor ≤ oc_last_cursor c →
  0 < browser_event_catchup_limit settings →
  0 < browser_event_catchup_max_bytes settings →
  (∀ e, e ∈ event_log (durable w) →
     0 < model_dump_json_bytes (event_of_row e) ≤ browser_event_catchup_max_bytes settings) →
  (∀ n, send_up n = true) →
  (Z.to_nat (oc_last_cursor c - cursor) < fuel)%nat →
  ∃ w', forward_pages fuel ws owner cursor w = (Ok (Some (oc_last_cursor c)), w')
    ∧ durable w' = durable w
    ∧ effects w' = effects w ++ (EEvent ws ∘ event_of_row <$> rows_after owner cursor (durable w))
    ∧ ev_owner_cursor <$> rows_after owner cursor (durable w)
        = seqZ (cursor + 1) (oc_last_cursor c - cursor).
Proof.
  intros Hok Hc Hcur Hrl Hbl Hfit Hup Hf.
  destruct (forward_pages_run fuel ws owner cursor w c) as (w' & ? & ? & ?); try done.
  exists w'. split_and!; try done. by apply rows_after_run.
Qed.

(** C4: under any interleaving of the socket's page reads with appends and
    prunes of any owner, and with send failures at any point, what has been
    sent is exactly the owner's events after the resume cursor, in append
    order, up to the socket's cursor: no event is skipped or sent twice, even
    when rows are pruned while the socket is behind. *)
Theorem browser_stream_exactly_once owner start db c s :
  events_ok db → cursors db !! owner = Some c →
  oc_minimum_resume_cursor c ≤ start ≤ oc_last_cursor c →
  rtc (browser_step owner) (browser_init owner start db) s →
  br_sent s = event_of_row <$> take (Z.to_nat (br_latest s - start)) (br_history s)
  ∧ ev_owner_cursor <$> br_history s = seqZ (start + 1) (Z.of_nat (length (br_history s)))
  ∧ start ≤ br_latest s ≤ start + Z.of_nat (length (br_history s)).
Proof.
  intros Hok Hc Hs Hsteps.
  pose proof (rtc_invariant _ (browser_ok owner start) _ _ (browser_step_ok owner start) Hsteps
    (browser_init_ok owner start db c Hok Hc Hs)) as [_ Hh Hl _ Hlat Hsent Hb].
  split_and!; try done; lia.
Qed.

(** A granted lease slot was free when it was taken and is one of the
    [limit] slots; a refusal means that every slot was held.  So at no time do
    more than [limit] sockets hold a live lease under a prefix. *)
Theorem lease_slot_exclusive key_prefix limit v w :
  (∀ i, store_up i = true) → (∀ i j, (i ≤ j)%nat → monotonic i ≤ monotonic j) → 0 ≤ limit →
  match _acquire_browser_lease_slot key_prefix limit v w with
  | (Ok s, w') => ∃ i k, 0 ≤ i < limit ∧ (ticks w ≤ k)%nat
      ∧ s = {| ls_key := lease_key key_prefix i; ls_value := v |}
      ∧ kv_view (monotonic k) (store w) !! ls_key s = None
      ∧ ∀ t, monotonic k ≤ t → kv_view t (store w') =
          view_set t (monotonic k) (ls_key s) v (browser_connection_lease_ttl_seconds settings)
            (kv_view t (store w))
  | (Raise e, w') => e = BrowserConnectionLimitExceeded
      ∧ (∀ i, 0 ≤ i < limit →
           is_Some (kv_view (monotonic (ticks w)) (store w) !! lease_key key_prefix i))
      ∧ ∀ t, monotonic (ticks w') ≤ t → kv_view t (store w') = kv_view t (store w)
  end.
Proof.
  intros Hup Hmono Hlim. unfold _acquire_browser_lease_slot.
  pose proof (acquire_slot_spec key_prefix v 0 (Z.to_nat limit) w Hup Hmono) as H.
  rewrite Z2Nat.id in H by done. destruct (acquire_slot_from _ _ _ _ _) as [[s|e] w']; [done|].
  naive_solver.
Qed.
End browser_claims.

(** In every reachable state of the gate, no send is in flight while the
    session is being verified again, a new send can only start while the
    socket is authorized and no verification is pending, and once the monitor
    has ended no send starts. *)
Theorem gate_blocks_unauthorized_sends g :
  rtc Gate.step Gate.init g →
  (Gate.phase g = Gate.MVerifying → Gate.sending g = ∅)
  ∧ (∀ g' i, Gate.step g g' → i ∈ Gate.sending g' → i ∉ Gate.sending g →
       Gate.authorized g = true ∧ Gate.phase g = Gate.MIdle)
  ∧ Gate.in_flight_sends g = Z.of_nat (size (Gate.sending g)).
Proof.
  intros [Hc Hd Hu Hq]%Gate.reachable_ok. split_and!; [by auto| |done].
  intros g' i Hstep Hin Hout.
  destruct Hstep as [j g Hp Ha Hj|j g Hp Hj|g Hp|g Hp Hdr|g Hp|g Hp|g]; simpl in Hin; try done.
  - split; [done|]. destruct (decide (Gate.phase g = Gate.MIdle)) as [|Hn]; [done|].
    by rewrite (Hu Hn) in Ha.
  - by apply elem_of_difference in Hin as [? _].
Qed.

Lemma forward_queue_delivers_all_witness :
  ∃ w', forward_pages 3 7%N "alice" 0 (after commit sample_stream) = (Ok (Some 2), w')
    ∧ length (effects w') = 2%nat.
Proof.
  destruct (forward_queue_delivers_all 3 7%N "alice" 0 (after commit sample_stream) sample_cursor)
    as (w' & Hr & _ & He & _);
    [exact sample_stream_ok|by vm_compute|done..| |done|simpl; lia|].
  - intros e He%list_elem_of_In.
    assert (Hall : forallb (λ e, (0 <? model_dump_json_bytes (event_of_row e))
      && (model_dump_json_bytes (event_of_row e) <=? browser_event_catchup_max_bytes settings))
      (event_log (working sample_stream)) = true) by (vm_compute; reflexivity).
    pose proof (proj1 (forallb_forall _ _) Hall e He) as Hb. cbv beta in Hb.
    apply andb_prop in Hb as [H1%Z.ltb_lt H2%Z.leb_le]. split; [exact H1|exact H2].
  - exists w'. split; [exact Hr|]. rewrite He. vm_compute. reflexivity.
Defined.

(** One page read of the sample stream. *)
Definition sample_page : BrowserEventPage :=
  match catch_up_page "alice" 1 sample_stream with
  | (Ok page, _) => page
  | _ => {| pg_events := []; pg_has_more := false; pg_serialized_bytes := 0 |}
  end.

Definition sample_browser : browser :=
  let s := browser_init "alice" 1 (working sample_stream) in
  {| br_db := br_db s; br_history := br_history s;
     br_latest := next_cursor (br_latest s) (take 1 (pg_events sample_page));
     br_sent := br_sent s ++ take 1 (pg_events sample_page);
     br_closed := bool_decide (1 < length (pg_events sample_page))%nat |}.

Lemma browser_stream_exactly_once_witness :
  br_sent sample_browser = event_of_row <$> take 1 (br_history sample_browser)
  ∧ br_latest sample_browser = 2.
Proof.
  destruct (browser_stream_exactly_once "alice" 1 (working sample_stream) sample_cursor
    sample_browser) as (H1 & _);
    [exact sample_stream_ok|by vm_compute|done| |].
  - apply rtc_once. unfold sample_browser. cbv zeta.
    apply (br_page "alice" (browser_init "alice" 1 (working sample_stream)) sample_stream
      sample_page 1).
    + exact eq_refl.
    + exact eq_refl.
    + vm_cast_no_check (eq_refl (@Ok BrowserEventPage sample_page, sample_stream)).
  - split; [exact H1|vm_compute; reflexivity].
Defined.

Lemma lease_slot_exclusive_witness :
  ∃ i k, 0 ≤ i < 2 ∧ (0 ≤ k)%nat
    ∧ (_acquire_browser_lease_slot "p" 2 "v" (start_world sample_database)).1
        = Ok {| ls_key := lease_key "p" i; ls_value := "v" |}.
Proof.
  pose proof (lease_slot_exclusive "p" 2 "v" (start_world sample_database)) as H.
  assert (E : match (_acquire_browser_lease_slot "p" 2 "v" (start_world sample_database)).1 with
              | Ok _ => true | Raise _ => false end = true) by (vm_compute; reflexivity).
  destruct (_acquire_browser_lease_slot "p" 2 "v" (start_world sample_database))
    as [[s|e] w']; [|discriminate E].
  destruct H as (i & k & Hi & _ & -> & _); [done| |lia|].
  - intros i j Hij. simpl. apply Z.div_le_mono; lia.
  - exists i, k. split; [exact Hi|]. split; [lia|reflexivity].
Defined.

Lemma gate_blocks_unauthorized_sends_witness :
  let g := Gate.begin_send 0 (Gate.init <| Gate.authorized := true |> <| Gate.phase := Gate.MIdle |>) in
  Gate.in_flight_sends g = Z.of_nat (size (Gate.sending g)).
Proof.
  intros g. apply (gate_blocks_unauthorized_sends g).
  eapply rtc_l; [apply Gate.step_clear; done|].
  eapply rtc_l; [apply Gate.step_drained; done|].
  eapply rtc_l; [apply Gate.step_lock; done|].
  eapply rtc_l; [apply Gate.step_verified; done|].
  apply rtc_once. apply (Gate.step_begin 0); done.
Defined.
