(* ===== verification/Capacity.v ===== *)
(** * Projections and owner quotas ([control_api/views.py],
    [control_api/capacity.py])

    The JSON projections of rows that browsers see, and the quotas that bound
    how many rows an owner may hold, so that a bootstrap response stays within
    its budget. *)

From stdpp Require Import base list gmap.
From Stdlib Require Import NArith ZArith Lia.
From S2P Require Import Prelude Config Json Paths Models Storage World Testbed Wire Budget Events.
Open Scope Z_scope.

Definition opt_str (s : option pystr) : json := match s with Some s => JStr s | None => JNull end.
Definition opt_time (t : option Z) : json := match t with Some t => JStr (iso t) | None => JNull end.

(** [CommandStatus.QUEUED], [DISPATCHED] and [ACKNOWLEDGED]. *)
Definition outstanding (s : CommandStatus) : bool :=
  match s with CsQueued | CsDispatched | CsAcknowledged => true | _ => false end.

Definition hidden (s : ThreadBindingStatus) : bool :=
  match s with TsClosed | TsStale => true | _ => false end.

(** ** Views *)

Definition visible_status (s : ThreadBindingStatus) : ThreadBindingStatus :=
  if hidden s then TsFailed else s.

Definition thread_summary_json (id : uuid) (b : ThreadBinding) (status : pystr) : json :=
  JObj [("id", JStr (uuid_str id)); ("device_id", JStr (uuid_str (tb_device_id b)));
        ("title", JStr (tb_title b)); ("cwd", JStr (default "" (tb_cwd b)));
        ("model", JStr (tb_model b)); ("updated_at", JStr (iso (tb_updated_at b)));
        ("status", JStr status)].

(** A string pydantic can measure: no lone surrogate. *)
Definition unicode_ok (s : pystr) : bool := bool_decide (is_Some (utf8_len (codepoints s))).

(** [Field(min_length=lo, max_length=hi)] of a string. *)
Definition text_valid (lo hi : Z) (s : pystr) : bool :=
  (lo <=? py_len s) && (py_len s <=? hi) && unicode_ok s.

(** The field constraints of [ManagedThreadSummary]. *)
Definition thread_summary_valid (b : ThreadBinding) : bool :=
  text_valid 1 255 (tb_title b) && text_valid 0 4096 (default "" (tb_cwd b))
  && text_valid 0 128 (tb_model b).

Section views.
Context {P : Platform}.

(** [str(value)], as used on device metadata. *)
Definition py_str (j : json) : pystr :=
  match j with
  | JStr s => s
  | JInt z => PyStr (py_str_int z)
  | JBool true => "True"
  | JBool false => "False"
  | JNull => "None"
  | JFloat _ t => t
  | JArr _ | JObj _ => py_repr j
  end.

Definition metadata_str (k : pystr) (metadata : json) : pystr :=
  match jget k metadata with Some v => py_str v | None => "" end.

Definition device_summary_json (id : uuid) (d : Device) (status : pystr) (last_seen_at : json) :
    json :=
  JObj [("id", JStr (uuid_str id)); ("name", JStr (d_name d)); ("status", JStr status);
        ("connector_version", JStr (metadata_str "connector_version" (d_device_metadata d)));
        ("codex_version", JStr (metadata_str "codex_version" (d_device_metadata d)));
        ("last_seen_at", last_seen_at);
        ("workspace_roots", JArr (JStr <$> d_workspace_roots d))].

(** The field constraints of [DeviceSummary]; the columns give the types. *)
Definition device_summary_valid (d : Device) : bool :=
  text_valid 1 255 (d_name d)
  && text_valid 0 64 (metadata_str "connector_version" (d_device_metadata d))
  && text_valid 0 64 (metadata_str "codex_version" (d_device_metadata d))
  && (Z.of_nat (length (d_workspace_roots d)) <=? 32).

(** [DeviceSummary(...)], which raises a [ValidationError] (a [ValueError]), and
    its dump. *)
Definition new_device_summary (id : uuid) (d : Device) (status : pystr) (last_seen_at : json) :
    tx json :=
  guard_exn (negb (device_summary_valid d)) (ValueError "DeviceSummary");;
  mret (device_summary_json id d status last_seen_at).

Definition thread_summary (id : uuid) (b : ThreadBinding) : tx json :=
  guard_exn (negb (thread_summary_valid b)) (ValueError "ManagedThreadSummary");;
  mret (thread_summary_json id b (thread_status_value (visible_status (tb_status b)))).

(** [thread_summary(binding).model_dump(mode="json")] plus ["thread_id"]. *)
Definition thread_event_data (id : uuid) (b : ThreadBinding) : tx json :=
  data ← thread_summary id b;
  mret (match data with JObj l => JObj (assoc_set "thread_id" (JStr (uuid_str id)) l) | j => j end).

(** [json.loads(raw) if raw is not None else {}], kept when it is a dict. *)
Definition parse_registry (raw : option pystr) : json :=
  match raw ≫= json_loads with Some (JObj l) => JObj l | _ => JObj [] end.

Definition connection_key (device_id : uuid) : pystr := "connection:" +++ uuid_str device_id.

Definition registry_nonce_matches (registry : json) (nonce : option pystr) : bool :=
  match nonce with
  | Some n => py_truthy n && bool_decide (jget "connection_nonce" registry = Some (JStr n))
  | None => false
  end.

Definition device_summary (id : uuid) (d : Device) : tx json :=
  raw ← store_get (connection_key id);
  let status :=
    match d_status d with
    | DsRevoked => "revoked"
    | DsActive =>
        if registry_nonce_matches (parse_registry raw) (d_active_connection_nonce d)
        then "online" else "offline"
    end in
  new_device_summary id d status (opt_time (d_last_seen_at d)).

(** ** Bounds on projections *)

Definition datetime_max : pystr := "9999-12-31T23:59:59.999999Z".

(** [ensure_ascii_json_byte_length(v) > limit], where a value that cannot be
    encoded raises [ValueError]. *)
Definition ensure_fits (v : json) (limit : Z) (code : pystr) : tx unit :=
  match compact_ensure_ascii_size v with
  | Ok n => guard_exn (limit <? n) (OwnerCapacityExceeded code)
  | Raise e => raise e
  end.

(** [device_bootstrap_summary], with the fields that [model_copy] replaces. *)
Definition ensure_device_projection_fits (id : uuid) (d : Device) : tx unit :=
  projection ← new_device_summary id d "offline" (JStr datetime_max);
  ensure_fits projection BOOTSTRAP_DEVICE_SUMMARY_MAX_BYTES "device_summary_too_large".

Definition ensure_thread_projection_fits (id : uuid) (b : ThreadBinding) : tx unit :=
  guard_exn (negb (thread_summary_valid b)) (ValueError "ManagedThreadSummary");;
  ensure_fits (thread_summary_json id b "waiting_for_approval")
    BOOTSTRAP_THREAD_SUMMARY_MAX_BYTES "thread_summary_too_large".

(** [_first_string]. *)
Fixpoint _first_string (raw : list (pystr * json)) (keys : list pystr) : option pystr :=
  match keys with
  | [] => None
  | k :: keys =>
      match assoc_get k raw with
      | Some (JStr s) => if py_truthy s then Some s else _first_string raw keys
      | _ => _first_string raw keys
      end
  end.

Definition model_summary_json (id display_name : pystr) (description : option pystr) : json :=
  JObj [("id", JStr id); ("display_name", JStr display_name); ("description", opt_str description)].

(** The candidate list: the first of the three keys that holds a list. *)
Definition catalog_candidates (result : json) : option (list json) :=
  let list_at k := match jget k result with Some (JArr l) => Some l | _ => None end in
  match list_at "data", list_at "models", list_at "items", result with
  | Some l, _, _, _ | None, Some l, _, _ | None, None, Some l, _ => Some l
  | None, None, None, JArr l => Some l
  | None, None, None, _ => None
  end.

Fixpoint catalog_loop (limit : Z) (catalog candidates : list json) : list json :=
  match candidates with
  | [] => catalog
  | raw :: candidates =>
      if limit <=? Z.of_nat (length catalog) then catalog
      else
        match raw with
        | JObj raw =>
            match _first_string raw ["id"; "model"; "slug"] with
            | None => catalog_loop limit catalog candidates
            | Some model_id =>
                let display_name :=
                  default model_id (_first_string raw ["display_name"; "displayName"; "name"]) in
                let description := _first_string raw ["description"] in
                let model := model_summary_json (py_take 128 model_id) (py_take 255 display_name)
                               (py_take 512 <$> description) in
                if negb (unicode_ok (py_take 128 model_id) && unicode_ok (py_take 255 display_name)
                         && unicode_ok (default "" (py_take 512 <$> description)))
                then catalog_loop limit catalog candidates
                else if within_bytes BOOTSTRAP_MODEL_CATALOG_MAX_BYTES (JArr (catalog ++ [model]))
                then catalog_loop limit (catalog ++ [model]) candidates
                else catalog
            end
        | _ => catalog_loop limit catalog candidates
        end
  end.

Definition bounded_model_catalog (result : json) : list json :=
  match catalog_candidates result with
  | Some candidates => catalog_loop (bootstrap_max_models_per_device settings) [] candidates
  | None => []
  end.

(** [ModelSummary.model_validate] followed by [model_dump]. *)
Definition _validated_model (raw : json) : option json :=
  match raw with
  | JObj l =>
      only_fields ["id"; "display_name"; "description"] l;;
      id ← assoc_get "id" l ≫= str_between 1 128;
      name ← assoc_get "display_name" l ≫= str_between 1 255;
      match assoc_get "description" l with
      | None | Some JNull => Some (model_summary_json id name None)
      | Some j => d ← str_between 0 512 j; Some (model_summary_json id name (Some d))
      end
  | _ => None
  end.

Definition ensure_model_catalog_fits (d : Device) : tx unit :=
  let limit := bootstrap_max_models_per_device settings in
  let catalog := omap _validated_model (take (Z.to_nat (limit + 1)) (d_model_catalog d)) in
  guard_exn (limit <? Z.of_nat (length catalog))
    (OwnerCapacityExceeded "model_catalog_item_limit_exceeded");;
  ensure_fits (JArr catalog) BOOTSTRAP_MODEL_CATALOG_MAX_BYTES "model_catalog_too_large".

(** ** Approval items *)

Definition approval_command_text (a : Approval) : pystr :=
  match opt_or (ap_external_command_id a) (uuid_str <$> ap_command_id a) with
  | Some s => s
  | None => ""
  end.

Definition approval_item_json (id : uuid) (a : Approval) (d : Device) : json :=
  JObj [("approval_id", JStr (uuid_str id)); ("command_id", JStr (approval_command_text a));
        ("kind", JStr (ap_approval_kind a)); ("summary", JStr (ap_summary a));
        ("details", ap_request a); ("expires_at", JStr (iso (ap_expires_at a)));
        ("device_id", JStr (uuid_str (ap_device_id a))); ("device_name", JStr (d_name d));
        ("created_at", JStr (iso (ap_requested_at a)))].

(** The field constraints of [ApprovalItem]. *)
Definition approval_item_valid (a : Approval) : bool :=
  py_in (ap_approval_kind a) ["command"; "file_change"; "permission"]
  && text_valid 1 512 (ap_summary a)
  && match ap_request a with JObj _ => true | _ => false end.

(** [ApprovalItem(...)] and its dump. *)
Definition approval_item (id : uuid) (a : Approval) (d : Device) : tx json :=
  guard_exn (negb (approval_item_valid a)) (ValueError "ApprovalItem");;
  mret (approval_item_json id a d).

Lemma silent_new_device_summary id d status seen : silent (new_device_summary id d status seen).
Proof. unfold new_device_summary. solve_silent. Qed.
Lemma silent_approval_item id a d : silent (approval_item id a d).
Proof. unfold approval_item. solve_silent. Qed.

Definition ensure_approval_projection_fits (id : uuid) (a : Approval) (d : Device) : tx unit :=
  item ← approval_item id a d;
  ensure_fits item BOOTSTRAP_APPROVAL_ITEM_MAX_BYTES "approval_item_too_large".

(** ** Counting *)

Definition is_revoked (d : Device) : bool := bool_decide (d_status d = DsRevoked).

Definition active_device_count (owner : pystr) (db : database) : Z :=
  count_rows (λ _ d, bool_decide (d_owner_user_id d = owner) && negb (is_revoked d)) (devices db).

Definition total_device_count (owner : pystr) (db : database) : Z :=
  count_rows (λ _ d, bool_decide (d_owner_user_id d = owner)) (devices db).

(** The join with [devices]: the row's device exists and is not revoked. *)
Definition device_not_revoked (db : database) (device_id : uuid) : bool :=
  match devices db !! device_id with Some d => negb (is_revoked d) | None => false end.

Definition resume_reservation (db : database) (binding_id : uuid) : bool :=
  exists_row (λ _ c, bool_decide (cmd_thread_binding_id c = Some binding_id)
                     && bool_decide (cmd_method c = "thread/resume")
                     && outstanding (cmd_status c)) (commands db).

Definition visible_thread (db : database) (owner : pystr) (id : uuid) (b : ThreadBinding) : bool :=
  bool_decide (tb_owner_user_id b = owner) && device_not_revoked db (tb_device_id b)
  && (negb (hidden (tb_status b)) || resume_reservation db id).

Definition visible_thread_count (owner : pystr) (db : database) : Z :=
  count_rows (visible_thread db owner) (threads db).

Definition total_thread_count (owner : pystr) (db : database) : Z :=
  count_rows (λ _ b, bool_decide (tb_owner_user_id b = owner)) (threads db).

Definition pending_approval (db : database) (owner : pystr) (now : Z) (_ : uuid) (a : Approval) :
    bool :=
  bool_decide (ap_owner_user_id a = owner) && bool_decide (ap_status a = AsPending)
  && (now <? ap_expires_at a) && device_not_revoked db (ap_device_id a).

Definition active_pending_approval_count (owner : pystr) (t : Z) (db : database) : Z :=
  count_rows (pending_approval db owner t) (approvals db).

(** ** Quotas *)

Definition ensure_device_creation_capacity (owner : pystr) : tx unit :=
  lock_owner_cursor owner;;
  active ← query (active_device_count owner);
  guard_exn (bootstrap_max_devices settings <=? active)
    (OwnerCapacityExceeded "active_device_limit_exceeded");;
  total ← query (total_device_count owner);
  guard_exn (owner_max_device_records settings <=? total)
    (OwnerCapacityExceeded "device_record_limit_exceeded").

Definition ensure_thread_visibility_capacity_locked (owner : pystr) : tx unit :=
  n ← query (visible_thread_count owner);
  guard_exn (bootstrap_max_threads settings <=? n) (OwnerCapacityExceeded "thread_limit_exceeded").

Definition ensure_thread_creation_capacity_locked (owner : pystr) : tx unit :=
  ensure_thread_visibility_capacity_locked owner;;
  n ← query (total_thread_count owner);
  guard_exn (owner_max_thread_records settings <=? n)
    (OwnerCapacityExceeded "thread_record_limit_exceeded").

Definition ensure_thread_creation_capacity (owner : pystr) : tx unit :=
  lock_owner_cursor owner;;
  ensure_thread_creation_capacity_locked owner.

Definition approval_capacity_denial_reason_locked (owner : pystr) (device_id : uuid) (t : Z) :
    tx (option pystr) :=
  n ← query (λ db, count_rows (λ _ a, bool_decide (ap_device_id a = device_id)
                                      && bool_decide (ap_status a = AsPending)
                                      && (t <? ap_expires_at a)) (approvals db));
  if device_max_pending_approvals settings <=? n then mret (Some "approval_limit_default_deny")
  else
    t' ← now;
    n ← query (active_pending_approval_count owner t');
    if bootstrap_max_pending_approvals settings <=? n
    then mret (Some "owner_approval_limit_default_deny")
    else mret None.

Definition ensure_approval_record_capacity_locked (owner : pystr) (device_id : uuid) : tx unit :=
  n ← query (λ db, count_rows (λ _ a, bool_decide (ap_device_id a = device_id)) (approvals db));
  guard_exn (device_max_approval_records settings <=? n)
    (OwnerCapacityExceeded "device_approval_record_limit_exceeded");;
  n ← query (λ db, count_rows (λ _ a, bool_decide (ap_owner_user_id a = owner)) (approvals db));
  guard_exn (owner_max_approval_records settings <=? n)
    (OwnerCapacityExceeded "owner_approval_record_limit_exceeded").

(** ** [thread_is_safely_archivable] *)

Definition thread_is_safely_archivable (id : uuid) (b : ThreadBinding) (db : database) : bool :=
  match tb_status b with TsIdle | TsFailed => true | _ => false end
  && bool_decide (tb_active_turn_id b = None)
  && negb (exists_row (λ _ c, bool_decide (cmd_thread_binding_id c = Some id)
                              && outstanding (cmd_status c)) (commands db))
  && negb (exists_row (λ _ a,
       bool_decide (ap_status a = AsPending)
       && match ap_command_id a ≫= (λ c, commands db !! c) with
          | Some c => bool_decide (cmd_thread_binding_id c = Some id)
          | None => false
          end) (approvals db))
  && negb (exists_row (λ k f, bool_decide (k.1 = tb_device_id b)
                              && bool_decide (ob_acked_at f = None)) (outbox db)).
End views.

#[export] Hint Resolve silent_new_device_summary silent_approval_item : silent.

(** ** Facts *)

Section capacity_theory.
Context {P : Platform}.

(** A model entry as [bounded_model_catalog] writes it. *)
Definition model_entry (j : json) : Prop := _validated_model j = Some j.

Lemma py_take_len n s : py_len (py_take n s) = Z.min (Z.of_nat n) (py_len s).
Proof. unfold py_len, py_take. cbn [codepoints]. rewrite length_take. lia. Qed.

Lemma truthy_len s : py_truthy s = true ↔ 1 ≤ py_len s.
Proof. unfold py_truthy, py_len. destruct (codepoints s); simpl; split; intros; (done || lia). Qed.

Lemma first_string_truthy raw keys s : _first_string raw keys = Some s → py_truthy s = true.
Proof.
  induction keys as [|k keys IH]; simpl; [done|].
  destruct (assoc_get k raw) as [[| | | |s0| |]|]; try done.
  destruct (py_truthy s0) eqn:E; [|done].
  by intros [= <-].
Qed.

Lemma model_entry_ok id name description :
  1 ≤ py_len id ≤ 128 → 1 ≤ py_len name ≤ 255 →
  (∀ d, description = Some d → py_len d ≤ 512) →
  model_entry (model_summary_json id name description).
Proof.
  intros Hi Hn Hd. unfold model_entry, _validated_model, model_summary_json.
  assert (Hb : ∀ lo hi s, lo ≤ py_len s ≤ hi → str_between lo hi (JStr s) = Some s).
  { intros lo hi s Hs. unfold str_between. rewrite !(proj2 (Z.leb_le _ _)) by lia. done. }
  change (only_fields _ _) with (Some tt). simpl. rewrite !Hb by done. simpl.
  destruct description as [d|]; simpl; [|done].
  specialize (Hd d eq_refl). rewrite Hb; [done|]. unfold py_len in *. lia.
Qed.

Lemma catalog_loop_ok limit catalog candidates :
  0 ≤ limit → Z.of_nat (length catalog) ≤ limit → Forall model_entry catalog →
  within_bytes BOOTSTRAP_MODEL_CATALOG_MAX_BYTES (JArr catalog) = true →
  let out := catalog_loop limit catalog candidates in
  Z.of_nat (length out) ≤ limit ∧ Forall model_entry out
  ∧ within_bytes BOOTSTRAP_MODEL_CATALOG_MAX_BYTES (JArr out) = true.
Proof.
  intros Hl. revert catalog. induction candidates as [|raw candidates IH];
    intros catalog Hlen Hall Hb; cbn [catalog_loop]; [done|].
  destruct (limit <=? _) eqn:E; [done|]. reflect_bools.
  destruct raw; try (by apply IH).
  destruct (_first_string l ["id"; "model"; "slug"]) as [mid|] eqn:Eid; [|by apply IH].
  cbv zeta. destruct (negb _) eqn:Eu; [by apply IH|].
  destruct (within_bytes _ (JArr (catalog ++ [_]))) eqn:Ew; [|done]. apply IH; [|  |done].
  - rewrite length_app. simpl. lia.
  - apply Forall_app. split; [done|]. apply Forall_singleton. apply model_entry_ok.
    + rewrite py_take_len. apply first_string_truthy, truthy_len in Eid. lia.
    + rewrite py_take_len. apply first_string_truthy, truthy_len in Eid.
      destruct (_first_string l ["display_name"; "displayName"; "name"]) as [n|] eqn:En; simpl;
        [apply first_string_truthy, truthy_len in En|]; lia.
    + intros d Hd. destruct (_first_string l ["description"]) as [d'|]; [|done].
      injection Hd as <-. rewrite py_take_len. lia.
Qed.

Lemma omap_id_entries l : Forall model_entry l → omap _validated_model l = l.
Proof.
  unfold model_entry. induction 1 as [|x l Hx Hl IH]; [done|].
  cbn [omap list_omap]. rewrite Hx. f_equal. exact IH.
Qed.
End capacity_theory.

(** Whatever a device reports, the model catalog that is stored holds at most
    the configured number of entries and 24 KiB, and passes the check
    [ensure_model_catalog_fits] that guards the bootstrap budget. *)
Theorem bounded_model_catalog_fits {P : Platform} result d w :
  0 ≤ bootstrap_max_models_per_device settings →
  d_model_catalog d = bounded_model_catalog result →
  Z.of_nat (length (bounded_model_catalog result)) ≤ bootstrap_max_models_per_device settings
  ∧ ensure_model_catalog_fits d w = (Ok tt, w).
Proof.
  intros Hl Hd. unfold ensure_model_catalog_fits. rewrite Hd.
  set (limit := bootstrap_max_models_per_device settings) in *.
  assert (Hok : Z.of_nat (length (bounded_model_catalog result)) ≤ limit
    ∧ Forall model_entry (bounded_model_catalog result)
    ∧ within_bytes BOOTSTRAP_MODEL_CATALOG_MAX_BYTES (JArr (bounded_model_catalog result)) = true).
  { unfold bounded_model_catalog. destruct (catalog_candidates result).
    - apply catalog_loop_ok; [done|done|constructor|done].
    - split_and!; [done|constructor|done]. }
  destruct Hok as (Hlen & Hall & Hb). split; [done|].
  rewrite take_ge by lia. rewrite omap_id_entries by done.
  unfold guard_exn, ensure_fits, compact_ensure_ascii_size, mbind, tx_bind.
  rewrite (proj2 (Z.ltb_ge _ _)) by done. unfold within_bytes in Hb. simpl.
  destruct (ensure_ascii_json_byte_length _); [|done]. reflect_bools.
  unfold guard_exn. rewrite (proj2 (Z.ltb_ge _ _)) by done. done.
Qed.

Lemma bounded_model_catalog_fits_witness :
  let result := JObj [("models", JArr [JObj [("slug", JStr "m1")]; JNull])] in
  ensure_model_catalog_fits
    (sample_device <| d_model_catalog := bounded_model_catalog result |>)
    (start_world empty_database) = (Ok tt, start_world empty_database).
Proof.
  intros result.
  apply (bounded_model_catalog_fits result
    (sample_device <| d_model_catalog := bounded_model_catalog result |>)
    (start_world empty_database)); [vm_compute; discriminate|reflexivity].
Defined.
