(* ===== verification/Commands.v ===== *)
(** * Commands ([control_api/commands.py])

    [CommandService] admits a command once per idempotency key, bounds how many
    a device and an owner may hold, and expires the ones whose deadline has
    passed.  In-process locks ([serialize_device_mutation] and the owner lock)
    only order handlers that the row locks order as well. *)

From stdpp Require Import base list gmap.
From Stdlib Require Import NArith ZArith Lia.
From S2P Require Import Prelude Config Json Paths Models Storage World Testbed Wire Budget Events.
From S2P Require Import Capacity.
Open Scope Z_scope.

Definition seconds (n : Z) : Z := n * 1000000.

Section commands.
Context {P : Platform}.

Definition canonical_request_hash (method : pystr) (params : list (pystr * json))
    (scope : option pystr) : pystr :=
  let document := [("method", JStr method); ("params", JObj params)] in
  let document :=
    match scope with Some s => assoc_set "scope" (JStr s) document | None => document end in
  sha256_hex (canonical_dumps (JObj document)).

(** [str(resource)[:255] if resource else "device"]. *)
Definition json_truthy (j : json) : bool :=
  match j with
  | JNull => false
  | JBool b => b
  | JInt z => negb (z =? 0)
  | JFloat _ t => negb (bool_decide (t = "0.0")) && negb (bool_decide (t = "-0.0"))
  | JStr s => py_truthy s
  | JArr l => negb (bool_decide (l = []))
  | JObj l => negb (bool_decide (l = []))
  end.

Definition command_scope (device_id : uuid) (method : pystr) (thread_binding_id : option uuid)
    (params : list (pystr * json)) : pystr :=
  let resource :=
    match thread_binding_id with
    | Some id => Some (JStr (uuid_str id))
    | None => assoc_get "threadId" params
    end in
  let normalized_resource :=
    match resource with
    | Some r => if json_truthy r then py_take 255 (py_str r) else "device"
    | None => "device"
    end in
  "device:" +++ uuid_str device_id +++ "|method:" +++ method +++ "|resource:"
    +++ normalized_resource.

(** [None] is the [UnicodeEncodeError] of a lone surrogate. *)
Definition wire_idempotency_key (scope key : pystr) : option pystr :=
  s ← utf8_encode scope;
  k ← utf8_encode key;
  Some (sha256_hex (codepoints "sub2api-codex-control/wire-idempotency/v1" ++ [0%N] ++ s
                    ++ [0%N] ++ k)).

Definition command_view (id : uuid) (c : Command) : json :=
  JObj [("id", JStr (uuid_str id)); ("state", JStr (command_status_value (cmd_status c)));
        ("method", JStr (cmd_method c)); ("deadline_at", opt_time (cmd_expires_at c));
        ("result", cmd_result c); ("error_code", opt_str (cmd_error_code c));
        ("error_message", opt_str (cmd_error_message c))].

Definition command_event_data (id : uuid) (c : Command) : json :=
  JObj [("device_id", JStr (uuid_str (cmd_device_id c))); ("command", command_view id c)].

(** The row after [repair_binding_for_terminal_command], and whether it changed. *)
Definition repair_binding_for_terminal_command (b : ThreadBinding) (c : Command) (now : Z) :
    bool * ThreadBinding :=
  if hidden (tb_status b) then (false, b)
  else (true, b <| tb_status := TsFailed |> <| tb_active_turn_id := None |>
                <| tb_last_error := opt_or (cmd_error_message c) (cmd_error_code c) |>
                <| tb_updated_at := now |>).

(** Flushing a changed binding: [updated_at] has [onupdate=utc_now], which
    applies when the statement does not set the column itself. *)
Definition save_binding (id : uuid) (new : ThreadBinding) : tx unit :=
  old ← query (λ db, threads db !! id);
  match old with
  | None => mret tt
  | Some old =>
      if bool_decide (new = old) then mret tt
      else if tb_updated_at new =? tb_updated_at old then
        t ← now;
        modify (λ db, db <| threads := <[id := new <| tb_updated_at := t |>]> (threads db) |>)
      else modify (λ db, db <| threads := <[id := new]> (threads db) |>)
  end.

(** Attribute assignments on a loaded [Command]. *)
Definition update_command (id : uuid) (f : Command → Command) : tx unit :=
  modify (λ db, db <| commands := alter f id (commands db) |>).

(** ** Who may be addressed *)

Definition is_online (device_id : uuid) (connection_nonce : option pystr) : tx bool :=
  if negb (opt_truthy connection_nonce) then mret false
  else
    raw ← store_get (connection_key device_id);
    mret (match raw ≫= json_loads with
          | Some registry => registry_nonce_matches registry connection_nonce
          | None => false
          end).

Definition require_owned_online_device (owner_user_id : pystr) (device_id : uuid) : tx Device :=
  d ← query (λ db, devices db !! device_id);
  match d with
  | Some d =>
      if bool_decide (d_owner_user_id d = owner_user_id) && negb (is_revoked d) then
        if opt_truthy (d_active_epoch d) then
          online ← is_online device_id (d_active_connection_nonce d);
          if online : bool then mret d else raise DeviceOffline
        else raise DeviceOffline
      else raise CommandObjectNotFound
  | None => raise CommandObjectNotFound
  end.

(** ** Dispatch wake-ups *)

Definition notify_dispatch (device_id command_id : uuid) : tx unit :=
  publish ("device-dispatch:" +++ uuid_str device_id)
    (JObj [("kind", JStr "command"); ("command_id", JStr (uuid_str command_id))]).

Definition _notify_dispatch_best_effort (device_id command_id : uuid) : tx unit :=
  best_effort (notify_dispatch device_id command_id).

Definition _publish_event_best_effort (owner_user_id : pystr) (event : BrowserEvent) : tx unit :=
  best_effort (publish_event owner_user_id event).

(** ** Creation *)

Definition same_request (owner : pystr) (device_id : uuid) (scope key : pystr) (c : Command) :
    bool :=
  bool_decide (cmd_owner_user_id c = owner) && bool_decide (cmd_device_id c = device_id)
  && bool_decide (cmd_idempotency_scope c = scope) && bool_decide (cmd_idempotency_key c = key).

Definition find_existing (owner : pystr) (device_id : uuid) (scope key : pystr) (db : database) :
    option (uuid * Command) :=
  head (select_rows (λ _ c, same_request owner device_id scope key c) (commands db)).

Definition _reuse_existing (existing : uuid * Command) (request_hash : pystr) (device_id : uuid) :
    tx (uuid * Command) :=
  let '(id, c) := existing in
  if negb (bool_decide (cmd_request_hash c = request_hash)) then
    measure (MCommandIdempotency "conflict");;
    raise CommandIdempotencyConflict
  else
    measure (MCommandIdempotency "replayed");;
    measure (MRpcPolicy "allowlisted" "accepted");;
    (if bool_decide (cmd_status c = CsQueued) then _notify_dispatch_best_effort device_id id
     else mret tt);;
    mret existing.

Definition outstanding_count (device_id : uuid) (db : database) : Z :=
  count_rows (λ _ c, bool_decide (cmd_device_id c = device_id) && outstanding (cmd_status c))
    (commands db).

Definition device_command_count (device_id : uuid) (db : database) : Z :=
  count_rows (λ _ c, bool_decide (cmd_device_id c = device_id)) (commands db).

Definition owner_command_count (owner : pystr) (db : database) : Z :=
  count_rows (λ _ c, bool_decide (cmd_owner_user_id c = owner)) (commands db).

Definition active_turn_start (owner : pystr) (device_id binding_id : uuid) (db : database) : bool :=
  exists_row (λ _ c,
    bool_decide (cmd_owner_user_id c = owner) && bool_decide (cmd_device_id c = device_id)
    && bool_decide (cmd_thread_binding_id c = Some binding_id)
    && bool_decide (cmd_method c = "turn/start") && outstanding (cmd_status c)) (commands db).

(** The insert inside the savepoint fails on a primary key that is taken, on a
    missing thread and on the unique idempotency key. *)
Definition insert_command (id : uuid) (c : Command) : tx unit :=
  bad ← query (λ db,
    bool_decide (is_Some (commands db !! id))
    || match cmd_thread_binding_id c with
       | Some t => bool_decide (threads db !! t = None)
       | None => false
       end
    || bool_decide (is_Some (find_existing (cmd_owner_user_id c) (cmd_device_id c)
                               (cmd_idempotency_scope c) (cmd_idempotency_key c) db)));
  if bad : bool then raise IntegrityError
  else modify (λ db, db <| commands := <[id := c]> (commands db) |>).

Definition _create_serialized (owner_user_id : pystr) (device_id : uuid) (method : pystr)
    (params : list (pystr * json)) (idempotency_key : pystr) (metadata : RequestMetadata)
    (thread_binding_id : option uuid) (deadline_seconds : option Z) (scope request_hash : pystr) :
    tx (uuid * Command) :=
  existing ← query (find_existing owner_user_id device_id scope idempotency_key);
  match existing with
  | Some existing => _reuse_existing existing request_hash device_id
  | None =>
  locked_device ← query (λ db, devices db !! device_id);
  match locked_device with
  | Some device =>
    if bool_decide (d_owner_user_id device = owner_user_id)
       && bool_decide (d_status device = DsActive) then
      existing ← query (find_existing owner_user_id device_id scope idempotency_key);
      match existing with
      | Some existing => _reuse_existing existing request_hash device_id
      | None =>
      n ← query (outstanding_count device_id);
      guard_exn (device_max_outstanding_commands settings <=? n)
        (CommandCapacityExceeded "device has too many outstanding commands");;
      n ← query (device_command_count device_id);
      guard_exn (device_max_command_records settings <=? n)
        (CommandCapacityExceeded "device command record limit reached");;
      lock_owner_cursor owner_user_id;;
      n ← query (owner_command_count owner_user_id);
      guard_exn (owner_max_command_records settings <=? n)
        (CommandCapacityExceeded "owner command record limit reached");;
      busy ← match thread_binding_id with
             | Some t =>
                 if bool_decide (method = "turn/start")
                 then query (active_turn_start owner_user_id device_id t) else mret false
             | None => mret false
             end;
      guard_exn busy TurnStartInProgress;;
      t ← now;
      let ttl :=
        Z.min (match deadline_seconds with
               | Some s => if s =? 0 then command_ttl_seconds settings else s
               | None => command_ttl_seconds settings
               end) (command_ttl_seconds settings) in
      let command :=
        {| cmd_owner_user_id := owner_user_id; cmd_device_id := device_id;
           cmd_thread_binding_id := thread_binding_id; cmd_idempotency_key := idempotency_key;
           cmd_idempotency_scope := scope; cmd_request_hash := request_hash;
           cmd_method := method; cmd_payload := JObj params; cmd_status := CsQueued;
           cmd_appserver_epoch := d_active_epoch device; cmd_result := JNull;
           cmd_error_code := None; cmd_error_message := None; cmd_created_at := t;
           cmd_dispatched_at := None; cmd_acknowledged_at := None; cmd_completed_at := None;
           cmd_expires_at := Some (t + seconds ttl) |} in
      id ← fresh_uuid;
      raced ← try_catch (insert_command id command;; mret None)
                (λ e,
                   match e with
                   | IntegrityError =>
                       existing ← query (find_existing owner_user_id device_id scope
                                           idempotency_key);
                       match existing with
                       | None => raise IntegrityError
                       | Some existing => mret (Some existing)
                       end
                   | e => raise e
                   end);
      match raced with
      | Some existing => _reuse_existing existing request_hash device_id
      | None =>
          add_audit (Some owner_user_id) None None "command.create" AoSucceeded "command"
            (uuid_str id) metadata
            (JObj [("device_id", JStr (uuid_str device_id)); ("method", JStr method);
                   ("idempotency_scope", JStr scope)]);;
          command_event ← append owner_user_id device_id CommandUpdated
                            (command_event_data id command) thread_binding_id None;
          thread_events ←
            match thread_binding_id with
            | None => mret []
            | Some t =>
                binding ← query (λ db, threads db !! t);
                match binding with
                | Some b =>
                    if bool_decide (tb_owner_user_id b = owner_user_id)
                       && negb (hidden (tb_status b)) then
                      data ← thread_event_data t b;
                      e ← append owner_user_id device_id ThreadUpdated data (Some t) None;
                      mret [e]
                    else mret []
                | None => mret []
                end
            end;
          commit;;
          measure (MCommandTransition "none" "queued" None);;
          measure (MRpcPolicy "allowlisted" "accepted");;
          _notify_dispatch_best_effort device_id id;;
          for_each (_publish_event_best_effort owner_user_id) (command_event :: thread_events);;
          mret (id, command)
      end
      end
    else raise CommandObjectNotFound
  | None => raise CommandObjectNotFound
  end
  end.

Definition create (owner_user_id : pystr) (device_id : uuid) (device : Device) (method : pystr)
    (params : list (pystr * json)) (idempotency_key : pystr) (metadata : RequestMetadata)
    (thread_binding_id : option uuid) (deadline_seconds : option Z)
    (idempotency_scope : option pystr) : tx (uuid * Command) :=
  if negb (py_in method ALLOWED_RPC_METHODS) then
    measure (MRpcPolicy "prohibited" "denied");;
    raise (ValueError "command method is not allowlisted")
  else
    match validate_command_budget device_id (default "" (d_active_epoch device))
            (d_workspace_roots device) method params idempotency_key
            (device_max_envelope_bytes settings) with
    | Raise e => raise e
    | Ok _ =>
        let scope :=
          match idempotency_scope with
          | Some s => if py_truthy s then s
                      else command_scope device_id method thread_binding_id params
          | None => command_scope device_id method thread_binding_id params
          end in
        guard_exn (negb (py_truthy scope) || (512 <? py_len scope))
          (ValueError "idempotency scope is invalid");;
        _create_serialized owner_user_id device_id method params idempotency_key metadata
          thread_binding_id deadline_seconds scope
          (canonical_request_hash method params (Some scope))
    end.

(** ** Expiry *)

Definition overdue (now : Z) (c : Command) : bool :=
  outstanding (cmd_status c)
  && match cmd_expires_at c with Some t => t <=? now | None => false end.

Definition expire_command (now : Z) (c : Command) : Command :=
  c <| cmd_status := CsExpired |> <| cmd_completed_at := Some now |>
    <| cmd_error_code := Some "expired" |>
    <| cmd_error_message := Some "command deadline passed before completion" |>.

(** The thread of a command, on the same device and of the same owner. *)
Definition command_binding (c : Command) (db : database) : option (uuid * ThreadBinding) :=
  t ← cmd_thread_binding_id c;
  b ← threads db !! t;
  if bool_decide (tb_device_id b = cmd_device_id c)
     && bool_decide (tb_owner_user_id b = cmd_owner_user_id c) then Some (t, b) else None.

(** The body of the loop of [expire_due]. *)
Definition expire_one (t : Z) (candidate : uuid * uuid * pystr) : tx Z :=
  let '(command_id, device_id, owner_user_id) := candidate in
  device ← query (λ db, devices db !! device_id);
  match device with
  | Some d =>
    if bool_decide (d_owner_user_id d = owner_user_id) then
      lock_owner_cursor owner_user_id;;
      command ← query (λ db, commands db !! command_id);
      match command with
      | Some c =>
        if bool_decide (cmd_device_id c = device_id)
           && bool_decide (cmd_owner_user_id c = owner_user_id) && overdue t c then
          let c' := expire_command t c in
          update_command command_id (expire_command t);;
          add_audit (Some owner_user_id) None None "command.expire" AoFailed "command"
            (uuid_str command_id) no_metadata
            (JObj [("device_id", JStr (uuid_str device_id)); ("method", JStr (cmd_method c))]);;
          command_event ← append owner_user_id device_id CommandUpdated
                            (command_event_data command_id c') (cmd_thread_binding_id c) None;
          binding ← query (command_binding c);
          thread_events ←
            match binding with
            | Some (tid, b) =>
                match repair_binding_for_terminal_command b c' t with
                | (true, b') =>
                    save_binding tid b';;
                    data ← thread_event_data tid b';
                    e ← append owner_user_id device_id ThreadUpdated data (Some tid) None;
                    mret [e]
                | (false, _) => mret []
                end
            | None => mret []
            end;
          commit;;
          measure (MCommandTransition (command_status_value (cmd_status c)) "expired"
                     (Some (t - cmd_created_at c)));;
          for_each (_publish_event_best_effort owner_user_id) (command_event :: thread_events);;
          mret 1
        else rollback;; mret 0
      | None => rollback;; mret 0
      end
    else rollback;; mret 0
  | None => rollback;; mret 0
  end.

Definition by_device_then_id (a b : uuid * Command) : bool :=
  ((cmd_device_id a.2 <? cmd_device_id b.2)
   || ((cmd_device_id a.2 =? cmd_device_id b.2) && (a.1 <=? b.1)))%N.

Definition expire_due (now_arg : option Z) : tx Z :=
  t ← match now_arg with Some t => mret t | None => now end;
  candidates ← query (λ db,
    take (Z.to_nat (retention_sweep_batch_size settings))
      (order_by by_device_then_id (select_rows (λ _ c, overdue t c) (commands db))));
  rollback;;
  fold_tx (λ expired '(id, c),
             n ← expire_one t (id, cmd_device_id c, cmd_owner_user_id c);
             mret (expired + n)) 0 candidates.
End commands.

(** ** How a command evolves

    Its request is fixed when it is created; its status only advances; a
    terminal command is final, except that a command failed with an
    indeterminate epoch replacement may still learn its real outcome. *)

Definition command_rank (s : CommandStatus) : Z :=
  match s with CsQueued => 0 | CsDispatched => 1 | CsAcknowledged => 2 | _ => 3 end.

Definition indeterminate (c : Command) : Prop :=
  cmd_status c = CsFailed ∧ cmd_error_code c = Some ("epoch_replaced_indeterminate" : pystr).

Record same_command (c c' : Command) : Prop := {
  sc_owner : cmd_owner_user_id c' = cmd_owner_user_id c;
  sc_device : cmd_device_id c' = cmd_device_id c;
  sc_binding : cmd_thread_binding_id c' = cmd_thread_binding_id c;
  sc_key : cmd_idempotency_key c' = cmd_idempotency_key c;
  sc_scope : cmd_idempotency_scope c' = cmd_idempotency_scope c;
  sc_hash : cmd_request_hash c' = cmd_request_hash c;
  sc_method : cmd_method c' = cmd_method c;
  sc_payload : cmd_payload c' = cmd_payload c;
  sc_epoch : cmd_appserver_epoch c' = cmd_appserver_epoch c;
  sc_created : cmd_created_at c' = cmd_created_at c;
  sc_expires : cmd_expires_at c' = cmd_expires_at c;
}.

Record command_evolves (c c' : Command) : Prop := {
  ce_same : same_command c c';
  ce_rank : command_rank (cmd_status c) ≤ command_rank (cmd_status c');
  ce_final : outstanding (cmd_status c) = false → ¬ indeterminate c → c' = c;
}.

Definition commands_step (db db' : database) : Prop :=
  ∀ id, option_Forall2 command_evolves (commands db !! id) (commands db' !! id).

Lemma outstanding_rank s : outstanding s = true ↔ command_rank s < 3.
Proof. destruct s; vm_compute; intuition congruence. Qed.

#[export] Instance command_evolves_refl : Reflexive command_evolves.
Proof. intros c. split; [by split|done|done]. Qed.

#[export] Instance command_evolves_trans : Transitive command_evolves.
Proof.
  intros a b c [[] R1 F1] [[] R2 F2]. split; [split; congruence|lia|].
  intros Ho Hi. pose proof (F1 Ho Hi) as ->. by apply F2.
Qed.

#[export] Instance commands_step_refl : Reflexive commands_step.
Proof. intros db id. destruct (commands db !! id); by constructor. Qed.

#[export] Instance commands_step_trans : Transitive commands_step.
Proof.
  intros a b c H1 H2 id. specialize (H1 id). specialize (H2 id).
  destruct H1 as [x y Hxy|]; inversion H2 as [y' z Hyz E1 E2|E1 E2]; subst; constructor.
  by etrans.
Qed.

Lemma commands_step_same db db' : commands db' = commands db → commands_step db db'.
Proof. intros E id. rewrite E. destruct (commands db !! id); by constructor. Qed.

Lemma commands_step_update db id f c :
  commands db !! id = Some c → command_evolves c (f c) →
  commands_step db (db <| commands := alter f id (commands db) |>).
Proof.
  intros Hc Hf i. simpl. rewrite lookup_alter. case_decide as Hi.
  - rewrite <- Hi, Hc. by constructor.
  - destruct (commands db !! i); by constructor.
Qed.

(** ** The invariant of the table *)

Section commands_invariant.
Context {P : Platform}.

Definition turn_start_on (owner : pystr) (device_id binding_id : uuid) (c : Command) : bool :=
  bool_decide (cmd_owner_user_id c = owner) && bool_decide (cmd_device_id c = device_id)
  && bool_decide (cmd_thread_binding_id c = Some binding_id)
  && bool_decide (cmd_method c = "turn/start") && outstanding (cmd_status c).

Record commands_ok (db : database) : Prop := {
  co_unique id id' c c' :
    commands db !! id = Some c → commands db !! id' = Some c' →
    same_request (cmd_owner_user_id c) (cmd_device_id c) (cmd_idempotency_scope c)
      (cmd_idempotency_key c) c' = true → id = id';
  co_turn owner dev t id id' c c' :
    commands db !! id = Some c → commands db !! id' = Some c' →
    turn_start_on owner dev t c = true → turn_start_on owner dev t c' = true → id = id';
  co_outstanding dev :
    outstanding_count dev db ≤ Z.max 0 (device_max_outstanding_commands settings);
  co_device dev : device_command_count dev db ≤ Z.max 0 (device_max_command_records settings);
  co_owner owner : owner_command_count owner db ≤ Z.max 0 (owner_max_command_records settings);
}.

Lemma same_request_spec owner dev scope key c :
  same_request owner dev scope key c = true ↔
    cmd_owner_user_id c = owner ∧ cmd_device_id c = dev ∧ cmd_idempotency_scope c = scope
    ∧ cmd_idempotency_key c = key.
Proof.
  unfold same_request. rewrite !andb_true_iff, !bool_decide_eq_true. tauto.
Qed.

Lemma commands_step_inv db db' id c' :
  commands_step db db' → commands db' !! id = Some c' →
  ∃ c, commands db !! id = Some c ∧ command_evolves c c'.
Proof.
  intros H Hc. specialize (H id). rewrite Hc in H. inversion H as [c x Hx E1 E2|]; subst. eauto.
Qed.

Lemma evolves_outstanding c c' :
  command_evolves c c' → outstanding (cmd_status c') = true → outstanding (cmd_status c) = true.
Proof. intros [_ R _]. rewrite !outstanding_rank. lia. Qed.

(** Advancing commands keeps the invariant. *)
Lemma commands_ok_step db db' : commands_ok db → commands_step db db' → commands_ok db'.
Proof.
  intros [Hu Ht Ho Hd Hw] Hs. split.
  - intros id id' c c' (b & Hb & [[] _ _])%(commands_step_inv _ _ _ _ Hs)
      (b' & Hb' & [[] _ _])%(commands_step_inv _ _ _ _ Hs) (E1 & E2 & E3 & E4)%same_request_spec.
    eapply Hu; [exact Hb|exact Hb'|]. apply same_request_spec. split_and!; congruence.
  - intros owner dev t id id' c c' (b & Hb & Eb)%(commands_step_inv _ _ _ _ Hs)
      (b' & Hb' & Eb')%(commands_step_inv _ _ _ _ Hs) H H'.
    pose proof (evolves_outstanding _ _ Eb) as Hout. pose proof (evolves_outstanding _ _ Eb') as Hout'.
    destruct Eb as [[] _ _], Eb' as [[] _ _]. unfold turn_start_on in *. reflect_bools.
    eapply (Ht owner dev t); [exact Hb|exact Hb'|..]; unfold turn_start_on;
      rewrite !bool_decide_true by congruence; by auto.
  - intros dev. etrans; [|apply (Ho dev)]. apply count_rows_mono.
    intros k c' (b & Hb & Eb)%(commands_step_inv _ _ _ _ Hs) H. exists b. split; [done|].
    pose proof (evolves_outstanding _ _ Eb). destruct Eb as [[] _ _]. reflect_bools.
    rewrite bool_decide_true by congruence. by auto.
  - intros dev. etrans; [|apply (Hd dev)]. apply count_rows_mono.
    intros k c' (b & Hb & [[] _ _])%(commands_step_inv _ _ _ _ Hs) H. exists b. split; [done|].
    reflect_bools. apply bool_decide_true. congruence.
  - intros owner. etrans; [|apply (Hw owner)]. apply count_rows_mono.
    intros k c' (b & Hb & [[] _ _])%(commands_step_inv _ _ _ _ Hs) H. exists b. split; [done|].
    reflect_bools. apply bool_decide_true. congruence.
Qed.

(** Admitting a command that passed the checks of [_create_serialized]. *)
Lemma commands_ok_insert db id c :
  commands_ok db → commands db !! id = None →
  find_existing (cmd_owner_user_id c) (cmd_device_id c) (cmd_idempotency_scope c)
    (cmd_idempotency_key c) db = None →
  outstanding_count (cmd_device_id c) db < device_max_outstanding_commands settings →
  device_command_count (cmd_device_id c) db < device_max_command_records settings →
  owner_command_count (cmd_owner_user_id c) db < owner_max_command_records settings →
  (∀ t, cmd_thread_binding_id c = Some t → cmd_method c = "turn/start" →
     active_turn_start (cmd_owner_user_id c) (cmd_device_id c) t db = false) →
  commands_ok (db <| commands := <[id := c]> (commands db) |>).
Proof.
  intros [Hu Ht Ho Hd Hw] Hid Hnew Hn1 Hn2 Hn3 Hbusy.
  assert (Hnone : ∀ i b, commands db !! i = Some b →
    same_request (cmd_owner_user_id c) (cmd_device_id c) (cmd_idempotency_scope c)
      (cmd_idempotency_key c) b = false).
  { intros i b Hb. apply not_true_iff_false. intros Hs.
    assert ((i, b) ∈ select_rows (λ _ x, same_request (cmd_owner_user_id c) (cmd_device_id c)
      (cmd_idempotency_scope c) (cmd_idempotency_key c) x) (commands db)) as Hin.
    { by apply elem_of_select_rows. }
    unfold find_existing in Hnew. destruct (select_rows _ _); [|done].
    by apply not_elem_of_nil in Hin. }
  assert (Hquiet : ∀ owner dev t i b, commands db !! i = Some b →
    turn_start_on owner dev t b = true → turn_start_on owner dev t c = true → False).
  { intros owner dev t i b Hb H1 H2. unfold turn_start_on in H2. reflect_bools. subst.
    assert (active_turn_start (cmd_owner_user_id c) (cmd_device_id c) t db = true) as Hx.
    { apply exists_row_spec. exists i, b. split; [done|exact H1]. }
    by rewrite Hbusy in Hx. }
  split; simpl.
  - intros i i' b b'. rewrite !lookup_insert. repeat case_decide; subst; try done.
    + intros [= <-] Hb' Hs. by rewrite (Hnone _ _ Hb') in Hs.
    + intros Hb [= <-] (E1 & E2 & E3 & E4)%same_request_spec.
      pose proof (Hnone _ _ Hb) as Hf. apply not_true_iff_false in Hf. exfalso. apply Hf.
      by apply same_request_spec.
    + apply Hu.
  - intros owner dev t i i' b b'. rewrite !lookup_insert. repeat case_decide; subst; try done.
    + intros [= <-] Hb' H1 H2. exfalso. eauto.
    + intros Hb [= <-] H1 H2. exfalso. eauto.
    + apply Ht.
  - intros dev. unfold outstanding_count. simpl. rewrite count_rows_insert by done.
    specialize (Ho dev). unfold outstanding_count in *. destruct (_ && _) eqn:E; [|lia].
    reflect_bools. subst. lia.
  - intros dev. unfold device_command_count. simpl. rewrite count_rows_insert by done.
    specialize (Hd dev). unfold device_command_count in *. case_bool_decide; [|lia]. subst. lia.
  - intros owner. unfold owner_command_count. simpl. rewrite count_rows_insert by done.
    specialize (Hw owner). unfold owner_command_count in *. case_bool_decide; [|lia]. subst. lia.
Qed.
End commands_invariant.

(** ** Running the operations *)

Section commands_run.
Context {P : Platform}.

Lemma wp_save_binding id b (Q : outcome unit → world → Prop) w :
  (∀ w' T, working w' = (working w) <| threads := T |> → durable w' = durable w → Q (Ok tt) w') →
  wp (save_binding id b) Q w.
Proof.
  intros HQ. unfold save_binding.
  wp_step. wp_step. destruct (threads (working w) !! id) as [old|].
  - case_bool_decide.
    + apply wp_ret. apply (HQ w (threads (working w))); [by destruct (working w)|done].
    + destruct (_ =? _).
      * wp_step. wp_step. wp_step. by eapply HQ.
      * wp_step. by eapply HQ.
  - apply wp_ret. apply (HQ w (threads (working w))); [by destruct (working w)|done].
Qed.

Lemma silent_reuse_existing existing h dev : silent (_reuse_existing existing h dev).
Proof.
  destruct existing as [id c]. unfold _reuse_existing, _notify_dispatch_best_effort, notify_dispatch.
  solve_silent.
Qed.

(** Reusing a command: same request or conflict, and nothing is written. *)
Lemma reuse_existing_result id c h dev w :
  (_reuse_existing (id, c) h dev w).1 =
    if bool_decide (cmd_request_hash c = h) then Ok (id, c) else Raise CommandIdempotencyConflict.
Proof.
  unfold _reuse_existing. case_bool_decide; simpl; [|done].
  unfold mbind, tx_bind, measure, emit. case_bool_decide; [|done].
  unfold _notify_dispatch_best_effort, best_effort, try_catch.
  by destruct (notify_dispatch _ _ _) as [[]].
Qed.

(** The command [_create_serialized] admits, and what its checks established. *)
Record admitted (owner : pystr) (dev : uuid) (method : pystr) (params : list (pystr * json))
    (key : pystr) (t : option uuid) (deadline : option Z) (scope h : pystr) (db : database)
    (id : uuid) (c : Command) : Prop := {
  ad_request : cmd_owner_user_id c = owner ∧ cmd_device_id c = dev ∧ cmd_method c = method
    ∧ cmd_payload c = JObj params ∧ cmd_idempotency_key c = key ∧ cmd_idempotency_scope c = scope
    ∧ cmd_request_hash c = h ∧ cmd_thread_binding_id c = t ∧ cmd_status c = CsQueued
    ∧ cmd_result c = JNull ∧ cmd_error_code c = None;
  ad_device : ∃ d, devices db !! dev = Some d ∧ d_owner_user_id d = owner ∧ d_status d = DsActive
    ∧ cmd_appserver_epoch c = d_active_epoch d;
  ad_deadline : ∃ ttl, cmd_expires_at c = Some (cmd_created_at c + seconds ttl)
    ∧ ttl ≤ command_ttl_seconds settings ∧ (∀ s, deadline = Some s → s ≠ 0 → ttl ≤ s);
  ad_fresh : commands db !! id = None;
  ad_new : find_existing owner dev scope key db = None;
  ad_outstanding : outstanding_count dev db < device_max_outstanding_commands settings;
  ad_records : device_command_count dev db < device_max_command_records settings;
  ad_owner : owner_command_count owner db < owner_max_command_records settings;
  ad_turn u : t = Some u → method = "turn/start" → active_turn_start owner dev u db = false;
}.

(** The three ways [_create_serialized] can end. *)
Inductive create_result (owner : pystr) (dev : uuid) (method : pystr) (params : list (pystr * json))
    (key : pystr) (t : option uuid) (deadline : option Z) (scope h : pystr) (w : world) :
    outcome (uuid * Command) → world → Prop :=
| cr_replay id c w' :
    find_existing owner dev scope key (working w) = Some (id, c) →
    working w' = working w → durable w' = durable w →
    create_result owner dev method params key t deadline scope h w
      (if bool_decide (cmd_request_hash c = h) then Ok (id, c) else Raise CommandIdempotencyConflict)
      w'
| cr_refused e w' :
    find_existing owner dev scope key (working w) = None →
    event_update (working w) (working w') → durable w' = durable w →
    create_result owner dev method params key t deadline scope h w (Raise e) w'
| cr_created id c r w' :
    admitted owner dev method params key t deadline scope h (working w) id c →
    event_update ((working w) <| commands := <[id := c]> (commands (working w)) |>) (working w') →
    (r = Ok (id, c) ∧ durable w' = working w' ∨ (∃ e, r = Raise e) ∧ durable w' = durable w) →
    create_result owner dev method params key t deadline scope h w r w'.

Lemma find_existing_commands owner dev scope key db db' :
  commands db' = commands db →
  find_existing owner dev scope key db' = find_existing owner dev scope key db.
Proof. intros E. unfold find_existing. by rewrite E. Qed.

Lemma event_update_commands db db' C :
  event_update db db' → event_update (db <| commands := C |>) (db' <| commands := C |>).
Proof. intros []. by split. Qed.

Lemma wp_busy owner dev (method : pystr) t (Q : outcome bool → world → Prop) w :
  (∀ b, (∀ u, t = Some u → method = "turn/start" → active_turn_start owner dev u (working w) = b) →
     Q (Ok b) w) →
  wp (match t with
      | Some t => if bool_decide (method = "turn/start")
                  then query (active_turn_start owner dev t) else mret false
      | None => mret false
      end) Q w.
Proof. intros HQ. destruct t as [u|]; [case_bool_decide|]; apply HQ; naive_solver. Qed.

(** The insert in its savepoint, when no such command exists. *)
Lemma wp_insert_new id c owner dev scope key
    (Q : outcome (option (uuid * Command)) → world → Prop) w :
  find_existing owner dev scope key (working w) = None →
  Q (Raise IntegrityError) w →
  (∀ w', commands (working w) !! id = None →
     working w' = (working w) <| commands := <[id := c]> (commands (working w)) |> →
     durable w' = durable w → Q (Ok None) w') →
  wp (try_catch (insert_command id c;; mret None)
        (λ e,
           match e with
           | IntegrityError =>
               existing ← query (find_existing owner dev scope key);
               match existing with
               | None => raise IntegrityError
               | Some existing => mret (Some existing)
               end
           | e => raise e
           end)) Q w.
Proof.
  intros Hnone Hr Hok. wp_step. wp_step. unfold insert_command. wp_step. wp_step.
  destruct (_ || _) eqn:Hbad.
  - do 3 wp_step. rewrite Hnone. by wp_step.
  - apply orb_false_iff in Hbad as [[Hbad _]%orb_false_iff _]. reflect_bools.
    wp_step. wp_step. apply Hok; [|done..].
    destruct (commands (working w) !! id) eqn:E; [|done]. destruct Hbad. by eexists.
Qed.

(** The thread event of a new command. *)
Lemma wp_thread_events owner dev t (Q : outcome (list BrowserEvent) → world → Prop) w :
  (∀ r w', event_update (working w) (working w') → durable w' = durable w → Q r w') →
  wp (match t with
      | None => mret []
      | Some t =>
          binding ← query (λ db, threads db !! t);
          match binding with
          | Some b =>
              if bool_decide (tb_owner_user_id b = owner) && negb (hidden (tb_status b)) then
                data ← thread_event_data t b;
                e ← append owner dev ThreadUpdated data (Some t) None;
                mret [e]
              else mret []
          | None => mret []
          end
      end) Q w.
Proof.
  intros HQ. destruct t as [t|]; [|by apply HQ]. wp_step. wp_step.
  destruct (threads (working w) !! t) as [b|]; [|by apply HQ].
  destruct (_ && _); [|by apply HQ].
  wp_step. apply wp_silent.
  { unfold thread_event_data, thread_summary. solve_silent. }
  intros [data|e] w1 Hw1 Hd1; [|apply HQ; by rewrite ?Hw1].
  wp_step. apply wp_append. intros [e|e] w2 Hw2 Hd2; rewrite Hw1 in Hw2.
  - wp_step. apply HQ; [done|congruence].
  - apply HQ; [done|congruence].
Qed.

Lemma create_serialized_run owner dev method params key meta t deadline scope h w :
  wp (_create_serialized owner dev method params key meta t deadline scope h)
    (create_result owner dev method params key t deadline scope h w) w.
Proof.
  unfold _create_serialized. wp_step. wp_step.
  destruct (find_existing owner dev scope key (working w)) as [[id0 c0]|] eqn:Hex.
  { unfold wp. rewrite reuse_existing_result. destruct (silent_reuse_existing (id0, c0) h dev w).
    by eapply cr_replay. }
  wp_step. wp_step. destruct (devices (working w) !! dev) as [d|] eqn:Hd.
  2:{ by apply wp_raise, cr_refused. }
  destruct (_ && _) eqn:Hact; [|by apply wp_raise, cr_refused]. reflect_bools.
  wp_step. wp_step. rewrite Hex.
  do 2 wp_step. do 2 wp_step; [by apply cr_refused|].
  do 2 wp_step. do 2 wp_step; [by apply cr_refused|].
  wp_step. apply wp_lock_owner_cursor. intros n w1 Hw1 Hd1.
  do 2 wp_step. do 2 wp_step; [by apply cr_refused|].
  wp_step. apply wp_busy. intros busy Hbusy. do 2 wp_step; [by apply cr_refused|].
  subst busy. do 2 wp_step. do 2 wp_step.
  pose proof (eu_commands _ _ Hw1) as Hcmd.
  assert (Hex1 : find_existing owner dev scope key (working w2) = None).
  { rewrite (find_existing_commands _ _ _ _ (working w)); [done|]. congruence. }
  wp_step. apply wp_insert_new; [exact Hex1|apply cr_refused; [done| |done]|].
  { by rewrite Hw0. }
  intros w3 Hfree Hw3 Hd3. rewrite Hw0 in Hfree, Hw3. cbv beta iota.
  match type of Hw3 with context [<[u := ?x]> _] => set (c := x) in * end.
  assert (Had : admitted owner dev method params key t deadline scope h (working w) u c).
  { split; try done; rewrite <- ?Hcmd; try done.
    - by exists d.
    - eexists. split; [reflexivity|]. split; [lia|]. intros s -> Hs.
      replace (s =? 0) with false by (symmetry; by apply Z.eqb_neq). lia.
    - by apply Z.leb_gt.
    - by apply Z.leb_gt.
    - unfold owner_command_count. rewrite <- Hcmd. by apply Z.leb_gt.
    - intros x Hx Hm. unfold active_turn_start. rewrite <- Hcmd. by apply Hbusy. }
  set (target := (working w) <| commands := <[u := c]> (commands (working w)) |>).
  assert (Hup : event_update target (working w3)).
  { rewrite Hw3, Hcmd. by apply event_update_commands. }
  wp_step. apply wp_add_audit. intros w4 Hw4 Hd4.
  wp_step. apply wp_append. intros [ce|e] w5 Hw5 Hd5.
  2:{ eapply cr_created; [done|by do 2 (etrans; [|done])|]. right. split; [by eexists|congruence]. }
  wp_step. apply wp_thread_events. intros [te|e] w6 Hw6 Hd6.
  2:{ eapply cr_created; [done|by do 3 (etrans; [|done])|]. right. split; [by eexists|congruence]. }
  do 2 wp_step. do 2 wp_step. do 2 wp_step.
  wp_step. unfold _notify_dispatch_best_effort, notify_dispatch. wp_step.
  wp_step. wp_step.
  { intros ?. apply best_effort_ok. }
  wp_step. eapply cr_created; [done| |by left; split; [|congruence]].
  rewrite_worlds. by do 3 (etrans; [|done]).
Qed.

Lemma commands_ok_same db db' : commands db' = commands db → commands_ok db → commands_ok db'.
Proof. intros E H. eapply commands_ok_step; [done|]. by apply commands_step_same. Qed.

Lemma admitted_ok owner dev method params key t deadline scope h db id c :
  admitted owner dev method params key t deadline scope h db id c → commands_ok db →
  commands_ok (db <| commands := <[id := c]> (commands db) |>).
Proof.
  intros [Hreq _ _ Hf Hn H1 H2 H3 Ht] Hok.
  destruct Hreq as (? & ? & ? & ? & ? & ? & ? & ? & _). subst.
  by apply commands_ok_insert.
Qed.

Lemma create_stable owner dev d method params key meta t deadline scope :
  stable commands_ok (create owner dev d method params key meta t deadline scope).
Proof.
  unfold create. destruct (negb _); [solve_stable|]. destruct (validate_command_budget _ _ _ _ _ _ _);
    [|apply stable_raise].
  apply stable_bind; [apply stable_guard|]. intros _ w H1 H2.
  eapply wp_mono; [apply create_serialized_run|]. intros r w' Hr.
  destruct Hr as [id c w' _ Hw Hd|e w' _ Hw Hd|id c r w' Had Hw Hr].
  - by rewrite Hw, Hd.
  - rewrite Hd. split; [|done]. eapply commands_ok_same; [by apply eu_commands|done].
  - assert (commands_ok (working w')) as Hok.
    { eapply commands_ok_same; [by eapply eu_commands|]. by eapply admitted_ok. }
    split; [done|]. destruct Hr as [[_ ->]|[_ ->]]; done.
Qed.

(** *** Expiry *)

Lemma event_update_owner db db' dev d :
  event_update db db' → devices db !! dev = Some d →
  ∃ d', devices db' !! dev = Some d' ∧ d_owner_user_id d' = d_owner_user_id d.
Proof.
  intros H Hd. destruct (event_update_device _ _ _ _ H Hd) as (d' & Hd' & Hc).
  exists d'. split; [done|]. by rewrite Hc.
Qed.

(** What one iteration of [expire_due] can do. *)
Inductive expire_result (t : Z) (id dev : uuid) (owner : pystr) (w : world) :
    outcome Z → world → Prop :=
| er_skip w' :
    ¬ (∃ c d, commands (working w) !! id = Some c ∧ devices (working w) !! dev = Some d
        ∧ d_owner_user_id d = owner ∧ cmd_device_id c = dev ∧ cmd_owner_user_id c = owner
        ∧ overdue t c = true) →
    working w' = durable w → durable w' = durable w → expire_result t id dev owner w (Ok 0) w'
| er_expired c r w' :
    commands (working w) !! id = Some c → overdue t c = true →
    commands (working w') = <[id := expire_command t c]> (commands (working w)) →
    (∀ i d, devices (working w) !! i = Some d →
       ∃ d', devices (working w') !! i = Some d' ∧ d_owner_user_id d' = d_owner_user_id d) →
    (r = Ok 1 ∧ durable w' = working w' ∨ (∃ e, r = Raise e) ∧ durable w' = durable w) →
    expire_result t id dev owner w r w'.

(** The thread event of a terminal command. *)
Definition terminal_thread_events (binding : option (uuid * ThreadBinding)) (c' : Command) (t : Z)
    (owner : pystr) (dev : uuid) : tx (list BrowserEvent) :=
  match binding with
  | Some (tid, b) =>
      match repair_binding_for_terminal_command b c' t with
      | (true, b') =>
          save_binding tid b';;
          data ← thread_event_data tid b';
          e ← append owner dev ThreadUpdated data (Some tid) None;
          mret [e]
      | (false, _) => mret []
      end
  | None => mret []
  end.

Lemma wp_terminal_thread_events binding c' t owner dev (Q : outcome (list BrowserEvent) → world → Prop) w :
  (∀ r w' T, event_update ((working w) <| threads := T |>) (working w') → durable w' = durable w →
     Q r w') →
  wp (terminal_thread_events binding c' t owner dev) Q w.
Proof.
  intros HQ. assert (Hsame : ∀ r, Q r w).
  { intros r. apply (HQ r w (threads (working w))); [|done]. by destruct (working w). }
  unfold terminal_thread_events. destruct binding as [[tid b]|]; [|by wp_step].
  destruct (repair_binding_for_terminal_command b c' t) as [[] b']; [|by wp_step].
  wp_step. apply wp_save_binding. intros w1 T Hw1 Hd1.
  wp_step. apply wp_silent.
  { unfold thread_event_data, thread_summary. solve_silent. }
  intros [data|e] w2 Hw2 Hd2; [|apply (HQ _ w2 T); [by rewrite Hw2, Hw1|congruence]].
  wp_step. apply wp_append. rewrite Hw2, Hw1. intros [e|e] w3 Hw3 Hd3.
  - wp_step. apply (HQ _ w3 T); [done|congruence].
  - apply (HQ _ w3 T); [done|congruence].
Qed.

Lemma expire_one_run t id dev owner w :
  wp (expire_one t (id, dev, owner)) (expire_result t id dev owner w) w.
Proof.
  unfold expire_one. do 2 wp_step.
  destruct (devices (working w) !! dev) as [d|] eqn:Hdev.
  2:{ do 2 wp_step. wp_step. apply er_skip; [naive_solver|done..]. }
  case_bool_decide as Ho.
  2:{ do 2 wp_step. wp_step. apply er_skip; [naive_solver|done..]. }
  wp_step. apply wp_lock_owner_cursor. intros n w1 Hw1 Hd1.
  pose proof (eu_commands _ _ Hw1) as Hcmd. do 2 wp_step. rewrite Hcmd.
  destruct (commands (working w) !! id) as [c|] eqn:Hc.
  2:{ do 2 wp_step. wp_step. apply er_skip; [naive_solver|congruence..]. }
  destruct (_ && overdue t c) eqn:Hg.
  2:{ do 2 wp_step. wp_step. apply er_skip; [|congruence..]. intros (c' & d' & ? & ? & ? & ? & ? & Hv).
      simplify_eq. rewrite !bool_decide_true in Hg by done. by rewrite Hv in Hg. }
  reflect_bools. unfold update_command. do 2 wp_step.
  set (C := <[id := expire_command t c]> (commands (working w))).
  assert (Hup : event_update ((working w) <| commands := C |>) (working w0)).
  { rewrite Hw, Hcmd, (alter_as_insert _ _ _ _ Hc). by apply event_update_commands. }
  assert (Hfin : ∀ db T r w', event_update ((working w) <| commands := C |>) db →
    event_update (db <| threads := T |>) (working w') →
    (r = Ok 1 ∧ durable w' = working w' ∨ (∃ e, r = Raise e) ∧ durable w' = durable w) →
    expire_result t id dev owner w r w').
  { intros db T r w' Hdb Hth Hr. eapply er_expired; [done|done| | |done].
    - rewrite (eu_commands _ _ Hth). exact (eu_commands _ _ Hdb).
    - intros i di Hi. destruct (event_update_owner _ _ i di Hdb Hi) as (d1 & E1 & <-).
      by apply (event_update_owner _ _ i d1 Hth). }
  wp_step. apply wp_add_audit. intros w2 Hw2 Hd2.
  wp_step. apply wp_append. intros [ce|e] w3 Hw3 Hd3.
  2:{ apply (Hfin (working w3) (threads (working w3))); [by do 2 (etrans; [|done])|..].
      - by destruct (working w3).
      - right. split; [by eexists|congruence]. }
  assert (Hup3 : event_update ((working w) <| commands := C |>) (working w3)).
  { by do 2 (etrans; [|done]). }
  do 3 wp_step. apply (wp_terminal_thread_events _ (expire_command t c) t owner dev).
  intros [te|e] w4 T Hw4 Hd4.
  2:{ eapply Hfin; [done|done|]. right. split; [by eexists|congruence]. }
  do 2 wp_step. do 2 wp_step. wp_step. unfold _publish_event_best_effort, publish_event. wp_step.
  { intros ?. apply best_effort_ok. }
  wp_step. eapply Hfin; [done| |left; split; [done|congruence]]. by rewrite_worlds.
Qed.

(** Expiry only ever expires overdue commands. *)
Definition expiry_step (t : Z) (db db' : database) : Prop :=
  ∀ id, option_Forall2 (λ c c', c' = c ∨ overdue t c = true ∧ c' = expire_command t c)
          (commands db !! id) (commands db' !! id).

Lemma overdue_evolves t c : overdue t c = true → command_evolves c (expire_command t c).
Proof.
  intros [Ho _]%andb_true_iff. split; [by split| |by rewrite Ho].
  apply outstanding_rank in Ho. simpl. lia.
Qed.

Lemma expiry_step_commands t db db' : expiry_step t db db' → commands_step db db'.
Proof.
  intros H id. destruct (H id) as [c c' [->|[Ho ->]]|]; constructor; [done|].
  by apply overdue_evolves.
Qed.

#[export] Instance expiry_step_refl t : Reflexive (expiry_step t).
Proof. intros db id. destruct (commands db !! id); constructor. by left. Qed.

#[export] Instance expiry_step_trans t : Transitive (expiry_step t).
Proof.
  intros a b c H1 H2 id. specialize (H1 id). specialize (H2 id).
  destruct H1 as [x y Hxy|]; inversion H2 as [y' z Hyz E1 E2|E1 E2]; subst; constructor.
  destruct Hxy as [->|[Ho ->]]; [done|]. right. split; [done|].
  by destruct Hyz as [->|[Ho' _]].
Qed.

Lemma expire_one_moves t cand : moves (expiry_step t) (expire_one t cand).
Proof.
  destruct cand as [[id dev] owner]. intros w. pose proof (expire_one_run t id dev owner w) as Hr.
  unfold wp in Hr. destruct Hr as [w' _ -> ->|c r w' Hc Ho Hw _ Hd]; [by left|]. right. split; [|tauto].
  intros i. rewrite Hw, lookup_insert. case_decide as Hi.
  - subst i. rewrite Hc. constructor. by right.
  - destruct (commands (working w) !! i); constructor. by left.
Qed.

Section expiry_stable.
Context (t : Z) (I : database → Prop).
Hypothesis Hclosed : ∀ db db', I db → expiry_step t db db' → I db'.

(** With the given time. *)
Lemma expire_due_stable : stable I (expire_due (Some t)).
Proof.
  unfold expire_due.
  match goal with |- stable ?J (mbind ?k _) => change (stable J (k t)); cbv beta end.
  solve_stable. eapply moves_stable; [exact Hclosed|apply expire_one_moves].
Qed.
End expiry_stable.

(** *** A whole sweep *)

Definition expirable (t : Z) (db : database) (id : uuid) (c : Command) : Prop :=
  commands db !! id = Some c ∧ overdue t c = true
  ∧ ∃ d, devices db !! cmd_device_id c = Some d ∧ d_owner_user_id d = cmd_owner_user_id c.

Definition expire_candidate (t : Z) (expired : Z) (row : uuid * Command) : tx Z :=
  let '(id, c) := row in
  n ← expire_one t (id, cmd_device_id c, cmd_owner_user_id c);
  mret (expired + n).

Lemma expire_fold t l n w :
  NoDup l.*1 → (∀ id c, (id, c) ∈ l → expirable t (working w) id c) → durable w = working w →
  wp (fold_tx (expire_candidate t) n l)
    (λ r w', match r with
             | Ok m => m = n + Z.of_nat (length l) ∧ durable w' = working w'
                 ∧ ∀ id, commands (working w') !! id =
                     if decide (id ∈ l.*1) then expire_command t <$> commands (working w) !! id
                     else commands (working w) !! id
             | Raise _ => True
             end) w.
Proof.
  revert n w. induction l as [|[id c] l IH]; intros n w Hnd Hl Hdur; simpl.
  - split_and!; [lia|done|]. by intros i.
  - apply NoDup_cons in Hnd as [Hid Hnd].
    destruct (Hl id c ltac:(by left)) as (Hc & Ho & d & Hd & Hown).
    wp_step. unfold expire_candidate at 1. wp_step. simpl.
    eapply wp_mono; [apply expire_one_run|]. intros r w' Hr.
    destruct Hr as [w' Hskip _ _|c' r w' Hc' _ Hw' Hdev Hr].
    { exfalso. apply Hskip. exists c, d. done. }
    destruct Hr as [[-> Hd']|[[e ->] _]]; [|done]. wp_step. cbv beta iota.
    rewrite Hc in Hc'. injection Hc' as <-.
    eapply wp_mono; [apply IH; [done| |done]|].
    + intros i ci Hi. destruct (Hl i ci ltac:(by right)) as (Hci & Hoi & di & Hdi & Howni).
      destruct (Hdev _ _ Hdi) as (di' & Hdi' & Heq).
      split; [|split; [done|exists di'; split; [done|congruence]]].
      rewrite Hw', lookup_insert_ne; [done|]. intros ->. apply Hid.
      apply list_elem_of_fmap. by exists (i, ci).
    + intros [m|e] w'' Hm; [|done]. destruct Hm as (-> & Hd'' & Hcm).
      split_and!; [lia|done|]. intros i. rewrite Hcm, Hw', lookup_insert.
      destruct (decide (id = i)) as [->|Hne].
      * rewrite decide_False by done. rewrite decide_True by set_solver. by rewrite Hc.
      * destruct (decide (i ∈ l.*1)) as [Hi|Hi]; [by rewrite decide_True by (by right)|].
        rewrite decide_False; [done|]. intros [->|]%elem_of_cons; done.
Qed.
End commands_run.

Lemma create_serialized_new {P : Platform} owner dev method params key meta tb deadline scope h id c
    w w' :
  find_existing owner dev scope key (working w) = None →
  _create_serialized owner dev method params key meta tb deadline scope h w = (Ok (id, c), w') →
  durable w' = working w' ∧
  admitted owner dev method params key tb deadline scope h (working w) id c
  ∧ event_update ((working w) <| commands := <[id := c]> (commands (working w)) |>) (working w').
Proof.
  intros Hex Hr. pose proof (create_serialized_run owner dev method params key meta tb deadline scope h w)
    as Hrun. unfold wp in Hrun. rewrite Hr in Hrun. simpl in Hrun.
  inversion Hrun as [id' c' w1 Hx Hw Hd|e w1 Hx|id' c' r' w1 Had Hup Hout]; subst; simpl in *.
  - congruence.
  - destruct Hout as [[[= -> ->] Hd]|[[? ?] _]]; done.
Qed.

(** ** What the service promises *)

Section command_claims.
Context {P : Platform}.

(** C8: the command table keeps its invariant under creation and expiry,
    whatever the outcome: one command per idempotency key, at most one
    nonterminal turn/start per thread, and the quotas of outstanding commands,
    of device records and of owner records. *)
Theorem command_table_invariant owner dev d method params key meta tb deadline scope t :
  stable commands_ok (create owner dev d method params key meta tb deadline scope)
  ∧ stable commands_ok (expire_due (Some t)).
Proof.
  split; [apply create_stable|]. apply expire_due_stable. intros db db' Hok Hs.
  by eapply commands_ok_step, expiry_step_commands.
Qed.

(** One idempotency key, one command.  Replaying a creation with the key of
    an existing command writes nothing; it returns that very command when the
    request is the same and reports a conflict otherwise. *)
Theorem create_idempotent owner dev method params key meta tb deadline scope h id c w :
  find_existing owner dev scope key (working w) = Some (id, c) →
  ∃ w', _create_serialized owner dev method params key meta tb deadline scope h w =
      (if bool_decide (cmd_request_hash c = h) then Ok (id, c) else Raise CommandIdempotencyConflict,
       w')
    ∧ working w' = working w ∧ durable w' = durable w.
Proof.
  intros Hex. pose proof (create_serialized_run owner dev method params key meta tb deadline scope h w)
    as Hrun. unfold wp in Hrun.
  destruct (_create_serialized _ _ _ _ _ _ _ _ _ _ w) as [r w'].
  inversion Hrun as [id' c' w1 Hx Hw Hd|e w1 Hx|id' c' r' w1 Had]; subst; simpl in *.
  - rewrite Hx in Hex. injection Hex as <- <-. exists w'. split_and!; congruence.
  - congruence.
  - destruct Had. congruence.
Qed.

(** A creation that returns a new command has committed exactly that one
    row: queued, with the given request, the device's current epoch and a
    deadline within the configured time to live; it passed every quota and
    found no nonterminal turn/start on its thread.  Nothing else than events,
    audit records and counters changed. *)
Theorem create_commits_admitted owner dev method params key meta tb deadline scope h id c w w' :
  find_existing owner dev scope key (working w) = None →
  _create_serialized owner dev method params key meta tb deadline scope h w = (Ok (id, c), w') →
  admitted owner dev method params key tb deadline scope h (working w) id c
  ∧ durable w' = working w'
  ∧ event_update ((working w) <| commands := <[id := c]> (commands (working w)) |>) (working w').
Proof.
  intros Hex Hr.
  destruct (create_serialized_new _ _ _ _ _ _ _ _ _ _ _ _ _ _ Hex Hr) as (? & ? & ?). done.
Qed.

(** A sweep that returns [n] has expired exactly [n] commands, all of them
    overdue: every overdue command when they fit in one batch, otherwise a full
    batch; no other command changed, and the result is committed. *)
Theorem expire_due_sweeps t w n w' :
  durable w = working w → (∀ id c, commands (working w) !! id = Some c → overdue t c = true →
    expirable t (working w) id c) →
  expire_due (Some t) w = (Ok n, w') →
  n = Z.min (Z.max 0 (retention_sweep_batch_size settings))
        (count_rows (λ _ c, overdue t c) (commands (working w)))
  ∧ durable w' = working w'
  ∧ ∃ ids, NoDup ids ∧ Z.of_nat (length ids) = n
    ∧ (∀ id, id ∈ ids → ∃ c, commands (working w) !! id = Some c ∧ overdue t c = true)
    ∧ ∀ id, commands (working w') !! id =
        if decide (id ∈ ids) then expire_command t <$> commands (working w) !! id
        else commands (working w) !! id.
Proof.
  intros Hdur Hall Hrun. set (rows := select_rows (λ _ c, overdue t c) (commands (working w))).
  set (l := take (Z.to_nat (retention_sweep_batch_size settings)) (order_by by_device_then_id rows)).
  assert (Hperm : order_by by_device_then_id rows ≡ₚ rows) by apply order_by_perm.
  assert (Hnd : NoDup l.*1).
  { eapply sublist_NoDup; [|apply fmap_sublist, sublist_take]. rewrite Hperm.
    apply NoDup_select_keys. }
  assert (Hin : ∀ id c, (id, c) ∈ l → commands (working w) !! id = Some c ∧ overdue t c = true).
  { intros id c (i & Hi & _)%elem_of_take. apply list_elem_of_lookup_2 in Hi.
    rewrite Hperm in Hi. by apply elem_of_select_rows in Hi. }
  assert (Hlen : Z.of_nat (length l) = Z.min (Z.max 0 (retention_sweep_batch_size settings))
    (count_rows (λ _ c, overdue t c) (commands (working w)))).
  { subst l. rewrite length_take, Hperm, <- (length_select_rows _ (commands (working w))).
    fold rows. lia. }
  change (expire_due (Some t) w) with
    (fold_tx (expire_candidate t) 0 l (w <| working := durable w |>)) in Hrun.
  pose proof (expire_fold t l 0 (w <| working := durable w |>) Hnd) as Hf. unfold wp in Hf.
  rewrite Hrun in Hf. simpl in Hf. rewrite Hdur in Hf. destruct Hf as (-> & Hd & Hc); [|done|].
  { intros id c Hi. destruct (Hin id c Hi). by apply Hall. }
  split; [lia|]. split; [done|]. exists l.*1. split_and!; [done|by rewrite length_fmap| |done].
  intros id ([i c] & -> & Hi)%list_elem_of_fmap. exists c. by apply Hin.
Qed.
End command_claims.

(** ** A command on the testbed *)

Definition sample_create : tx (uuid * Command) :=
  _create_serialized "alice" 1%N "thread/list" [] "key-1" no_metadata None None "scope" "hash".

Definition sample_command : Command :=
  {| cmd_owner_user_id := "alice"; cmd_device_id := 1%N; cmd_thread_binding_id := None;
     cmd_idempotency_key := "key-1"; cmd_idempotency_scope := "scope"; cmd_request_hash := "hash";
     cmd_method := "thread/list"; cmd_payload := JObj []; cmd_status := CsQueued;
     cmd_appserver_epoch := Some "epoch-0000000001"; cmd_result := JNull; cmd_error_code := None;
     cmd_error_message := None; cmd_created_at := start_micros; cmd_dispatched_at := None;
     cmd_acknowledged_at := None; cmd_completed_at := None;
     cmd_expires_at := Some (start_micros + seconds (command_ttl_seconds default_settings)) |}.

Definition sample_command_id : uuid := uuid4 1.

(** The world after the creation. *)
Definition sample_commands : world := after sample_create (start_world sample_database).

Lemma sample_create_result :
  sample_create (start_world sample_database) =
    (Ok (sample_command_id, sample_command), sample_commands).
Proof.
  assert (E : (sample_create (start_world sample_database)).1 =
    Ok (sample_command_id, sample_command)) by (vm_compute; reflexivity).
  rewrite <- E. apply surjective_pairing.
Qed.

Lemma create_commits_admitted_witness :
  durable sample_commands = working sample_commands
  ∧ cmd_status sample_command = CsQueued.
Proof.
  destruct (create_commits_admitted "alice" 1%N "thread/list" [] "key-1" no_metadata None None "scope"
    "hash" sample_command_id sample_command (start_world sample_database) sample_commands)
    as (Had & Hd & _); [vm_compute; reflexivity|exact sample_create_result|].
  split; [exact Hd|apply (ad_request _ _ _ _ _ _ _ _ _ _ _ _ Had)].
Defined.

Lemma create_idempotent_witness :
  ∃ w', _create_serialized "alice" 1%N "thread/list" [] "key-1" no_metadata None None "scope" "other"
          sample_commands = (Raise CommandIdempotencyConflict, w')
    ∧ working w' = working sample_commands.
Proof.
  destruct (create_idempotent "alice" 1%N "thread/list" [] "key-1" no_metadata None None "scope" "other"
    sample_command_id sample_command sample_commands) as (w' & Hr & Hw & _);
    [vm_compute; reflexivity|].
  exists w'. split; [exact Hr|exact Hw].
Defined.

Lemma sample_commands_committed : durable sample_commands = working sample_commands.
Proof.
  assert (Hn : find_existing "alice" 1%N "scope" "key-1" (working (start_world sample_database))
    = None) by (vm_compute; reflexivity).
  exact (proj1 (create_serialized_new "alice" 1%N "thread/list" [] "key-1" no_metadata None None
    "scope" "hash" sample_command_id sample_command (start_world sample_database) sample_commands
    Hn sample_create_result)).
Qed.

Definition sample_sweep_time : Z := start_micros + days 30.

Lemma expire_due_sweeps_witness :
  ∃ w', expire_due (Some sample_sweep_time) sample_commands = (Ok 1, w') ∧ durable w' = working w'.
Proof.
  assert (E : (expire_due (Some sample_sweep_time) sample_commands).1 = Ok 1)
    by (vm_compute; reflexivity).
  pose proof (surjective_pairing (expire_due (Some sample_sweep_time) sample_commands)) as Hp.
  rewrite E in Hp. exists (expire_due (Some sample_sweep_time) sample_commands).2.
  split; [exact Hp|].
  eapply (expire_due_sweeps sample_sweep_time sample_commands 1); [| |exact Hp].
  - apply sample_commands_committed.
  - intros id c Hc Ho. split; [exact Hc|]. split; [exact Ho|].
    assert (Hcmd : commands (working sample_commands) = {[sample_command_id := sample_command]})
      by (vm_compute; reflexivity).
    rewrite Hcmd in Hc. apply lookup_singleton_Some in Hc as [<- <-].
    exists (sample_device <| d_last_event_sequence := 1 |>). split; [vm_compute; reflexivity|reflexivity].
Defined.
