(* ===== verification/Approvals.v ===== *)
(** * Approvals ([control_api/approvals.py])

    An approval is decided once: by the user while the device that asked is
    online in the same app-server epoch, or by a default denial.  Every path
    that cannot deliver a decision denies. *)

From stdpp Require Import base list gmap.
From Stdlib Require Import NArith ZArith Lia.
From S2P Require Import Prelude Config Json Paths Models Storage World Testbed Wire Budget Events.
From S2P Require Import Capacity Commands.
Open Scope Z_scope.

Definition NON_DISPATCHABLE_APPROVAL_REASONS : list pystr :=
  ["device_offline_default_deny"; "disconnect_default_deny"; "device_revoked_default_deny";
   "stale_epoch_default_deny"].

(** [decision_reason IS NULL OR decision_reason NOT IN (...)]. *)
Definition dispatchable_reason (reason : option pystr) : bool :=
  match reason with
  | None => true
  | Some r => negb (py_in r NON_DISPATCHABLE_APPROVAL_REASONS)
  end.

Section approvals.
Context {P : Platform}.

(** [[self.item(approval, device) for approval, device in rows]]. *)
Fixpoint approval_items (rows : list (uuid * Approval * Device)) : tx (list json) :=
  match rows with
  | [] => mret []
  | (id, a, d) :: rows =>
      item ← approval_item id a d;
      items ← approval_items rows;
      mret (item :: items)
  end.

(** [order_by(Approval.requested_at.desc())] over the owner's visible requests. *)
Definition list_pending (owner_user_id : pystr) : tx (list json) :=
  t ← now;
  rows ← query (λ db,
    omap (λ '(id, a), d ← devices db !! ap_device_id a; Some (id, a, d))
      (order_by (λ a b, ap_requested_at b.2 <=? ap_requested_at a.2)
         (select_rows (pending_approval db owner_user_id t) (approvals db))));
  approval_items rows.

Definition update_approval (id : uuid) (f : Approval → Approval) : tx unit :=
  modify (λ db, db <| approvals := alter f id (approvals db) |>).

(** The assignments of [_default_deny_tx] (and of the bulk update). *)
Definition deny_row (now : Z) (reason : pystr) (a : Approval) : Approval :=
  a <| ap_status := AsDenied |> <| ap_decided_at := Some now |>
    <| ap_decided_by_session_id := None |> <| ap_decision_reason := Some reason |>
    <| ap_external_command_id := None |> <| ap_summary := "Approval denied" |>
    <| ap_request := JObj [] |>.

(** The command an approval belongs to, on its device and of its owner. *)
Definition approval_command (a : Approval) (db : database) : option Command :=
  cid ← ap_command_id a;
  c ← commands db !! cid;
  if bool_decide (cmd_device_id c = ap_device_id a)
     && bool_decide (cmd_owner_user_id c = ap_owner_user_id a) then Some c else None.

Definition approval_binding (a : Approval) (db : database) : option (uuid * ThreadBinding) :=
  c ← approval_command a db;
  t ← cmd_thread_binding_id c;
  b ← threads db !! t;
  if bool_decide (tb_device_id b = ap_device_id a)
     && bool_decide (tb_owner_user_id b = ap_owner_user_id a) then Some (t, b) else None.

Definition _append_default_deny_effects (id : uuid) (a : Approval) (device_id : uuid)
    (device : Device) (t : Z) (reason : pystr) (audit_details : json) : tx (list BrowserEvent) :=
  add_audit (Some (ap_owner_user_id a)) None (Some device_id) "approval.default_deny" AoDenied
    "approval" (uuid_str id) no_metadata audit_details;;
  e ← append (d_owner_user_id device) device_id ApprovalResolved
        (JObj [("approval_id", JStr (uuid_str id)); ("decision", JStr "deny");
               ("reason", JStr reason)]) None None;
  binding ← query (approval_binding a);
  match binding with
  | Some (tid, b) =>
      if negb (bool_decide (reason = "device_revoked_default_deny")) && negb (hidden (tb_status b))
      then
        let b' := b <| tb_status := TsFailed |> <| tb_active_turn_id := None |>
                    <| tb_last_error := Some reason |> <| tb_updated_at := t |> in
        save_binding tid b';;
        data ← thread_event_data tid b';
        e' ← append (d_owner_user_id device) device_id ThreadUpdated data (Some tid) None;
        mret [e; e']
      else mret [e]
  | None => mret [e]
  end.

Definition _default_deny_tx (id : uuid) (a : Approval) (device_id : uuid) (device : Device)
    (t : Z) (reason : pystr) : tx (list BrowserEvent) :=
  update_approval id (deny_row t reason);;
  _append_default_deny_effects id a device_id device t reason (JObj [("reason", JStr reason)]).

Definition approval_wake (device_id approval_id : uuid) : tx unit :=
  publish ("device-dispatch:" +++ uuid_str device_id)
    (JObj [("kind", JStr "approval"); ("approval_id", JStr (uuid_str approval_id))]).

Definition _best_effort_notify (owner_user_id : pystr) (device_id approval_id : uuid)
    (events : list BrowserEvent) (dispatchable : bool) : tx unit :=
  (if dispatchable then best_effort (approval_wake device_id approval_id) else mret tt);;
  for_each (λ e, best_effort (publish_event owner_user_id e)) events.

(** The registry entry matches the device's connection and epoch. *)
Definition registry_current (registry : json) (d : Device) : bool :=
  registry_nonce_matches registry (d_active_connection_nonce d)
  && match d_active_epoch d with
     | Some e => bool_decide (jget "epoch" registry = Some (JStr e))
     | None => bool_decide (jget "epoch" registry = None)
               || bool_decide (jget "epoch" registry = Some JNull)
     end.

Definition epoch_current (d : Device) (a : Approval) : bool :=
  match d_active_epoch d with
  | Some e => py_truthy e && bool_decide (e = ap_appserver_epoch a)
  | None => false
  end.

Definition _expired_denial (device_id : uuid) (d : Device) (a : Approval) : tx (pystr * bool) :=
  if negb (bool_decide (d_status d = DsActive)) then mret ("device_revoked_default_deny", false)
  else if negb (epoch_current d a) then mret ("stale_epoch_default_deny", false)
  else if negb (opt_truthy (d_active_connection_nonce d)) then
    mret ("device_offline_default_deny", false)
  else
    raw ← try_catch (raw ← store_get (connection_key device_id); mret (Some raw))
            (λ _, mret None);
    match raw with
    | None => mret ("device_offline_default_deny", false)
    | Some raw =>
        if registry_current (parse_registry raw) d then mret ("timeout_default_deny", true)
        else mret ("device_offline_default_deny", false)
    end.

(** ** [decide] *)

(** A default denial inside [decide]: commit, report, then raise. *)
Definition deny_and_raise (owner_user_id : pystr) (id : uuid) (a : Approval) (device_id : uuid)
    (d : Device) (t : Z) (reason : pystr) (dispatchable : bool) (e : exn) : tx (uuid * Approval) :=
  events ← _default_deny_tx id a device_id d t reason;
  commit;;
  measure (MApprovalOutcome "denied" reason);;
  _best_effort_notify owner_user_id device_id id events dispatchable;;
  raise e.

Definition not_found {A} : tx A :=
  measure (MApprovalOutcome "denied" "not_found_or_not_owned");;
  raise ApprovalNotFound.

Definition decide_pending (owner_user_id : pystr) (id : uuid) (a : Approval) (d : Device)
    (decision : pystr) (session_id : uuid) (metadata : RequestMetadata) : tx (uuid * Approval) :=
  let device_id := ap_device_id a in
  let approve := bool_decide (decision = "approve") in
  let desired_status := if approve then AsApproved else AsDenied in
  let desired_reason : pystr := if approve then "user_approved" else "user_denied" in
  if negb (bool_decide (d_status d = DsActive)) then
    t ← now;
    deny_and_raise owner_user_id id a device_id d t "device_revoked_default_deny" false
      ApprovalNotFound
  else
    t ← now;
    if negb (epoch_current d a) then
      deny_and_raise owner_user_id id a device_id d t "stale_epoch_default_deny" false
        ApprovalStaleEpoch
    else if ap_expires_at a <=? t then
      denial ← _expired_denial device_id d a;
      deny_and_raise owner_user_id id a device_id d t denial.1 denial.2 ApprovalExpired
    else
      raw ← store_get (connection_key device_id);
      if negb (registry_current (parse_registry raw) d) then
        deny_and_raise owner_user_id id a device_id d t "device_offline_default_deny" false
          ApprovalDeviceOffline
      else
        let decided := λ a : Approval,
          a <| ap_status := desired_status |> <| ap_decided_at := Some t |>
            <| ap_decided_by_session_id := Some session_id |>
            <| ap_decision_reason := Some desired_reason |> in
        update_approval id decided;;
        add_audit (Some owner_user_id) (Some session_id) None "approval.decide" AoSucceeded
          "approval" (uuid_str id) metadata
          (JObj [("decision", JStr decision); ("device_id", JStr (uuid_str device_id));
                 ("epoch", JStr (ap_appserver_epoch a))]);;
        e ← append owner_user_id device_id ApprovalResolved
              (JObj [("approval_id", JStr (uuid_str id)); ("decision", JStr decision)]) None None;
        commit;;
        measure (MApprovalOutcome (if approve then "approved" else "denied") desired_reason);;
        _best_effort_notify owner_user_id device_id id [e] true;;
        mret (id, decided a).

Definition decide (owner_user_id : pystr) (approval_id : uuid) (decision : pystr)
    (session_id : uuid) (metadata : RequestMetadata) : tx (uuid * Approval) :=
  found ← query (λ db,
    a ← approvals db !! approval_id;
    if bool_decide (ap_owner_user_id a = owner_user_id) then Some (ap_device_id a) else None);
  match found with
  | None => not_found
  | Some device_id =>
  device ← query (λ db, devices db !! device_id);
  match device with
  | None => not_found
  | Some d =>
  lock_owner_cursor owner_user_id;;
  approval ← query (λ db,
    a ← approvals db !! approval_id;
    if bool_decide (ap_owner_user_id a = owner_user_id)
       && bool_decide (ap_device_id a = device_id) then Some a else None);
  match approval with
  | None => not_found
  | Some a =>
  let approve := bool_decide (decision = "approve") in
  let desired_status := if approve then AsApproved else AsDenied in
  let desired_reason : pystr := if approve then "user_approved" else "user_denied" in
  if bool_decide (ap_status a = AsPending) then
    decide_pending owner_user_id approval_id a d decision session_id metadata
  else if bool_decide (ap_status a = desired_status)
          && bool_decide (ap_decision_reason a = Some desired_reason) then
    commit;;
    _best_effort_notify owner_user_id device_id approval_id []
      (bool_decide (ap_decision_dispatched_at a = None) && bool_decide (d_status d = DsActive)
       && opt_truthy (d_active_connection_nonce d)
       && bool_decide (d_active_epoch d = Some (ap_appserver_epoch a))
       && dispatchable_reason (ap_decision_reason a));;
    mret (approval_id, a)
  else
    measure (MApprovalOutcome "denied" "decision_conflict");;
    raise ApprovalDecisionConflict
  end end end.

(** ** Bulk denials *)

Definition not_already_reconciled (a : Approval) : bool :=
  match ap_status a with
  | AsPending | AsApproved => true
  | AsDenied => dispatchable_reason (ap_decision_reason a)
  | _ => false
  end.

Definition deniable (device_id : uuid) (current_epoch : option pystr) (a : Approval) : bool :=
  bool_decide (ap_device_id a = device_id) && bool_decide (ap_decision_dispatched_at a = None)
  && not_already_reconciled a
  && match current_epoch with
     | Some e => negb (bool_decide (ap_appserver_epoch a = e))
     | None => true
     end.

Definition by_request_then_id (a b : uuid * Approval) : bool :=
  (ap_requested_at a.2 <? ap_requested_at b.2)
  || ((ap_requested_at a.2 =? ap_requested_at b.2) && (a.1 <=? b.1)%N).

Definition _deny_undispatched (device_id : uuid) (device : Device) (reason audit_reason : pystr)
    (current_epoch : option pystr) : tx (list BrowserEvent) :=
  t ← now;
  lock_owner_cursor (d_owner_user_id device);;
  claimed ← query (λ db, select_rows (λ _ a, deniable device_id current_epoch a) (approvals db));
  modify (λ db, db <| approvals :=
    (λ a, if deniable device_id current_epoch a then deny_row t reason a else a)
      <$> approvals db |>);;
  fold_tx (λ events '(id, a),
      let details :=
        [("reason", JStr audit_reason); ("epoch", JStr (ap_appserver_epoch a))]
        ++ match current_epoch with Some e => [("current_epoch", JStr e)] | None => [] end in
      new ← _append_default_deny_effects id a device_id device t reason (JObj details);
      measure (MApprovalOutcome "denied" reason);;
      mret (events ++ new))
    [] (order_by by_request_then_id claimed).

Definition deny_stale_epoch (device_id : uuid) (device : Device) (current_epoch : pystr) :
    tx (list BrowserEvent) :=
  _deny_undispatched device_id device "stale_epoch_default_deny" "stale_epoch" (Some current_epoch).

Definition deny_disconnected (device_id : uuid) (device : Device) : tx (list BrowserEvent) :=
  _deny_undispatched device_id device "disconnect_default_deny" "disconnect" None.

Definition deny_revoked (device_id : uuid) (device : Device) : tx (list BrowserEvent) :=
  _deny_undispatched device_id device "device_revoked_default_deny" "device_revoked" None.

(** ** Expiry and reconciliation *)

Definition overdue_approval (t : Z) (a : Approval) : bool :=
  bool_decide (ap_status a = AsPending) && (ap_expires_at a <=? t).

Definition expire_approval (t : Z) (candidate : uuid * uuid * pystr) : tx Z :=
  let '(approval_id, device_id, owner_user_id) := candidate in
  device ← query (λ db, devices db !! device_id);
  match device with
  | Some d =>
    if bool_decide (d_owner_user_id d = owner_user_id) then
      lock_owner_cursor owner_user_id;;
      approval ← query (λ db, approvals db !! approval_id);
      match approval with
      | Some a =>
        if bool_decide (ap_device_id a = device_id)
           && bool_decide (ap_owner_user_id a = owner_user_id) && overdue_approval t a then
          denial ← _expired_denial device_id d a;
          events ← _default_deny_tx approval_id a device_id d t denial.1;
          commit;;
          measure (MApprovalOutcome "denied" denial.1);;
          _best_effort_notify owner_user_id device_id approval_id events denial.2;;
          mret 1
        else rollback;; mret 0
      | None => rollback;; mret 0
      end
    else rollback;; mret 0
  | None => rollback;; mret 0
  end.

Definition approval_by_device_then_id (a b : uuid * Approval) : bool :=
  ((ap_device_id a.2 <? ap_device_id b.2)
   || ((ap_device_id a.2 =? ap_device_id b.2) && (a.1 <=? b.1)))%N.

Definition expire_due_approvals (now_arg : option Z) : tx Z :=
  t ← match now_arg with Some t => mret t | None => now end;
  candidates ← query (λ db,
    take 500 (order_by approval_by_device_then_id
      (select_rows (λ _ a, overdue_approval t a) (approvals db))));
  rollback;;
  fold_tx (λ expired '(id, a),
             n ← expire_approval t (id, ap_device_id a, ap_owner_user_id a);
             mret (expired + n)) 0 candidates.

(** An undelivered decision for the device's current epoch. *)
Definition undispatched (db : database) (a : Approval) : bool :=
  match ap_status a with AsApproved | AsDenied => true | _ => false end
  && bool_decide (ap_decision_dispatched_at a = None)
  && dispatchable_reason (ap_decision_reason a)
  && match devices db !! ap_device_id a with
     | Some d => bool_decide (d_status d = DsActive)
                 && bool_decide (is_Some (d_active_connection_nonce d))
                 && bool_decide (d_active_epoch d = Some (ap_appserver_epoch a))
     | None => false
     end.

Definition by_decision_then_id (a b : uuid * Approval) : bool :=
  match ap_decided_at a.2, ap_decided_at b.2 with
  | Some x, Some y => (x <? y) || ((x =? y) && (a.1 <=? b.1)%N)
  | None, None => (a.1 <=? b.1)%N
  | Some _, None => true
  | None, Some _ => false
  end.

Definition reconcile_undispatched (limit : Z) : tx Z :=
  rows ← query (λ db,
    take (Z.to_nat limit) (order_by by_decision_then_id
      (select_rows (λ _ a, undispatched db a) (approvals db))));
  fold_tx (λ notified '(id, a),
             try_catch (approval_wake (ap_device_id a) id;; mret (notified + 1))
               (λ _, mret notified)) 0 rows.
End approvals.

(** ** How an approval evolves

    What was asked, by whom and until when is fixed.  A pending approval is
    decided; an approved one that has not been sent to the device can still be
    denied; a denied one stays denied; once the decision has been dispatched
    nothing changes any more. *)

Record same_approval (a a' : Approval) : Prop := {
  sa_owner : ap_owner_user_id a' = ap_owner_user_id a;
  sa_device : ap_device_id a' = ap_device_id a;
  sa_command : ap_command_id a' = ap_command_id a;
  sa_kind : ap_approval_kind a' = ap_approval_kind a;
  sa_hash : ap_request_hash a' = ap_request_hash a;
  sa_epoch : ap_appserver_epoch a' = ap_appserver_epoch a;
  sa_requested : ap_requested_at a' = ap_requested_at a;
  sa_expires : ap_expires_at a' = ap_expires_at a;
}.

Record approval_evolves (a a' : Approval) : Prop := {
  ae_same : same_approval a a';
  ae_dispatched : is_Some (ap_decision_dispatched_at a) → ap_status a ≠ AsPending → a' = a;
  ae_denied : ap_status a = AsDenied → ap_status a' = AsDenied;
  ae_approved : ap_status a' = AsApproved → ap_status a = AsApproved ∨ ap_status a = AsPending;
  ae_pending : ap_status a' = AsPending → a' = a;
  ae_decided_at : is_Some (ap_decided_at a) → is_Some (ap_decided_at a');
}.

Definition approvals_step (db db' : database) : Prop :=
  ∀ id, option_Forall2 approval_evolves (approvals db !! id) (approvals db' !! id).

#[export] Instance approval_evolves_refl : Reflexive approval_evolves.
Proof. intros a. split; [by split|done|done|tauto|done|done]. Qed.

#[export] Instance approval_evolves_trans : Transitive approval_evolves.
Proof.
  intros a b c [[] D1 N1 A1 P1 T1] [[] D2 N2 A2 P2 T2]. split; [split; congruence|..].
  - intros Hd Hn. pose proof (D1 Hd Hn) as ->. by apply D2.
  - auto.
  - intros H. destruct (A2 H) as [H'|H']; [by apply A1|]. pose proof (P1 H') as ->. by right.
  - intros H. pose proof (P2 H) as ->. by apply P1.
  - auto.
Qed.

#[export] Instance approvals_step_refl : Reflexive approvals_step.
Proof. intros db id. destruct (approvals db !! id); by constructor. Qed.

#[export] Instance approvals_step_trans : Transitive approvals_step.
Proof.
  intros a b c H1 H2 id. specialize (H1 id). specialize (H2 id).
  destruct H1 as [x y Hxy|]; inversion H2 as [y' z Hyz E1 E2|E1 E2]; subst; constructor.
  by etrans.
Qed.

Lemma approvals_step_insert db db' id a a' :
  approvals db !! id = Some a → approval_evolves a a' →
  approvals db' = <[id := a']> (approvals db) → approvals_step db db'.
Proof.
  intros Ha He Hdb i. rewrite Hdb, lookup_insert. case_decide as Hi.
  - subst i. rewrite Ha. by constructor.
  - destruct (approvals db !! i); by constructor.
Qed.

(** A default denial of an approval whose decision has not been dispatched. *)
Lemma deny_evolves t reason a :
  ap_status a = AsPending ∨ ap_decision_dispatched_at a = None →
  approval_evolves a (deny_row t reason a).
Proof.
  intros Hn. split; [by split| |done..|by eexists].
  intros [x Hx] Hp. destruct Hn as [|Hn]; [done|congruence].
Qed.

Section approvals_run.
Context {P : Platform}.

Lemma silent_best_effort_notify owner dev id events b :
  silent (_best_effort_notify owner dev id events b).
Proof. unfold _best_effort_notify, approval_wake, publish_event. solve_silent. Qed.

Lemma best_effort_notify_ok owner dev id events b w :
  ∃ u, (_best_effort_notify owner dev id events b w).1 = Ok u.
Proof.
  unfold _best_effort_notify, mbind, tx_bind. destruct b.
  - destruct (best_effort_ok (approval_wake dev id) w) as [u Hu].
    destruct (best_effort _ w) as [r w']. simpl in Hu. subst r.
    apply for_each_ok. intros. apply best_effort_ok.
  - apply for_each_ok. intros. apply best_effort_ok.
Qed.

Lemma wp_notify owner dev id events b (Q : outcome unit → world → Prop) w :
  (∀ w', working w' = working w → durable w' = durable w → Q (Ok tt) w') →
  wp (_best_effort_notify owner dev id events b) Q w.
Proof.
  intros HQ. apply wp_silent_ok; [apply silent_best_effort_notify|apply best_effort_notify_ok|].
  intros []. apply HQ.
Qed.

Lemma wp_deny_effects id a dev d t reason details (Q : outcome (list BrowserEvent) → world → Prop) w :
  (∀ r w' T, event_update ((working w) <| threads := T |>) (working w') → durable w' = durable w →
     Q r w') →
  wp (_append_default_deny_effects id a dev d t reason details) Q w.
Proof.
  intros HQ. unfold _append_default_deny_effects.
  wp_step. apply wp_add_audit. intros w1 Hw1 Hd1.
  wp_step. apply wp_append. intros r w2 Hw2 Hd2.
  assert (Hup : event_update (working w) (working w2)) by by etrans.
  assert (Hth : ∀ r w', working w' = working w2 → durable w' = durable w2 → Q r w').
  { intros r' w' E1 E2. apply (HQ r' w' (threads (working w))); [|congruence].
    rewrite E1. by destruct (working w). }
  destruct r as [e|e]; [|by apply Hth]. do 2 wp_step.
  destruct (approval_binding a (working w2)) as [[tid b]|]; [|by apply Hth].
  destruct (_ && _); [|by apply Hth].
  wp_step. apply wp_save_binding. intros w3 T Hw3 Hd3.
  wp_step. apply wp_silent.
  { unfold thread_event_data, thread_summary. solve_silent. }
  assert (Hup3 : event_update ((working w) <| threads := T |>) (working w3)).
  { rewrite Hw3. destruct Hup. by split. }
  intros [data|x] w4 Hw4 Hd4; [|apply (HQ _ w4 T); [by rewrite Hw4|congruence]].
  wp_step. apply wp_append. rewrite Hw4. intros [e'|x] w5 Hw5 Hd5.
  - wp_step. apply (HQ _ w5 T); [by etrans|congruence].
  - apply (HQ _ w5 T); [by etrans|congruence].
Qed.

(** What a default denial in a handler can leave behind. *)
Definition denied_default (id : uuid) (a : Approval) (t : Z) (reason : pystr) (w : world)
    (committed : bool) (w' : world) : Prop :=
  approvals (working w') = <[id := deny_row t reason a]> (approvals (working w))
  ∧ commands (working w') = commands (working w) ∧ outbox (working w') = outbox (working w)
  ∧ durable w' = (if committed then working w' else durable w).

Lemma wp_default_deny id a dev d t reason (Q : outcome (list BrowserEvent) → world → Prop) w :
  approvals (working w) !! id = Some a →
  (∀ r w', denied_default id a t reason w false w' → Q r w') →
  wp (_default_deny_tx id a dev d t reason) Q w.
Proof.
  intros Ha HQ. unfold _default_deny_tx, update_approval. do 2 wp_step.
  apply wp_deny_effects. intros r w1 T Hw1 Hd1. apply HQ.
  rewrite Hw in Hw1. split_and!; [|apply Hw1|apply Hw1|congruence].
  rewrite (eu_approvals _ _ Hw1). simpl. by apply alter_as_insert.
Qed.

Lemma wp_deny_and_raise owner id a dev d t reason b e
    (Q : outcome (uuid * Approval) → world → Prop) w :
  approvals (working w) !! id = Some a →
  (∀ w', denied_default id a t reason w true w' → Q (Raise e) w') →
  (∀ e' w', denied_default id a t reason w false w' → Q (Raise e') w') →
  wp (deny_and_raise owner id a dev d t reason b e) Q w.
Proof.
  intros Ha HQ HR. unfold deny_and_raise. wp_step. apply wp_default_deny; [done|].
  intros [events|e'] w1 Hw1; [|by apply HR].
  destruct Hw1 as (H1 & H2 & H3 & H4).
  do 2 wp_step. do 2 wp_step. wp_step. apply wp_notify. intros w4 Hw4 Hd4. wp_step.
  apply HQ. unfold denied_default. rewrite_worlds. done.
Qed.

(** ** [decide] *)

(** The decision the user asked for. *)
Definition desired_status (decision : pystr) : ApprovalStatus :=
  if bool_decide (decision = "approve") then AsApproved else AsDenied.
Definition desired_reason (decision : pystr) : pystr :=
  if bool_decide (decision = "approve") then "user_approved" else "user_denied".

Definition decided (decision : pystr) (t : Z) (session : uuid) (a : Approval) : Approval :=
  a <| ap_status := desired_status decision |> <| ap_decided_at := Some t |>
    <| ap_decided_by_session_id := Some session |>
    <| ap_decision_reason := Some (desired_reason decision) |>.

(** Everything that must hold for the user's decision to be taken. *)
Record may_decide (d : Device) (a : Approval) (t : Z) (raw : option pystr) : Prop := {
  md_active : d_status d = DsActive;
  md_epoch : epoch_current d a = true;
  md_unexpired : t < ap_expires_at a;
  md_registry : registry_current (parse_registry raw) d = true;
}.

(** The two readings of a decision that starts in [w]: the clock, then the
    device's entry in the registry. *)
Definition decision_time (w : world) : Z := clock (ticks w).
Definition registry_entry (device_id : uuid) (w : world) : option pystr :=
  kv_view (monotonic (S (ticks w))) (store w) !! connection_key device_id.

Inductive decide_result (id : uuid) (a : Approval) (d : Device) (decision : pystr) (session : uuid)
    (w : world) : outcome (uuid * Approval) → world → Prop :=
| dr_granted t r w' :
    t = decision_time w → may_decide d a t (registry_entry (ap_device_id a) w) →
    approvals (working w') = <[id := decided decision t session a]> (approvals (working w)) →
    commands (working w') = commands (working w) → outbox (working w') = outbox (working w) →
    (r = Ok (id, decided decision t session a) ∧ durable w' = working w'
     ∨ (∃ e, r = Raise e) ∧ durable w' = durable w) →
    decide_result id a d decision session w r w'
| dr_denied t reason e b w' :
    denied_default id a t reason w b w' → decide_result id a d decision session w (Raise e) w'
| dr_refused e w' :
    working w' = working w → durable w' = durable w →
    decide_result id a d decision session w (Raise e) w'.

Lemma wp_now_clock (Q : outcome Z → world → Prop) w :
  (∀ w', working w' = working w → durable w' = durable w → ticks w' = S (ticks w) →
     store w' = store w → Q (Ok (clock (ticks w))) w') → wp now Q w.
Proof. intros H. by apply H. Qed.

Lemma lock_owner_cursor_env owner w :
  ticks (lock_owner_cursor owner w).2 = ticks w ∧ store (lock_owner_cursor owner w).2 = store w.
Proof. done. Qed.

Lemma wp_store_get k (Q : outcome (option pystr) → world → Prop) w :
  (∀ e w', working w' = working w → durable w' = durable w → Q (Raise e) w') →
  (∀ w', working w' = working w → durable w' = durable w →
     Q (Ok (kv_view (monotonic (ticks w)) (store w) !! k)) w') →
  wp (store_get k) Q w.
Proof.
  intros HR HQ. unfold wp, store_get, store_op. destruct (store_up (ticks w)); [|by apply HR].
  destruct (kv_get (monotonic (ticks w)) k (store w)) as [v s] eqn:E. simpl.
  rewrite <- (kv_get_spec (monotonic (ticks w)) k (store w)), E in HQ. by apply HQ.
Qed.

Lemma silent_expired_denial dev d a : silent (_expired_denial dev d a).
Proof. unfold _expired_denial. solve_silent. Qed.

Lemma denied_default_world id a t reason w w1 b w' :
  working w1 = working w → durable w1 = durable w →
  denied_default id a t reason w1 b w' → denied_default id a t reason w b w'.
Proof. unfold denied_default. by intros -> ->. Qed.

Lemma decide_pending_run owner id a d decision session meta w :
  approvals (working w) !! id = Some a →
  wp (decide_pending owner id a d decision session meta) (decide_result id a d decision session w) w.
Proof.
  intros Ha. unfold decide_pending.
  destruct (negb (bool_decide (d_status d = DsActive))) eqn:Hact.
  { wp_step. apply wp_now_clock. intros w1 Hw Hd _ _. apply wp_deny_and_raise; [by rewrite Hw|..];
      intros; by eapply dr_denied, denied_default_world. }
  wp_step. apply wp_now_clock. intros w1 Hw Hd Ht Hs. fold (decision_time w).
  destruct (negb (epoch_current d a)) eqn:Hep.
  { apply wp_deny_and_raise; [by rewrite Hw|..];
      intros; by eapply dr_denied, denied_default_world. }
  destruct (ap_expires_at a <=? decision_time w) eqn:Hexp.
  { wp_step. apply wp_silent; [apply silent_expired_denial|].
    intros [denial|e] w2 Hw2 Hd2; [|apply dr_refused; congruence].
    rewrite Hw in Hw2. rewrite Hd in Hd2. apply wp_deny_and_raise; [by rewrite Hw2|..];
      intros; by eapply dr_denied, denied_default_world. }
  wp_step. apply wp_store_get; [intros; apply dr_refused; congruence|].
  intros w2 Hw2 Hd2. rewrite Hw in Hw2. rewrite Hd in Hd2. rewrite Ht, Hs.
  fold (registry_entry (ap_device_id a) w).
  destruct (negb (registry_current _ d)) eqn:Hreg.
  { apply wp_deny_and_raise; [by rewrite Hw2|..];
      intros; by eapply dr_denied, denied_default_world. }
  reflect_bools.
  assert (Hmay : may_decide d a (decision_time w) (registry_entry (ap_device_id a) w)) by done.
  assert (Hfin : ∀ r w', event_update ((working w) <| approvals :=
      <[id := decided decision (decision_time w) session a]> (approvals (working w)) |>) (working w') →
    (r = Ok (id, decided decision (decision_time w) session a) ∧ durable w' = working w'
     ∨ (∃ e, r = Raise e) ∧ durable w' = durable w) →
    decide_result id a d decision session w r w').
  { intros r w' Hup Hr. eapply dr_granted; [done|exact Hmay|apply Hup..|done]. }
  unfold update_approval. do 2 wp_step. rewrite (alter_as_insert _ _ _ _ Ha) in Hw0.
  wp_step. apply wp_add_audit. intros w4 Hw4 Hd4. rewrite Hw0 in Hw4.
  wp_step. apply wp_append. intros [e|e] w5 Hw5 Hd5.
  2:{ apply Hfin; [by etrans|]. right. split; [by eexists|congruence]. }
  do 2 wp_step. do 2 wp_step. wp_step. apply wp_notify. intros w8 Hw8 Hd8. wp_step.
  apply Hfin; [rewrite_worlds; by etrans|]. left. split; [done|congruence].
Qed.

(** What [decide] can do, from its first query on. *)
Inductive decide_outcome (owner : pystr) (id : uuid) (decision : pystr) (session : uuid) (w : world) :
    outcome (uuid * Approval) → world → Prop :=
| do_refused e w' :
    approvals (working w') = approvals (working w) → durable w' = durable w →
    decide_outcome owner id decision session w (Raise e) w'
| do_replayed a w' :
    approvals (working w) !! id = Some a → ap_owner_user_id a = owner →
    ap_status a = desired_status decision → ap_decision_reason a = Some (desired_reason decision) →
    approvals (working w') = approvals (working w) → durable w' = working w' →
    decide_outcome owner id decision session w (Ok (id, a)) w'
| do_decided a d w1 r w' :
    approvals (working w) !! id = Some a → ap_owner_user_id a = owner → ap_status a = AsPending →
    devices (working w) !! ap_device_id a = Some d →
    event_update (working w) (working w1) → durable w1 = durable w →
    ticks w1 = ticks w → store w1 = store w →
    decide_result id a d decision session w1 r w' →
    decide_outcome owner id decision session w r w'.

Lemma silent_not_found {A} : silent (@not_found _ A).
Proof. unfold not_found. solve_silent. Qed.

Lemma not_found_raises {A} w : ∃ e, (@not_found _ A w).1 = Raise e.
Proof. by eexists. Qed.

Lemma decide_run owner id decision session meta w :
  wp (decide owner id decision session meta) (decide_outcome owner id decision session w) w.
Proof.
  assert (Hnf : ∀ w1, approvals (working w1) = approvals (working w) → durable w1 = durable w →
    wp not_found (decide_outcome owner id decision session w) w1).
  { intros w1 H1 H2. unfold wp. destruct (@not_found_raises (uuid * Approval) w1) as [e He].
    destruct (@silent_not_found (uuid * Approval) w1) as [H3 H4]. rewrite He.
    apply do_refused; congruence. }
  unfold decide. wp_step. wp_step.
  destruct (approvals (working w) !! id) as [a|] eqn:Ha; simpl; [|by apply Hnf].
  case_bool_decide as Ho; [|by apply Hnf].
  do 2 wp_step. destruct (devices (working w) !! ap_device_id a) as [d|] eqn:Hd; [|by apply Hnf].
  wp_step. destruct (lock_owner_cursor_env owner w) as [Ht1 Hs1]. revert Ht1 Hs1.
  unfold wp at 1. generalize (wp_lock_owner_cursor owner (λ r w', event_update (working w) (working w')
    ∧ durable w' = durable w ∧ ∃ n, r = Ok n) w).
  unfold wp at 1. destruct (lock_owner_cursor owner w) as [r w1]. cbn [fst snd].
  intros [Hw1 [Hd1 [n ->]]] Ht1 Hs1; [by eauto|].
  do 2 wp_step. rewrite (eu_approvals _ _ Hw1), Ha. simpl.
  rewrite !bool_decide_true by done. simpl. case_bool_decide as Hp.
  - eapply wp_mono; [apply decide_pending_run; by rewrite (eu_approvals _ _ Hw1)|].
    intros r w' Hr. by eapply do_decided.
  - fold (desired_status decision) (desired_reason decision).
    destruct (_ && _) eqn:Hsame.
    + reflect_bools. do 2 wp_step. wp_step. apply wp_notify. intros w3 Hw3 Hd3. wp_step.
      apply do_replayed; try done; [by rewrite Hw3, Hw, (eu_approvals _ _ Hw1)|congruence].
    + do 2 wp_step. wp_step. apply do_refused; [|congruence].
      by rewrite Hw, (eu_approvals _ _ Hw1).
Qed.

(** *** Bulk denials *)

(** The rows after a bulk denial. *)
Definition denied_all (dev : uuid) (epoch : option pystr) (t : Z) (reason : pystr)
    (m : gmap uuid Approval) : gmap uuid Approval :=
  (λ a, if deniable dev epoch a then deny_row t reason a else a) <$> m.

(** A bulk denial changes the approvals as said, the threads they fail, and the
    events. *)
Lemma deny_undispatched_world dev d reason audit_reason epoch w :
  wp (_deny_undispatched dev d reason audit_reason epoch)
    (λ _ w', ∃ t T, event_update ((working w)
         <| approvals := denied_all dev epoch t reason (approvals (working w)) |> <| threads := T |>)
         (working w') ∧ durable w' = durable w) w.
Proof.
  unfold _deny_undispatched. wp_step. wp_step.
  wp_step. apply wp_lock_owner_cursor. intros n w2 Hw2 Hd2. rewrite Hw in Hw2.
  do 2 wp_step. do 2 wp_step. cbv beta iota.
  set (target := denied_all dev epoch t reason (approvals (working w))).
  eapply wp_mono; [|intros r w' Hr; exists t; exact Hr]. fold target.
  apply (wp_fold_tx (λ w', ∃ T, event_update ((working w) <| approvals := target |>
    <| threads := T |>) (working w') ∧ durable w' = durable w)).
  - intros events [id a] w3 (T3 & Hw3 & Hd3). wp_step. apply wp_deny_effects.
    intros r w4 T Hw4 Hd4.
    assert (Hsame : ∃ T, event_update ((working w) <| approvals := target |> <| threads := T |>)
      (working w4) ∧ durable w4 = durable w).
    { exists T. split; [|congruence]. etrans; [|exact Hw4].
      destruct Hw3 as [D ? ? ? ? ? ? ?]. by split. }
    destruct r as [new|e]; [|done]. do 2 wp_step. wp_step. by rewrite_worlds.
  - exists (threads (working w2)). split; [|congruence]. rewrite Hw0.
    destruct Hw2 as [D E1 E2 E3 E4 E5 E6 E7]. split; try done. simpl. by rewrite E5.
Qed.

Lemma deny_undispatched_run dev d reason audit_reason epoch w :
  wp (_deny_undispatched dev d reason audit_reason epoch)
    (λ _ w', ∃ t, approvals (working w') = denied_all dev epoch t reason (approvals (working w))
       ∧ commands (working w') = commands (working w)
       ∧ outbox (working w') = outbox (working w) ∧ durable w' = durable w) w.
Proof.
  eapply wp_mono; [apply deny_undispatched_world|]. intros _ w' (t & T & [] & Hd). by exists t.
Qed.

(** *** As transactions *)

Lemma denied_default_step id a t reason w b w' :
  approvals (working w) !! id = Some a → ap_status a = AsPending ∨ ap_decision_dispatched_at a = None →
  denied_default id a t reason w b w' → approvals_step (working w) (working w').
Proof.
  intros Ha Hd (Hw & _). eapply approvals_step_insert; [done|by apply deny_evolves|done].
Qed.

Lemma approvals_step_same db db' : approvals db' = approvals db → approvals_step db db'.
Proof. intros E id. rewrite E. destruct (approvals db !! id); by constructor. Qed.

Lemma decided_evolves decision t session a :
  ap_status a = AsPending → approval_evolves a (decided decision t session a).
Proof.
  intros Hp. split; [by split|done|congruence|by right| |by eexists].
  unfold decided, desired_status. simpl. by case_bool_decide.
Qed.

Lemma decide_moves owner id decision session meta :
  moves approvals_step (decide owner id decision session meta).
Proof.
  intros w. pose proof (decide_run owner id decision session meta w) as Hr. unfold wp in Hr.
  right. destruct Hr as [e w' Hw Hd|a w' _ _ _ _ Hw Hd|a d w1 r w' Ha _ Hp _ Hup Hd1 _ _ Hr].
  - split; [by apply approvals_step_same|by right].
  - split; [by apply approvals_step_same|by left].
  - rewrite <- (eu_approvals _ _ Hup) in Ha.
    assert (Hs : approvals_step (working w) (working w1)).
    { apply approvals_step_same, eu_approvals, Hup. }
    destruct Hr as [t r w' _ _ Hw _ _ Hout|t reason e b w' Hden|e w' Hw Hd].
    + split; [etrans; [exact Hs|]|rewrite <- Hd1; tauto].
      eapply approvals_step_insert; [done|by apply decided_evolves|done].
    + split; [etrans; [exact Hs|]|].
      * eapply denied_default_step; [done|by left|done].
      * destruct Hden as (_ & _ & _ & ->). destruct b; [by left|right; congruence].
    + split; [by rewrite Hw|right; congruence].
Qed.

Lemma denied_all_step dev epoch t reason db db' :
  approvals db' = denied_all dev epoch t reason (approvals db) → approvals_step db db'.
Proof.
  intros E id. rewrite E. unfold denied_all. rewrite lookup_fmap.
  destruct (approvals db !! id) as [a|]; simpl; constructor.
  destruct (deniable dev epoch a) eqn:Hd; [|done].
  apply deny_evolves. right. unfold deniable in Hd. by reflect_bools.
Qed.

Lemma deny_undispatched_moves dev d reason audit_reason epoch :
  moves approvals_step (_deny_undispatched dev d reason audit_reason epoch).
Proof.
  intros w. pose proof (deny_undispatched_run dev d reason audit_reason epoch w) as Hr.
  unfold wp in Hr. destruct Hr as (t & Hw & _ & _ & Hd). right.
  split; [by eapply denied_all_step|by right].
Qed.

(** *** Expiry *)

Definition approval_expiry_step (t : Z) (db db' : database) : Prop :=
  ∀ id, option_Forall2 (λ a a', a' = a ∨ overdue_approval t a = true
                               ∧ ∃ reason, a' = deny_row t reason a)
          (approvals db !! id) (approvals db' !! id).

#[export] Instance approval_expiry_step_refl t : Reflexive (approval_expiry_step t).
Proof. intros db id. destruct (approvals db !! id); constructor. by left. Qed.

#[export] Instance approval_expiry_step_trans t : Transitive (approval_expiry_step t).
Proof.
  intros a b c H1 H2 id. specialize (H1 id). specialize (H2 id).
  destruct H1 as [x y Hxy|]; inversion H2 as [y' z Hyz E1 E2|E1 E2]; subst; constructor.
  destruct Hxy as [->|(Ho & reason & ->)]; [done|]. right. split; [done|].
  destruct Hyz as [->|[Ho' _]]; [by eexists|done].
Qed.

Lemma approval_expiry_step_approvals t db db' :
  approval_expiry_step t db db' → approvals_step db db'.
Proof.
  intros H id. destruct (H id) as [a a' [->|(Ho & reason & ->)]|]; constructor; [done|].
  apply deny_evolves. left. unfold overdue_approval in Ho. by reflect_bools.
Qed.

Lemma approval_expiry_same t db db' : approvals db' = approvals db → approval_expiry_step t db db'.
Proof.
  intros E id. rewrite E. destruct (approvals db !! id); constructor. by left.
Qed.

Lemma expire_approval_moves t cand : moves (approval_expiry_step t) (expire_approval t cand).
Proof.
  destruct cand as [[id dev] owner]. intros w.
  set (Q := λ (r : outcome Z) w', (working w' = durable w ∧ durable w' = durable w)
    ∨ (approval_expiry_step t (working w) (working w')
       ∧ (durable w' = working w' ∨ durable w' = durable w))).
  change (wp (expire_approval t (id, dev, owner)) Q w).
  assert (Hroll : ∀ w1, durable w1 = durable w → wp (rollback;; mret 0) Q w1).
  { intros w1 H1. wp_step. wp_step. wp_step. left. split; congruence. }
  unfold expire_approval. do 2 wp_step.
  destruct (devices (working w) !! dev) as [d|] eqn:Hdev; [|by apply Hroll].
  case_bool_decide as Ho; [|by apply Hroll].
  wp_step. apply wp_lock_owner_cursor. intros n w1 Hw1 Hd1. do 2 wp_step.
  rewrite (eu_approvals _ _ Hw1).
  destruct (approvals (working w) !! id) as [a|] eqn:Ha; [|by apply Hroll].
  destruct (_ && overdue_approval t a) eqn:Hg; [|by apply Hroll]. reflect_bools.
  wp_step. apply wp_silent; [apply silent_expired_denial|]. intros [denial|e] w2 Hw2 Hd2.
  2:{ right. split; [|right; congruence]. apply approval_expiry_same.
      by rewrite Hw2, (eu_approvals _ _ Hw1). }
  wp_step. apply wp_default_deny; [by rewrite Hw2, (eu_approvals _ _ Hw1)|].
  intros r w3 (Hw3 & _ & _ & Hd3). rewrite Hw2, (eu_approvals _ _ Hw1) in Hw3.
  assert (Hstep : ∀ db, approvals db = approvals (working w3) →
    approval_expiry_step t (working w) db).
  { intros db E i. rewrite E, Hw3, lookup_insert. case_decide as Hi.
    - subst i. rewrite Ha. constructor. right. split; [done|]. by eexists.
    - destruct (approvals (working w) !! i); constructor. by left. }
  destruct r as [events|e]; [|right; split; [by apply Hstep|right; congruence]].
  do 2 wp_step. do 2 wp_step. wp_step. apply wp_notify. intros w6 Hw6 Hd6. wp_step.
  right. split; [apply Hstep; congruence|left; congruence].
Qed.

Lemma expire_due_approvals_stable t (I : database → Prop) :
  (∀ db db', I db → approval_expiry_step t db db' → I db') →
  stable I (expire_due_approvals (Some t)).
Proof.
  intros Hcl. unfold expire_due_approvals.
  match goal with |- stable ?J (mbind ?k _) => change (stable J (k t)); cbv beta end.
  solve_stable. eapply moves_stable; [exact Hcl|apply expire_approval_moves].
Qed.

Lemma silent_reconcile_undispatched limit : silent (reconcile_undispatched limit).
Proof.
  unfold reconcile_undispatched, approval_wake. apply silent_bind; [apply silent_query|].
  intros rows. generalize 0. induction rows as [|[id a] rows IH]; intros n; simpl.
  { apply silent_ret. }
  apply silent_bind; [solve_silent|]. intros m. apply IH.
Qed.
End approvals_run.

(** ** What the service promises *)

Section approval_claims.
Context {P : Platform}.

(** C29: the life of an approval.  Deciding, expiring and the bulk denials only
    move approvals along their life: a request never changes what was asked,
    a denied one is never approved, an approved one is only ever denied again
    while its decision has not been dispatched, and a dispatched decision is
    final; telling devices about decisions again writes nothing. *)
Theorem approval_life_cycle owner id decision session meta t dev d epoch limit db0 :
  stable (approvals_step db0) (decide owner id decision session meta)
  ∧ stable (approvals_step db0) (expire_due_approvals (Some t))
  ∧ stable (approvals_step db0) (deny_stale_epoch dev d epoch)
  ∧ stable (approvals_step db0) (deny_disconnected dev d)
  ∧ stable (approvals_step db0) (deny_revoked dev d)
  ∧ silent (reconcile_undispatched limit).
Proof.
  assert (Hcl : ∀ db db', approvals_step db0 db → approvals_step db db' → approvals_step db0 db').
  { intros db db'. apply approvals_step_trans. }
  split_and!.
  - eapply moves_stable; [exact Hcl|apply decide_moves].
  - apply expire_due_approvals_stable. intros db db' H1 H2. etrans; [done|].
    by eapply approval_expiry_step_approvals.
  - eapply moves_stable; [exact Hcl|apply deny_undispatched_moves].
  - eapply moves_stable; [exact Hcl|apply deny_undispatched_moves].
  - eapply moves_stable; [exact Hcl|apply deny_undispatched_moves].
  - apply silent_reconcile_undispatched.
Qed.

(** C7: a decision is only ever granted with authority.  When [decide] returns,
    the caller owns the approval, the result is committed, and either the very
    same decision had been taken before, or it was pending, the call's reading of
    the clock is strictly before its expiry, the device is active and in the
    approval's epoch, and the entry of the shared registry, as the call finds
    it, names the device's current connection and epoch. *)
Theorem decide_requires_authority owner id decision session meta w id' a' w' :
  decide owner id decision session meta w = (Ok (id', a'), w') →
  id' = id ∧ durable w' = working w' ∧ approvals (working w') !! id = Some a'
  ∧ ap_owner_user_id a' = owner ∧ ap_status a' = desired_status decision
  ∧ ap_decision_reason a' = Some (desired_reason decision)
  ∧ (approvals (working w) !! id = Some a'
     ∨ ∃ a d, approvals (working w) !! id = Some a ∧ ap_status a = AsPending
         ∧ devices (working w) !! ap_device_id a = Some d
         ∧ may_decide d a (decision_time w) (registry_entry (ap_device_id a) w)
         ∧ a' = decided decision (decision_time w) session a).
Proof.
  intros Hrun. pose proof (decide_run owner id decision session meta w) as Hr. unfold wp in Hr.
  rewrite Hrun in Hr. simpl in Hr.
  inversion Hr as [e w1 Hw Hd|a w1 Ha Ho Hs Hre Hw Hd E1 E2|a d w1 r w2 Ha Ho Hp Hdev Hup Hd1 Ht1 Hs1 Hres E1 E2];
    subst.
  - split_and!; try done; [by rewrite Hw|by left].
  - inversion Hres as [t r w3 Ht Hmay Hw _ _ Hout E1 E2| |]; subst.
    destruct Hout as [[[= -> ->] Hd]|[[? ?] _]]; [|done].
    rewrite Hw, lookup_insert_eq. split_and!; try done. right. exists a, d.
    unfold decision_time, registry_entry in *. by rewrite <- Ht1, <- Hs1.
Qed.

(** [decide] fails closed.  When it raises, the committed approvals are
    unchanged, or exactly the approval in question, which was pending, is
    denied without a session and with the request erased; an approval that had
    been decided is never touched. *)
Theorem decide_fails_closed owner id decision session meta w e w' :
  decide owner id decision session meta w = (Raise e, w') →
  durable w' = durable w
  ∨ durable w' = working w' ∧ ∃ a t reason, approvals (working w) !! id = Some a
      ∧ ap_status a = AsPending
      ∧ approvals (working w') = <[id := deny_row t reason a]> (approvals (working w)).
Proof.
  intros Hrun. pose proof (decide_run owner id decision session meta w) as Hr. unfold wp in Hr.
  rewrite Hrun in Hr. simpl in Hr.
  inversion Hr as [e' w1 Hw Hd|a w1 Ha Ho Hs Hre Hw Hd E1 E2|a d w1 r w2 Ha Ho Hp Hdev Hup Hd1 Ht1 Hs1 Hres E1 E2];
    subst; [by left|].
  inversion Hres as [t r w3 _ _ _ _ _ Hout|t reason e' b w3 Hden|e' w3 Hw Hd]; subst.
  - destruct Hout as [[? _]|[_ Hd]]; [done|]. left. congruence.
  - destruct Hden as (Hw & _ & _ & Hd). destruct b; [|left; congruence].
    right. split; [done|]. exists a, t, reason. split_and!; try done.
    by rewrite Hw, (eu_approvals _ _ Hup).
  - left. congruence.
Qed.

(** After a device is disconnected or revoked, none of its approvals is
    still pending or approved without having been dispatched: each is denied,
    and every approval that was still open has lost its request; approvals of
    other devices are untouched. *)
Theorem disconnected_device_denies dev d w b :
  let m : tx (list BrowserEvent) := if b : bool then deny_disconnected dev d else deny_revoked dev d in
  let w' := (m w).2 in
  durable w' = durable w
  ∧ (∀ id a', approvals (working w') !! id = Some a' → ap_device_id a' = dev →
       ap_decision_dispatched_at a' = None → ap_status a' ≠ AsPending ∧ ap_status a' ≠ AsApproved)
  ∧ (∀ id a, approvals (working w) !! id = Some a → ap_device_id a = dev →
       ap_decision_dispatched_at a = None → ap_status a = AsPending ∨ ap_status a = AsApproved →
       ∃ a', approvals (working w') !! id = Some a' ∧ ap_status a' = AsDenied
         ∧ ap_request a' = JObj [])
  ∧ ∀ id a, approvals (working w) !! id = Some a → ap_device_id a ≠ dev →
      approvals (working w') !! id = Some a.
Proof.
  cbv zeta.
  assert (Hrun : ∃ t reason, approvals (working ((if b then deny_disconnected dev d
      else deny_revoked dev d) w).2) = denied_all dev None t reason (approvals (working w))
    ∧ durable ((if b then deny_disconnected dev d else deny_revoked dev d) w).2 = durable w).
  { destruct b;
      [destruct (deny_undispatched_run dev d "disconnect_default_deny" "disconnect" None w)
         as (t & H1 & _ & _ & H2)
      |destruct (deny_undispatched_run dev d "device_revoked_default_deny" "device_revoked" None w)
         as (t & H1 & _ & _ & H2)]; by eexists _, _. }
  destruct Hrun as (t & reason & Hw & Hd). rewrite Hw. unfold denied_all. split; [exact Hd|].
  split_and!.
  - intros id a'. rewrite lookup_fmap, fmap_Some. intros (a & Ha & ->).
    destruct (deniable dev None a) eqn:E; [done|]. unfold deniable in E. intros Hdev Hdis.
    rewrite !bool_decide_true in E by done. simpl in E. rewrite andb_true_r in E.
    unfold not_already_reconciled in E. by destruct (ap_status a).
  - intros id a Ha Hdev Hdis Hst. rewrite lookup_fmap, Ha. simpl. eexists. split; [reflexivity|].
    assert (deniable dev None a = true) as ->; [|done].
    unfold deniable, not_already_reconciled. rewrite !bool_decide_true by done.
    by destruct Hst as [-> | ->].
  - intros id a Ha Hdev. rewrite lookup_fmap, Ha. simpl. unfold deniable.
    by rewrite bool_decide_false.
Qed.
End approval_claims.

(** ** A decision on the testbed *)

Definition sample_approval : Approval :=
  {| ap_owner_user_id := "alice"; ap_device_id := 1%N; ap_command_id := None;
     ap_external_command_id := None; ap_decided_by_session_id := None;
     ap_approval_kind := "commandExecution"; ap_summary := "Run"; ap_request := JObj [("cmd", JStr "ls")];
     ap_request_hash := "hash"; ap_status := AsPending; ap_appserver_epoch := "epoch-0000000001";
     ap_requested_at := start_micros; ap_expires_at := start_micros + seconds 60;
     ap_decided_at := None; ap_decision_dispatched_at := None; ap_decision_reason := None |}.

Definition sample_registry : pystr :=
  PyStr (dumps escape_ascii (JObj [("connection_nonce", JStr "nonce-1");
                                   ("epoch", JStr "epoch-0000000001")])).

(** The device is registered online. *)
Definition sample_approvals : world :=
  after (store_set (connection_key 1%N) sample_registry 60)
    (start_world (sample_database <| approvals := {[ 5%N := sample_approval ]} |>)).

Definition sample_decide (decision : pystr) : tx (uuid * Approval) :=
  decide "alice" 5%N decision 9%N no_metadata.

Lemma decide_requires_authority_witness :
  ap_status (decided "approve" (clock 1) 9%N sample_approval) = AsApproved
  ∧ approvals (working (after (sample_decide "approve") sample_approvals)) !! 5%N
      = Some (decided "approve" (clock 1) 9%N sample_approval).
Proof.
  assert (E : (sample_decide "approve" sample_approvals).1
    = Ok (5%N, decided "approve" (clock 1) 9%N sample_approval)) by (vm_compute; reflexivity).
  pose proof (surjective_pairing (sample_decide "approve" sample_approvals)) as Hp. rewrite E in Hp.
  destruct (decide_requires_authority "alice" 5%N "approve" 9%N no_metadata sample_approvals 5%N
    (decided "approve" (clock 1) 9%N sample_approval)
    (after (sample_decide "approve") sample_approvals) Hp) as (_ & _ & Ha & _ & Hs & _).
  split; [exact Hs|exact Ha].
Defined.

(** Offline: the registry has no entry. *)
Definition sample_offline : world :=
  start_world (sample_database <| approvals := {[ 5%N := sample_approval ]} |>).

Lemma decide_fails_closed_witness :
  durable (after (sample_decide "approve") sample_offline) = durable sample_offline
  ∨ durable (after (sample_decide "approve") sample_offline)
      = working (after (sample_decide "approve") sample_offline).
Proof.
  assert (E : (sample_decide "approve" sample_offline).1 = Raise ApprovalDeviceOffline)
    by (vm_compute; reflexivity).
  pose proof (surjective_pairing (sample_decide "approve" sample_offline)) as Hp. rewrite E in Hp.
  destruct (decide_fails_closed "alice" 5%N "approve" 9%N no_metadata sample_offline
    ApprovalDeviceOffline (after (sample_decide "approve") sample_offline) Hp) as [H|[H _]];
    [left; exact H|right; exact H].
Defined.
