(* ===== verification/Outbox.v ===== *)
(** * The device outbox ([RealtimeService], sending side)

    Every sequenced frame for a device is written to [device_outbox] in the
    transaction that decides to send it, and is kept until the device
    acknowledges it; a reconnecting device is replayed the frames it has not
    acknowledged.  The invariant [outbox_ok] says that the frames without an
    acknowledgement are exactly the sequences after the device's cumulative
    acknowledgement, so a replay has no hole. *)

From stdpp Require Import base list gmap sorting.
From Stdlib Require Import NArith ZArith Lia.
From S2P Require Import Prelude Config Json Paths Models Storage World Testbed Wire Budget Events.
From S2P Require Import Capacity Commands.
Open Scope Z_scope.

(** [ActiveDeviceSocket]: the fields a handler reads. *)
Record ActiveDeviceSocket := {
  as_device_id : uuid;
  as_owner_user_id : pystr;
  as_connection_nonce : pystr;
  as_epoch : pystr;
  as_registry_value : pystr;
  as_received_sequence : Z;
}.
#[global] Instance ActiveDeviceSocket_eta : Eta ActiveDeviceSocket := λ r,
  Build_ActiveDeviceSocket (as_device_id r) (as_owner_user_id r) (as_connection_nonce r)
    (as_epoch r) (as_registry_value r) (as_received_sequence r).

Section outbox.
Context {P : Platform}.

(** Attribute assignments on the loaded [Device], and on the connection row. *)
Definition update_device (id : uuid) (f : Device → Device) : tx unit :=
  modify (λ db, db <| devices := alter f id (devices db) |>).

Definition update_connection (nonce : pystr) (f : DeviceConnection → DeviceConnection) : tx unit :=
  modify (λ db, db <| connections :=
    (λ r, if bool_decide (dc_connection_nonce r = nonce) then f r else r) <$> connections db |>).

Definition connection_active (c : ActiveDeviceSocket) (d : Device) : bool :=
  bool_decide (d_active_connection_nonce d = Some (as_connection_nonce c))
  && bool_decide (d_active_epoch d = Some (as_epoch c)).

Definition _lock_active_device (c : ActiveDeviceSocket) : tx Device :=
  d ← query (λ db, devices db !! as_device_id c);
  match d with
  | Some d =>
      if bool_decide (d_status d = DsActive) && connection_active c d then mret d
      else raise (StaleConnection "connection is no longer active")
  | None => raise (StaleConnection "connection is no longer active")
  end.

Definition _send_if_active (c : ActiveDeviceSocket) (frames : list pystr) : tx unit :=
  with_session (_lock_active_device c;; for_each (send_text (as_connection_nonce c)) frames).

(** ** Writing a frame *)

Definition server_envelope (id : uuid) (device_id : uuid) (epoch : pystr) (sequence ack : Z)
    (envelope_type : pystr) (sent_at : Z) (payload : json) : json :=
  JObj [("version", JInt 1); ("id", JStr (uuid_str id)); ("device_id", JStr (uuid_str device_id));
        ("epoch", JStr epoch); ("seq", JInt sequence); ("ack", JInt ack);
        ("type", JStr envelope_type); ("sent_at", JStr (iso sent_at)); ("payload", payload)].

Definition frame_of (device_id : uuid) (k : uuid * Z) : bool := bool_decide (k.1 = device_id).

Definition is_acked (f : DeviceOutbox) : bool := bool_decide (is_Some (ob_acked_at f)).

Definition unacked (device_id : uuid) (db : database) : list ((uuid * Z) * DeviceOutbox) :=
  select_rows (λ k f, frame_of device_id k && negb (is_acked f)) (outbox db).

Definition total_bytes (l : list ((uuid * Z) * DeviceOutbox)) : Z :=
  foldr (λ kf n, ob_byte_size kf.2 + n) 0 l.

Definition oldest (l : list ((uuid * Z) * DeviceOutbox)) : option Z :=
  foldr (λ kf m, match m with
                 | Some t => Some (Z.min (ob_created_at kf.2) t)
                 | None => Some (ob_created_at kf.2)
                 end) None l.

Definition delete_frames (Q : uuid * Z → DeviceOutbox → bool) (db : database) : database :=
  db <| outbox := filter (λ kf, Q kf.1 kf.2 = false) (outbox db) |>.

(** The insert fails on a taken key and on a sequence beyond a bigint. *)
Definition insert_frame (k : uuid * Z) (f : DeviceOutbox) : tx unit :=
  taken ← query (λ db, bool_decide (is_Some (outbox db !! k)));
  guard_exn taken IntegrityError;;
  guard_exn (MAX_EVENT_CURSOR <? k.2) DataError;;
  modify (λ db, db <| outbox := <[k := f]> (outbox db) |>).

Definition _persist_envelope_locked (c : ActiveDeviceSocket) (device : Device)
    (envelope_type : pystr) (payload : json) : tx (Z * pystr) :=
  let device_id := as_device_id c in
  let sequence := d_last_server_sequence device + 1 in
  id ← fresh_uuid;
  sent_at ← now;
  let envelope := server_envelope id device_id (as_epoch c) sequence
                    (d_last_device_sequence device) envelope_type sent_at payload in
  let encoded := PyStr (dumps escape_ascii envelope) in
  let encoded_size := py_len encoded in
  guard_exn (device_max_envelope_bytes settings <? encoded_size)
    (RealtimeProtocolError "server envelope exceeds the byte limit");;
  modify (delete_frames (λ k f, frame_of device_id k && is_acked f));;
  rows ← query (unacked device_id);
  guard_exn (device_max_outbox_frames settings <=? Z.of_nat (length rows))
    (RealtimeProtocolError "device outbox frame limit reached");;
  guard_exn (device_max_outbox_bytes settings <? total_bytes rows + encoded_size)
    (RealtimeProtocolError "device outbox byte limit reached");;
  t ← now;
  guard_exn (match oldest rows with
             | Some o => o <=? t - seconds (device_outbox_retention_seconds settings)
             | None => false
             end)
    (RealtimeProtocolError "device outbox retention limit reached");;
  insert_frame (device_id, sequence)
    {| ob_encoded_envelope := encoded; ob_ack_sequence := d_last_device_sequence device;
       ob_frame_type := envelope_type; ob_byte_size := encoded_size; ob_created_at := t;
       ob_retained_until := t + seconds (device_outbox_retention_seconds settings);
       ob_acked_at := None |};;
  update_device device_id (λ d, d <| d_last_server_sequence := sequence |>);;
  update_connection (as_connection_nonce c) (λ r, r <| dc_last_server_sequence := sequence |>);;
  mret (sequence, encoded).

Definition _send_envelope (c : ActiveDeviceSocket) (envelope_type : EnvelopeType) (payload : json) :
    tx Z :=
  guard_exn (negb (py_in envelope_type SERVER_OUTBOUND_TYPES))
    (ValueError "server envelope type is not allowed");;
  guard_exn (bool_decide (envelope_type = THelloAck))
    (ValueError "hello_ack must use the unsequenced handshake path");;
  r ← with_session (
    device ← _lock_active_device c;
    r ← _persist_envelope_locked c device (envelope_type_value envelope_type) payload;
    commit;;
    mret r);
  _send_if_active c [r.2];;
  mret r.1.

Definition _send_hello_ack (c : ActiveDeviceSocket) (schema_digest : pystr) : tx unit :=
  id ← fresh_uuid;
  t ← now;
  let envelope := JObj
    [("version", JInt 1); ("id", JStr (uuid_str id));
     ("device_id", JStr (uuid_str (as_device_id c))); ("epoch", JStr (as_epoch c));
     ("seq", JInt 0); ("ack", JInt (as_received_sequence c)); ("type", JStr "hello_ack");
     ("sent_at", JStr (iso t));
     ("payload", JObj
        [("protocol_version", JInt 1); ("device_id", JStr (uuid_str (as_device_id c)));
         ("epoch", JStr (as_epoch c)); ("schema_digest", JStr schema_digest);
         ("received_seq", JInt (as_received_sequence c));
         ("connection_id", JStr (as_connection_nonce c));
         ("heartbeat_timeout_seconds", JInt (device_heartbeat_timeout_seconds settings))])] in
  _send_if_active c [PyStr (dumps escape_ascii envelope)].

(** ** Replaying *)

Definition by_sequence (a b : (uuid * Z) * DeviceOutbox) : bool := a.1.2 <=? b.1.2.

Definition frames_between (device_id : uuid) (first last : Z) (db : database) :
    list ((uuid * Z) * DeviceOutbox) :=
  order_by by_sequence
    (select_rows (λ k _, frame_of device_id k && (first <=? k.2) && (k.2 <=? last)) (outbox db)).

Definition _replay_outbox (c : ActiveDeviceSocket) : tx unit :=
  with_session (
    device ← _lock_active_device c;
    let first := d_last_server_acked_sequence device + 1 in
    let last := d_last_server_sequence device in
    rows ← query (frames_between (as_device_id c) first last);
    guard_exn (device_max_outbox_frames settings <? last - first + 1)
      (RealtimeProtocolError "device outbox replay exceeds the safety limit");;
    guard_exn (negb (bool_decide ((λ kf, kf.1.2) <$> rows = seqZ first (last - first + 1))))
      (RealtimeProtocolError "device outbox has a durable sequence hole");;
    for_each (λ kf, send_text (as_connection_nonce c) (ob_encoded_envelope kf.2)) rows).

(** ** Acknowledging *)

Definition latest_acked (device_id : uuid) (db : database) : option Z :=
  foldr (λ kf m, match m with Some s => Some (Z.max kf.1.2 s) | None => Some kf.1.2 end) None
    (select_rows (λ k f, frame_of device_id k && is_acked f) (outbox db)).

Definition mark_acked (device_id : uuid) (ack t : Z) (k : uuid * Z) (f : DeviceOutbox) :
    DeviceOutbox :=
  if frame_of device_id k && (k.2 <=? ack) && negb (is_acked f)
  then f <| ob_acked_at := Some t |> else f.

(** [CHECK (acked_at IS NULL OR acked_at >= created_at)]. *)
Definition ack_time_ok (device_id : uuid) (ack t : Z) (k : uuid * Z) (f : DeviceOutbox) : bool :=
  negb (frame_of device_id k && (k.2 <=? ack) && negb (is_acked f)) || (ob_created_at f <=? t).

Definition _ack_outbox_locked (device_id : uuid) (acknowledged_sequence t : Z) : tx unit :=
  bad ← query (λ db,
    exists_row (λ k f, negb (ack_time_ok device_id acknowledged_sequence t k f)) (outbox db));
  guard_exn bad IntegrityError;;
  modify (λ db, db <| outbox :=
    map_imap (λ k f, Some (mark_acked device_id acknowledged_sequence t k f)) (outbox db) |>);;
  latest ← query (latest_acked device_id);
  match latest with
  | Some latest =>
      modify (delete_frames (λ k f, frame_of device_id k && is_acked f && (k.2 <? latest)))
  | None => mret tt
  end.

(** ** Pruning *)

Definition device_revoked_row (db : database) (id : uuid) : bool :=
  match devices db !! id with Some d => bool_decide (d_status d = DsRevoked) | None => false end.

Definition reconcile_revoked (d : Device) : Device :=
  if bool_decide (d_status d = DsRevoked)
     && (d_last_server_acked_sequence d <? d_last_server_sequence d)
  then d <| d_last_server_acked_sequence := d_last_server_sequence d |> else d.

Definition prune_outbox (now_arg : option Z) : tx Z :=
  t ← match now_arg with Some t => mret t | None => now end;
  revoked ← query (λ db, count_rows (λ k _, device_revoked_row db k.1) (outbox db));
  modify (λ db, delete_frames (λ k _, device_revoked_row db k.1) db);;
  reconciled ← query (λ db, count_rows (λ _ d, bool_decide (d_status d = DsRevoked)
      && (d_last_server_acked_sequence d <? d_last_server_sequence d)) (devices db));
  modify (λ db, db <| devices := reconcile_revoked <$> devices db |>);;
  acknowledged ← query (λ db,
    count_rows (λ _ f, is_acked f && (ob_retained_until f <=? t)) (outbox db));
  modify (delete_frames (λ _ f, is_acked f && (ob_retained_until f <=? t)));;
  let removed := revoked + acknowledged in
  (if negb (removed =? 0) || negb (reconciled =? 0) then commit else mret tt);;
  mret removed.
End outbox.

(** ** The invariant

    Per active device: the cumulative acknowledgement is at most the last
    sequence; a frame is acknowledged exactly when its sequence is covered by
    the acknowledgement; every sequence after the acknowledgement is there;
    and there are at most [device_max_outbox_frames] of those. *)

Section outbox_invariant.
Context {P : Platform}.

Record stream_ok (id : uuid) (d : Device) (frames : gmap (uuid * Z) DeviceOutbox) : Prop := {
  so_bounds : 0 ≤ d_last_server_acked_sequence d ≤ d_last_server_sequence d;
  so_bigint : d_last_server_sequence d ≤ MAX_EVENT_CURSOR;
  so_frame s f : frames !! (id, s) = Some f →
    0 < s ≤ d_last_server_sequence d
    ∧ is_acked f = (s <=? d_last_server_acked_sequence d);
  so_complete s : d_last_server_acked_sequence d < s ≤ d_last_server_sequence d →
    is_Some (frames !! (id, s));
  so_quota : d_last_server_sequence d - d_last_server_acked_sequence d
    ≤ device_max_outbox_frames settings;
}.

Definition outbox_ok (db : database) : Prop :=
  ∀ id d, devices db !! id = Some d → d_status d = DsActive → stream_ok id d (outbox db).

(** *** Selecting a run of sequences *)

Lemma select_sequences (id : uuid) (first last : Z) (g : uuid * Z → DeviceOutbox → bool)
    (frames : gmap (uuid * Z) DeviceOutbox) :
  (∀ k f, frames !! k = Some f → g k f = true → k.1 = id ∧ first ≤ k.2 ≤ last) →
  (∀ s, first ≤ s ≤ last → ∃ f, frames !! (id, s) = Some f ∧ g (id, s) f = true) →
  (λ kf, kf.1.2) <$> select_rows g frames ≡ₚ seqZ first (last - first + 1).
Proof.
  intros Hin Hall. apply NoDup_Permutation; [|apply NoDup_seqZ|].
  - apply NoDup_fmap_2_strong.
    + intros [[i s] f] [[i' s'] f'] [Hx Hgx]%elem_of_select_rows [Hy Hgy]%elem_of_select_rows Hs.
      simpl in Hs. subst s'. destruct (Hin _ _ Hx Hgx) as [Hi _], (Hin _ _ Hy Hgy) as [Hi' _].
      simpl in *. subst. congruence.
    + apply NoDup_filter, NoDup_map_to_list.
  - intros s. rewrite list_elem_of_fmap, elem_of_seqZ. split.
    + intros ([k f] & -> & [Hk Hg]%elem_of_select_rows). destruct (Hin k f Hk Hg). simpl. lia.
    + intros Hs. destruct (Hall s ltac:(lia)) as (f & Hf & Hg).
      exists ((id, s), f). split; [done|]. by apply elem_of_select_rows.
Qed.

(** Among an active device's frames, those without an acknowledgement. *)
Lemma unacked_sequences id d db :
  stream_ok id d (outbox db) →
  (λ kf, kf.1.2) <$> unacked id db
    ≡ₚ seqZ (d_last_server_acked_sequence d + 1)
         (d_last_server_sequence d - d_last_server_acked_sequence d).
Proof.
  intros Hok. unfold unacked.
  replace (d_last_server_sequence d - d_last_server_acked_sequence d) with
    (d_last_server_sequence d - (d_last_server_acked_sequence d + 1) + 1) by lia.
  apply (select_sequences id).
  - intros [i s] f Hk Hg. unfold frame_of in Hg. simpl in *. reflect_bools. subst i.
    destruct (so_frame _ _ _ Hok _ _ Hk) as [? Ha]. rewrite Ha in *. reflect_bools. lia.
  - intros s Hs. destruct (so_complete _ _ _ Hok s ltac:(lia)) as [f Hf].
    exists f. split; [done|]. destruct (so_frame _ _ _ Hok _ _ Hf) as [? Ha].
    unfold frame_of. simpl. rewrite bool_decide_true, Ha by done. simpl.
    apply negb_true_iff, Z.leb_gt. lia.
Qed.

Lemma unacked_length id d db :
  stream_ok id d (outbox db) →
  Z.of_nat (length (unacked id db)) = d_last_server_sequence d - d_last_server_acked_sequence d.
Proof.
  intros Hok. pose proof (Permutation_length (unacked_sequences id d db Hok)) as Hl.
  rewrite length_fmap, length_seqZ in Hl. rewrite Hl.
  pose proof (so_bounds _ _ _ Hok). lia.
Qed.

(** The frames a reconnecting device is replayed. *)
Lemma frames_between_run id d db :
  stream_ok id d (outbox db) →
  (λ kf, kf.1.2) <$> frames_between id (d_last_server_acked_sequence d + 1)
                       (d_last_server_sequence d) db
    = seqZ (d_last_server_acked_sequence d + 1)
        (d_last_server_sequence d - (d_last_server_acked_sequence d + 1) + 1).
Proof.
  intros Hok. apply (StronglySorted_unique Z.le).
  - apply (StronglySorted_fmap _ (λ a b, by_sequence a b = true)).
    + intros [[? ?] ?] [[? ?] ?]. unfold by_sequence. simpl. intros H%Z.leb_le. done.
    + unfold frames_between, order_by. apply StronglySorted_merge_sort.
      * intros a b c. unfold by_sequence. rewrite !Z.leb_le. lia.
      * intros a b. unfold by_sequence. rewrite !Z.leb_le. lia.
  - apply seqZ_sorted.
  - unfold frames_between, order_by. rewrite merge_sort_Permutation.
    apply (select_sequences id).
    + intros [i s] f Hk Hg. unfold frame_of in Hg. simpl in *. reflect_bools. done.
    + intros s Hs. destruct (so_complete _ _ _ Hok s ltac:(lia)) as [f Hf].
      exists f. split; [done|]. unfold frame_of. simpl.
      rewrite bool_decide_true by done. simpl. apply andb_true_iff. rewrite !Z.leb_le. done.
Qed.

(** *** Changes that keep a device's stream *)

Definition stream_fields_eq (d d' : Device) : Prop :=
  d_last_server_sequence d' = d_last_server_sequence d
  ∧ d_last_server_acked_sequence d' = d_last_server_acked_sequence d.

Lemma stream_ok_fields id d d' frames :
  stream_fields_eq d d' → stream_ok id d frames → stream_ok id d' frames.
Proof. intros [E1 E2] []. split; rewrite ?E1, ?E2; auto. Qed.

(** Deleting acknowledged frames, and frames of other devices. *)
Lemma stream_ok_delete id d db Q :
  stream_ok id d (outbox db) →
  (∀ s f, outbox db !! (id, s) = Some f → Q (id, s) f = true → is_acked f = true) →
  stream_ok id d (outbox (delete_frames Q db)).
Proof.
  intros [Hb Hm Hf Hc Hq] HQ. split; try done; unfold delete_frames; simpl.
  - intros s f [Hs _]%map_lookup_filter_Some. by apply Hf.
  - intros s Hs. destruct (Hc s Hs) as [f Hk]. exists f. apply map_lookup_filter_Some.
    split; [done|]. simpl. apply not_true_iff_false. intros HQt.
    pose proof (HQ _ _ Hk HQt) as Ha. destruct (Hf _ _ Hk) as [_ Ha'].
    rewrite Ha in Ha'. symmetry in Ha'. apply Z.leb_le in Ha'. lia.
Qed.

Lemma outbox_ok_delete db Q :
  outbox_ok db →
  (∀ k f, outbox db !! k = Some f → Q k f = true →
     is_acked f = true ∨ device_revoked_row db k.1 = true) →
  outbox_ok (delete_frames Q db).
Proof.
  intros Hok HQ id d Hd Ha. apply stream_ok_delete; [by apply Hok|].
  intros s f Hf Hq. destruct (HQ _ _ Hf Hq) as [|Hr]; [done|].
  unfold device_revoked_row in Hr. simpl in Hr, Hd. rewrite Hd in Hr. reflect_bools. congruence.
Qed.

#[export] Instance outbox_ok_event_free : EventFree outbox_ok.
Proof.
  split; try done. intros db dev d n Hok Hd id d'. simpl. rewrite lookup_insert.
  case_decide as Hi; [|by apply Hok]. intros [= <-] Ha.
  rewrite Hi in Hd. apply (stream_ok_fields id d); [done|]. by apply Hok.
Qed.

(** Rewriting a device's other fields. *)
Lemma outbox_ok_update_device db id f :
  (∀ d, stream_fields_eq d (f d)) → (∀ d, d_status (f d) = DsActive → d_status d = DsActive) →
  outbox_ok db → outbox_ok (db <| devices := alter f id (devices db) |>).
Proof.
  intros Hf Hs Hok i d'. simpl. rewrite lookup_alter_Some.
  intros [(-> & d & Hd & ->)|[Hne Hd]] Ha; [|by apply Hok].
  eapply stream_ok_fields; [apply Hf|]. apply Hok; auto.
Qed.
End outbox_invariant.

(** ** The operations keep it *)

Section outbox_operations.
Context {P : Platform}.

Lemma lock_active_device_ok c :
  txn outbox_ok outbox_ok (_lock_active_device c)
    (λ d db, outbox_ok db ∧ devices db !! as_device_id c = Some d ∧ d_status d = DsActive
       ∧ connection_active c d = true).
Proof.
  intros w H1 H2. unfold _lock_active_device, mbind, tx_bind, query, mret, tx_ret, raise.
  destruct (devices (working w) !! as_device_id c) as [d|] eqn:Hd; simpl; [|done].
  destruct (_ && _) eqn:E; simpl; [|done]. reflect_bools. split; [done|].
  intros ? [= <-]. done.
Qed.

(** *** Acknowledging *)

(** The handler's assignment before it acknowledges the frames. *)
Definition acknowledge_device (id : uuid) (ack : Z) (db : database) : database :=
  db <| devices := alter (λ d, d <| d_last_server_acked_sequence := ack |>) id (devices db) |>.

Definition marked (id : uuid) (ack t : Z) (db : database) : database :=
  db <| outbox := map_imap (λ k f, Some (mark_acked id ack t k f)) (outbox db) |>.

Lemma lookup_marked id ack t db k :
  outbox (marked id ack t db) !! k = mark_acked id ack t k <$> outbox db !! k.
Proof. unfold marked. simpl. rewrite map_lookup_imap. by destruct (outbox db !! k). Qed.

Lemma stream_ok_mark id d ack t db :
  stream_ok id d (outbox db) →
  d_last_server_acked_sequence d ≤ ack ≤ d_last_server_sequence d →
  stream_ok id (d <| d_last_server_acked_sequence := ack |>) (outbox (marked id ack t db)).
Proof.
  intros [Hb Hm Hf Hc Hq] Hack. split; [simpl; lia|done| | |simpl; lia].
  - intros s f'. rewrite lookup_marked, fmap_Some. intros (f & Hk & ->). simpl.
    destruct (Hf s f Hk) as [? Ha]. split; [done|].
    unfold mark_acked, frame_of. simpl. rewrite bool_decide_true by done. simpl.
    destruct (s <=? ack) eqn:E; simpl.
    + destruct (is_acked f) eqn:Ef; simpl; [done|]. reflexivity.
    + rewrite Ha. reflect_bools. apply Z.leb_gt. lia.
  - intros s Hs. simpl in Hs. destruct (Hc s ltac:(lia)) as [f Hk]. exists (mark_acked id ack t (id, s) f).
    by rewrite lookup_marked, Hk.
Qed.

Lemma stream_ok_mark_other id i d ack t db :
  i ≠ id → stream_ok i d (outbox db) → stream_ok i d (outbox (marked id ack t db)).
Proof.
  intros Hne [Hb Hm Hf Hc Hq].
  assert (Hsame : ∀ s, outbox (marked id ack t db) !! (i, s) = outbox db !! (i, s)).
  { intros s. rewrite lookup_marked. destruct (outbox db !! (i, s)); simpl; [|done].
    unfold mark_acked, frame_of. simpl. by rewrite bool_decide_false. }
  split; try done; intros s *; rewrite Hsame; auto.
Qed.

Lemma marked_ok id d ack t db :
  outbox_ok db → devices db !! id = Some d →
  d_last_server_acked_sequence d ≤ ack ≤ d_last_server_sequence d →
  outbox_ok (marked id ack t (acknowledge_device id ack db)).
Proof.
  intros Hok Hd Hack i d'. unfold acknowledge_device. simpl. rewrite lookup_alter_Some.
  intros [(<- & d0 & Hd0 & ->)|[Hne Hd']] Ha.
  - simplify_eq. apply (stream_ok_mark id d ack t db); [by apply Hok|done].
  - apply (stream_ok_mark_other id i d' ack t db); [done|]. by apply Hok.
Qed.

Lemma ack_outbox_ok id d ack t db :
  outbox_ok db → devices db !! id = Some d →
  d_last_server_acked_sequence d ≤ ack ≤ d_last_server_sequence d →
  txn outbox_ok (λ db', db' = acknowledge_device id ack db) (_ack_outbox_locked id ack t)
    (λ _ db', outbox_ok db' ∧ devices db' = devices (acknowledge_device id ack db)).
Proof.
  intros Hok Hd Hack w H1 H2.
  pose proof (marked_ok id d ack t db Hok Hd Hack) as Hmark.
  unfold _ack_outbox_locked, mbind, tx_bind, query, guard_exn, modify.
  destruct (exists_row _ _); simpl; [done|]. rewrite H2. fold (marked id ack t (acknowledge_device id ack db)).
  destruct (latest_acked id _) as [latest|]; simpl; (split; [done|]); intros _ _; [|done].
  split; [|done]. apply outbox_ok_delete; [done|]. intros k f _ HQ. reflect_bools. by left.
Qed.

(** *** Writing *)

(** The view after [_persist_envelope_locked], and what it returns. *)
Definition persisted (id : uuid) (nonce : pystr) (sequence : Z) (f : DeviceOutbox) (db : database) :
    database :=
  let db := delete_frames (λ k f, frame_of id k && is_acked f) db in
  db <| outbox := <[(id, sequence) := f]> (outbox db) |>
     <| devices := alter (λ d, d <| d_last_server_sequence := sequence |>) id (devices db) |>
     <| connections := (λ r, if bool_decide (dc_connection_nonce r = nonce)
          then r <| dc_last_server_sequence := sequence |> else r) <$> connections db |>.

Lemma persist_run c d ty payload w :
  let id := as_device_id c in
  match _persist_envelope_locked c d ty payload w with
  | (Ok (sequence, encoded), w') => ∃ f,
      sequence = d_last_server_sequence d + 1 ∧ sequence ≤ MAX_EVENT_CURSOR
      ∧ ob_encoded_envelope f = encoded ∧ ob_acked_at f = None ∧ ob_frame_type f = ty
      ∧ ob_ack_sequence f = d_last_device_sequence d
      ∧ py_len encoded ≤ device_max_envelope_bytes settings ∧ ob_byte_size f = py_len encoded
      ∧ Z.of_nat (length (unacked id (delete_frames (λ k f, frame_of id k && is_acked f) (working w))))
          < device_max_outbox_frames settings
      ∧ total_bytes (unacked id (delete_frames (λ k f, frame_of id k && is_acked f) (working w)))
          + ob_byte_size f ≤ device_max_outbox_bytes settings
      ∧ working w' = persisted id (as_connection_nonce c) sequence f (working w)
      ∧ durable w' = durable w ∧ effects w' = effects w
  | (Raise e, w') => durable w' = durable w ∧ effects w' = effects w
      ∧ ((∃ msg, e = RealtimeProtocolError msg)
         ∨ (e = IntegrityError ∧ is_Some (outbox (working w) !! (id, d_last_server_sequence d + 1)))
         ∨ (e = DataError ∧ d_last_server_sequence d = MAX_EVENT_CURSOR)
         ∨ (e = DataError ∧ MAX_EVENT_CURSOR < d_last_server_sequence d))
  end.
Proof.
  cbv zeta. set (id := as_device_id c). 
  unfold _persist_envelope_locked, insert_frame, update_device, update_connection.
  cbv beta iota zeta delta [mbind tx_bind query guard_exn fresh_uuid now modify raise mret tx_ret
    fst snd].
  fold id. set (encoded := PyStr _). clearbody encoded.
  destruct (device_max_envelope_bytes settings <? py_len encoded) eqn:E1; [by eauto 6|].
  simpl. fold id.
  set (db1 := delete_frames _ _).
  destruct (device_max_outbox_frames settings <=? _) eqn:E2; [by eauto 6|]. simpl.
  destruct (device_max_outbox_bytes settings <? _) eqn:E3; [by eauto 6|]. simpl.
  destruct (match oldest _ with Some _ => _ | None => _ end) eqn:E4; [by eauto 6|]. simpl.
  case_bool_decide as E5.
  { split_and!; try done. right. left. split; [done|]. destruct E5 as [f Hf].
    apply map_lookup_filter_Some in Hf as [Hf _]. by exists f. }
  simpl. destruct (MAX_EVENT_CURSOR <? _) eqn:E6; simpl.
  { split_and!; try done. right. right. reflect_bools.
    destruct (decide (d_last_server_sequence d = MAX_EVENT_CURSOR)); [by left|].
    right. split; [done|lia]. }
  reflect_bools.
  eexists (Build_DeviceOutbox encoded _ ty (py_len encoded) _ _ None). cbn [ob_byte_size].
  split_and!; try reflexivity; try lia.
Qed.

Lemma stream_ok_insert id d f frames :
  stream_ok id d frames →
  d_last_server_sequence d + 1 ≤ MAX_EVENT_CURSOR →
  d_last_server_sequence d - d_last_server_acked_sequence d < device_max_outbox_frames settings →
  ob_acked_at f = None →
  stream_ok id (d <| d_last_server_sequence := d_last_server_sequence d + 1 |>)
    (<[(id, d_last_server_sequence d + 1) := f]> frames).
Proof.
  intros [Hb Hm Hf Hc Hq] Hmax Hlt Hnone. split; simpl; [lia|done| | |lia].
  - intros s f'. rewrite lookup_insert. case_decide as Hs.
    + injection Hs as <-. intros [= <-]. split; [lia|].
      unfold is_acked. rewrite Hnone. symmetry. apply Z.leb_gt. lia.
    + intros H. destruct (Hf s f' H). split; [lia|done].
  - intros s Hs. rewrite lookup_insert. case_decide as Hk; [by eexists|].
    apply Hc. destruct (decide (s = d_last_server_sequence d + 1)) as [->|]; [done|lia].
Qed.

Lemma stream_ok_insert_other i id d k f frames :
  k.1 = id → i ≠ id → stream_ok i d frames → stream_ok i d (<[k := f]> frames).
Proof.
  intros Hk Hne [Hb Hm Hf Hc Hq]. split; try done; intros s *;
    rewrite lookup_insert_ne by (intros ->; done); auto.
Qed.

Definition without_acked (id : uuid) (db : database) : database :=
  delete_frames (λ k f, frame_of id k && is_acked f) db.

Lemma without_acked_ok id db : outbox_ok db → outbox_ok (without_acked id db).
Proof. intros H. apply outbox_ok_delete; [done|]. intros k f _ Hq. reflect_bools. by left. Qed.

Lemma persisted_ok id nonce d f db :
  outbox_ok db → devices db !! id = Some d → d_status d = DsActive →
  d_last_server_sequence d + 1 ≤ MAX_EVENT_CURSOR → ob_acked_at f = None →
  Z.of_nat (length (unacked id (without_acked id db))) < device_max_outbox_frames settings →
  outbox_ok (persisted id nonce (d_last_server_sequence d + 1) f db).
Proof.
  intros Hok Hd Ha Hmax Hnone Hlen. pose proof (without_acked_ok id db Hok) as Hok1.
  rewrite (unacked_length id d) in Hlen by (by apply (Hok1 id d)).
  intros i d'. unfold persisted. simpl. rewrite lookup_alter_Some.
  intros [(<- & d0 & Hd0 & ->)|[Hne Hd']] Ha'.
  - simplify_eq. apply stream_ok_insert; try done. by apply (Hok1 id d).
  - apply (stream_ok_insert_other i id); [done|congruence|]. by apply (Hok1 i d').
Qed.

(** A written frame: the contract of [_persist_envelope_locked] for its callers. *)
Lemma persist_ok c d ty payload :
  txn outbox_ok
    (λ db, outbox_ok db ∧ devices db !! as_device_id c = Some d ∧ d_status d = DsActive)
    (_persist_envelope_locked c d ty payload)
    (λ r db, outbox_ok db ∧ r.1 = d_last_server_sequence d + 1
       ∧ ∃ f, outbox db !! (as_device_id c, r.1) = Some f ∧ ob_encoded_envelope f = r.2
         ∧ ob_acked_at f = None).
Proof.
  intros w H1 (H2 & Hd & Ha). pose proof (persist_run c d ty payload w) as Hrun. cbv zeta in Hrun.
  destruct (_persist_envelope_locked c d ty payload w) as [[[seq enc]|e] w'].
  - destruct Hrun as (f & -> & Hmax & He & Hn & _ & _ & _ & _ & Hlen & _ & Hw & Hdur & _).
    simpl. rewrite Hdur. split; [done|]. intros ? [= <-]. simpl. rewrite Hw. split_and!; [|done|].
    + by apply persisted_ok.
    + exists f. unfold persisted. simpl. by rewrite lookup_insert_eq.
  - destruct Hrun as (Hdur & _). simpl. by rewrite Hdur.
Qed.

Lemma stable_txn_session {A} (I : database → Prop) (m : tx A) post :
  txn I I m post → stable I (with_session m).
Proof.
  intros H w H1 H2. specialize (H (w <| working := durable w |>)).
  destruct H as [H3 _]; [exact H2..|]. unfold wp, with_session.
  destruct (m _) as [r w']. done.
Qed.

Lemma send_if_active_stable I c frames : stable I (_send_if_active c frames).
Proof. unfold _send_if_active, _lock_active_device. solve_stable. Qed.

Lemma send_envelope_stable c ty payload : stable outbox_ok (_send_envelope c ty payload).
Proof.
  unfold _send_envelope. apply stable_bind; [apply stable_guard|intros _].
  apply stable_bind; [apply stable_guard|intros _].
  apply stable_bind; [|intros r; apply stable_bind; [apply send_if_active_stable|];
    intros _; apply stable_ret].
  apply (stable_txn_session _ _ (λ _ _, True)). eapply txn_bind; [apply lock_active_device_ok|].
  intros d. simpl. eapply txn_bind.
  { eapply txn_weaken; [apply persist_ok|by intros db (? & ? & ? & _)|done]. }
  intros r. simpl. eapply txn_bind; [apply txn_commit; tauto|intros u].
  intros w Hw _. done.
Qed.

Lemma prune_outbox_stable t : stable outbox_ok (prune_outbox t).
Proof.
  unfold prune_outbox. solve_stable.
  - apply outbox_ok_delete; [done|]. by right.
  - intros i d'. simpl. rewrite lookup_fmap_Some. intros (d0 & Hd & Hi). unfold reconcile_revoked in Hd.
    destruct (_ && _) eqn:E; subst d'; simpl; intros Ha; reflect_bools; [congruence|by eauto].
  - apply outbox_ok_delete; [done|]. intros k f _ Hq. reflect_bools. by left.
Qed.

Lemma for_each_send {A} nonce (text : A → pystr) l w :
  (∀ n, send_up n = true) →
  ∃ n, for_each (λ x, send_text nonce (text x)) l w =
    (Ok tt, w <| ticks := n |> <| effects := effects w ++ (ESend nonce ∘ text <$> l) |>).
Proof.
  intros Hup. revert w. induction l as [|x l IH]; intros w; simpl.
  - exists (ticks w). rewrite app_nil_r. by destruct w.
  - unfold mbind, tx_bind, send_text at 1. rewrite Hup. simpl.
    destruct (IH (w <| ticks := S (ticks w) |> <| effects := effects w ++ [ESend nonce (text x)] |>))
      as [n Hn]. exists n. unfold emit. unfold update_field in *. simpl in *. rewrite Hn.
    by rewrite <- app_assoc.
Qed.
End outbox_operations.

#[export] Hint Resolve send_if_active_stable send_envelope_stable prune_outbox_stable : stable.

Lemma for_each_send_frames nonce (l : list ((uuid * Z) * DeviceOutbox)) {P : Platform} w :
  (∀ n, send_up n = true) →
  ∃ n, for_each (λ kf, send_text nonce (ob_encoded_envelope kf.2)) l w =
    (Ok tt, w <| ticks := n |>
      <| effects := effects w ++ ((λ kf, ESend nonce (ob_encoded_envelope kf.2)) <$> l) |>).
Proof. apply (for_each_send nonce (λ kf, ob_encoded_envelope kf.2)). Qed.

(** ** What the outbox promises *)

Section outbox_claims.
Context {P : Platform}.

(** C6: the operations of the outbox keep its invariant of the committed
    state on every outcome: sending a frame, pruning, and applying a cumulative
    acknowledgement that does not exceed the last sequence. *)
Theorem outbox_invariant c ty payload t id d ack now db :
  outbox_ok db → devices db !! id = Some d →
  d_last_server_acked_sequence d ≤ ack ≤ d_last_server_sequence d →
  stable outbox_ok (_send_envelope c ty payload)
  ∧ stable outbox_ok (prune_outbox t)
  ∧ txn outbox_ok (λ db', db' = acknowledge_device id ack db) (_ack_outbox_locked id ack now)
      (λ _ db', outbox_ok db' ∧ devices db' = devices (acknowledge_device id ack db)).
Proof. intros. split_and!; [auto with stable..|by eapply ack_outbox_ok]. Qed.

(** A reconnecting device is replayed exactly the frames after its
    acknowledgement, in sequence order and from the durable text: in a state
    that satisfies the invariant neither the safety limit nor a sequence hole
    can refuse the replay, and it writes nothing. *)
Theorem replay_sends_unacknowledged c d w :
  outbox_ok (durable w) → devices (durable w) !! as_device_id c = Some d →
  d_status d = DsActive → connection_active c d = true → (∀ n, send_up n = true) →
  ∃ frames w', _replay_outbox c w = (Ok tt, w')
    ∧ (λ kf, kf.1.2) <$> frames = seqZ (d_last_server_acked_sequence d + 1)
        (d_last_server_sequence d - d_last_server_acked_sequence d)
    ∧ (∀ kf, kf ∈ frames → kf.1.1 = as_device_id c ∧ outbox (durable w) !! kf.1 = Some kf.2)
    ∧ effects w' = effects w ++
        ((λ kf, ESend (as_connection_nonce c) (ob_encoded_envelope kf.2)) <$> frames)
    ∧ durable w' = durable w.
Proof.
  intros Hok Hd Ha Hc Hup. pose proof (Hok _ _ Hd Ha) as Hs.
  pose proof (frames_between_run _ _ _ Hs) as Hrun. pose proof (so_quota _ _ _ Hs) as Hq.
  set (frames := frames_between (as_device_id c) (d_last_server_acked_sequence d + 1)
    (d_last_server_sequence d) (durable w)) in *.
  destruct (for_each_send_frames (as_connection_nonce c) frames (w <| working := durable w |>) Hup)
    as [n Hsend].
  exists frames. eexists. split.
  - unfold _replay_outbox, with_session, _lock_active_device.
    cbv beta iota zeta delta [mbind tx_bind query guard_exn raise mret tx_ret].
    change (working (w <| working := durable w |>)) with (durable w).
    rewrite Hd, bool_decide_true, Hc by done. cbn [andb].
    replace (device_max_outbox_frames settings <? _) with false by (symmetry; apply Z.ltb_ge; lia).
    rewrite bool_decide_true by exact Hrun. cbn [negb].
    change (frames_between _ _ _ (working (w <| working := durable w |>))) with frames.
    rewrite Hsend. reflexivity.
  - split; [rewrite Hrun; f_equal; lia|]. split; [|done].
    intros [[i s] f] Hin. unfold frames, frames_between in Hin.
    rewrite elem_of_order_by, elem_of_select_rows in Hin. destruct Hin as [Hk Hg].
    unfold frame_of in Hg. simpl in *. reflect_bools. done.
Qed.

(** Writing a frame gives it the device's next sequence, which is never
    already taken, stores its exact text within the frame, byte and count
    limits, and returns that text; a refusal is one of the documented limits
    (or the end of the 63-bit sequence space) and commits nothing. *)
Theorem persist_next_sequence c d ty payload w :
  outbox_ok (working w) → devices (working w) !! as_device_id c = Some d → d_status d = DsActive →
  match _persist_envelope_locked c d ty payload w with
  | (Ok (sequence, encoded), w') =>
      sequence = d_last_server_sequence d + 1
      ∧ outbox (working w) !! (as_device_id c, sequence) = None
      ∧ (∃ f, outbox (working w') !! (as_device_id c, sequence) = Some f
           ∧ ob_encoded_envelope f = encoded ∧ ob_acked_at f = None
           ∧ ob_byte_size f = py_len encoded ∧ ob_ack_sequence f = d_last_device_sequence d)
      ∧ py_len encoded ≤ device_max_envelope_bytes settings
      ∧ outbox_ok (working w') ∧ durable w' = durable w
  | (Raise e, w') => durable w' = durable w ∧ effects w' = effects w
      ∧ ((∃ msg, e = RealtimeProtocolError msg)
         ∨ (e = DataError ∧ d_last_server_sequence d = MAX_EVENT_CURSOR))
  end.
Proof.
  intros Hok Hd Ha. pose proof (Hok _ _ Hd Ha) as Hs. pose proof (so_bigint _ _ _ Hs) as Hbig.
  assert (Hfree : outbox (working w) !! (as_device_id c, d_last_server_sequence d + 1) = None).
  { destruct (outbox (working w) !! _) as [f|] eqn:E; [|done].
    destruct (so_frame _ _ _ Hs _ _ E). lia. }
  pose proof (persist_run c d ty payload w) as Hrun. cbv zeta in Hrun.
  destruct (_persist_envelope_locked c d ty payload w) as [[[seq enc]|e] w'].
  - destruct Hrun as (f & -> & Hmax & He & Hn & _ & Hack & Hsz & Hbs & Hlen & _ & Hw & Hdur & _).
    split_and!; try done; rewrite Hw.
    + exists f. unfold persisted. simpl. by rewrite lookup_insert_eq.
    + by apply persisted_ok.
  - destruct Hrun as (? & ? & [?|[[_ [f Hf]]|[[? ?]|[_ ?]]]]); [by eauto|congruence|by eauto|lia].
Qed.
End outbox_claims.

(** ** An outbox on the testbed: one heartbeat acknowledgement *)

Definition sample_socket : ActiveDeviceSocket :=
  {| as_device_id := 1%N; as_owner_user_id := "alice"; as_connection_nonce := "nonce-1";
     as_epoch := "epoch-0000000001"; as_registry_value := ""; as_received_sequence := 0 |}.

Definition sample_outbox : world :=
  after (_send_envelope sample_socket THeartbeatAck (JObj [("received_seq", JInt 1)]))
    (start_world sample_database).

Lemma sample_lookup id d :
  devices sample_database !! id = Some d → id = 1%N ∧ d = sample_device.
Proof.
  intros Hd. change (({[1%N := sample_device]} : gmap uuid Device) !! id = Some d) in Hd.
  apply lookup_singleton_Some in Hd as [<- <-]. done.
Qed.

Lemma sample_database_outbox : outbox_ok sample_database.
Proof.
  intros id d [-> ->]%sample_lookup _.
  split; [done|done| | |done]; [by intros s f ?|intros s Hs; simpl in Hs; lia].
Qed.

Lemma sample_outbox_ok : outbox_ok (durable sample_outbox).
Proof.
  unfold sample_outbox, after.
  pose proof (send_envelope_stable sample_socket THeartbeatAck (JObj [("received_seq", JInt 1)])
    (start_world sample_database)) as H.
  apply H; apply sample_database_outbox.
Qed.

Definition sample_device_sent : Device := sample_device <| d_last_server_sequence := 1 |>.

Lemma outbox_invariant_witness :
  txn outbox_ok (λ db', db' = acknowledge_device 1%N 1 (durable sample_outbox))
    (_ack_outbox_locked 1%N 1 5)
    (λ _ db', outbox_ok db' ∧ devices db' = devices (acknowledge_device 1%N 1 (durable sample_outbox))).
Proof.
  apply (outbox_invariant sample_socket THeartbeatAck JNull None 1%N sample_device_sent 1 5
    (durable sample_outbox)); [exact sample_outbox_ok|vm_compute; reflexivity|].
  simpl. lia.
Defined.

Lemma replay_sends_unacknowledged_witness :
  ∃ (frames : list ((uuid * Z) * DeviceOutbox)) w', _replay_outbox sample_socket sample_outbox = (Ok tt, w')
    ∧ (λ kf, kf.1.2) <$> frames = [1].
Proof.
  destruct (replay_sends_unacknowledged sample_socket sample_device_sent sample_outbox)
    as (frames & w' & Hr & Hs & _);
    [exact sample_outbox_ok|vm_compute; reflexivity|reflexivity|reflexivity|reflexivity|].
  exists frames, w'. split; [exact Hr|]. rewrite Hs. reflexivity.
Defined.

Lemma persist_next_sequence_witness :
  match _persist_envelope_locked sample_socket sample_device "heartbeat_ack" JNull
          (start_world sample_database) with
  | (Ok (sequence, _), _) => sequence = 1
  | _ => True
  end.
Proof.
  pose proof (persist_next_sequence sample_socket sample_device "heartbeat_ack" JNull
    (start_world sample_database) sample_database_outbox eq_refl eq_refl) as H.
  destruct (_persist_envelope_locked _ _ _ _ _) as [[[s e]|e] w']; [|exact I].
  destruct H as [H _]. exact H.
Defined.
