(* ===== verification/Steps.v ===== *)
(** * What one transaction does to the committed state

    Relational reasoning about the handlers.  For a preorder [R] on databases:

    - [body R m]: [m] commits nothing, and a normal result leaves the session's
      view related by [R] to what it was;
    - [settles R m]: [m] commits at most once, and what it commits is related by
      [R] to the view it started from;
    - [commits R m]: whatever its outcome, [m] takes the committed state to one
      related by [R].

    A handler is a body, a commit, and statements that write nothing, inside a
    session; [solve_body] and [solve_settles] follow that shape. *)

From stdpp Require Import base list gmap.
From Stdlib Require Import NArith ZArith Lia.
From S2P Require Import Prelude Config Json Models Storage World Testbed Wire Budget Events.
Open Scope Z_scope.

(** What a normal result is known to be. *)
Definition returns {P : Platform} {A} (Q : A → Prop) (m : tx A) : Prop :=
  ∀ w a, (m w).1 = Ok a → Q a.

Lemma returns_ret {P : Platform} {A} (Q : A → Prop) a : Q a → returns Q (mret a).
Proof. by intros H w b [= <-]. Qed.

Lemma returns_bind {P : Platform} {A B} (Q : A → Prop) (Q' : B → Prop) (m : tx A) (k : A → tx B) :
  returns Q m → (∀ a, Q a → returns Q' (k a)) → returns Q' (m ≫= k).
Proof.
  intros Hm Hk w b. unfold mbind, tx_bind. specialize (Hm w).
  destruct (m w) as [[a|e] w']; [|done]. by apply Hk, Hm.
Qed.

Lemma returns_any {P : Platform} {A} (m : tx A) : returns (λ _, True) m.
Proof. done. Qed.

Section steps.
Context {P : Platform} (R : database → database → Prop).

Definition grown (w : world) {A} (r : outcome A) (w' : world) : Prop :=
  durable w' = durable w ∧ ∀ a, r = Ok a → R (working w) (working w').

Definition body {A} (m : tx A) : Prop := ∀ w, wp m (grown w) w.

Definition settled (w : world) {A} (_ : outcome A) (w' : world) : Prop :=
  durable w' = durable w ∨ R (working w) (durable w').

Definition settles {A} (m : tx A) : Prop := ∀ w, wp m (settled w) w.

Definition commits {A} (m : tx A) : Prop := ∀ w, R (durable w) (durable (m w).2).

Context `{!PreOrder R}.

Lemma body_silent {A} (m : tx A) : silent m → body m.
Proof. intros Hm w. destruct (Hm w) as [H1 H2]. split; [done|]. intros a _. by rewrite H1. Qed.

Lemma body_bind {A B} (m : tx A) (k : A → tx B) : body m → (∀ a, body (k a)) → body (m ≫= k).
Proof.
  intros Hm Hk w. apply wp_bind. eapply wp_mono; [apply Hm|]. intros [a|e] w1 [Hd1 Hr1]; [|done].
  eapply wp_mono; [apply Hk|]. intros r w2 [Hd2 Hr2]. split; [congruence|].
  intros b Hb. etrans; [by eapply Hr1|by eapply Hr2].
Qed.

Lemma body_raise {A} e : body (@raise P A e).
Proof. by intros w. Qed.

Lemma body_modify f : (∀ db, R db (f db)) → body (modify f).
Proof. intros H w. split; [done|]. intros a _. apply H. Qed.

Lemma body_for_each {A} (f : A → tx unit) l : (∀ a, body (f a)) → body (for_each f l).
Proof.
  intros Hf. induction l as [|x l IH]; simpl; [by apply body_silent|].
  apply body_bind; [apply Hf|done].
Qed.

Lemma body_fold_tx {A B} (f : B → A → tx B) b l : (∀ b a, body (f b a)) → body (fold_tx f b l).
Proof.
  intros Hf. revert b. induction l as [|x l IH]; intros b; simpl; [by apply body_silent|].
  apply body_bind; [apply Hf|done].
Qed.

Lemma body_mapM {A B} (f : A → tx B) l : (∀ a, body (f a)) → body (mapM f l).
Proof.
  intros Hf. induction l as [|x l IH]; simpl; [by apply body_silent|].
  apply body_bind; [apply Hf|]. intros b. apply body_bind; [done|]. intros bs.
  by apply body_silent.
Qed.

(** A handler of exceptions that only translates them. *)
Lemma body_translate {A} (m : tx A) (h : exn → tx A) :
  body m → (∀ e w, ∃ e', h e w = (Raise e', w)) → body (try_catch m h).
Proof.
  intros Hm Hh w. apply wp_try_catch. eapply wp_mono; [apply Hm|].
  intros [a|e] w1 H1; [done|]. unfold wp. destruct (Hh e w1) as [e' ->].
  split; [apply H1|done].
Qed.

(** Continuing a proof by [wp] with what is known of a part. *)
Lemma wp_body {A} (m : tx A) (Q : outcome A → world → Prop) w :
  body m → (∀ r w', grown w r w' → Q r w') → wp m Q w.
Proof. intros Hm HQ. apply HQ, Hm. Qed.

Lemma grown_trans w w1 {A} (r : outcome A) w2 :
  R (working w) (working w1) → durable w1 = durable w → grown w1 r w2 → grown w r w2.
Proof.
  intros H1 H2 [H3 H4]. split; [congruence|]. intros a Ha. etrans; [done|by eapply H4].
Qed.

(** The rest of a body, from a view related to the first one. *)
Lemma wp_body_after {A} (m : tx A) w w1 :
  body m → R (working w) (working w1) → durable w1 = durable w → wp m (grown w) w1.
Proof.
  intros Hm H1 H2. eapply wp_mono; [apply Hm|]. intros r w2. by apply grown_trans.
Qed.

Lemma settles_body {A} (m : tx A) : body m → settles m.
Proof. intros Hm w. left. apply Hm. Qed.

Lemma settles_bind {A B} (m : tx A) (k : A → tx B) :
  body m → (∀ a, settles (k a)) → settles (m ≫= k).
Proof.
  intros Hm Hk w. apply wp_bind. eapply wp_mono; [apply Hm|]. intros [a|e] w1 [Hd1 Hr1]; [|by left].
  eapply wp_mono; [apply Hk|]. intros r w2 [Hd2|Hr2]; [left; congruence|right].
  etrans; [by eapply Hr1|done].
Qed.

Lemma settles_commit {A} (k : unit → tx A) : silent (k tt) → settles (commit ≫= k).
Proof.
  intros Hk w. apply wp_bind, wp_commit. intros w1 H1 H2. right.
  destruct (Hk w1) as [_ Hd]. rewrite Hd, H2. done.
Qed.

Lemma settles_silent_bind {A B} (m : tx A) (k : A → tx B) :
  silent m → (∀ a, settles (k a)) → settles (m ≫= k).
Proof. intros Hm. apply settles_bind. by apply body_silent. Qed.

Lemma wp_settles_after {A} (m : tx A) w w1 :
  settles m → R (working w) (working w1) → durable w1 = durable w → wp m (settled w) w1.
Proof.
  intros Hm H1 H2. eapply wp_mono; [apply Hm|]. intros r w2 [H3|H3]; [left; congruence|].
  right. by etrans.
Qed.

Lemma commits_session {A} (m : tx A) : settles m → commits (with_session m).
Proof.
  intros Hm w. specialize (Hm (w <| working := durable w |>)). unfold wp, settled in Hm.
  unfold with_session. destruct (m _) as [r w']. simpl in *.
  by destruct Hm as [-> | Hm].
Qed.

Lemma commits_silent {A} (m : tx A) : silent m → commits m.
Proof. intros Hm w. by destruct (Hm w) as [_ ->]. Qed.

Lemma commits_bind {A B} (m : tx A) (k : A → tx B) :
  commits m → (∀ a, commits (k a)) → commits (m ≫= k).
Proof.
  intros Hm Hk w. specialize (Hm w). unfold mbind, tx_bind.
  destruct (m w) as [[a|e] w'] eqn:E; [|done]. etrans; [exact Hm|apply Hk].
Qed.

Lemma commits_bind_returns {A B} (Q : A → Prop) (m : tx A) (k : A → tx B) :
  commits m → returns Q m → (∀ a, Q a → commits (k a)) → commits (m ≫= k).
Proof.
  intros Hm Hq Hk w. specialize (Hm w). specialize (Hq w). unfold mbind, tx_bind.
  destruct (m w) as [[a|e] w'] eqn:E; [|done]. etrans; [exact Hm|by apply Hk, Hq].
Qed.

Lemma commits_try_catch {A} (m : tx A) h :
  commits m → (∀ e, commits (h e)) → commits (try_catch m h).
Proof.
  intros Hm Hh w. specialize (Hm w). unfold try_catch.
  destruct (m w) as [[a|e] w'] eqn:E; [done|]. etrans; [exact Hm|apply Hh].
Qed.

Lemma commits_for_each {A} (f : A → tx unit) l :
  (∀ a, commits (f a)) → commits (for_each f l).
Proof.
  intros Hf. induction l as [|x l IH]; simpl; [by apply commits_silent|].
  apply commits_bind; [apply Hf|done].
Qed.

Lemma body_fold_in {A B} (f : B → A → tx B) b l :
  (∀ b a, a ∈ l → body (f b a)) → body (fold_tx f b l).
Proof.
  revert b. induction l as [|x l IH]; intros b Hf; simpl; [by apply body_silent|].
  apply body_bind; [apply Hf; by left|]. intros b'. apply IH. intros. apply Hf. by right.
Qed.

(** A loop over selected rows that no iteration disturbs for the others: each
    row is what was selected when its turn comes, and becomes one related by
    [G]. *)
Definition rows_become {V} (G : V → V → Prop) (ids : list uuid) (m m' : gmap uuid V) : Prop :=
  ∀ id, if base.decide (id ∈ ids) then ∃ v v', m !! id = Some v ∧ m' !! id = Some v' ∧ G v v'
        else m' !! id = m !! id.

Lemma wp_fold_rows {V A} (tbl : database → gmap uuid V) (ok : V → Prop) (G : V → V → Prop)
    (f : A → uuid * V → tx A) acc (l : list (uuid * V)) w :
  (∀ acc id v w, tbl (working w) !! id = Some v → ok v →
     wp (f acc (id, v))
       (λ r w', durable w' = durable w ∧ ∀ a, r = Ok a →
          R (working w) (working w')
          ∧ ∃ v', G v v' ∧ tbl (working w') = <[id := v']> (tbl (working w))) w) →
  NoDup l.*1 → (∀ id v, (id, v) ∈ l → tbl (working w) !! id = Some v ∧ ok v) →
  wp (fold_tx f acc l)
    (λ r w', durable w' = durable w ∧ ∀ a, r = Ok a →
       R (working w) (working w') ∧ rows_become G l.*1 (tbl (working w)) (tbl (working w'))) w.
Proof.
  intros Hf. revert acc w. induction l as [|[id v] l IH]; intros acc w Hnd Hl; simpl.
  { split; [done|]. intros a _. split; [done|]. by intros i. }
  apply NoDup_cons in Hnd as [Hid Hnd]. destruct (Hl id v ltac:(by left)) as [Hv Hok].
  apply wp_bind. eapply wp_mono; [by apply Hf|]. intros [a|e] w1 [Hd1 H1]; [|done].
  destruct (H1 a eq_refl) as [Hr1 (v1 & Hg1 & Ht1)].
  eapply wp_mono; [apply (IH a w1 Hnd)|].
  { intros i x Hi. destruct (Hl i x ltac:(by right)) as [Hx Hokx]. split; [|done].
    rewrite Ht1, lookup_insert_ne; [done|]. intros ->. apply Hid.
    apply list_elem_of_fmap. by exists (i, x). }
  intros r w2 [Hd2 H2]. split; [congruence|]. intros b Hb. destruct (H2 b Hb) as [Hr2 Ht2].
  split; [by etrans|]. intros i. specialize (Ht2 i). rewrite Ht1, lookup_insert in Ht2.
  destruct (base.decide (id = i)) as [->|Hne].
  - rewrite decide_False in Ht2 by done. rewrite decide_True by (by left). eauto.
  - destruct (base.decide (i ∈ l.*1)) as [Hi|Hi]; [by rewrite decide_True by (by right)|].
    rewrite decide_False; [done|]. intros [->|]%elem_of_cons; done.
Qed.
End steps.

Lemma wp_body_both {P : Platform} (R R' : database → database → Prop) {A} (m : tx A)
    (Q : outcome A → world → Prop) w :
  body R m → body R' m →
  (∀ r w', durable w' = durable w →
     (∀ a, r = Ok a → R (working w) (working w') ∧ R' (working w) (working w')) → Q r w') →
  wp m Q w.
Proof.
  intros H1 H2 HQ. destruct (H1 w) as [Hd Hr], (H2 w) as [_ Hr']. apply HQ; [done|]. eauto.
Qed.

(** Relations that do not see the event tables, the audit table and the event
    counters of devices. *)
Class EventRel (R : database → database → Prop) := {
  er_preorder :: PreOrder R;
  er_update db db' : event_update db db' → R db db';
}.

Section event_rel.
Context {P : Platform} (R : database → database → Prop) `{!EventRel R}.

Lemma body_append owner dev ty data tb occ : body R (append owner dev ty data tb occ).
Proof. intros w. apply wp_append. intros r w' H1 H2. split; [done|]. intros. by apply er_update. Qed.

Lemma body_lock_owner_cursor owner : body R (lock_owner_cursor owner).
Proof.
  intros w. apply wp_lock_owner_cursor. intros r w' H1 H2. split; [done|]. intros. by apply er_update.
Qed.

Lemma body_add_audit a b c d e f g h i : body R (add_audit a b c d e f g h i).
Proof. intros w. apply wp_add_audit. intros w' H1 H2. split; [done|]. intros. by apply er_update. Qed.
End event_rel.

(** A table that is not written. *)
Definition same_commands (db db' : database) : Prop := commands db' = commands db.
Definition same_threads (db db' : database) : Prop := threads db' = threads db.
Definition same_approvals (db db' : database) : Prop := approvals db' = approvals db.

Ltac same_table_rel :=
  split; [split; [by intros ?|by intros ??? H1 H2; etrans; [apply H2|apply H1]]
         |by intros ?? []].

#[export] Instance same_commands_rel : EventRel same_commands.
Proof. same_table_rel. Qed.
#[export] Instance same_threads_rel : EventRel same_threads.
Proof. same_table_rel. Qed.
#[export] Instance same_approvals_rel : EventRel same_approvals.
Proof. same_table_rel. Qed.

(** Nothing is claimed of the view: the operation only commits nothing. *)
Definition anything (_ _ : database) : Prop := True.

#[export] Instance anything_rel : EventRel anything.
Proof. by repeat split. Qed.

Lemma body_anything_modify {P : Platform} f : body anything (modify f).
Proof. by intros w. Qed.

Create HintDb body.
#[export] Hint Resolve body_anything_modify : body.
#[export] Hint Resolve body_raise body_append body_lock_owner_cursor body_add_audit : body.

Ltac body_step :=
  match goal with
  | |- body _ (match ?x with _ => _ end) => destruct x eqn:?
  | |- body _ (if ?x then _ else _) => destruct x eqn:?
  | |- body _ (let '(_, _) := ?x in _) => destruct x eqn:?
  | |- body _ _ => solve [eauto with body typeclass_instances]
  | |- body _ _ => apply body_silent; [typeclasses eauto|solve [solve_silent]]
  | |- body _ (mbind _ _) => apply body_bind; [typeclasses eauto| |intros ?]
  | |- body _ (for_each _ _) => apply body_for_each; [typeclasses eauto|intros ?]
  | |- body _ (fold_tx _ _ _) => apply body_fold_tx; [typeclasses eauto|intros ? ?]
  | |- body _ (mapM _ _) => apply body_mapM; [typeclasses eauto|intros ?]
  | |- body _ (modify _) => apply body_modify; intros ?; try solve [eauto with body]
  | |- body _ (let _ := _ in _) => cbv zeta
  end.
Ltac solve_body := repeat body_step.

Ltac settles_step :=
  match goal with
  | |- settles _ (match ?x with _ => _ end) => destruct x eqn:?
  | |- settles _ (if ?x then _ else _) => destruct x eqn:?
  | |- settles _ (let '(_, _) := ?x in _) => destruct x eqn:?
  | |- settles _ (mbind (λ _, _) commit) =>
      apply settles_commit; [typeclasses eauto|cbv beta; try solve [solve_silent]]
  | |- settles _ (mbind _ _) => apply settles_bind; [typeclasses eauto|try solve [solve_body]|intros ?]
  | |- settles _ _ => apply settles_body; try solve [solve_body]
  end.
Ltac solve_settles := repeat settles_step.
