(* ===== verification/Frames.v ===== *)
(** * Device frames ([control_api/realtime.py], parsing and projection helpers)

    What a device may send and what the service reads out of it: the limits on
    an incoming envelope, the hello contract, the lookups in untrusted JSON
    ([_extract_string], the status and timestamp readers) and the thread
    snapshots built from results and deltas.  [dict(x)] of a JSON column that
    holds a dict is its member list. *)

From stdpp Require Import base list gmap.
From Stdlib Require Import NArith ZArith Lia.
From S2P Require Import Prelude Config Json Paths Models Storage World Testbed Wire Budget Snapshot.
From S2P Require Import Events Capacity Commands Approvals Outbox.
Open Scope Z_scope.

Definition ALLOWED_DEVICE_EVENTS : list pystr :=
  ["thread/status/changed"; "thread/name/updated"; "turn/started"; "turn/completed";
   "turn/plan/updated"; "item/agentMessage/delta"; "error"].

(** ** Reading untrusted JSON *)

(** [str.lower()] restricted to what the comparisons with ASCII literals can
    see: the ASCII capitals and KELVIN SIGN are the only code points whose
    lower case is one ASCII letter. *)
Definition lower_char (c : N) : N :=
  (if (65 <=? c) && (c <=? 90) then c + 32 else if c =? 8490 then 107 else c)%N.

(** [value.lower().replace("-", "_")]. *)
Definition normalized (s : pystr) : pystr :=
  PyStr ((λ c, let c := lower_char c in if (c =? 45)%N then 95%N else c) <$> codepoints s).

(** The first key whose value is a non-empty string. *)
Fixpoint first_string_of (keys : list pystr) (l : list (pystr * json)) : option pystr :=
  match keys with
  | [] => None
  | k :: keys =>
      match assoc_get k l with
      | Some (JStr s) => if py_truthy s then Some s else first_string_of keys l
      | _ => first_string_of keys l
      end
  end.

Fixpoint assoc_find {A} (k : pystr) (l : list (pystr * A)) : option A :=
  match l with
  | [] => None
  | (k', v) :: l => if bool_decide (k = k') then Some v else assoc_find k l
  end.

Definition nested_keys : list pystr := ["thread"; "turn"; "item"; "message"].

Fixpoint _extract_string (keys : list pystr) (value : json) : option pystr :=
  match value with
  | JObj l =>
      match first_string_of keys l with
      | Some s => Some s
      | None =>
          let nested := map (λ kv, (kv.1, _extract_string keys kv.2)) l in
          head (omap (λ k, assoc_find k nested ≫= id) nested_keys)
      end
  | _ => None
  end.

Definition thread_status_names : list (pystr * ThreadBindingStatus) :=
  [(("idle" : pystr), TsIdle); (("running" : pystr), TsRunning);
   (("in_progress" : pystr), TsRunning);
   (("waiting_for_approval" : pystr), TsWaitingForApproval); (("failed" : pystr), TsFailed);
   (("error" : pystr), TsFailed); (("closed" : pystr), TsClosed)].

Definition _thread_status (value : option pystr) : option ThreadBindingStatus :=
  s ← value; assoc_find (normalized s) thread_status_names.

Section helpers.
Context {P : Platform}.

(** [str(value or "")] of the value, or of its ["type"] when it is a dict. *)
Definition _wire_thread_status (value : json) : ThreadBindingStatus :=
  let value := match value with JObj l => default JNull (assoc_get "type" l) | j => j end in
  let text : pystr := if json_truthy value then py_str value else "" in
  let normalized := normalized text in
  if py_in normalized ["active"; "running"; "in_progress"; "inprogress"] then TsRunning
  else if py_in normalized ["systemerror"; "system_error"; "failed"; "error"] then TsFailed
  else TsIdle.

(** [datetime.fromtimestamp] accepts the years 1 to 9999. *)
Definition timestamp_min : Z := -62135596800.
Definition timestamp_max : Z := 253402300799.

Definition _wire_timestamp (value : json) (fallback : Z) : Z :=
  match value with
  | JInt z => if (timestamp_min <=? z) && (z <=? timestamp_max) then seconds z else fallback
  | JFloat _ t => default fallback (float_timestamp t)
  | _ => fallback
  end.

Definition _approval_request_hash (p : ApprovalRequestPayload) : pystr :=
  sha256_hex (canonical_dumps (JObj
    [("command_id", JStr (ar_command_id p)); ("kind", JStr (ar_kind p));
     ("summary", JStr (ar_summary p)); ("details", JObj (ar_details p));
     ("expires_at", JStr (iso (ar_expires_at p)))])).

(** ** Event data *)

Definition _device_event_data (id : uuid) (d : Device) (status : pystr) : json :=
  JObj [("id", JStr (uuid_str id)); ("name", JStr (d_name d)); ("status", JStr status);
        ("connector_version", JStr (metadata_str "connector_version" (d_device_metadata d)));
        ("codex_version", JStr (metadata_str "codex_version" (d_device_metadata d)));
        ("last_seen_at", opt_time (d_last_seen_at d));
        ("workspace_roots", JArr (JStr <$> d_workspace_roots d))].

Definition _thread_event_data (id : uuid) (b : ThreadBinding) : list (pystr * json) :=
  [("id", JStr (uuid_str id)); ("thread_id", JStr (uuid_str id));
   ("device_id", JStr (uuid_str (tb_device_id b))); ("title", JStr (tb_title b));
   ("cwd", JStr (default "" (tb_cwd b))); ("model", JStr (tb_model b));
   ("updated_at", JStr (iso (tb_updated_at b)));
   ("status", JStr (thread_status_value
      (match tb_status b with
       | TsIdle | TsRunning | TsWaitingForApproval | TsFailed => tb_status b
       | _ => TsFailed
       end)))].

(** ** Incoming envelopes *)

Definition _encoded_json_size (v : json) : Z := Z.of_nat (length (dumps escape_ascii v)).

(** [envelope.model_dump(mode="json")]. *)
Definition dump_envelope (e : ControlEnvelope) : json :=
  JObj [("version", JInt PROTOCOL_VERSION); ("id", JStr (uuid_str (en_id e)));
        ("device_id", JStr (uuid_str (en_device_id e))); ("epoch", JStr (en_epoch e));
        ("seq", JInt (en_seq e)); ("ack", match en_ack e with Some a => JInt a | None => JNull end);
        ("type", JStr (envelope_type_value (en_type e))); ("sent_at", JStr (iso (en_sent_at e)));
        ("payload", JObj (en_payload e))].

(** Bounds on the payload by frame type. *)
Definition payload_size_error (e : ControlEnvelope) : option pystr :=
  let payload_size := _encoded_json_size (JObj (en_payload e)) in
  match en_type e with
  | TCommandAck =>
      match assoc_get "result" (en_payload e) with
      | None | Some JNull => None
      | Some result =>
          if device_max_result_bytes settings <? _encoded_json_size result
          then Some "command result exceeds the byte limit" else None
      end
  | TEvent =>
      if device_max_event_bytes settings <? payload_size
      then Some "device event exceeds the byte limit" else None
  | TApprovalRequest =>
      if device_max_approval_bytes settings <? payload_size
      then Some "approval request exceeds the byte limit" else None
  | _ => None
  end.

Definition _parse_device_envelope (raw : pystr) : outcome ControlEnvelope :=
  match utf8_len (codepoints raw) with
  | None => Raise (ValueError "surrogates not allowed")
  | Some n =>
      if device_max_envelope_bytes settings <? n then
        Raise (RealtimeProtocolError "device envelope exceeds the byte limit")
      else
        match pydantic_json raw ≫= read_envelope with
        | None => Raise (ValueError "ControlEnvelope")
        | Some e =>
            match require_device_outbound e with
            | None => Raise (ValueError "frame type is not valid from a device")
            | Some _ =>
                match _validate_json_shape (device_max_json_depth settings)
                        (device_max_json_nodes settings) (device_max_string_chars settings)
                        (dump_envelope e) with
                | Some msg => Raise (RealtimeProtocolError msg)
                | None =>
                    match payload_size_error e with
                    | Some msg => Raise (RealtimeProtocolError msg)
                    | None => Ok e
                    end
                end
            end
        end
  end.

Definition _enforce_device_frame_rate (device_id : uuid) : tx unit :=
  count ← store_increment ("device-frame-rate:" +++ uuid_str device_id)
            (rate_limit_window_seconds settings);
  guard_exn (device_frame_rate_limit settings <? count)
    (RealtimeProtocolError "device frame rate limit exceeded").

(** [metadata.get(key) not in {None, "", expected}]: a list or dict is
    unhashable. *)
Definition metadata_changed (key expected : pystr) (metadata : json) : outcome bool :=
  match jget key metadata with
  | None | Some JNull => Ok false
  | Some (JStr s) => Ok (negb (py_in s [("" : pystr); expected]))
  | Some (JArr _) | Some (JObj _) => Raise TypeError
  | Some _ => Ok true
  end.

Definition _validate_hello_contract (d : Device) (e : ControlEnvelope) (h : HelloPayload) :
    tx unit :=
  let metadata := d_device_metadata d in
  let refuse msg := RealtimeProtocolError msg in
  guard_exn (bool_decide (en_ack e = None))
    (refuse "hello must acknowledge the server receive cursor");;
  guard_exn (negb (bool_decide (hl_connector_version h = connector_expected_version settings)))
    (refuse "connector version does not match the frozen contract");;
  guard_exn (negb (bool_decide (hl_codex_version h = codex_expected_version settings)))
    (refuse "Codex version does not match the frozen contract");;
  guard_exn (negb (bool_decide (hl_schema_digest h = appserver_schema_digest settings)))
    (refuse "app-server schema digest does not match the frozen contract");;
  guard_exn (negb (forallb (λ m, py_in m ALLOWED_RPC_METHODS) (hl_capabilities h)
                   && forallb (λ m, py_in m (hl_capabilities h)) ALLOWED_RPC_METHODS))
    (refuse "device capabilities do not match the control allowlist");;
  changed ← of_outcome (metadata_changed "connector_version" (hl_connector_version h) metadata);
  guard_exn changed (refuse "connector version changed after pairing");;
  changed ← of_outcome (metadata_changed "codex_version" (hl_codex_version h) metadata);
  guard_exn changed (refuse "Codex version changed after pairing").

(** ** Thread snapshots *)

(** Whether [role not in {"user", "assistant", "system"}]; hashing raises. *)
Definition message_role (role : option json) : outcome pystr :=
  match role with
  | Some (JArr _) | Some (JObj _) => Raise TypeError
  | Some (JStr s) => Ok (if py_in s ["user"; "assistant"; "system"] then s else "assistant")
  | _ => Ok "assistant"
  end.

Definition snapshot_item (messages : list json) (item : json) : tx (list json) :=
  match item with
  | JObj l =>
      match _extract_string ["text"; "content"] item with
      | None => mret messages
      | Some text =>
          role ← of_outcome (message_role (assoc_get "role" l));
          id ← match assoc_get "id" l with
               | Some v => if json_truthy v then mret (py_str v)
                           else u ← fresh_uuid; mret (uuid_str u)
               | None => u ← fresh_uuid; mret (uuid_str u)
               end;
          t ← now;
          mret (messages ++
            [JObj [("id", JStr id); ("role", JStr role); ("text", JStr text);
                   ("created_at", JStr (iso t))]])
      end
  | _ => mret messages
  end.

Definition snapshot_turn (messages : list json) (turn : json) : tx (list json) :=
  match jget "items" turn with
  | Some (JArr items) => fold_tx snapshot_item messages items
  | _ => mret messages
  end.

(** [max_messages] is left at its default. *)
Definition compact_snapshot (snapshot : dict) (required : option pystr) : tx dict :=
  of_outcome (compact_thread_snapshot snapshot (device_max_result_bytes settings) required
                MAX_THREAD_SNAPSHOT_MESSAGES).

Definition members_of (j : json) : dict := default [] (jdict j).

Definition result_thread (result : dict) : dict :=
  match assoc_get "thread" result with Some (JObj l) => l | _ => result end.

Definition _snapshot_from_result (result : dict) (current : json) : tx json :=
  match assoc_get "turns" (result_thread result) with
  | Some (JArr turns) =>
      messages ← fold_tx snapshot_turn [] turns;
      s ← compact_snapshot [(("messages" : pystr), JArr messages)] None;
      mret (JObj s)
  | _ => s ← compact_snapshot (members_of current) None; mret (JObj s)
  end.

Definition too_large_as_protocol_error (e : exn) : exn :=
  match e with
  | ThreadSnapshotTooLarge _ =>
      RealtimeProtocolError "projected thread snapshot exceeds the byte limit"
  | e => e
  end.

(** The new snapshot with the message id and the delta; [None] when the
    parameters hold no delta. *)
Definition _append_delta (b : ThreadBinding) (params : dict) :
    tx (option (pystr * pystr * json)) :=
  match _extract_string ["delta"; "text"] (JObj params) with
  | None => mret None
  | Some delta =>
      let item_id := default "assistant-current"
                       (_extract_string ["itemId"; "item_id"; "id"] (JObj params)) in
      let snapshot := members_of (tb_snapshot b) in
      messages ← of_outcome (snapshot_messages snapshot);
      found ← match last_index item_id messages 0 with
              | Some i => mret (i, default [] (messages !! i), messages)
              | None =>
                  t ← now;
                  let message : dict :=
                    [(("id" : pystr), JStr item_id); (("role" : pystr), JStr "assistant");
                     (("text" : pystr), JStr ""); (("created_at" : pystr), JStr (iso t))] in
                  mret (length messages, message, messages ++ [message])
              end;
      let '(i, message, messages) := found in
      let combined := match assoc_get "text" message with Some v => py_str v | None => "" end
                        +++ delta in
      guard_exn (device_max_string_chars settings <? py_len combined)
        (RealtimeProtocolError "projected message exceeds the character limit");;
      let messages := <[i := assoc_set "text" (JStr combined) message]> messages in
      s ← try_catch
            (compact_snapshot (assoc_set "messages" (JArr (JObj <$> messages)) snapshot)
               (Some item_id))
            (λ e, raise (too_large_as_protocol_error e));
      mret (Some (item_id, delta, JObj s))
  end.
End helpers.

Definition _websocket_close_reason (code : option Z) : pystr :=
  match code with
  | Some 1000 => "peer_disconnect"
  | Some 1001 => "server_shutdown"
  | Some 1008 => "protocol_error"
  | Some 1013 => "dependency_unavailable"
  | Some 4000 => "heartbeat_timeout"
  | Some 4001 => "connection_replaced"
  | Some 4400 => "protocol_error"
  | Some 4401 => "invalid_auth"
  | Some 4403 => "origin_denied"
  | Some 4409 => "invalid_cursor"
  | Some 4429 => "capacity_exceeded"
  | _ => "unknown"
  end.
