(* ===== verification/Projection.v ===== *)
(** * Applying device frames ([control_api/realtime.py], receiving side)

    [_process_device_frame] runs one frame of a connected device in one
    transaction: it checks that the connection is current, acknowledges the
    outbox, accepts the next sequence or recognises a duplicate, and projects
    the frame on commands, threads and approvals.  [FrameEffects] collects what
    is published after the commit; the handlers fill it once, so they return
    it. *)

From stdpp Require Import base list gmap.
From Stdlib Require Import NArith ZArith Lia.
From S2P Require Import Prelude Config Json Paths Models Storage World Testbed Wire Budget Snapshot.
From S2P Require Import Events Capacity Commands Approvals Outbox Frames.
Open Scope Z_scope.

Record FrameEffects := {
  fe_browser_events : list BrowserEvent;
  fe_approval_dispatches : list uuid;
  fe_command_transitions : list (pystr * pystr * option Z);
  fe_approval_outcomes : list (pystr * pystr);
}.

Definition no_effects : FrameEffects :=
  {| fe_browser_events := []; fe_approval_dispatches := []; fe_command_transitions := [];
     fe_approval_outcomes := [] |}.

Definition ack_state_value (s : AckState) : pystr :=
  match s with
  | AckAccepted => "accepted" | AckRunning => "running" | AckCompleted => "completed"
  | AckFailed => "failed" | AckExpired => "expired" | AckDenied => "denied"
  end.

(** The [states] tables of [_apply_command_ack_tx]. *)
Definition ack_status (s : AckState) : CommandStatus :=
  match s with
  | AckAccepted | AckRunning => CsAcknowledged
  | AckCompleted => CsSucceeded | AckFailed => CsFailed | AckExpired => CsExpired
  | AckDenied => CsDenied
  end.

Definition ack_terminal (s : AckState) : bool :=
  match s with AckAccepted | AckRunning => false | _ => true end.

Definition ack_error (p : CommandAckPayload) : option ProtocolErrorPayload :=
  match ca_error p with Some (Some e) => Some e | _ => None end.

Definition ack_result (p : CommandAckPayload) : json := default JNull (ca_result p).

(** The assignments for an acknowledgement of the current epoch. *)
Definition acknowledge_command (p : CommandAckPayload) (t : Z) (c : Command) : Command :=
  let c := c <| cmd_status := ack_status (ca_state p) |> in
  let c := if ack_terminal (ca_state p) then c <| cmd_completed_at := Some t |>
           else c <| cmd_acknowledged_at := Some t |> in
  let c := c <| cmd_result := ack_result p |> in
  match ack_error p with
  | Some e => c <| cmd_error_code := Some (pe_code e) |>
                <| cmd_error_message := Some (pe_message e) |>
  | None => c
  end.

(** The assignments for a late terminal acknowledgement of a replaced epoch. *)
Definition refine_command (p : CommandAckPayload) (t : Z) (c : Command) : Command :=
  c <| cmd_status := ack_status (ca_state p) |> <| cmd_completed_at := Some t |>
    <| cmd_result := ack_result p |>
    <| cmd_error_code := pe_code <$> ack_error p |>
    <| cmd_error_message := pe_message <$> ack_error p |>.

Definition is_indeterminate (c : Command) : bool :=
  bool_decide (cmd_status c = CsFailed)
  && bool_decide (cmd_error_code c = Some ("epoch_replaced_indeterminate" : pystr)).

(** [command.payload.get("threadId") == binding.remote_thread_id]. *)
Definition resumes_thread (c : Command) (b : ThreadBinding) : bool :=
  match tb_remote_thread_id b, jget "threadId" (cmd_payload c) with
  | Some r, Some (JStr s) => bool_decide (s = r)
  | None, None | None, Some JNull => true
  | _, _ => false
  end.

Section projection.
Context {P : Platform}.

Definition capacity_as_protocol_error (m : tx unit) : tx unit :=
  try_catch m (λ e, match e with
                    | OwnerCapacityExceeded code => raise (RealtimeProtocolError code)
                    | e => raise e
                    end).

(** ** Writing threads

    [UNIQUE (device_id, remote_thread_id)], and the [VARCHAR] columns a frame
    can set. *)

Definition remote_taken (id : uuid) (b : ThreadBinding) (db : database) : bool :=
  match tb_remote_thread_id b with
  | None => false
  | Some r =>
      exists_row (λ k b', negb (bool_decide (k = id))
                          && bool_decide (tb_device_id b' = tb_device_id b)
                          && bool_decide (tb_remote_thread_id b' = Some r)) (threads db)
  end.

Definition columns_fit (b : ThreadBinding) : bool :=
  (py_len (default "" (tb_remote_thread_id b)) <=? 255)
  && (py_len (default "" (tb_active_turn_id b)) <=? 255).

Definition flush_binding (id : uuid) (b : ThreadBinding) : tx unit :=
  taken ← query (remote_taken id b);
  guard_exn taken IntegrityError;;
  guard_exn (negb (columns_fit b)) DataError;;
  save_binding id b.

Definition insert_binding (id : uuid) (b : ThreadBinding) : tx unit :=
  taken ← query (λ db, bool_decide (is_Some (threads db !! id)) || remote_taken id b db);
  guard_exn taken IntegrityError;;
  modify (λ db, db <| threads := <[id := b]> (threads db) |>).

(** The event data of a thread as the session holds it now. *)
Definition current_thread_data (id : uuid) : tx (list (pystr * json)) :=
  query (λ db, match threads db !! id with Some b => _thread_event_data id b | None => [] end).

(** ** Acknowledgements *)

(** The last turn that is running and names itself. *)
Definition running_turn (turns : list json) : option pystr :=
  head (omap (λ turn,
    match turn with
    | JObj l =>
        if bool_decide (_wire_thread_status (default JNull (assoc_get "status" l)) = TsRunning)
        then _extract_string ["id"; "turnId"; "turn_id"] turn else None
    | _ => None
    end) (reverse turns)).

Definition _apply_command_to_binding (b : ThreadBinding) (c : Command) (p : CommandAckPayload)
    (epoch : pystr) : tx ThreadBinding :=
  let result := ack_result p in
  match cmd_status c with
  | CsFailed | CsDenied | CsExpired =>
      mret (b <| tb_status := TsFailed |>
              <| tb_last_error := opt_or (cmd_error_message c) (cmd_error_code c) |>)
  | CsSucceeded =>
      if bool_decide (cmd_method c = "thread/start") then
        let b := match _extract_string ["threadId"; "thread_id"; "id"] result with
                 | Some r => b <| tb_remote_thread_id := Some r |>
                 | None => b
                 end in
        mret (b <| tb_status := TsIdle |> <| tb_appserver_epoch := epoch |>)
      else if bool_decide (cmd_method c = "thread/read") then
        match result with
        | JObj r =>
            snapshot ← try_catch (_snapshot_from_result r (tb_snapshot b))
                         (λ e, raise (too_large_as_protocol_error e));
            let b := b <| tb_snapshot := snapshot |> in
            let projected := result_thread r in
            match assoc_get "status" projected with
            | None => mret b
            | Some status =>
                let status := _wire_thread_status status in
                let active :=
                  if bool_decide (status = TsRunning) then
                    match assoc_get "turns" projected with
                    | Some (JArr turns) => running_turn turns
                    | _ => None
                    end
                  else None in
                mret (b <| tb_status := status |> <| tb_active_turn_id := active |>)
            end
        | _ => mret b
        end
      else if bool_decide (cmd_method c = "thread/resume") then
        mret (b <| tb_status := TsIdle |> <| tb_appserver_epoch := epoch |>)
      else if bool_decide (cmd_method c = "turn/start") then
        mret (b <| tb_status := TsRunning |>
                <| tb_active_turn_id := _extract_string ["turnId"; "turn_id"; "id"] result |>)
      else if bool_decide (cmd_method c = "turn/interrupt") then
        mret (b <| tb_status := TsIdle |> <| tb_active_turn_id := None |>)
      else mret b
  | _ => mret b
  end.

(** ** [thread/list] *)

Definition list_candidates (result : json) : option (list json) :=
  let list_at k := match jget k result with Some (JArr l) => Some l | _ => None end in
  match list_at "data", list_at "threads", list_at "items" with
  | Some l, _, _ | None, Some l, _ | None, None, Some l => Some l
  | None, None, None => None
  end.

Definition strip (s : pystr) : pystr :=
  let drop_spaces := fix go l :=
    match l with c :: l' => if is_space c then go l' else l | [] => [] end in
  PyStr (reverse (drop_spaces (reverse (drop_spaces (codepoints s))))).

Definition nonempty_or (s fallback : pystr) : pystr := if py_truthy s then s else fallback.

Definition remote_binding (device_id : uuid) (owner remote_id : pystr) (db : database) :
    option (uuid * ThreadBinding) :=
  head (select_rows (λ _ b, bool_decide (tb_device_id b = device_id)
                            && bool_decide (tb_owner_user_id b = owner)
                            && bool_decide (tb_remote_thread_id b = Some remote_id))
          (threads db)).

(** The loop state: visible and total counts and the projected threads. *)
Record ListState := { ls_visible : Z; ls_total : Z; ls_projected : list uuid }.

Definition project_one (device_id : uuid) (device : Device) (owner_user_id epoch : pystr) (t : Z)
    (s : ListState) (raw : json) : tx ListState :=
  match raw with
  | JObj l =>
      let remote_id := default "" (_extract_string ["id"; "threadId"; "thread_id"] raw) in
      let cwd := default "" (_extract_string ["cwd"] raw) in
      if negb (py_truthy remote_id) || (255 <? py_len remote_id) || negb (py_truthy cwd)
         || negb (_cwd_in_roots cwd (d_workspace_roots device)) then mret s
      else
        binding ← query (remote_binding device_id owner_user_id remote_id);
        let title := default "Managed thread" (_extract_string ["name"; "title"; "preview"] raw) in
        let title := nonempty_or (py_take 255 (strip title)) "Managed thread" in
        let created_at := _wire_timestamp (default JNull (assoc_get "createdAt" l)) t in
        let updated_at := _wire_timestamp (default JNull (assoc_get "updatedAt" l)) t in
        let status := _wire_thread_status (default JNull (assoc_get "status" l)) in
        match binding with
        | None =>
            if (bootstrap_max_threads settings <=? ls_visible s)
               || (owner_max_thread_records settings <=? ls_total s) then mret s
            else
              id ← fresh_uuid;
              let b :=
                {| tb_owner_user_id := owner_user_id; tb_device_id := device_id;
                   tb_remote_thread_id := Some remote_id; tb_status := status;
                   tb_cwd := Some cwd; tb_title := title; tb_model := "";
                   tb_active_turn_id := None; tb_snapshot := JObj [("messages", JArr [])];
                   tb_last_error := None; tb_appserver_epoch := epoch;
                   tb_created_at := created_at; tb_updated_at := updated_at |} in
              fits ← try_catch (ensure_thread_projection_fits id b;; mret true)
                       (λ e, match e with
                             | OwnerCapacityExceeded _ => mret false
                             | e => raise e
                             end);
              if fits : bool then
                insert_binding id b;;
                mret {| ls_visible := ls_visible s + 1; ls_total := ls_total s + 1;
                        ls_projected := ls_projected s ++ [id] |}
              else mret s
        | Some (id, b) =>
            let reappears := hidden (tb_status b) && negb (hidden status) in
            if reappears && (bootstrap_max_threads settings <=? ls_visible s) then mret s
            else
              let b' := b <| tb_cwd := Some cwd |> <| tb_title := title |>
                          <| tb_status := status |> <| tb_appserver_epoch := epoch |>
                          <| tb_updated_at := updated_at |> in
              capacity_as_protocol_error (ensure_thread_projection_fits id b');;
              save_binding id b';;
              mret {| ls_visible := ls_visible s + (if reappears then 1 else 0);
                      ls_total := ls_total s; ls_projected := ls_projected s ++ [id] |}
        end
  | _ => mret s
  end.

Definition _project_thread_list (device_id : uuid) (device : Device)
    (owner_user_id epoch : pystr) (result : json) (t : Z) : tx (list uuid) :=
  match list_candidates result with
  | None => mret []
  | Some candidates =>
      visible ← query (visible_thread_count owner_user_id);
      total ← query (total_thread_count owner_user_id);
      s ← fold_tx (project_one device_id device owner_user_id epoch t)
            {| ls_visible := visible; ls_total := total; ls_projected := [] |}
            (take 500 candidates);
      mret (ls_projected s)
  end.

(** ** [_apply_command_ack_tx] *)

Definition transition_of (c c' : Command) (duration : option Z) : pystr * pystr * option Z :=
  (command_status_value (cmd_status c), command_status_value (cmd_status c'), duration).

(** The device of the connection, of the connection's owner. *)
Definition owned_device (c : ActiveDeviceSocket) (db : database) : option Device :=
  d ← devices db !! as_device_id c;
  if bool_decide (d_owner_user_id d = as_owner_user_id c) then Some d else None.

Definition owned_command (c : ActiveDeviceSocket) (id : uuid) (db : database) : option Command :=
  cmd ← commands db !! id;
  if bool_decide (cmd_device_id cmd = as_device_id c)
     && bool_decide (cmd_owner_user_id cmd = as_owner_user_id c) then Some cmd else None.

Definition append_thread_updated (c : ActiveDeviceSocket) (tid : uuid) : tx BrowserEvent :=
  data ← current_thread_data tid;
  append (as_owner_user_id c) (as_device_id c) ThreadUpdated (JObj data) (Some tid) None.

(** An acknowledgement from an epoch that has been replaced. *)
Definition ack_replaced_epoch (c : ActiveDeviceSocket) (e : ControlEnvelope)
    (p : CommandAckPayload) (cmd : Command) (t : Z) : tx FrameEffects :=
  if is_indeterminate cmd && ack_terminal (ca_state p) then
    let cmd' := refine_command p t cmd in
    let id := ca_command_id p in
    update_command id (refine_command p t);;
    add_audit (Some (as_owner_user_id c)) None (Some (as_device_id c))
      "command.epoch_terminal_refine"
      (if bool_decide (cmd_status cmd' = CsSucceeded) then AoSucceeded else AoFailed)
      "command" (uuid_str id) no_metadata
      (JObj [("epoch", JStr (en_epoch e)); ("state", JStr (ack_state_value (ca_state p)));
             ("previous_error_code", opt_str (cmd_error_code cmd))]);;
    event ← append (as_owner_user_id c) (as_device_id c) CommandUpdated
              (JObj [("device_id", JStr (uuid_str (as_device_id c)));
                     ("command", command_view id cmd')])
              (cmd_thread_binding_id cmd) None;
    mret {| fe_browser_events := [event]; fe_approval_dispatches := [];
            fe_command_transitions := [transition_of cmd cmd' (Some (t - cmd_created_at cmd))];
            fe_approval_outcomes := [] |}
  else mret no_effects.

(** The thread an acknowledgement is projected on, and its new row. *)
Definition ack_binding (c : ActiveDeviceSocket) (e : ControlEnvelope) (p : CommandAckPayload)
    (cmd' : Command) : tx (option uuid) :=
  binding ← query (command_binding cmd');
  match binding with
  | Some (tid, b) =>
      let resume_migrates_epoch :=
        bool_decide (cmd_method cmd' = "thread/resume")
        && bool_decide (cmd_status cmd' = CsSucceeded) && resumes_thread cmd' b in
      if bool_decide (tb_appserver_epoch b = en_epoch e) || resume_migrates_epoch then
        b' ← _apply_command_to_binding b cmd' p (en_epoch e);
        capacity_as_protocol_error (ensure_thread_projection_fits tid b');;
        flush_binding tid b';;
        mret (Some tid)
      else mret None
  | None => mret None
  end.

Definition ack_current_epoch (c : ActiveDeviceSocket) (device : Device) (e : ControlEnvelope)
    (p : CommandAckPayload) (cmd : Command) (t : Z) : tx FrameEffects :=
  if negb (outstanding (cmd_status cmd)) then mret no_effects
  else
    let cmd' := acknowledge_command p t cmd in
    let id := ca_command_id p in
    let succeeded := bool_decide (cmd_status cmd' = CsSucceeded) in
    update_command id (acknowledge_command p t);;
    (if bool_decide (cmd_method cmd' = "model/list") && succeeded then
       update_device (as_device_id c) (λ d,
         d <| d_model_catalog := bounded_model_catalog (ack_result p) |>
           <| d_model_catalog_updated_at := Some t |>)
     else mret tt);;
    projected ←
      (if bool_decide (cmd_method cmd' = "thread/list") && succeeded then
         _project_thread_list (as_device_id c) device (as_owner_user_id c) (en_epoch e)
           (ack_result p) t
       else mret []);
    binding ← ack_binding c e p cmd';
    event ← append (as_owner_user_id c) (as_device_id c) CommandUpdated
              (JObj [("device_id", JStr (uuid_str (as_device_id c)));
                     ("command", command_view id cmd')])
              (cmd_thread_binding_id cmd) None;
    bound ← match binding with
            | Some tid => e ← append_thread_updated c tid; mret [e]
            | None => mret []
            end;
    listed ← mapM (append_thread_updated c) projected;
    mret {| fe_browser_events := event :: bound ++ listed; fe_approval_dispatches := [];
            fe_command_transitions :=
              [transition_of cmd cmd'
                 (if outstanding (cmd_status cmd') then None
                  else Some (t - cmd_created_at cmd))];
            fe_approval_outcomes := [] |}.

Definition _apply_command_ack_tx (c : ActiveDeviceSocket) (e : ControlEnvelope) :
    tx FrameEffects :=
  match read_command_ack (en_payload e) with
  | None => raise (ValueError "CommandAckPayload")
  | Some p =>
      t ← now;
      device ← query (owned_device c);
      match device with
      | None => mret no_effects
      | Some d =>
          lock_owner_cursor (as_owner_user_id c);;
          command ← query (owned_command c (ca_command_id p));
          match command with
          | None => mret no_effects
          | Some cmd =>
              guard_exn (negb (bool_decide (cmd_appserver_epoch cmd = Some (en_epoch e))))
                (RealtimeProtocolError "command acknowledgement belongs to a stale epoch");;
              if bool_decide (en_epoch e = as_epoch c) then ack_current_epoch c d e p cmd t
              else ack_replaced_epoch c e p cmd t
          end
      end
  end.
(** ** [_apply_device_event_tx] *)

Definition event_binding (c : ActiveDeviceSocket) (epoch remote_id : pystr) (db : database) :
    option (uuid * ThreadBinding) :=
  head (select_rows (λ _ b, bool_decide (tb_device_id b = as_device_id c)
                            && bool_decide (tb_owner_user_id b = as_owner_user_id c)
                            && bool_decide (tb_remote_thread_id b = Some remote_id)
                            && bool_decide (tb_appserver_epoch b = epoch)) (threads db)).

(** What a device event does to its thread: the new row, the type of the
    browser event, the completed turn, and the data of a delta. *)
Record EventProjection := {
  ep_binding : ThreadBinding;
  ep_type : BrowserEventType;
  ep_completed_turn : option pystr;
  ep_data : option json;
}.

Definition project_event (id : uuid) (b : ThreadBinding) (method : pystr) (params : dict) :
    tx EventProjection :=
  let whole := JObj params in
  let same b := {| ep_binding := b; ep_type := ThreadUpdated; ep_completed_turn := None;
                   ep_data := None |} in
  if bool_decide (method = "thread/name/updated") then
    mret (same (match _extract_string ["name"; "title"] whole with
                | Some title =>
                    b <| tb_title := nonempty_or (py_take 255 (strip title)) (tb_title b) |>
                | None => b
                end))
  else if bool_decide (method = "thread/status/changed") then
    mret (same (b <| tb_status := default (tb_status b)
                       (_thread_status (_extract_string ["status"] whole)) |>))
  else if bool_decide (method = "turn/started") then
    mret (same (b <| tb_status := TsRunning |>
                  <| tb_active_turn_id := _extract_string ["turnId"; "turn_id"; "id"] whole |>))
  else if bool_decide (method = "turn/completed") then
    mret {| ep_binding := b <| tb_status := TsIdle |> <| tb_active_turn_id := None |>;
            ep_type := TurnCompleted;
            ep_completed_turn :=
              match _extract_string ["turnId"; "turn_id"; "id"] whole with
              | Some turn => Some turn
              | None => tb_active_turn_id b
              end;
            ep_data := None |}
  else if bool_decide (method = "item/agentMessage/delta") then
    normalized_delta ← _append_delta b params;
    mret (match normalized_delta with
          | None => same b
          | Some (message_id, delta, snapshot) =>
              {| ep_binding := b <| tb_snapshot := snapshot |>; ep_type := TurnDelta;
                 ep_completed_turn := None;
                 ep_data := Some (JObj
                   [("thread_id", JStr (uuid_str id));
                    ("device_id", JStr (uuid_str (tb_device_id b)));
                    ("message_id", JStr message_id); ("delta", JStr delta)]) |}
          end)
  else if bool_decide (method = "error") then
    mret (same (b <| tb_status := TsFailed |>
                  <| tb_last_error := _extract_string ["message"; "error"] whole |>))
  else mret (same b).

Definition _apply_device_event_tx (c : ActiveDeviceSocket) (e : ControlEnvelope) :
    tx FrameEffects :=
  match read_event (en_payload e) with
  | None => raise (ValueError "DeviceEventPayload")
  | Some event =>
      guard_exn (negb (py_in (de_method event) ALLOWED_DEVICE_EVENTS))
        (RealtimeProtocolError "device event method is not allowlisted");;
      device ← query (owned_device c);
      match device with
      | None => mret no_effects
      | Some _ =>
          lock_owner_cursor (as_owner_user_id c);;
          binding ←
            match _extract_string ["threadId"; "thread_id"] (JObj (de_params event)) with
            | Some remote_id => query (event_binding c (en_epoch e) remote_id)
            | None => mret None
            end;
          match binding with
          | None => mret no_effects
          | Some (tid, b) =>
              projection ← project_event tid b (de_method event) (de_params event);
              t ← now;
              let b' := (ep_binding projection) <| tb_updated_at := t |> in
              capacity_as_protocol_error (ensure_thread_projection_fits tid b');;
              flush_binding tid b';;
              current ← current_thread_data tid;
              let data :=
                match ep_data projection with
                | Some data => data
                | None =>
                    let data := assoc_set "method" (JStr (de_method event)) current in
                    JObj (match ep_completed_turn projection with
                          | Some turn =>
                              if py_truthy turn then assoc_set "turn_id" (JStr turn) data else data
                          | None => data
                          end)
                end in
              browser_event ← append (as_owner_user_id c) (as_device_id c) (ep_type projection)
                                data (Some tid) (Some (en_sent_at e));
              mret {| fe_browser_events := [browser_event]; fe_approval_dispatches := [];
                      fe_command_transitions := []; fe_approval_outcomes := [] |}
          end
      end
  end.

(** ** [_apply_approval_request_tx] *)

Definition default_denied (reason : pystr) (t : Z) (a : Approval) : Approval :=
  a <| ap_status := AsDenied |> <| ap_decided_at := Some t |>
    <| ap_decision_reason := Some reason |> <| ap_external_command_id := None |>
    <| ap_summary := "Approval denied" |> <| ap_request := JObj [] |>.

(** The request as it is stored when nothing denies it. *)
Definition requested_approval (c : ActiveDeviceSocket) (epoch : pystr)
    (p : ApprovalRequestPayload) (command_id : option uuid) (t stored_expiry : Z) : Approval :=
  {| ap_owner_user_id := as_owner_user_id c; ap_device_id := as_device_id c;
     ap_command_id := command_id; ap_external_command_id := Some (ar_command_id p);
     ap_decided_by_session_id := None; ap_approval_kind := ar_kind p; ap_summary := ar_summary p;
     ap_request := JObj (ar_details p); ap_request_hash := _approval_request_hash p;
     ap_status := AsPending; ap_appserver_epoch := epoch; ap_requested_at := t;
     ap_expires_at := stored_expiry; ap_decided_at := None; ap_decision_dispatched_at := None;
     ap_decision_reason := None |}.

(** Why a request is denied on arrival, the row that is stored with it. *)
Definition admit_approval (c : ActiveDeviceSocket) (d : Device) (epoch : pystr)
    (p : ApprovalRequestPayload) (command_id : option uuid) (t : Z) :
    tx (option pystr * Approval) :=
  let requested_expiry := Z.min (ar_expires_at p) (t + seconds (approval_ttl_seconds settings)) in
  denial_reason ←
    (if requested_expiry <=? t then mret (Some ("expired_on_arrival_default_deny" : pystr))
     else approval_capacity_denial_reason_locked (as_owner_user_id c) (as_device_id c) t);
  let stored_expiry := if t <? requested_expiry then requested_expiry else t + 1 in
  let a := requested_approval c epoch p command_id t stored_expiry in
  match denial_reason with
  | Some reason => mret (Some reason, default_denied reason t a)
  | None =>
      try_catch (ensure_approval_projection_fits (ar_approval_id p) a d;; mret (None, a))
        (λ e, match e with
              | OwnerCapacityExceeded _ =>
                  mret (Some ("approval_size_default_deny" : pystr),
                        default_denied "approval_size_default_deny" t a)
              | e => raise e
              end)
  end.

(** The command the request names, of this device and epoch. *)
Definition requesting_command (c : ActiveDeviceSocket) (epoch text : pystr) (db : database) :
    option (uuid * Command) :=
  id ← uuid_of_text text;
  cmd ← commands db !! id;
  if bool_decide (cmd_device_id cmd = as_device_id c)
     && bool_decide (cmd_appserver_epoch cmd = Some epoch) then Some (id, cmd) else None.

(** [db.get(ThreadBinding, command.thread_binding_id)] of the same epoch. *)
Definition waiting_binding (epoch : pystr) (command : option (uuid * Command)) (db : database) :
    option (uuid * ThreadBinding) :=
  c ← command;
  tid ← cmd_thread_binding_id c.2;
  b ← threads db !! tid;
  if bool_decide (tb_appserver_epoch b = epoch) then Some (tid, b) else None.

Definition store_approval (c : ActiveDeviceSocket) (d : Device) (e : ControlEnvelope)
    (p : ApprovalRequestPayload) (t : Z) : tx FrameEffects :=
  let id := ar_approval_id p in
  command ← query (requesting_command c (en_epoch e) (ar_command_id p));
  admitted ← admit_approval c d (en_epoch e) p (fst <$> command) t;
  let '(denial_reason, a) := admitted in
  modify (λ db, db <| approvals := <[id := a]> (approvals db) |>);;
  updated ←
    match denial_reason with
    | Some _ => mret None
    | None =>
        binding ← query (waiting_binding (en_epoch e) command);
        match binding with
        | Some (tid, b) =>
            save_binding tid (b <| tb_status := TsWaitingForApproval |>);; mret (Some tid)
        | None => mret None
        end
    end;
  add_audit (Some (as_owner_user_id c)) None (Some (as_device_id c)) "approval.request"
    (match denial_reason with None => AoSucceeded | Some _ => AoDenied end)
    "approval" (uuid_str id) no_metadata
    (JObj [("kind", JStr (ar_kind p)); ("epoch", JStr (en_epoch e));
           ("default_deny_reason", opt_str denial_reason)]);;
  event ←
    match denial_reason with
    | None =>
        data ← approval_item id a d;
        append (as_owner_user_id c) (as_device_id c) ApprovalCreated data None None
    | Some reason =>
        append (as_owner_user_id c) (as_device_id c) ApprovalResolved
          (JObj [("approval_id", JStr (uuid_str id)); ("decision", JStr "deny");
                 ("reason", JStr reason)]) None None
    end;
  thread_events ← match updated with
                  | Some tid => e ← append_thread_updated c tid; mret [e]
                  | None => mret []
                  end;
  mret {| fe_browser_events := event :: thread_events;
          fe_approval_dispatches := match denial_reason with Some _ => [id] | None => [] end;
          fe_command_transitions := [];
          fe_approval_outcomes :=
            match denial_reason with
            | Some reason => [(("denied" : pystr), reason)]
            | None => [(("requested" : pystr), ("device_request" : pystr))]
            end |}.

Definition _apply_approval_request_tx (c : ActiveDeviceSocket) (e : ControlEnvelope) :
    tx FrameEffects :=
  match read_approval_request (en_payload e) with
  | None => raise (ValueError "ApprovalRequestPayload")
  | Some p =>
      t ← now;
      device ← query (owned_device c);
      match device with
      | None => raise (RealtimeProtocolError "approval device is unavailable")
      | Some d =>
          lock_owner_cursor (as_owner_user_id c);;
          existing ← query (λ db, approvals db !! ar_approval_id p);
          match existing with
          | Some a =>
              guard_exn (negb (bool_decide (ap_device_id a = as_device_id c)
                               && bool_decide (ap_appserver_epoch a = en_epoch e)))
                (RealtimeProtocolError "approval id was replayed across devices or epochs");;
              guard_exn (negb (bool_decide (ap_request_hash a = _approval_request_hash p)))
                (RealtimeProtocolError "approval id was replayed with a different request");;
              mret no_effects
          | None =>
              capacity_as_protocol_error
                (ensure_approval_record_capacity_locked (as_owner_user_id c) (as_device_id c));;
              store_approval c d e p t
          end
      end
  end.

(** ** One frame *)

Definition hello_not_first : exn :=
  RealtimeProtocolError "hello is only valid as the first frame".

Definition unsupported_frame (t : EnvelopeType) : exn :=
  RealtimeProtocolError ("unsupported device frame " +++ envelope_type_value t).

(** [Model.model_validate(envelope.payload)], for the frames that are only
    validated. *)
Definition validated (e : ControlEnvelope) : tx FrameEffects :=
  match validate_envelope_payload e with
  | None => raise (ValueError "payload")
  | Some _ => mret no_effects
  end.

Definition _apply_stale_device_frame_tx (c : ActiveDeviceSocket) (e : ControlEnvelope) :
    tx FrameEffects :=
  match en_type e with
  | TCommandAck => _apply_command_ack_tx c e
  | THeartbeat => validated e
  | THeartbeatAck => mret no_effects
  | TEvent =>
      match read_event (en_payload e) with
      | None => raise (ValueError "DeviceEventPayload")
      | Some event =>
          guard_exn (negb (py_in (de_method event) ALLOWED_DEVICE_EVENTS))
            (RealtimeProtocolError "device event method is not allowlisted");;
          mret no_effects
      end
  | TApprovalRequest => validated e
  | TError => validated e
  | THello => raise hello_not_first
  | t => raise (unsupported_frame t)
  end.

Definition record_protocol_error (c : ActiveDeviceSocket) (e : ControlEnvelope) :
    tx FrameEffects :=
  match read_error (en_payload e) with
  | None => raise (ValueError "ProtocolErrorPayload")
  | Some err =>
      add_audit (Some (as_owner_user_id c)) None (Some (as_device_id c)) "device.protocol_error"
        AoFailed "device_connection" (as_connection_nonce c) no_metadata
        (JObj [("epoch", JStr (en_epoch e)); ("code", JStr (pe_code err));
               ("message", JStr (pe_message err)); ("retryable", JBool (pe_retryable err))]);;
      mret no_effects
  end.

Definition _apply_device_frame_tx (c : ActiveDeviceSocket) (e : ControlEnvelope)
    (stale_replay : bool) : tx FrameEffects :=
  if stale_replay then _apply_stale_device_frame_tx c e
  else
    match en_type e with
    | THeartbeat => validated e
    | THeartbeatAck => mret no_effects
    | TCommandAck => _apply_command_ack_tx c e
    | TEvent => _apply_device_event_tx c e
    | TApprovalRequest => _apply_approval_request_tx c e
    | TError => record_protocol_error c e
    | THello => raise hello_not_first
    | t => raise (unsupported_frame t)
    end.

(** The answer to a duplicate: the first retained frame that acknowledges it. *)
Definition duplicate_answer (device_id : uuid) (seq : Z) (db : database) : option pystr :=
  (λ kf, ob_encoded_envelope kf.2) <$>
    head (order_by by_sequence
            (select_rows (λ k f, frame_of device_id k && (seq <=? ob_ack_sequence f)) (outbox db))).

Definition already_applied (last : Z) : exn :=
  RealtimeProtocolError ("duplicate frame is already applied through receive cursor "
    +++ PyStr (py_str_int last) +++ "; reconnect for cursor synchronization").

Definition current_connection (c : ActiveDeviceSocket) (id : uuid) (db : database) :
    option Device :=
  d ← devices db !! id;
  if connection_active c d then Some d else None.

(** The transaction of [_process_device_frame]. *)
Definition frame_transaction (c : ActiveDeviceSocket) (e : ControlEnvelope) (t : Z) :
    tx (bool * option pystr * FrameEffects) :=
  let id := as_device_id c in
  device ← query (current_connection c id);
  match device with
  | None => raise (StaleConnection "connection is no longer active")
  | Some d =>
      guard_exn (match en_ack e with Some a => d_last_server_sequence d <? a | None => false end)
        (RealtimeProtocolError "acknowledgement exceeds the last server sequence");;
      let duplicate := en_seq e <=? d_last_device_sequence d in
      duplicate_response ← (if duplicate then query (duplicate_answer id (en_seq e))
                            else mret None);
      guard_exn (duplicate && bool_decide (duplicate_response = None))
        (already_applied (d_last_device_sequence d));;
      let acked := match en_ack e with
                   | Some a => if d_last_server_acked_sequence d <? a then Some a else None
                   | None => None
                   end in
      match acked with
      | Some a =>
          update_device id (λ d, d <| d_last_server_acked_sequence := a |>);;
          _ack_outbox_locked id a t
      | None => mret tt
      end;;
      guard_exn (negb duplicate && negb (en_seq e =? d_last_device_sequence d + 1))
        (SequenceGap (en_seq e) (d_last_device_sequence d));;
      effects ←
        (if duplicate then mret no_effects
         else
           effects ← _apply_device_frame_tx c e (negb (bool_decide (en_epoch e = as_epoch c)));
           update_device id (λ d, d <| d_last_device_sequence := en_seq e |>);;
           mret effects);
      update_device id (λ d, d <| d_last_seen_at := Some t |>);;
      update_connection (as_connection_nonce c) (λ r,
        r <| dc_last_heartbeat_at := t |>
          <| dc_last_device_sequence :=
               (if duplicate then d_last_device_sequence d else en_seq e) |>
          <| dc_last_server_acked_sequence :=
               default (d_last_server_acked_sequence d) acked |>);;
      commit;;
      mret (duplicate, duplicate_response, effects)
  end.

Definition _refresh_registry (c : ActiveDeviceSocket) : tx unit :=
  refreshed ← store_compare_refresh (connection_key (as_device_id c)) (as_registry_value c)
                (device_registry_ttl_seconds settings);
  guard_exn (negb refreshed) (StaleConnection "connection registry ownership was lost").

(** What follows the commit: metrics, browser events, dispatch wake-ups. *)
Definition publish_effects (c : ActiveDeviceSocket) (effects : FrameEffects) : tx unit :=
  for_each (λ '(from, to, duration), measure (MCommandTransition from to duration))
    (fe_command_transitions effects);;
  for_each (publish_event (as_owner_user_id c)) (fe_browser_events effects);;
  for_each (λ '(outcome, reason), measure (MApprovalOutcome outcome reason))
    (fe_approval_outcomes effects);;
  for_each (approval_wake (as_device_id c)) (fe_approval_dispatches effects).

(** The socket with its receive cursor moved, whether the frame was a
    duplicate and of a replaced epoch, and the answer to a duplicate. *)
Definition _process_device_frame (c : ActiveDeviceSocket) (e : ControlEnvelope) :
    tx (ActiveDeviceSocket * bool * bool * option pystr) :=
  guard_exn (negb (bool_decide (en_device_id e = as_device_id c)))
    (RealtimeProtocolError "frame targets a different device");;
  t ← now;
  r ← with_session (frame_transaction c e t);
  let '(duplicate, duplicate_response, effects) := r in
  let c' := c <| as_received_sequence := Z.max (as_received_sequence c) (en_seq e) |> in
  _refresh_registry c;;
  publish_effects c effects;;
  mret (c', duplicate, negb (bool_decide (en_epoch e = as_epoch c)), duplicate_response).
End projection.
