(* ===== verification/Connections.v ===== *)
(** * Device connections ([control_api/realtime.py], [RealtimeService])

    A device connects with a hello, replaces the connection it had, and brings
    an app-server epoch: work of an earlier epoch is settled before anything of
    the new one is dispatched.  Commands and decisions are dispatched through
    the outbox; a connection that ends takes its pending approvals with it.

    The three tasks of a connection (receive loop, dispatch subscription,
    heartbeat watchdog) take turns between awaits under [send_lock]; a run is
    given the sequence of their inputs.  [retry] of a closed socket and the
    waiting for the subscription are not modelled. *)

From stdpp Require Import base list gmap.
From Stdlib Require Import NArith ZArith Lia.
From S2P Require Import Prelude Config Json Paths Models Storage World Testbed Wire Budget Snapshot.
From S2P Require Import Events Capacity Commands Approvals Outbox Frames Projection.
Open Scope Z_scope.

Definition transition : Type := pystr * pystr * option Z.

Section connections.
Context {P : Platform}.

(** ** Dispatching *)

Definition _record_terminal_dispatch_rejection (id : uuid) (c : Command) (t : Z)
    (audit_action : pystr) (audit_outcome : AuditOutcome) (reason : pystr) :
    tx (list BrowserEvent) :=
  add_audit (Some (cmd_owner_user_id c)) None (Some (cmd_device_id c)) audit_action audit_outcome
    "command" (uuid_str id) no_metadata
    (JObj [("device_id", JStr (uuid_str (cmd_device_id c))); ("method", JStr (cmd_method c));
           ("reason", JStr reason)]);;
  e ← append (cmd_owner_user_id c) (cmd_device_id c) CommandUpdated (command_event_data id c)
        (cmd_thread_binding_id c) None;
  binding ← query (command_binding c);
  match binding with
  | Some (tid, b) =>
      match repair_binding_for_terminal_command b c t with
      | (true, b') =>
          save_binding tid b';;
          data ← thread_event_data tid b';
          e' ← append (cmd_owner_user_id c) (cmd_device_id c) ThreadUpdated data (Some tid) None;
          mret [e; e']
      | (false, _) => mret [e]
      end
  | None => mret [e]
  end.

Definition reject_command (status : CommandStatus) (code message : pystr) (t : Z) (c : Command) :
    Command :=
  c <| cmd_status := status |> <| cmd_completed_at := Some t |>
    <| cmd_error_code := Some code |> <| cmd_error_message := Some message |>.

Definition dispatch_command_row (t : Z) (c : Command) : Command :=
  c <| cmd_status := CsDispatched |> <| cmd_dispatched_at := Some t |>.

Definition command_payload (id : uuid) (c : Command) (wire_key : pystr) (deadline : Z) : json :=
  JObj [("command_id", JStr (uuid_str id)); ("idempotency_key", JStr wire_key);
        ("method", JStr (cmd_method c)); ("params", cmd_payload c);
        ("deadline_at", JStr (iso deadline))].

(** A command that is settled instead of dispatched. *)
Definition settle_command (id : uuid) (cmd : Command) (f : Command → Command) (t : Z)
    (audit_action : pystr) (audit_outcome : AuditOutcome) (reason : pystr) :
    tx (list BrowserEvent * option pystr * option transition) :=
  update_command id f;;
  events ← _record_terminal_dispatch_rejection id (f cmd) t audit_action audit_outcome reason;
  commit;;
  mret (events, None, Some (transition_of cmd (f cmd) (Some (t - cmd_created_at cmd)))).

Definition dispatch_transaction (c : ActiveDeviceSocket) (command_id : uuid) :
    tx (list BrowserEvent * option pystr * option transition) :=
  device ← _lock_active_device c;
  lock_owner_cursor (as_owner_user_id c);;
  command ← query (λ db, commands db !! command_id);
  match command with
  | None => mret ([], None, None)
  | Some cmd =>
      if negb (bool_decide (cmd_device_id cmd = as_device_id c))
         || negb (bool_decide (cmd_status cmd = CsQueued)) then mret ([], None, None)
      else
        t ← now;
        match cmd_expires_at cmd with
        | None =>
            settle_command command_id cmd
              (reject_command CsExpired "expired" "command deadline passed before dispatch" t) t
              "command.expire" AoFailed "expired_before_dispatch"
        | Some deadline =>
            if deadline <=? t then
              settle_command command_id cmd
                (reject_command CsExpired "expired" "command deadline passed before dispatch" t) t
                "command.expire" AoFailed "expired_before_dispatch"
            else if negb (bool_decide (cmd_appserver_epoch cmd = Some (as_epoch c))) then
              settle_command command_id cmd
                (reject_command CsDenied "invalid_epoch"
                   "command belongs to a stale app-server epoch" t) t
                "command.dispatch_reject" AoDenied "stale_epoch"
            else
              match wire_idempotency_key (cmd_idempotency_scope cmd) (cmd_idempotency_key cmd) with
              | None => raise (ValueError "surrogates not allowed")
              | Some key =>
                  r ← _persist_envelope_locked c device "command"
                        (command_payload command_id cmd key deadline);
                  update_command command_id (dispatch_command_row t);;
                  commit;;
                  mret ([], Some r.2, Some (("queued" : pystr), ("dispatched" : pystr), None))
              end
        end
  end.

Definition _dispatch_command (c : ActiveDeviceSocket) (command_id : uuid) : tx unit :=
  r ← with_session (dispatch_transaction c command_id);
  let '(events, encoded, moved) := r in
  match moved with
  | Some (from, to, duration) => measure (MCommandTransition from to duration)
  | None => mret tt
  end;;
  for_each (λ e, best_effort (publish_event (as_owner_user_id c) e)) events;;
  match encoded with
  | Some frame => _send_if_active c [frame]
  | None => mret tt
  end.

Definition may_dispatch_decision (c : ActiveDeviceSocket) (a : Approval) : bool :=
  bool_decide (ap_device_id a = as_device_id c)
  && match ap_status a with AsApproved | AsDenied => true | _ => false end
  && bool_decide (ap_decision_dispatched_at a = None)
  && bool_decide (ap_appserver_epoch a = as_epoch c)
  && dispatchable_reason (ap_decision_reason a).

Definition approval_transaction (c : ActiveDeviceSocket) (approval_id : uuid) :
    tx (option pystr) :=
  device ← _lock_active_device c;
  approval ← query (λ db, approvals db !! approval_id);
  match approval with
  | None => mret None
  | Some a =>
      if negb (may_dispatch_decision c a) then mret None
      else
        decided_at ← match ap_decided_at a with Some t => mret t | None => now end;
        r ← _persist_envelope_locked c device "approval_decision"
              (JObj [("approval_id", JStr (uuid_str approval_id));
                     ("decision",
                      JStr (if bool_decide (ap_status a = AsApproved) then "approve" else "deny"));
                     ("decided_at", JStr (iso decided_at))]);
        t ← now;
        update_approval approval_id (λ a, a <| ap_decision_dispatched_at := Some t |>);;
        commit;;
        mret (Some r.2)
  end.

Definition _dispatch_approval (c : ActiveDeviceSocket) (approval_id : uuid) : tx unit :=
  encoded ← with_session (approval_transaction c approval_id);
  match encoded with
  | Some frame => _send_if_active c [frame]
  | None => mret tt
  end.

Definition pending_command (device_id : uuid) (c : Command) : bool :=
  bool_decide (cmd_device_id c = device_id) && bool_decide (cmd_status c = CsQueued).

Definition pending_decision (device_id : uuid) (a : Approval) : bool :=
  bool_decide (ap_device_id a = device_id)
  && match ap_status a with AsApproved | AsDenied => true | _ => false end
  && bool_decide (ap_decision_dispatched_at a = None)
  && dispatchable_reason (ap_decision_reason a).

Definition _dispatch_pending (c : ActiveDeviceSocket) : tx unit :=
  ids ← with_session (query (λ db,
    ((select_rows (λ _ cmd, pending_command (as_device_id c) cmd) (commands db)).*1,
     (select_rows (λ _ a, pending_decision (as_device_id c) a) (approvals db)).*1)));
  for_each (_dispatch_command c) ids.1;;
  for_each (_dispatch_approval c) ids.2.

(** ** Settling a replaced epoch *)

Definition stale_epoch_command (device_id : uuid) (d : Device) (epoch : pystr) (c : Command) :
    bool :=
  bool_decide (cmd_device_id c = device_id)
  && bool_decide (cmd_owner_user_id c = d_owner_user_id d)
  && match cmd_appserver_epoch c with Some e => negb (bool_decide (e = epoch)) | None => false end
  && outstanding (cmd_status c).

Definition stale_epoch_thread (device_id : uuid) (d : Device) (epoch : pystr)
    (b : ThreadBinding) : bool :=
  bool_decide (tb_device_id b = device_id)
  && bool_decide (tb_owner_user_id b = d_owner_user_id d)
  && negb (bool_decide (tb_appserver_epoch b = epoch))
  && match tb_status b with TsIdle | TsRunning | TsWaitingForApproval => true | _ => false end.

Definition by_created_then_id {A} (created : A → Z) (a b : uuid * A) : bool :=
  (created a.2 <? created b.2) || ((created a.2 =? created b.2) && (a.1 <=? b.1)%N).

(** A queued command was never sent; any other may have run. *)
Definition settle_stale (t : Z) (c : Command) : Command :=
  (if bool_decide (cmd_status c = CsQueued) then
     reject_command CsDenied "invalid_epoch"
       "command belonged to an app-server epoch that was replaced" t c
   else
     reject_command CsFailed "epoch_replaced_indeterminate"
       "app-server epoch ended before a terminal acknowledgement; execution state is indeterminate"
       t c) <| cmd_result := JNull |>.

Definition reconcile_command (t : Z) (acc : list BrowserEvent * list transition)
    (row : uuid * Command) : tx (list BrowserEvent * list transition) :=
  let '(id, c) := row in
  let queued := bool_decide (cmd_status c = CsQueued) in
  update_command id (settle_stale t);;
  events ← (if queued
            then _record_terminal_dispatch_rejection id (settle_stale t c) t
                   "command.dispatch_reject" AoDenied "stale_epoch_before_dispatch"
            else _record_terminal_dispatch_rejection id (settle_stale t c) t
                   "command.epoch_reconcile" AoFailed "epoch_replaced_indeterminate");
  mret (acc.1 ++ events,
        acc.2 ++ [transition_of c (settle_stale t c) (Some (t - cmd_created_at c))]).

Definition fail_thread (t : Z) (b : ThreadBinding) : ThreadBinding :=
  b <| tb_status := TsFailed |> <| tb_active_turn_id := None |>
    <| tb_last_error := Some "app-server epoch was replaced; resume the thread to continue" |>
    <| tb_updated_at := t |>.

Definition reconcile_thread (device_id : uuid) (d : Device) (epoch : pystr) (t : Z)
    (events : list BrowserEvent) (row : uuid * ThreadBinding) : tx (list BrowserEvent) :=
  let '(id, b) := row in
  save_binding id (fail_thread t b);;
  add_audit (Some (d_owner_user_id d)) None (Some device_id) "thread.epoch_reconcile" AoFailed
    "thread_binding" (uuid_str id) no_metadata
    (JObj [("old_epoch", JStr (tb_appserver_epoch b)); ("current_epoch", JStr epoch);
           ("reason", JStr "resume_required_after_epoch_replacement")]);;
  e ← append (d_owner_user_id d) device_id ThreadUpdated
        (JObj (_thread_event_data id (fail_thread t b))) (Some id) None;
  mret (events ++ [e]).

(** The events, the number of commands and threads settled, the transitions. *)
Definition _reconcile_stale_epoch_commands (device_id : uuid) (d : Device) (epoch : pystr)
    (t : Z) : tx (list BrowserEvent * list (pystr * Z) * list transition) :=
  lock_owner_cursor (d_owner_user_id d);;
  stale ← query (λ db, order_by (by_created_then_id cmd_created_at)
    (select_rows (λ _ c, stale_epoch_command device_id d epoch c) (commands db)));
  settled ← fold_tx (reconcile_command t) ([], []) stale;
  stale_bindings ← query (λ db, order_by (by_created_then_id tb_created_at)
    (select_rows (λ _ b, stale_epoch_thread device_id d epoch b) (threads db)));
  events ← fold_tx (reconcile_thread device_id d epoch t) settled.1 stale_bindings;
  mret (events,
        [(("command_stale_epoch" : pystr), Z.of_nat (length stale));
         (("thread_stale_epoch" : pystr), Z.of_nat (length stale_bindings))],
        settled.2).

(** ** [ConnectionHub] *)

Definition hub_register (c : ActiveDeviceSocket) (ownership_check : tx bool) : tx unit :=
  owned ← ownership_check;
  guard_exn (negb owned)
    (StaleConnection "connection registry ownership was lost before activation");;
  previous ← (λ w, (Ok (hub w !! as_device_id c), w));
  (λ w, (Ok tt, w <| hub := <[as_device_id c := as_connection_nonce c]> (hub w) |>));;
  match previous with
  | Some nonce =>
      if bool_decide (nonce = as_connection_nonce c) then mret tt else close_socket nonce 4001
  | None => mret tt
  end.

Definition hub_unregister (c : ActiveDeviceSocket) : tx unit := λ w,
  (Ok tt, if bool_decide (hub w !! as_device_id c = Some (as_connection_nonce c))
          then w <| hub := delete (as_device_id c) (hub w) |> else w).

(** ** Ending a connection *)

Definition close_connection (nonce reason : pystr) (t : Z) (r : DeviceConnection) :
    DeviceConnection :=
  if bool_decide (dc_connection_nonce r = nonce) && bool_decide (dc_status r = CnConnected)
  then r <| dc_status := CnDisconnected |> <| dc_disconnected_at := Some t |>
         <| dc_closed_reason := Some reason |>
  else r.

Definition still_connected (nonce : pystr) (db : database) : bool :=
  exists_row (λ _ r, bool_decide (dc_connection_nonce r = nonce)
                     && bool_decide (dc_status r = CnConnected)) (connections db).

Definition end_transaction (c : ActiveDeviceSocket) (reason : pystr) : tx (list BrowserEvent) :=
  let id := as_device_id c in
  device ← query (λ db, devices db !! id);
  open ← query (still_connected (as_connection_nonce c));
  (if open : bool then
     t ← now;
     modify (λ db, db <| connections :=
       close_connection (as_connection_nonce c) reason t <$> connections db |>)
   else mret tt);;
  events ←
    match device with
    | Some d =>
        if bool_decide (d_active_connection_nonce d = Some (as_connection_nonce c)) then
          update_device id (λ d, d <| d_active_connection_nonce := None |>);;
          denied ← deny_disconnected id d;
          e ← append (d_owner_user_id d) id DeviceUpdated (_device_event_data id d "offline") None
                None;
          mret (denied ++ [e])
        else mret []
    | None => mret []
    end;
  commit;;
  mret events.

Definition _end_connection (c : ActiveDeviceSocket) (reason : pystr) : tx unit :=
  hub_unregister c;;
  store_compare_delete (connection_key (as_device_id c)) (as_registry_value c);;
  events ← with_session (end_transaction c reason);
  for_each (publish_event (as_owner_user_id c)) events.
End connections.
