(* ===== verification/Handshake.v ===== *)
(** * The life of a device socket ([control_api/realtime.py])

    [_begin_connection] turns an accepted hello into the one active connection
    of its device; [_device_receive_loop] and [_device_dispatch_loop] serve it;
    [handle_device] runs the whole socket and always ends what it began. *)

From stdpp Require Import base list gmap.
From Stdlib Require Import NArith ZArith Lia.
From S2P Require Import Prelude Config Json Paths Models Storage World Testbed Wire Budget Snapshot.
From S2P Require Import Events Capacity Commands Approvals Outbox Frames Projection Connections.
Open Scope Z_scope.

(** What the handler reads of the WebSocket: the peer and its headers. *)
Record DeviceWebSocket := {
  ws_remote_address : option pystr;
  ws_user_agent : pystr;
}.

Section handshake.
Context {P : Platform}.

(** ** Connection rows *)

Definition of_device (device_id : uuid) (r : DeviceConnection) : bool :=
  bool_decide (dc_device_id r = device_id).

Definition connected_to (device_id : uuid) (r : DeviceConnection) : bool :=
  of_device device_id r && bool_decide (dc_status r = CnConnected).

Definition replace_connection (device_id : uuid) (t : Z) (r : DeviceConnection) :
    DeviceConnection :=
  if connected_to device_id r
  then r <| dc_status := CnDisconnected |> <| dc_disconnected_at := Some t |>
         <| dc_closed_reason := Some "replaced" |>
  else r.

Definition connection_count (device_id : uuid) (db : database) : Z :=
  count_rows (λ _ r, of_device device_id r) (connections db).

(** [order_by(disconnected_at, id)]; a null sorts last. *)
Definition by_disconnect_then_id (a b : uuid * DeviceConnection) : bool :=
  match dc_disconnected_at a.2, dc_disconnected_at b.2 with
  | Some x, Some y => (x <? y) || ((x =? y) && (a.1 <=? b.1)%N)
  | None, None => (a.1 <=? b.1)%N
  | Some _, None => true
  | None, Some _ => false
  end.

Definition oldest_disconnected (device_id : uuid) (n : Z) (db : database) : list uuid :=
  (take (Z.to_nat n)
     (order_by by_disconnect_then_id
        (select_rows (λ _ r, of_device device_id r
                             && bool_decide (dc_status r = CnDisconnected)) (connections db)))).*1.

Definition delete_connections (ids : list uuid) (db : database) : database :=
  db <| connections := filter (λ kr, kr.1 ∉ ids) (connections db) |>.

(** The device keeps fewer than [device_max_connection_records] rows, or the
    connection is refused. *)
Definition make_connection_room (device_id : uuid) : tx unit :=
  n ← query (connection_count device_id);
  let limit := device_max_connection_records settings in
  if limit <=? n then
    ids ← query (oldest_disconnected device_id (n - limit + 1));
    modify (delete_connections ids);;
    n ← query (connection_count device_id);
    guard_exn (limit <=? n) (RealtimeProtocolError "device connection record limit reached")
  else mret tt.

Definition insert_connection (r : DeviceConnection) : tx unit :=
  id ← fresh_uuid;
  taken ← query (λ db, bool_decide (is_Some (connections db !! id))
    || exists_row (λ _ r', bool_decide (dc_connection_nonce r' = dc_connection_nonce r))
         (connections db));
  guard_exn taken IntegrityError;;
  modify (λ db, db <| connections := <[id := r]> (connections db) |>).

(** ** [_begin_connection] *)

(** [metadata.update({...})] on a copy of the device metadata. *)
Definition hello_metadata (metadata : json) (h : HelloPayload) : json :=
  JObj (assoc_set "capabilities" (JArr (JStr <$> hl_capabilities h))
       (assoc_set "schema_digest" (JStr (hl_schema_digest h))
       (assoc_set "codex_version" (JStr (hl_codex_version h))
       (assoc_set "connector_version" (JStr (hl_connector_version h)) (members_of metadata))))).

Definition registry_text (nonce epoch : pystr) : pystr :=
  PyStr (dumps escape_ascii (JObj
    [("connection_nonce", JStr nonce); ("epoch", JStr epoch);
     ("instance_id", JStr instance_id)])).

Definition new_connection (device_id : uuid) (nonce epoch : pystr) (t : Z) (ws : DeviceWebSocket)
    (h : HelloPayload) (received sent acked : Z) : DeviceConnection :=
  {| dc_device_id := device_id; dc_connection_nonce := nonce; dc_status := CnConnected;
     dc_appserver_epoch := Some epoch; dc_connected_at := t; dc_last_heartbeat_at := t;
     dc_disconnected_at := None; dc_remote_address := ws_remote_address ws;
     dc_connector_version := Some (hl_connector_version h);
     dc_codex_version := Some (hl_codex_version h);
     dc_connection_metadata := JObj
       [("schema_digest", JStr (hl_schema_digest h));
        ("capabilities", JArr (JStr <$> hl_capabilities h)); ("instance_id", JStr instance_id)];
     dc_last_device_sequence := received; dc_last_server_sequence := sent;
     dc_last_server_acked_sequence := acked; dc_closed_reason := None |}.

Definition connect_metadata (ws : DeviceWebSocket) : RequestMetadata :=
  {| rm_request_id := None; rm_source_ip := ws_remote_address ws;
     rm_user_agent :=
       (let ua := py_take 512 (ws_user_agent ws) in if py_truthy ua then Some ua else None) |}.

(** The first transaction: the nonces it replaced and the new socket. *)
Definition claim_connection (ws : DeviceWebSocket) (device_id : uuid) (e : ControlEnvelope)
    (h : HelloPayload) (t : Z) (nonce : pystr) : tx (list pystr * ActiveDeviceSocket) :=
  let registry := registry_text nonce (en_epoch e) in
  device ← query (λ db, devices db !! device_id);
  match device with
  | None => raise (RealtimeProtocolError "device is not active")
  | Some d =>
      guard_exn (negb (bool_decide (d_status d = DsActive)))
        (RealtimeProtocolError "device is not active");;
      guard_exn (match en_ack e with None => true | Some a => d_last_server_sequence d <? a end)
        (RealtimeProtocolError "hello acknowledgement exceeds the server sequence");;
      guard_exn (d_last_device_sequence d <? hl_resumed_from_seq h)
        (RealtimeProtocolError "hello resume cursor exceeds the server receive cursor");;
      let ack := default 0 (en_ack e) in
      let acked := Z.max (d_last_server_acked_sequence d) ack in
      (if d_last_server_acked_sequence d <? ack then
         update_device device_id (λ d, d <| d_last_server_acked_sequence := ack |>);;
         _ack_outbox_locked device_id ack t
       else mret tt);;
      replaced ← query (λ db,
        (λ kr, dc_connection_nonce kr.2)
          <$> select_rows (λ _ r, connected_to device_id r) (connections db));
      modify (λ db, db <| connections := replace_connection device_id t <$> connections db |>);;
      make_connection_room device_id;;
      update_device device_id (λ d,
        d <| d_active_epoch := Some (en_epoch e) |> <| d_active_connection_nonce := Some nonce |>
          <| d_last_seen_at := Some t |>
          <| d_device_metadata := hello_metadata (d_device_metadata d) h |>);;
      add_audit (Some (d_owner_user_id d)) None (Some device_id) "device.connect" AoSucceeded
        "device_connection" nonce (connect_metadata ws) (JObj [("epoch", JStr (en_epoch e))]);;
      store_set (connection_key device_id) registry (device_registry_ttl_seconds settings);;
      try_catch
        (insert_connection
           (new_connection device_id nonce (en_epoch e) t ws h (d_last_device_sequence d)
              (d_last_server_sequence d) acked);;
         commit)
        (λ x, store_compare_delete (connection_key device_id) registry;; raise x);;
      mret (replaced,
            {| as_device_id := device_id; as_owner_user_id := d_owner_user_id d;
               as_connection_nonce := nonce; as_epoch := en_epoch e;
               as_registry_value := registry;
               as_received_sequence := d_last_device_sequence d |})
  end.

(** The second transaction: settle the epochs the hello replaced. *)
Definition activation_transaction (c : ActiveDeviceSocket) (t : Z) :
    tx (list BrowserEvent * list (pystr * Z) * list transition) :=
  let id := as_device_id c in
  device ← query (current_connection c id);
  match device with
  | None => raise (StaleConnection "connection was replaced during activation")
  | Some d =>
      settled ← _reconcile_stale_epoch_commands id d (as_epoch c) t;
      let '(events, observations, transitions) := settled in
      denied ← deny_stale_epoch id d (as_epoch c);
      e ← append (d_owner_user_id d) id DeviceUpdated (_device_event_data id d "online") None None;
      commit;;
      mret (events ++ denied ++ [e],
            observations ++ [(("approval_stale_epoch" : pystr), Z.of_nat (length denied))],
            transitions)
  end.

Definition reconciliation_failed : tx unit :=
  for_each (λ phase, measure (MReconciliation phase "failed" 0))
    ["command_stale_epoch"; "thread_stale_epoch"; "approval_stale_epoch"].

Definition kick_message (replaced : list pystr) : json :=
  JObj [("kind", JStr "kick"); ("replaced_connection_nonces", JArr (JStr <$> replaced))].

Definition activate (c : ActiveDeviceSocket) (replaced : list pystr) (t : Z) : tx unit :=
  hub_register c (store_compare_refresh (connection_key (as_device_id c)) (as_registry_value c)
                    (device_registry_ttl_seconds settings));;
  publish ("device-dispatch:" +++ uuid_str (as_device_id c)) (kick_message replaced);;
  r ← try_catch (with_session (activation_transaction c t))
        (λ x, reconciliation_failed;; raise x);
  let '(events, observations, transitions) := r in
  for_each (λ '(phase, items), measure (MReconciliation phase "succeeded" items)) observations;;
  for_each (λ '(from, to, duration), measure (MCommandTransition from to duration)) transitions;;
  for_each (publish_event (as_owner_user_id c)) events.

Definition _begin_connection (ws : DeviceWebSocket) (device_id : uuid) (e : ControlEnvelope)
    (h : HelloPayload) : tx ActiveDeviceSocket :=
  t ← now;
  u ← fresh_uuid;
  r ← with_session (claim_connection ws device_id e h t (uuid_str u));
  let '(replaced, c) := r in
  (if bool_decide (replaced = []) then mret tt else measure (MWebsocketReplaced "device"));;
  try_catch (activate c replaced t)
    (λ x, best_effort (_end_connection c "activation_failed");; raise x);;
  mret c.

(** ** Serving the socket *)

(** One iteration of [_device_receive_loop]. *)
Definition device_receive (c : ActiveDeviceSocket) (raw : pystr) : tx ActiveDeviceSocket :=
  _enforce_device_frame_rate (as_device_id c);;
  e ← of_outcome (_parse_device_envelope raw);
  guard_exn (bool_decide (en_type e = THello)) hello_not_first;;
  r ← _process_device_frame c e;
  let '(c', duplicate, stale_replay, duplicate_response) := r in
  (if duplicate : bool then
     match duplicate_response with
     | Some frame => _send_if_active c [frame]
     | None => mret tt
     end
   else
     _send_envelope c THeartbeatAck (JObj [("received_seq", JInt (en_seq e))]);; mret tt);;
  (if negb stale_replay && bool_decide (en_type e = THeartbeat) then _dispatch_pending c
   else mret tt);;
  mret c'.

(** One message of [_device_dispatch_loop]; [true] when the loop returns. *)
Definition device_dispatch (c : ActiveDeviceSocket) (raw : pystr) : tx bool :=
  match json_loads raw with
  | None => mret false
  | Some (JObj message) =>
      let text k := py_str (default JNull (assoc_get k message)) in
      match assoc_get "kind" message with
      | Some (JStr kind) =>
          if bool_decide (kind = "kick") then
            match assoc_get "replaced_connection_nonces" message with
            | Some (JArr replaced) =>
                if forallb (λ v, bool_decide (is_Some (jstr v))) replaced
                   && py_in (JStr (as_connection_nonce c)) replaced
                then close_socket (as_connection_nonce c) 4001;; mret true
                else mret false
            | _ => mret false
            end
          else if bool_decide (kind = "command") then
            match uuid_of_text (text "command_id") with
            | Some id => _dispatch_command c id;; mret false
            | None => mret false
            end
          else if bool_decide (kind = "approval") then
            match uuid_of_text (text "approval_id") with
            | Some id => _dispatch_approval c id;; mret false
            | None => mret false
            end
          else mret false
      | _ => mret false
      end
  | Some _ => raise AttributeError
  end.

(** What wakes one of the tasks of a connection. *)
Inductive DeviceInput :=
| ReceivedFrame (raw : pystr)
| DispatchMessage (raw : pystr)
| HeartbeatTimeout
| PeerClosed (code : option Z).

(** The tasks until the first of them completes. *)
Fixpoint serve (c : ActiveDeviceSocket) (inputs : list DeviceInput) : tx unit :=
  match inputs with
  | [] => mret tt
  | ReceivedFrame raw :: inputs => c' ← device_receive c raw; serve c' inputs
  | DispatchMessage raw :: inputs =>
      stop ← device_dispatch c raw;
      if stop : bool then mret tt else serve c inputs
  | HeartbeatTimeout :: _ => close_socket (as_connection_nonce c) 4000
  | PeerClosed code :: _ => raise (WebSocketDisconnect code)
  end.

(** [frozenset(a) == frozenset(b)]. *)
Definition same_set (a b : list pystr) : bool :=
  forallb (λ x, py_in x b) a && forallb (λ x, py_in x a) b.

(** The hello of an authenticated device; [canonical_key] is
    [canonicalize_ed25519_public_key]. *)
Definition accept_hello (canonical_key : pystr → option pystr) (device_id : uuid) (device : Device)
    (raw : pystr) : tx (ControlEnvelope * HelloPayload) :=
  _enforce_device_frame_rate device_id;;
  first ← of_outcome (_parse_device_envelope raw);
  guard_exn (negb (bool_decide (en_device_id first = device_id)))
    (RealtimeProtocolError "frame targets a different device");;
  guard_exn (negb (bool_decide (en_type first = THello)))
    (RealtimeProtocolError "hello must be the first device frame");;
  match read_hello (en_payload first) with
  | None => raise (ValueError "HelloPayload")
  | Some hello =>
      match canonical_key (hl_public_key hello) with
      | None => raise (ValueError "public key")
      | Some key =>
          guard_exn (negb (bool_decide (key = d_public_key device)))
            (RealtimeProtocolError "hello public key does not match the paired device");;
          guard_exn (negb (same_set (hl_workspace_roots hello) (d_workspace_roots device)))
            (RealtimeProtocolError
               "hello workspace roots do not match the paired device scope");;
          _validate_hello_contract device first hello;;
          mret (first, hello)
      end
  end.

(** Greeting, replay and the tasks, after [_begin_connection]. *)
Definition run_connection (c : ActiveDeviceSocket) (hello : HelloPayload)
    (inputs : list DeviceInput) : tx unit :=
  measure (MWebsocketOpened "device");;
  _send_hello_ack c (hl_schema_digest hello);;
  _refresh_registry c;;
  with_session (_lock_active_device c;; mret tt);;
  _replay_outbox c;;
  _dispatch_pending c;;
  serve c inputs.

(** [TimeoutError], [ValueError] (validation errors are ones) and
    [RealtimeProtocolError]. *)
Definition is_protocol_failure (x : exn) : bool :=
  match x with
  | SendTimeout | ValueError _ | CommandPayloadTooLarge _ | ThreadSnapshotTooLarge _
  | RealtimeProtocolError _ | SequenceGap _ _ => true
  | _ => false
  end.

Definition socket_name (device_id : uuid) : pystr := "device:" +++ uuid_str device_id.

(** A failure of the cleanup of a known cause leaves it to the [finally] block. *)
Definition end_for (c : ActiveDeviceSocket) (reason : pystr) : tx unit :=
  try_catch (_end_connection c reason)
    (λ x, _end_connection c "websocket_closed";; measure (MWebsocketClosed "device" reason);;
          raise x).

Definition finish (c : ActiveDeviceSocket) (reason : pystr) : tx unit :=
  _end_connection c "websocket_closed";; measure (MWebsocketClosed "device" reason).

(** The connection served and ended: a failure ends it with its reason, every
    other way out as [websocket_closed]. *)
Definition serve_and_end (c : ActiveDeviceSocket) (hello : HelloPayload)
    (inputs : list DeviceInput) : tx unit :=
  failure ← try_catch (run_connection c hello inputs;; mret None) (λ x, mret (Some x));
  match failure with
  | None => finish c "unknown"
  | Some (StaleConnection _) =>
      end_for c "connection_replaced";;
      close_socket (as_connection_nonce c) 4001;;
      measure (MWebsocketClosed "device" "connection_replaced")
  | Some (WebSocketDisconnect code) => finish c (_websocket_close_reason code)
  | Some x =>
      if is_protocol_failure x then
        end_for c "protocol_error";;
        close_socket (as_connection_nonce c) 4400;;
        measure (MWebsocketClosed "device" "protocol_error")
      else finish c "unknown";; raise x
  end.

(** [handle_device] for a device its access token has authenticated. *)
Definition handle_device (canonical_key : pystr → option pystr) (ws : DeviceWebSocket)
    (device_id : uuid) (device : Device) (raw : pystr) (inputs : list DeviceInput) : tx unit :=
  accepted ← try_catch (r ← accept_hello canonical_key device_id device raw;
                        c ← _begin_connection ws device_id r.1 r.2; mret (Some (c, r.2)))
    (λ x,
       match x with
       | StaleConnection _ => close_socket (socket_name device_id) 4001;; mret None
       | WebSocketDisconnect _ => mret None
       | x => if is_protocol_failure x then
                close_socket (socket_name device_id) 4400;;
                measure (MWebsocketRejected "device" "protocol_error");; mret None
              else raise x
       end);
  match accepted with
  | None => mret tt
  | Some (c, hello) => serve_and_end c hello inputs
  end.
End handshake.
