(* ===== verification/DeviceSafety.v ===== *)
(** * What a device socket can change

    Every operation a device's socket runs, from a received frame to the end of
    the connection, takes the committed state to one related by
    [device_changes]: rows of other devices, other owners' event streams and
    the sessions are untouched, the rows of its own device only advance along
    their life cycles, and events and audit records are only added. *)

From stdpp Require Import base list gmap.
From Stdlib Require Import NArith ZArith Lia.
From S2P Require Import Prelude Config Json Paths Models Storage World Testbed Wire Budget Snapshot.
From S2P Require Import Events Capacity Commands Approvals Outbox Steps Frames Projection.
From S2P Require Import Connections.
Open Scope Z_scope.

(** ** The relation *)

(** A device row keeps its identity and scope; its cursors only grow. *)
Record device_advances (d d' : Device) : Prop := {
  da_owner : d_owner_user_id d' = d_owner_user_id d;
  da_key : d_public_key d' = d_public_key d;
  da_credential : d_refresh_credential_hash d' = d_refresh_credential_hash d
    ∧ d_credential_version d' = d_credential_version d;
  da_status : d_status d' = d_status d;
  da_scope : d_workspace_roots d' = d_workspace_roots d;
  da_epoch : d_active_epoch d' = d_active_epoch d;
  da_nonce : d_active_connection_nonce d' = d_active_connection_nonce d
    ∨ d_active_connection_nonce d' = None;
  da_received : d_last_device_sequence d ≤ d_last_device_sequence d';
  da_sent : d_last_server_sequence d ≤ d_last_server_sequence d';
  da_acked : d_last_server_acked_sequence d ≤ d_last_server_acked_sequence d';
  da_events : d_last_event_sequence d ≤ d_last_event_sequence d';
}.

Definition thread_fixed (b b' : ThreadBinding) : Prop :=
  tb_owner_user_id b' = tb_owner_user_id b ∧ tb_device_id b' = tb_device_id b
  ∧ tb_created_at b' = tb_created_at b.

Definition connection_kept (nonce : pystr) (r r' : DeviceConnection) : Prop :=
  dc_device_id r' = dc_device_id r ∧ dc_connection_nonce r' = dc_connection_nonce r
  ∧ (dc_connection_nonce r ≠ nonce → r' = r).

Section changes.
Context (c : ActiveDeviceSocket).

Notation dev := (as_device_id c).
Notation owner := (as_owner_user_id c).

Record device_changes (db db' : database) : Prop := {
  dc_others i : i ≠ dev → devices db' !! i = devices db !! i;
  dc_own : option_Forall2 device_advances (devices db !! dev) (devices db' !! dev);
  dc_connections i :
    option_Forall2 (connection_kept (as_connection_nonce c)) (connections db !! i)
      (connections db' !! i);
  dc_outbox k : k.1 ≠ dev → outbox db' !! k = outbox db !! k;
  dc_commands : commands_step db db';
  dc_other_commands i x :
    commands db !! i = Some x → cmd_device_id x ≠ dev → commands db' !! i = Some x;
  dc_approvals i a :
    approvals db !! i = Some a →
    ∃ a', approvals db' !! i = Some a' ∧ approval_evolves a a' ∧ (ap_device_id a ≠ dev → a' = a);
  dc_new_approvals i a' :
    approvals db !! i = None → approvals db' !! i = Some a' →
    ap_device_id a' = dev ∧ ap_owner_user_id a' = owner;
  dc_threads i b :
    threads db !! i = Some b →
    ∃ b', threads db' !! i = Some b' ∧ thread_fixed b b' ∧ (tb_device_id b ≠ dev → b' = b);
  dc_new_threads i b' :
    threads db !! i = None → threads db' !! i = Some b' →
    tb_device_id b' = dev ∧ tb_owner_user_id b' = owner;
  dc_log : ∃ l, event_log db' = event_log db ++ l
    ∧ Forall (λ e, ev_device_id e = dev ∧ ev_owner_user_id e = owner) l;
  dc_cursors o : o ≠ owner → cursors db' !! o = cursors db !! o;
  dc_audit : ∃ l, audit db' = audit db ++ l
    ∧ Forall (λ e, au_actor_device_id e = Some dev) l;
  dc_sessions : sessions db' = sessions db;
  dc_pairings : pairings db' = pairings db;
}.

(** What the handlers rely on: the socket was opened for the owner of the
    device, and the threads of the device's commands are the device's. *)
Record socket_ok (db : database) : Prop := {
  sk_owner d : devices db !! dev = Some d → d_owner_user_id d = owner;
  sk_threads i x t b :
    commands db !! i = Some x → cmd_device_id x = dev → cmd_thread_binding_id x = Some t →
    threads db !! t = Some b → tb_device_id b = dev;
}.
End changes.

#[export] Instance device_advances_refl : Reflexive device_advances.
Proof. intros d. split; done || by left. Qed.

#[export] Instance device_advances_trans : Transitive device_advances.
Proof.
  intros a b d [? ? [] ? ? ? N1 ? ? ? ?] [? ? [] ? ? ? N2 ? ? ? ?].
  split; try (split; congruence); try congruence; try lia.
  destruct N2 as [->|]; [|by right]. done.
Qed.

#[export] Instance connection_kept_refl nonce : Reflexive (connection_kept nonce).
Proof. by intros r. Qed.

#[export] Instance connection_kept_trans nonce : Transitive (connection_kept nonce).
Proof.
  intros a b d (H1 & H2 & H3) (H4 & H5 & H6). split_and!; [congruence..|].
  intros Hn. rewrite <- (H3 Hn). apply H6. congruence.
Qed.

Lemma option_Forall2_refl' {A} (R : relation A) `{!Reflexive R} (x : option A) :
  option_Forall2 R x x.
Proof. destruct x; by constructor. Qed.

Lemma option_Forall2_trans' {A} (R : relation A) `{!Transitive R} (x y z : option A) :
  option_Forall2 R x y → option_Forall2 R y z → option_Forall2 R x z.
Proof.
  intros [a b H1|] H2; inversion H2 as [b' d H3 E1 E2|E1 E2]; subst; constructor. by etrans.
Qed.

#[export] Instance device_changes_refl c : Reflexive (device_changes c).
Proof.
  intros db. split; try done; try (intros; by apply option_Forall2_refl', _).
  - intros i a Ha. exists a. done.
  - intros i a Ha. congruence.
  - intros i b Hb. exists b. done.
  - intros i b Hb. congruence.
  - exists []. by rewrite app_nil_r.
  - exists []. by rewrite app_nil_r.
Qed.

#[export] Instance device_changes_trans c : Transitive (device_changes c).
Proof.
  intros x y z H1 H2. split.
  - intros i Hi. rewrite (dc_others _ _ _ H2 i Hi). by apply H1.
  - eapply option_Forall2_trans'; [apply _|apply H1|apply H2].
  - intros i. eapply option_Forall2_trans'; [apply _|apply H1|apply H2].
  - intros k Hk. rewrite (dc_outbox _ _ _ H2 k Hk). by apply H1.
  - etrans; [apply H1|apply H2].
  - intros i cmd Hc Hd. eapply H2; [by eapply H1|done].
  - intros i a Ha. destruct (dc_approvals _ _ _ H1 i a Ha) as (b & Hb & He1 & Hk1).
    destruct (dc_approvals _ _ _ H2 i b Hb) as (a' & Ha' & He2 & Hk2).
    exists a'. split_and!; [done|by etrans|]. intros Hn. specialize (Hk1 Hn). subst b. by apply Hk2.
  - intros i a' Hn Ha'. destruct (approvals y !! i) as [b|] eqn:Hb; [|by eapply (dc_new_approvals _ _ _ H2)].
    destruct (dc_new_approvals _ _ _ H1 i b Hn Hb) as [E1 E2].
    destruct (dc_approvals _ _ _ H2 i b Hb) as (a'' & Ha'' & [[] _ _ _ _ _] & _). simplify_eq. split; congruence.
  - intros i b Hb. destruct (dc_threads _ _ _ H1 i b Hb) as (b1 & Hb1 & (F1 & F2 & F3) & Hk1).
    destruct (dc_threads _ _ _ H2 i b1 Hb1) as (b2 & Hb2 & (F4 & F5 & F6) & Hk2).
    exists b2. split_and!; [done|split_and!; congruence|]. intros Hn. specialize (Hk1 Hn). subst b1.
    by apply Hk2.
  - intros i b' Hn Hb'. destruct (threads y !! i) as [b|] eqn:Hb; [|by eapply (dc_new_threads _ _ _ H2)].
    destruct (dc_new_threads _ _ _ H1 i b Hn Hb) as [E1 E2].
    destruct (dc_threads _ _ _ H2 i b Hb) as (b2 & Hb2 & (F1 & F2 & _) & _). simplify_eq.
    split; congruence.
  - destruct (dc_log _ _ _ H1) as (l1 & E1 & F1), (dc_log _ _ _ H2) as (l2 & E2 & F2).
    exists (l1 ++ l2). split; [by rewrite E2, E1, app_assoc|by apply Forall_app].
  - intros o Ho. rewrite (dc_cursors _ _ _ H2 o Ho). by apply H1.
  - destruct (dc_audit _ _ _ H1) as (l1 & E1 & F1), (dc_audit _ _ _ H2) as (l2 & E2 & F2).
    exists (l1 ++ l2). split; [by rewrite E2, E1, app_assoc|by apply Forall_app].
  - rewrite (dc_sessions _ _ _ H2). apply H1.
  - rewrite (dc_pairings _ _ _ H2). apply H1.
Qed.

Lemma socket_ok_changes c db db' : socket_ok c db → device_changes c db db' → socket_ok c db'.
Proof.
  intros [Ho Ht] H. split.
  - intros d' Hd'. pose proof (dc_own _ _ _ H) as Hd. rewrite Hd' in Hd.
    inversion Hd as [d x Ha E1 E2|]; subst. rewrite (da_owner _ _ Ha). by apply Ho.
  - intros i x' t b' Hx' Hd Hbind Hb'.
    destruct (commands_step_inv _ _ _ _ (dc_commands _ _ _ H) Hx') as (x & Hx & [[] _ _]).
    destruct (threads db !! t) as [b|] eqn:Hb; [|by apply (dc_new_threads _ _ _ H t b')].
    destruct (dc_threads _ _ _ H t b Hb) as (b2 & Hb2 & (_ & Hdev & _) & _). simplify_eq.
    rewrite Hdev. eapply Ht; [exact Hx| |by rewrite <- sc_binding|exact Hb]. congruence.
Qed.

(** The relation the operations satisfy. *)
Definition device_step (c : ActiveDeviceSocket) (db db' : database) : Prop :=
  socket_ok c db → device_changes c db db'.

#[export] Instance device_step_preorder c : PreOrder (device_step c).
Proof.
  split; [by intros db _|]. intros x y z H1 H2 Hx. specialize (H1 Hx).
  etrans; [exact H1|]. apply H2. by eapply socket_ok_changes.
Qed.

(** ** Single writes *)

(** The clauses about tables a write does not touch. *)
Ltac unchanged :=
  match goal with
  | |- option_Forall2 ?R ?x ?y => change (option_Forall2 R x x); apply option_Forall2_refl'; typeclasses eauto
  | |- commands_step _ _ => by apply commands_step_same
  | |- ∃ _, approvals _ !! _ = Some _ ∧ _ => eexists; split_and!; [eassumption|done|done]
  | |- ∃ _, threads _ !! _ = Some _ ∧ _ => eexists; split_and!; [eassumption|done|done]
  | |- ∃ _, event_log _ = _ ∧ _ => exists []; split; [by rewrite app_nil_r|done]
  | |- ∃ _, audit _ = _ ∧ _ => exists []; split; [by rewrite app_nil_r|done]
  | |- _ ∧ _ => exfalso; congruence
  | |- _ = _ => reflexivity
  | |- _ = _ => eassumption
  end.

Ltac single_write := split; simpl; intros; try solve [unchanged].

Section writes.
Context {P : Platform} (c : ActiveDeviceSocket).

Notation dev := (as_device_id c).
Notation owner := (as_owner_user_id c).

Lemma changes_device db d d' :
  devices db !! dev = Some d → device_advances d d' →
  device_changes c db (db <| devices := <[dev := d']> (devices db) |>).
Proof.
  intros Hd Ha. single_write.
  - by rewrite lookup_insert_ne.
  - rewrite lookup_insert_eq, Hd. by constructor.
Qed.

Lemma changes_update_device db f :
  (∀ d, devices db !! dev = Some d → device_advances d (f d)) →
  device_changes c db (db <| devices := alter f dev (devices db) |>).
Proof.
  intros Ha. single_write.
  - by rewrite lookup_alter_ne.
  - rewrite lookup_alter_eq. destruct (devices db !! dev) eqn:E; simpl; constructor. by apply Ha.
Qed.

Lemma changes_connections db f :
  (∀ r, connection_kept (as_connection_nonce c) r (f r)) →
  device_changes c db (db <| connections := f <$> connections db |>).
Proof.
  intros Hf. single_write. rewrite lookup_fmap. destruct (connections db !! i); by constructor.
Qed.

Lemma changes_outbox db O :
  (∀ k, k.1 ≠ dev → O !! k = outbox db !! k) → device_changes c db (db <| outbox := O |>).
Proof. intros HO. single_write. by apply HO. Qed.

Lemma changes_command db id x f :
  commands db !! id = Some x → cmd_device_id x = dev → command_evolves x (f x) →
  device_changes c db (db <| commands := alter f id (commands db) |>).
Proof.
  intros Hx Hd He. single_write.
  - by eapply commands_step_update.
  - rewrite lookup_alter_ne; [done|]. intros ->. congruence.
Qed.

Lemma changes_approval db id a f :
  approvals db !! id = Some a → ap_device_id a = dev → approval_evolves a (f a) →
  device_changes c db (db <| approvals := alter f id (approvals db) |>).
Proof.
  intros Ha Hd He. single_write.
  - destruct (base.decide (id = i)) as [->|Hne].
    + rewrite lookup_alter_eq, Ha. simpl. simplify_eq. eexists. split_and!; [done|done|].
      intros Hn. congruence.
    + rewrite lookup_alter_ne by done. by eexists.
  - apply lookup_alter_Some in H0 as [(-> & a0 & Ha0 & ->)|[Hne H0]]; congruence.
Qed.

Lemma changes_new_approval db id a :
  approvals db !! id = None → ap_device_id a = dev → ap_owner_user_id a = owner →
  device_changes c db (db <| approvals := <[id := a]> (approvals db) |>).
Proof.
  intros Hn Hd Ho. single_write.
  - rewrite lookup_insert_ne by congruence. by eexists.
  - apply lookup_insert_Some in H0 as [[-> ->]|[Hne H0]]; [done|congruence].
Qed.

Lemma changes_thread db id b b' :
  threads db !! id = Some b → tb_device_id b = dev → thread_fixed b b' →
  device_changes c db (db <| threads := <[id := b']> (threads db) |>).
Proof.
  intros Hb Hd Hf. single_write.
  - destruct (base.decide (id = i)) as [->|Hne].
    + rewrite lookup_insert_eq. simplify_eq. eexists. split_and!; [done|done|].
      intros Hn. congruence.
    + rewrite lookup_insert_ne by done. by eexists.
  - apply lookup_insert_Some in H0 as [[-> ->]|[Hne H0]]; congruence.
Qed.

Lemma changes_new_thread db id b :
  threads db !! id = None → tb_device_id b = dev → tb_owner_user_id b = owner →
  device_changes c db (db <| threads := <[id := b]> (threads db) |>).
Proof.
  intros Hn Hd Ho. single_write.
  - rewrite lookup_insert_ne by congruence. by eexists.
  - apply lookup_insert_Some in H0 as [[-> ->]|[Hne H0]]; [done|congruence].
Qed.

(** ** The operations the handlers share *)

Lemma step_append o ty data tb occ :
  body (device_step c) (append o dev ty data tb occ).
Proof.
  intros w. unfold wp, grown.
  unfold append, _allocate_owner_cursor, mbind, tx_bind, query, modify, raise, mret, tx_ret.
  destruct (devices (working w) !! dev) as [d|] eqn:Hd; simpl; [|by split].
  case_bool_decide as Ho; simpl; [|by split].
  destruct (d_last_event_sequence d <? MAX_EVENT_CURSOR); simpl; [|by split].
  assert (Hadv : device_advances d (d <| d_last_event_sequence := d_last_event_sequence d + 1 |>)).
  { split; simpl; try done; try lia. by left. }
  assert (Hgo : ∀ C e, (∀ o', o' ≠ owner → o = owner → C !! o' = cursors (working w) !! o') →
    ev_device_id e = dev → ev_owner_user_id e = o →
    device_step c (working w) ((working w)
      <| devices := <[dev := d <| d_last_event_sequence := d_last_event_sequence d + 1 |>]>
           (devices (working w)) |>
      <| cursors := C |> <| event_log := event_log (working w) ++ [e] |>)).
  { intros C e HC H1 H2 Hs. pose proof (sk_owner _ _ Hs d Hd) as Hown.
    etrans; [by apply (changes_device _ d)|]. single_write.
    - exists [e]. split; [done|]. constructor; [|done]. split; congruence.
    - apply HC; congruence. }
  destruct (cursors (working w) !! o) as [cur|] eqn:Ec; simpl.
  - destruct (oc_last_cursor cur <? MAX_EVENT_CURSOR); simpl; [|by split].
    destruct occ; simpl; (split; [done|]); intros ? _; apply Hgo; try done;
      intros o' Hne ->; by rewrite lookup_insert_ne.
  - destruct occ; simpl; (split; [done|]); intros ? _; apply Hgo; try done;
      intros o' Hne ->; by rewrite lookup_insert_ne.
Qed.

Lemma step_lock_cursor : body (device_step c) (lock_owner_cursor owner).
Proof.
  intros w. split; [done|]. intros n _ Hs. simpl.
  destruct (cursors (working w) !! owner) eqn:Ec; [done|]. single_write.
  by rewrite lookup_insert_ne.
Qed.

Lemma step_audit a b d e f g h i :
  body (device_step c) (add_audit a b (Some dev) d e f g h i).
Proof.
  intros w. split; [done|]. intros n _ Hs. simpl. single_write.
  eexists [_]. split; [done|]. by constructor.
Qed.

(** Writing a thread of the device. *)
Lemma step_save_binding id b b' w :
  threads (working w) !! id = Some b → tb_device_id b = dev → thread_fixed b b' →
  wp (save_binding id b') (grown (device_step c) w) w.
Proof.
  intros Hb Hd Hf. unfold save_binding. wp_step. wp_step. rewrite Hb.
  case_bool_decide; [wp_step; by split|]. destruct (_ =? _).
  - wp_step. wp_step. wp_step. split; [congruence|]. intros _ _ _. rewrite_worlds.
    by eapply changes_thread.
  - wp_step. split; [congruence|]. intros _ _ _. rewrite_worlds. by eapply changes_thread.
Qed.

Lemma step_connection f :
  (∀ r, dc_device_id (f r) = dc_device_id r ∧ dc_connection_nonce (f r) = dc_connection_nonce r) →
  body (device_step c) (update_connection (as_connection_nonce c) f).
Proof.
  intros Hf. apply body_modify. intros db _. apply changes_connections. intros r.
  case_bool_decide; [|done]. destruct (Hf r). split_and!; try done.
Qed.
End writes.

#[export] Hint Resolve step_append step_lock_cursor step_audit : body.

(** ** Applying a frame *)

Section frames.
Context {P : Platform} (c : ActiveDeviceSocket).

Notation dev := (as_device_id c).
Notation owner := (as_owner_user_id c).
Notation step := (device_step c).

Lemma silent_capacity m : silent m → silent (capacity_as_protocol_error m).
Proof. intros Hm. unfold capacity_as_protocol_error. solve_silent. Qed.

Lemma silent_ensure_thread id b : silent (ensure_thread_projection_fits id b).
Proof. unfold ensure_thread_projection_fits, ensure_fits. solve_silent. Qed.

Hint Resolve silent_capacity silent_ensure_thread : silent.

Lemma silent_snapshot_from_result r current : silent (_snapshot_from_result r current).
Proof.
  unfold _snapshot_from_result, compact_snapshot, snapshot_turn, snapshot_item. solve_silent.
Qed.

Lemma silent_append_delta b params : silent (_append_delta b params).
Proof. unfold _append_delta, compact_snapshot. solve_silent. Qed.

(** The new row of an acknowledgement is a row of the same thread. *)
Lemma apply_command_to_binding_fixed b x p epoch w (Q : outcome ThreadBinding → world → Prop) :
  (∀ r w', working w' = working w → durable w' = durable w →
     (∀ b', r = Ok b' → thread_fixed b b') → Q r w') →
  wp (_apply_command_to_binding b x p epoch) Q w.
Proof.
  intros HQ. unfold _apply_command_to_binding.
  assert (Hret : ∀ b', thread_fixed b b' → wp (mret b') Q w).
  { intros b' Hb. apply wp_ret, HQ; try done. by intros ? [= <-]. }
  destruct (cmd_status x); try (by apply Hret).
  case_bool_decide; [apply Hret; by destruct (_extract_string _ _)|].
  case_bool_decide; [|repeat case_bool_decide; by apply Hret].
  destruct (ack_result p) as [| | | | | |r]; try (by apply Hret).
  wp_step. apply wp_silent.
  { apply silent_try_catch; [apply silent_snapshot_from_result|intros; apply silent_raise]. }
  intros [snap|e] w1 H1 H2; [|by apply HQ].
  destruct (assoc_get _ _); wp_step; apply HQ; try done; by intros ? [= <-].
Qed.

(** Reading a thread through its command, its remote id or an event. *)
Lemma command_binding_spec x db tid b :
  command_binding x db = Some (tid, b) →
  threads db !! tid = Some b ∧ tb_device_id b = cmd_device_id x
  ∧ cmd_thread_binding_id x = Some tid.
Proof.
  unfold command_binding. intros H. apply bind_Some in H as (t & Ht & H).
  apply bind_Some in H as (b' & Hb & H). destruct (_ && _) eqn:E; simplify_eq. reflect_bools.
  split_and!; done.
Qed.

Lemma head_select_row {V} (f : uuid → V → bool) (m : gmap uuid V) id v :
  head (select_rows f m) = Some (id, v) → m !! id = Some v ∧ f id v = true.
Proof.
  intros H. apply head_Some_elem_of in H. by apply elem_of_select_rows in H.
Qed.

Lemma step_flush_binding id b b' w :
  threads (working w) !! id = Some b → tb_device_id b = dev → thread_fixed b b' →
  wp (flush_binding id b') (grown step w) w.
Proof.
  intros Hb Hd Hf. unfold flush_binding. wp_step. wp_step. do 2 wp_step; [by split|].
  do 2 wp_step; [by split|]. by eapply step_save_binding.
Qed.

Lemma step_append_thread tid : body step (append_thread_updated c tid).
Proof. unfold append_thread_updated, current_thread_data. solve_body. Qed.

Lemma step_ack_binding e p x :
  cmd_device_id x = dev → body step (ack_binding c e p x).
Proof.
  intros Hx w. unfold ack_binding. wp_step. wp_step.
  destruct (command_binding x (working w)) as [[tid b]|] eqn:Hb; [|by wp_step].
  apply command_binding_spec in Hb as (Hb & Hd & _).
  destruct (_ || _); [|by wp_step]. wp_step. apply apply_command_to_binding_fixed.
  intros [b'|x'] w1 Hw1 Hd1 Hf; [|by split]. wp_step.
  apply wp_silent; [solve_silent|].
  intros [u|x'] w2 Hw2 Hd2; [|split; [congruence|done]]. wp_step.
  eapply wp_mono; [apply (step_flush_binding _ b); [congruence|congruence|by apply Hf]|].
  intros [u'|x'] w3 [Hd3 Hr3]; [|split; [congruence|done]]. wp_step. split; [congruence|].
  intros ? _. specialize (Hr3 u' eq_refl). by rewrite Hw2, Hw1 in Hr3.
Qed.

Lemma step_project_one d epoch t s raw : body step (project_one dev d owner epoch t s raw).
Proof.
  intros w. unfold project_one. destruct raw as [| | | | | |l]; try by wp_step.
  destruct (_ || _); [by wp_step|]. wp_step. wp_step.
  destruct (remote_binding _ _ _ _) as [[id b]|] eqn:Hb.
  - apply head_select_row in Hb as [Hb Hg]. reflect_bools.
    destruct (_ && _); [by wp_step|]. wp_step.
    apply wp_silent; [solve_silent|].
    intros [u|x] w1 Hv1 Hv2; [|by split]. wp_step.
    eapply wp_mono; [apply (step_save_binding c _ b); [congruence|done|done]|].
    intros [u'|x'] w3 [Hd3 Hr3]; [|split; [congruence|done]]. wp_step. split; [congruence|].
    intros ? _. specialize (Hr3 u' eq_refl). by rewrite Hv1 in Hr3.
  - destruct (_ || _); [by wp_step|]. wp_step. wp_step. wp_step.
    apply wp_silent.
    { solve_silent. }
    intros [[]|x] w2 Hv1 Hv2; [| |split; [congruence|done]].
    2:{ wp_step. split; [congruence|]. intros _ _. by rewrite Hv1, Hw. }
    wp_step. unfold insert_binding. wp_step. wp_step. do 2 wp_step; [split; [congruence|done]|].
    apply orb_false_iff in Hguard as [Hfree _]. reflect_bools. wp_step. wp_step.
    split; [congruence|]. intros _ _ _. rewrite_worlds. apply changes_new_thread; try done.
    destruct (threads _ !! u) eqn:E; [|done]. destruct Hfree. by eexists.
Qed.

Lemma step_project_list d epoch result t : body step (_project_thread_list dev d owner epoch result t).
Proof.
  unfold _project_thread_list. destruct (list_candidates result); [|solve_body].
  apply body_bind; [apply _|solve_body|intros visible].
  apply body_bind; [apply _|solve_body|intros total].
  apply body_bind; [apply _| |intros s; solve_body].
  apply body_fold_tx; [apply _|]. intros. apply step_project_one.
Qed.

Lemma step_catalog C t :
  body step (update_device dev (λ d, d <| d_model_catalog := C |> <| d_model_catalog_updated_at := t |>)).
Proof.
  apply body_modify. intros db _. apply changes_update_device. intros d _.
  split; simpl; done || by left.
Qed.

Hint Resolve step_append_thread step_project_list step_catalog : body.

Lemma owned_command_spec id db x :
  owned_command c id db = Some x →
  commands db !! id = Some x ∧ cmd_device_id x = dev ∧ cmd_owner_user_id x = owner.
Proof.
  unfold owned_command. intros H. apply bind_Some in H as (y & Hy & H).
  destruct (_ && _) eqn:E; simplify_eq. by reflect_bools.
Qed.

(** An outstanding command may be acknowledged, an indeterminate one refined. *)
Lemma acknowledge_evolves p t x :
  outstanding (cmd_status x) = true → command_evolves x (acknowledge_command p t x).
Proof.
  intros Ho. assert (Hst : cmd_status (acknowledge_command p t x) = ack_status (ca_state p)).
  { unfold acknowledge_command. by destruct (ack_terminal _), (ack_error p). }
  split; [|rewrite Hst|by rewrite Ho].
  - unfold acknowledge_command. by destruct (ack_terminal _), (ack_error p).
  - destruct (cmd_status x), (ca_state p); simpl in *; done || lia.
Qed.

Lemma refine_evolves p t x :
  is_indeterminate x = true → ack_terminal (ca_state p) = true →
  command_evolves x (refine_command p t x).
Proof.
  unfold is_indeterminate. intros Hi Ht. reflect_bools. split; [done| |].
  - simpl. destruct (cmd_status x), (ca_state p); simpl in *; done || lia.
  - intros _ Hn. by destruct Hn.
Qed.

(** After an update of a command of the device, the rest of a body. *)
Lemma step_update_command {A} id x f (k : unit → tx A) w :
  commands (working w) !! id = Some x → cmd_device_id x = dev → command_evolves x (f x) →
  body step (k tt) → wp (update_command id f ≫= k) (grown step w) w.
Proof.
  intros Hx Hd He Hk. unfold update_command. wp_step. wp_step.
  apply (wp_body_after step); [done| |done].
  intros _. rewrite_worlds. by eapply changes_command.
Qed.

Lemma step_command_ack e : body step (_apply_command_ack_tx c e).
Proof.
  intros w. unfold _apply_command_ack_tx.
  destruct (read_command_ack (en_payload e)) as [p|]; [|by wp_step].
  wp_step. wp_step. do 2 wp_step.
  destruct (owned_device c _) as [d|] eqn:Hdev; [|wp_step; split; [done|by rewrite Hw]].
  wp_step. eapply wp_body; [apply step_lock_cursor|]. intros [n|x] w1 [Hd1 Hr1]; [|split; [congruence|done]].
  specialize (Hr1 n eq_refl). rewrite Hw in Hr1. rewrite Hd in Hd1. do 2 wp_step.
  destruct (owned_command c _ _) as [x|] eqn:Hx; [|wp_step; split; [done|by intros]].
  apply owned_command_spec in Hx as (Hx & Hxd & _).
  do 2 wp_step; [by split|]. eapply wp_mono; [|intros r w'; by apply (grown_trans step)].
  destruct (bool_decide (en_epoch e = as_epoch c)).
  - unfold ack_current_epoch. destruct (outstanding (cmd_status x)) eqn:Ho; cbn [negb]; [|by wp_step].
    apply (step_update_command _ x); [done|done|by apply acknowledge_evolves|].
    assert (Hdx : cmd_device_id (acknowledge_command p t x) = dev).
    { rewrite <- Hxd. apply (sc_device x), ce_same. by apply acknowledge_evolves. }
    pose proof (step_ack_binding e p _ Hdx). solve_body.
  - unfold ack_replaced_epoch. destruct (_ && _) eqn:Hi; [|by wp_step].
    apply andb_true_iff in Hi as [Hi Ht].
    apply (step_update_command _ x); [done|done|by apply refine_evolves|]. solve_body.
Qed.

Lemma project_event_fixed id b method params w (Q : outcome EventProjection → world → Prop) :
  (∀ r w', working w' = working w → durable w' = durable w →
     (∀ pr, r = Ok pr → thread_fixed b (ep_binding pr)) → Q r w') →
  wp (project_event id b method params) Q w.
Proof.
  intros HQ. unfold project_event.
  assert (Hret : ∀ pr, thread_fixed b (ep_binding pr) → wp (mret pr) Q w).
  { intros pr Hb. apply wp_ret, HQ; try done. by intros ? [= <-]. }
  case_bool_decide; [apply Hret; by destruct (_extract_string _ _)|].
  do 3 (case_bool_decide; [by apply Hret|]).
  case_bool_decide; [|case_bool_decide; by apply Hret].
  wp_step. apply wp_silent; [apply silent_append_delta|].
  intros [r|x] w1 H1' H2'; [|by apply HQ]. wp_step. apply HQ; try done.
  intros pr [= <-]. by destruct r as [[[] ?]|].
Qed.

Lemma step_device_event e : body step (_apply_device_event_tx c e).
Proof.
  intros w. unfold _apply_device_event_tx. destruct (read_event (en_payload e)) as [ev|]; [|by wp_step].
  do 2 wp_step; [by split|]. do 2 wp_step.
  destruct (owned_device c _) as [d|]; [|by wp_step].
  wp_step. eapply wp_body; [apply step_lock_cursor|]. intros [n|x] w1 [Hd1 Hr1]; [|split; [congruence|done]].
  specialize (Hr1 n eq_refl). eapply wp_mono; [|intros r w'; by apply (grown_trans step)].
  clear Hr1 Hd1 w. rename w1 into w.
  assert (Hnone : wp (mret no_effects) (λ (r : outcome FrameEffects) w', grown step w r w') w) by by wp_step.
  wp_step. destruct (_extract_string _ _) as [remote|]; [|wp_step; exact Hnone]. wp_step.
  destruct (event_binding c (en_epoch e) remote (working w)) as [[tid b]|] eqn:Hb; [|exact Hnone].
  apply head_select_row in Hb as [Hb Hg]. reflect_bools.
  wp_step. apply project_event_fixed. intros [pr|x] w1 Hw1 Hd1 Hf; [|by split].
  do 2 wp_step. wp_step. apply wp_silent; [solve_silent|].
  intros [u|x] w2 Hw2 Hd2; [|split; [congruence|done]]. wp_step.
  eapply wp_mono; [apply (step_flush_binding _ b); [rewrite Hw2; rewrite_worlds; exact Hb|done|by apply Hf]|].
  intros [u'|x'] w3 [Hd3 Hr3]; [|split; [congruence|done]]. specialize (Hr3 u' eq_refl).
  rewrite Hw2, Hw in Hr3. apply (wp_body_after step); [|exact Hr3|congruence].
  unfold current_thread_data. solve_body.
Qed.

(** The approval a request becomes belongs to the device and its owner. *)
Lemma admit_approval_own d epoch p command_id t w
    (Q : outcome (option pystr * Approval) → world → Prop) :
  (∀ r w', working w' = working w → durable w' = durable w →
     (∀ reason a, r = Ok (reason, a) → ap_device_id a = dev ∧ ap_owner_user_id a = owner) → Q r w') →
  wp (admit_approval c d epoch p command_id t) Q w.
Proof.
  intros HQ. unfold admit_approval. wp_step. apply wp_silent.
  { unfold approval_capacity_denial_reason_locked. solve_silent. }
  intros [[reason|]|x] w1 Hw1 Hd1; [| |by apply HQ].
  { wp_step. apply HQ; try done. by intros ? ? [= <- <-]. }
  wp_step. wp_step. apply wp_silent; [unfold ensure_approval_projection_fits, approval_item, ensure_fits; solve_silent|].
  intros [u|x] w2 Hw2 Hd2.
  - wp_step. apply HQ; [congruence..|]. by intros ? ? [= <- <-].
  - assert (Hx : wp (raise x) Q w2) by (wp_step; apply HQ; [congruence..|done]).
    destruct x; try exact Hx. wp_step. apply HQ; [congruence..|]. by intros ? ? [= <- <-].
Qed.

Lemma requesting_command_spec epoch text db id x :
  requesting_command c epoch text db = Some (id, x) →
  commands db !! id = Some x ∧ cmd_device_id x = dev ∧ cmd_appserver_epoch x = Some epoch.
Proof.
  unfold requesting_command. intros H. apply bind_Some in H as (i & _ & H).
  apply bind_Some in H as (y & Hy & H). destruct (_ && _) eqn:E; simplify_eq. by reflect_bools.
Qed.

Lemma waiting_binding_spec epoch command db tid b :
  waiting_binding epoch command db = Some (tid, b) →
  ∃ id x, command = Some (id, x) ∧ cmd_thread_binding_id x = Some tid
    ∧ threads db !! tid = Some b ∧ tb_appserver_epoch b = epoch.
Proof.
  unfold waiting_binding. intros H. apply bind_Some in H as ([id x] & -> & H).
  apply bind_Some in H as (t & Ht & H). apply bind_Some in H as (b' & Hb & H).
  case_bool_decide; simplify_eq. eauto 6.
Qed.

Lemma body_anything_save id b : body anything (save_binding id b).
Proof. unfold save_binding. solve_body. Qed.
Hint Resolve body_anything_save : body.

Lemma silent_admit_approval d epoch p command_id t : silent (admit_approval c d epoch p command_id t).
Proof.
  unfold admit_approval, approval_capacity_denial_reason_locked, ensure_approval_projection_fits,
    approval_item, ensure_fits. solve_silent.
Qed.

Lemma body_anything_store_approval d e p t : body anything (store_approval c d e p t).
Proof.
  unfold store_approval, append_thread_updated, current_thread_data.
  pose proof silent_admit_approval. solve_body.
Qed.

Lemma step_store_approval d e p t w :
  approvals (working w) !! ar_approval_id p = None → socket_ok c (working w) →
  wp (store_approval c d e p t) (grown step w) w.
Proof.
  intros Hfree Hok. unfold store_approval. wp_step. wp_step.
  set (command := requesting_command c _ _ _).
  wp_step. apply admit_approval_own. intros [[reason a]|x] w1 Hw1 Hd1 Ha; [|by split].
  destruct (Ha reason a eq_refl) as [Hdev Hown]. wp_step. wp_step.
  assert (H0 : step (working w) (working w0)).
  { intros _. rewrite Hw. by apply changes_new_approval. }
  assert (Hd' : durable w0 = durable w) by congruence.
  assert (Hrest : ∀ updated, body step (
    add_audit (Some owner) None (Some dev) "approval.request"
      (match reason with None => AoSucceeded | Some _ => AoDenied end)
      "approval" (uuid_str (ar_approval_id p)) no_metadata
      (JObj [("kind", JStr (ar_kind p)); ("epoch", JStr (en_epoch e));
             ("default_deny_reason", opt_str reason)]);;
    event ←
      match reason with
      | None =>
          data ← approval_item (ar_approval_id p) a d;
          append owner dev ApprovalCreated data None None
      | Some reason =>
          append owner dev ApprovalResolved
            (JObj [("approval_id", JStr (uuid_str (ar_approval_id p))); ("decision", JStr "deny");
                   ("reason", JStr reason)]) None None
      end;
    thread_events ← match updated with
                    | Some tid => e ← append_thread_updated c tid; mret [e]
                    | None => mret []
                    end;
    mret {| fe_browser_events := event :: thread_events;
            fe_approval_dispatches :=
              match reason with Some _ => [ar_approval_id p] | None => [] end;
            fe_command_transitions := [];
            fe_approval_outcomes :=
              match reason with
              | Some reason => [(("denied" : pystr), reason)]
              | None => [(("requested" : pystr), ("device_request" : pystr))]
              end |})) by (intros; solve_body).
  wp_step. destruct reason as [reason|].
  { wp_step. apply (wp_body_after step); [apply (Hrest None)|done|done]. }
  wp_step. wp_step. destruct (waiting_binding _ _ _) as [[tid b]|] eqn:Hwait.
  2:{ wp_step. apply (wp_body_after step); [apply (Hrest None)|done|done]. }
  apply waiting_binding_spec in Hwait as (id & x & Hcmd & Hbind & Hb & _).
  apply requesting_command_spec in Hcmd as (Hx & Hxd & _).
  wp_step. eapply wp_mono; [apply (step_save_binding c _ b); [|by eapply sk_threads|done]|].
  { rewrite Hw. exact Hb. }
  intros [u|x'] w3 [Hd3 Hr3]; [|split; [congruence|done]]. specialize (Hr3 u eq_refl).
  wp_step. apply (wp_body_after step); [apply (Hrest (Some tid))|by etrans|congruence].
Qed.

(** The relation is only claimed of views in which the socket is as it was
    opened. *)
Lemma body_device {A} (m : tx A) :
  body anything m → (∀ w, socket_ok c (working w) → wp m (grown step w) w) → body step m.
Proof.
  intros Hm Hpre w. destruct (Hm w) as [Hd _]. split; [done|]. intros a Ha Hp.
  destruct (Hpre w Hp) as [_ H]. by eapply H.
Qed.

Lemma silent_record_capacity :
  silent (capacity_as_protocol_error (ensure_approval_record_capacity_locked owner dev)).
Proof. apply silent_capacity. unfold ensure_approval_record_capacity_locked. solve_silent. Qed.

Lemma step_approval_request e : body step (_apply_approval_request_tx c e).
Proof.
  apply body_device.
  { pose proof body_anything_store_approval. pose proof silent_record_capacity.
    unfold _apply_approval_request_tx. solve_body. }
  intros w Hok. unfold _apply_approval_request_tx.
  destruct (read_approval_request (en_payload e)) as [p|]; [|by wp_step].
  do 2 wp_step. do 2 wp_step. destruct (owned_device c _) as [d|]; [|by wp_step].
  wp_step. eapply wp_body; [apply step_lock_cursor|]. intros [n|x] w1 [Hd1 Hr1]; [|split; [congruence|done]].
  specialize (Hr1 n eq_refl). rewrite Hw in Hr1. do 2 wp_step.
  destruct (approvals (working w1) !! ar_approval_id p) as [a|] eqn:Ha.
  { do 2 wp_step; [split; [congruence|done]|]. do 2 wp_step; [split; [congruence|done]|].
    wp_step. split; [congruence|]. by intros _ _. }
  wp_step. apply wp_silent; [apply silent_record_capacity|].
  intros [u|x] w2 Hw2 Hd2; [|split; [congruence|done]]. rewrite <- Hw2 in Hr1, Ha.
  eapply wp_mono; [|intros r w'; apply (grown_trans step); [exact Hr1|congruence]].
  apply step_store_approval; [done|]. eapply socket_ok_changes; [exact Hok|by apply Hr1].
Qed.

Lemma step_device_frame e stale : body step (_apply_device_frame_tx c e stale).
Proof.
  pose proof (step_command_ack e). pose proof (step_device_event e).
  pose proof (step_approval_request e).
  unfold _apply_device_frame_tx, _apply_stale_device_frame_tx, validated, record_protocol_error.
  solve_body.
Qed.
End frames.

#[export] Hint Resolve silent_capacity silent_ensure_thread silent_snapshot_from_result
  silent_append_delta silent_admit_approval silent_record_capacity : silent.
#[export] Hint Resolve step_append_thread step_project_list step_catalog body_anything_save : body.
