(* ===== verification/FrameSafety.v ===== *)
(** * The transaction of a device frame

    [_process_device_frame] runs [frame_transaction]; its effect on the committed
    state is one [device_changes], and the receive cursor behaves as the cursor
    of an in-order, at-most-once receiver. *)

From stdpp Require Import base list gmap.
From Stdlib Require Import NArith ZArith Lia.
From S2P Require Import Prelude Config Json Paths Models Storage World Testbed Wire Budget Snapshot.
From S2P Require Import Events Capacity Commands Approvals Outbox Steps Frames Projection.
From S2P Require Import Connections DeviceSafety.
Open Scope Z_scope.

Section frames.
Context {P : Platform} (c : ActiveDeviceSocket).

Notation dev := (as_device_id c).
Notation owner := (as_owner_user_id c).
Notation step := (device_step c).

(** ** The transaction of a frame *)

(** Acknowledging the outbox only writes frames of the device. *)
Lemma step_ack_outbox a t : body step (_ack_outbox_locked dev a t).
Proof.
  unfold _ack_outbox_locked. apply body_bind; [apply _|solve_body|intros bad].
  apply body_bind; [apply _|solve_body|intros _].
  apply body_bind; [apply _| |intros _; apply body_bind; [apply _|solve_body|intros latest]].
  - apply body_modify. intros db _. apply changes_outbox. intros k Hk.
    rewrite map_lookup_imap. destruct (outbox db !! k) as [f|]; [|done]. simpl.
    unfold mark_acked, frame_of. by rewrite bool_decide_false.
  - destruct latest as [l|]; [|solve_body]. apply body_modify. intros db _. apply changes_outbox.
    intros k Hk. destruct (outbox db !! k) as [f|] eqn:Hf.
    + apply map_lookup_filter_Some. split; [done|]. simpl. unfold frame_of. by rewrite bool_decide_false.
    + apply map_lookup_filter_None. by left.
Qed.

Lemma step_seen t : body step (update_device dev (λ d, d <| d_last_seen_at := Some t |>)).
Proof.
  apply body_modify. intros db _. apply changes_update_device. intros d _.
  split; simpl; done || by left.
Qed.

(** The device row keeps its cursors while a frame is applied. *)
Definition link_kept (db db' : database) : Prop :=
  ∀ d, devices db !! dev = Some d →
    ∃ d', devices db' !! dev = Some d'
      ∧ d_last_device_sequence d' = d_last_device_sequence d
      ∧ d_last_server_sequence d' = d_last_server_sequence d
      ∧ d_last_server_acked_sequence d' = d_last_server_acked_sequence d
      ∧ d_status d' = d_status d
      ∧ connection_active c d' = connection_active c d.

#[export] Instance link_kept_rel : EventRel link_kept.
Proof.
  split; [split|].
  - intros db d Hd. by exists d.
  - intros x y z H1 H2 d Hd. destruct (H1 d Hd) as (d1 & Hd1 & E1 & E2 & E3 & E4 & E5).
    destruct (H2 d1 Hd1) as (d2 & Hd2 & F1 & F2 & F3 & F4 & F5).
    exists d2. split_and!; congruence.
  - intros db db' H d Hd. destruct (event_update_device _ _ _ _ H Hd) as (d' & Hd' & Hc).
    exists d'. split; [done|]. by rewrite Hc.
Qed.

Lemma link_same db db' : devices db' = devices db → link_kept db db'.
Proof. intros E d Hd. exists d. by rewrite E. Qed.

Lemma link_save_binding id b : body link_kept (save_binding id b).
Proof. unfold save_binding. solve_body; by apply link_same. Qed.
Hint Resolve link_save_binding : body.

Lemma link_ack_outbox a t : body link_kept (_ack_outbox_locked dev a t).
Proof. unfold _ack_outbox_locked. solve_body; by apply link_same. Qed.

Lemma link_catalog C t :
  body link_kept (update_device dev (λ d, d <| d_model_catalog := C |> <| d_model_catalog_updated_at := t |>)).
Proof.
  apply body_modify. intros db d Hd. eexists. simpl. rewrite lookup_alter_eq, Hd. simpl.
  split; [done|]. done.
Qed.
Hint Resolve link_catalog : body.

Lemma link_device_frame e stale : body link_kept (_apply_device_frame_tx c e stale).
Proof.
  pose proof silent_admit_approval. pose proof silent_record_capacity.
  assert (Hproj : ∀ id b m ps, silent (project_event id b m ps)).
  { intros. unfold project_event. pose proof silent_append_delta. solve_silent. }
  assert (Hcmd : ∀ b x p ep, silent (_apply_command_to_binding b x p ep)).
  { intros b x p ep w. apply (apply_command_to_binding_fixed b x p ep w
      (λ _ w', working w' = working w ∧ durable w' = durable w)). by intros. }
  unfold _apply_device_frame_tx, _apply_stale_device_frame_tx, validated, record_protocol_error,
    _apply_command_ack_tx, _apply_device_event_tx, _apply_approval_request_tx, ack_current_epoch,
    ack_replaced_epoch, ack_binding, _project_thread_list, project_one, store_approval,
    append_thread_updated, flush_binding, insert_binding, current_thread_data, update_command.
  solve_body; by apply link_same.
Qed.

Lemma current_connection_spec db d :
  current_connection c dev db = Some d → devices db !! dev = Some d ∧ connection_active c d = true.
Proof.
  unfold current_connection. intros H. apply bind_Some in H as (d' & Hd & H).
  destruct (connection_active c d') eqn:E; simplify_eq. done.
Qed.

(** Moving the receive cursor of the row one step. *)
Lemma changes_received d n db :
  devices db !! dev = Some d → d_last_device_sequence d ≤ n →
  device_changes c db (db <| devices := alter (λ d, d <| d_last_device_sequence := n |>) dev (devices db) |>).
Proof.
  intros Hd Hn. apply changes_update_device. intros d' Hd'. simplify_eq.
  split; simpl; done || lia || by left.
Qed.

Lemma step_frame_transaction e t : settles step (frame_transaction c e t).
Proof.
  intros w. unfold frame_transaction. do 2 wp_step.
  destruct (current_connection c dev (working w)) as [d|] eqn:Hcur; [|wp_step; by left].
  apply current_connection_spec in Hcur as [Hd _].
  do 2 wp_step; [by left|].
  wp_step. apply wp_silent; [solve_silent|]. intros [answer|x] w1 Hw1 Hd1; [|by left].
  do 2 wp_step; [by left|].
  (* the acknowledgement *)
  wp_step. eapply (wp_mono _ (λ r w', durable w' = durable w ∧ ∀ a, r = Ok a →
    step (working w) (working w')
    ∧ ∃ d', devices (working w') !! dev = Some d'
        ∧ d_last_device_sequence d' = d_last_device_sequence d)).
  { destruct (match en_ack e with
              | Some a => if d_last_server_acked_sequence d <? a then Some a else None
              | None => None end) as [a|] eqn:Hack.
    - unfold update_device at 1. wp_step. wp_step.
      assert (Hlt : d_last_server_acked_sequence d < a).
      { destruct (en_ack e) as [a'|]; [|done]. destruct (d_last_server_acked_sequence d <? a') eqn:E; simplify_eq. by reflect_bools. }
      assert (H1 : step (working w) (working w0)).
      { intros _. rewrite_worlds. apply changes_update_device. intros d' Hd'. simplify_eq.
        split; simpl; done || lia || by left. }
      assert (H2 : ∃ d', devices (working w0) !! dev = Some d'
        ∧ d_last_device_sequence d' = d_last_device_sequence d).
      { rewrite_worlds. simpl. rewrite lookup_alter_eq, Hd. simpl. eauto. }
      destruct H2 as (d1 & Hd' & Hseq).
      eapply wp_body_both; [apply step_ack_outbox|apply link_ack_outbox|].
      intros r w2 Hdur Hr. split; [congruence|]. intros u ->. destruct (Hr u eq_refl) as [Hr1 Hr2].
      split; [by etrans|]. destruct (Hr2 d1 Hd') as (d2 & Hd2 & E & _). exists d2. split; [done|congruence].
    - wp_step. split; [congruence|]. intros u _. rewrite Hw1. split; [done|]. eauto. }
  intros [u|x] w2 [Hd2 H2]; [|by left]. destruct (H2 u eq_refl) as (Hr2 & d2 & Hdev2 & Hseq2).
  do 2 wp_step; [by left|].
  assert (Hrest : ∀ duplicate (effects : FrameEffects), settles step (
    update_device dev (λ d, d <| d_last_seen_at := Some t |>);;
    update_connection (as_connection_nonce c) (λ r,
      r <| dc_last_heartbeat_at := t |>
        <| dc_last_device_sequence := (if duplicate : bool then d_last_device_sequence d else en_seq e) |>
        <| dc_last_server_acked_sequence := default (d_last_server_acked_sequence d)
             (match en_ack e with
              | Some a => if d_last_server_acked_sequence d <? a then Some a else None
              | None => None
              end) |>);;
    commit;;
    mret (duplicate, answer, effects))).
  { intros duplicate effects. apply settles_bind; [apply _|apply step_seen|intros _].
    apply settles_bind; [apply _|by apply step_connection|intros _].
    apply settles_commit; [apply _|]. apply silent_ret. }
  wp_step. destruct (en_seq e <=? d_last_device_sequence d) eqn:Hdup.
  { wp_step. apply wp_settles_after; [apply _|apply Hrest|done|done]. }
  reflect_bools. cbn [negb andb] in Hguard1. apply negb_false_iff, Z.eqb_eq in Hguard1.
  wp_step. eapply wp_body_both; [apply step_device_frame|apply link_device_frame|].
  intros [effects|x] w3 Hd3 Hr3; [|left; congruence]. destruct (Hr3 effects eq_refl) as [Hs3 Hl3].
  destruct (Hl3 d2 Hdev2) as (d3 & Hdev3 & Hseq3 & _).
  unfold update_device at 1. do 2 wp_step. wp_step.
  apply wp_settles_after; [apply _|apply Hrest| |congruence].
  etrans; [exact Hr2|]. etrans; [exact Hs3|]. intros _. rewrite Hw.
  apply (changes_received d3); [done|]. lia.
Qed.

Lemma silent_publish_effects effects : silent (publish_effects c effects).
Proof.
  unfold publish_effects, publish_event, approval_wake. solve_silent.
Qed.

Lemma silent_refresh : silent (_refresh_registry c).
Proof. unfold _refresh_registry. solve_silent. Qed.

Lemma commits_process_frame e : commits step (_process_device_frame c e).
Proof.
  unfold _process_device_frame. apply commits_bind; [apply _|apply commits_silent; [apply _|solve_silent]|intros _].
  apply commits_bind; [apply _|apply commits_silent; [apply _|solve_silent]|intros t].
  apply commits_bind; [apply _|apply commits_session; [apply _|apply step_frame_transaction]|].
  intros [[duplicate answer] effects]. apply commits_silent; [apply _|].
  apply silent_bind; [apply silent_refresh|intros _].
  apply silent_bind; [apply silent_publish_effects|intros _]. apply silent_ret.
Qed.
End frames.

#[export] Hint Resolve silent_publish_effects silent_refresh : silent.
