(* ===== verification/DispatchSafety.v ===== *)
(** * What dispatching and ending a connection change

    The remaining operations of a device socket satisfy [device_changes] as
    well; a command is sent at most once, only while it is queued, unexpired and
    of the connection's epoch. *)

From stdpp Require Import base list gmap.
From Stdlib Require Import NArith ZArith Lia.
From S2P Require Import Prelude Config Json Paths Models Storage World Testbed Wire Budget Snapshot.
From S2P Require Import Events Capacity Commands Approvals Outbox Steps Frames Projection.
From S2P Require Import Connections Handshake DeviceSafety FrameSafety.
Open Scope Z_scope.

Section dispatch.
Context {P : Platform} (c : ActiveDeviceSocket).

Notation dev := (as_device_id c).
Notation owner := (as_owner_user_id c).
Notation step := (device_step c).

(** ** Writing a frame *)

Lemma changes_persisted d d' f db :
  devices db !! dev = Some d' → d_last_server_sequence d' = d_last_server_sequence d →
  device_changes c db (persisted dev (as_connection_nonce c) (d_last_server_sequence d + 1) f db).
Proof.
  intros Hd Hs.
  set (O := outbox (persisted dev (as_connection_nonce c) (d_last_server_sequence d + 1) f db)).
  set (sent := λ d0 : Device, d0 <| d_last_server_sequence := d_last_server_sequence d + 1 |>).
  set (row := λ r, if bool_decide (dc_connection_nonce r = as_connection_nonce c)
    then r <| dc_last_server_sequence := d_last_server_sequence d + 1 |> else r).
  assert (H1 : device_changes c db (db <| outbox := O |>)).
  { apply changes_outbox. intros k Hk. unfold O, persisted. simpl.
    rewrite lookup_insert_ne by (intros <-; done).
    destruct (outbox db !! k) as [g|] eqn:Hg.
    - apply map_lookup_filter_Some. split; [done|]. simpl. unfold frame_of. by rewrite bool_decide_false.
    - apply map_lookup_filter_None. by left. }
  assert (H2 : ∀ db1, devices db1 = devices db →
    device_changes c db1 (db1 <| devices := alter sent dev (devices db1) |>)).
  { intros db1 E. apply changes_update_device. intros d0 Hd0. rewrite E in Hd0. simplify_eq.
    split; simpl; done || lia || by left. }
  assert (H3 : ∀ db1, device_changes c db1 (db1 <| connections := row <$> connections db1 |>)).
  { intros db1. apply changes_connections. intros r. unfold row. case_bool_decide; [|done].
    by split_and!. }
  etrans; [exact H1|]. etrans; [by apply H2|]. apply H3.
Qed.

(** A frame is written in the middle of a handler: the other tables stay. *)
Definition written (w : world) {A} (r : outcome A) (w' : world) : Prop :=
  durable w' = durable w ∧ ∀ a, r = Ok a → step (working w) (working w')
    ∧ commands (working w') = commands (working w) ∧ approvals (working w') = approvals (working w).

Lemma step_persist d d' ty payload w :
  devices (working w) !! dev = Some d' → d_last_server_sequence d' = d_last_server_sequence d →
  wp (_persist_envelope_locked c d ty payload) (written w) w.
Proof.
  intros Hd Hs. pose proof (persist_run c d ty payload w) as Hrun. cbv zeta in Hrun. unfold wp.
  destruct (_persist_envelope_locked c d ty payload w) as [[[seq enc]|x] w'].
  - destruct Hrun as (f & -> & _ & _ & _ & _ & _ & _ & _ & _ & _ & Hw & Hdur & _).
    split; [done|]. intros a _. simpl. rewrite Hw. split; [|done]. intros _.
    by eapply changes_persisted.
  - destruct Hrun as [Hdur _]. by split.
Qed.

(** The locked device of an active connection. *)
Lemma wp_lock_active (Q : outcome Device → world → Prop) w :
  (∀ e, Q (Raise e) w) →
  (∀ d, devices (working w) !! dev = Some d → d_status d = DsActive → connection_active c d = true →
     Q (Ok d) w) →
  wp (_lock_active_device c) Q w.
Proof.
  intros HR HQ. unfold _lock_active_device. wp_step. wp_step.
  destruct (devices (working w) !! dev) as [d|] eqn:Hd; [|by wp_step].
  destruct (_ && _) eqn:E; [|by wp_step]. reflect_bools. wp_step. by apply HQ.
Qed.

Lemma silent_lock_active : silent (_lock_active_device c).
Proof. unfold _lock_active_device. solve_silent. Qed.

Lemma commits_send frames : commits step (_send_if_active c frames).
Proof.
  unfold _send_if_active. apply commits_session; [apply _|].
  apply settles_body, body_silent; [apply _|].
  apply silent_bind; [apply silent_lock_active|intros]. solve_silent.
Qed.

Lemma commits_send_envelope ty payload : commits step (_send_envelope c ty payload).
Proof.
  unfold _send_envelope. apply commits_bind; [apply _|apply commits_silent; [apply _|solve_silent]|intros _].
  apply commits_bind; [apply _|apply commits_silent; [apply _|solve_silent]|intros _].
  apply commits_bind; [apply _| |].
  2:{ intros r. apply commits_bind; [apply _|apply commits_send|intros _].
      apply commits_silent; [apply _|apply silent_ret]. }
  apply commits_session; [apply _|]. intros w. wp_step. apply wp_lock_active; [by left|].
  intros d Hd _ _. wp_step. eapply wp_mono; [by eapply step_persist|].
  intros [r|x] w1 [Hd1 Hr1]; [|by left]. destruct (Hr1 r eq_refl) as [Hr _].
  apply (wp_settles_after step); [|done|done]. apply settles_commit; [apply _|]. apply silent_ret.
Qed.

(** ** Settling a command *)

Lemma silent_thread_event_data tid b : silent (thread_event_data tid b).
Proof. unfold thread_event_data, thread_summary. solve_silent. Qed.

Lemma repair_fixed b x t ok b' :
  repair_binding_for_terminal_command b x t = (ok, b') → thread_fixed b b'.
Proof. unfold repair_binding_for_terminal_command. destruct (hidden _); by intros [= <- <-]. Qed.

Lemma step_record_rejection id x t action out reason :
  cmd_device_id x = dev →
  body step (_record_terminal_dispatch_rejection id x t action out reason).
Proof.
  intros Hx. unfold _record_terminal_dispatch_rejection. rewrite Hx.
  apply body_bind; [apply _|apply step_audit|intros _].
  apply body_bind; [apply _|apply step_append|intros e].
  intros w. wp_step. wp_step.
  destruct (command_binding x (working w)) as [[tid b]|] eqn:Hb; [|by wp_step].
  apply command_binding_spec in Hb as (Hb & Hd & _).
  destruct (repair_binding_for_terminal_command b x t) as [[] b'] eqn:Hrep; [|by wp_step].
  wp_step. eapply wp_mono; [apply (step_save_binding c _ b); [done|congruence|by eapply repair_fixed]|].
  intros [u|y] w1 [Hd1 Hr1]; [|done]. specialize (Hr1 u eq_refl).
  apply (wp_body_after step); [|done|done].
  apply body_bind; [apply _|apply body_silent; [apply _|apply silent_thread_event_data]|intros data].
  solve_body.
Qed.

Lemma reject_evolves s code msg t x :
  outstanding (cmd_status x) = true → command_rank s = 3 →
  command_evolves x (reject_command s code msg t x).
Proof.
  intros Ho Hs. split; [done| |by rewrite Ho]. simpl. apply outstanding_rank in Ho. lia.
Qed.

Lemma settle_stale_evolves t x :
  outstanding (cmd_status x) = true → command_evolves x (settle_stale t x).
Proof.
  intros Ho. unfold settle_stale. apply outstanding_rank in Ho as Hr.
  case_bool_decide; (split; [done| |by rewrite Ho]); simpl; lia.
Qed.

Lemma dispatch_evolves t x : cmd_status x = CsQueued → command_evolves x (dispatch_command_row t x).
Proof. intros Hq. split; [done| |by rewrite Hq]. simpl. rewrite Hq. simpl. lia. Qed.

Lemma settles_settle_command id x f t action out reason w :
  commands (working w) !! id = Some x → cmd_device_id x = dev → command_evolves x (f x) →
  wp (settle_command id x f t action out reason) (settled step w) w.
Proof.
  intros Hx Hd He. unfold settle_command, update_command. do 2 wp_step.
  assert (Hdf : cmd_device_id (f x) = dev) by (rewrite <- Hd; apply (sc_device x), He).
  apply (wp_settles_after step); [| |done].
  - apply settles_bind; [apply _|by apply step_record_rejection|intros events].
    apply settles_commit; [apply _|]. apply silent_ret.
  - intros _. rewrite Hw. by eapply changes_command.
Qed.

Lemma step_dispatch_transaction id : settles step (dispatch_transaction c id).
Proof.
  intros w. unfold dispatch_transaction. wp_step. apply wp_lock_active; [by left|]. intros d Hd _ _.
  wp_step. eapply wp_body_both; [apply (step_lock_cursor c)|apply (body_lock_owner_cursor (link_kept c))|].
  intros [n|x] w1 Hd1 H1; [|by left]. destruct (H1 n eq_refl) as [Hr1 Hl1].
  destruct (Hl1 d Hd) as (d1 & Hdev1 & _ & Hseq1 & _).
  do 2 wp_step. destruct (commands (working w1) !! id) as [x|] eqn:Hx; [|wp_step; by left].
  destruct (_ || _) eqn:Hg; [wp_step; by left|]. reflect_bools. do 2 wp_step.
  assert (Hbase : ∀ {A} (m : tx A), wp m (settled step w0) w0 → wp m (settled step w) w0).
  { intros A m Hm. eapply wp_mono; [exact Hm|]. intros r w2 [Hs|Hs]; [left; congruence|right].
    rewrite Hw in Hs. by etrans. }
  assert (Hrej : ∀ s code msg action out reason, command_rank s = 3 →
    wp (settle_command id x (reject_command s code msg t) t action out reason) (settled step w) w0).
  { intros s code msg action out reason Hs. apply Hbase, settles_settle_command; [by rewrite Hw|done|].
    apply reject_evolves; [|done]. by match goal with H : cmd_status x = _ |- _ => rewrite H end. }
  destruct (cmd_expires_at x) as [deadline|]; [|by apply Hrej].
  destruct (deadline <=? t); [by apply Hrej|].
  destruct (negb _); [by apply Hrej|].
  destruct (wire_idempotency_key _ _) as [key|]; [|wp_step; left; congruence].
  apply Hbase. wp_step. eapply wp_mono; [apply (step_persist d d1)|].
  { by rewrite Hw. }
  { done. }
  intros [r|y] w2 [Hd2 Hr2]; [|by left]. destruct (Hr2 r eq_refl) as (Hs2 & Hc2 & _).
  unfold update_command. do 2 wp_step.
  apply (wp_settles_after step); [| |congruence].
  - apply settles_commit; [apply _|]. apply silent_ret.
  - rewrite Hw. etrans; [exact Hs2|]. intros _. rewrite_worlds.
    apply (changes_command _ _ _ x); [|done|].
    + rewrite Hc2. exact Hx.
    + apply dispatch_evolves. by match goal with H : cmd_status x = _ |- _ => rewrite H end.
Qed.

Lemma commits_dispatch_command id : commits step (_dispatch_command c id).
Proof.
  unfold _dispatch_command.
  apply commits_bind; [apply _|apply commits_session; [apply _|apply step_dispatch_transaction]|].
  intros [[events encoded] moved].
  apply commits_bind; [apply _|apply commits_silent; [apply _|solve_silent]|intros _].
  apply commits_bind; [apply _|apply commits_silent; [apply _|unfold publish_event; solve_silent]|intros _].
  destruct encoded; [apply commits_send|apply commits_silent; [apply _|apply silent_ret]].
Qed.

Lemma dispatched_evolves t a :
  may_dispatch_decision c a = true → approval_evolves a (a <| ap_decision_dispatched_at := Some t |>).
Proof.
  unfold may_dispatch_decision. intros H. reflect_bools. split; try done; simpl.
  - intros [x Hx] _. congruence.
  - intros Hs. by left.
  - intros Hs. rewrite Hs in *. done.
Qed.

Lemma step_approval_transaction id : settles step (approval_transaction c id).
Proof.
  intros w. unfold approval_transaction. wp_step. apply wp_lock_active; [by left|]. intros d Hd _ _.
  do 2 wp_step. destruct (approvals (working w) !! id) as [a|] eqn:Ha; [|wp_step; by left].
  destruct (may_dispatch_decision c a) eqn:Hmay; cbn [negb]; [|wp_step; by left].
  assert (Hdev : ap_device_id a = dev).
  { unfold may_dispatch_decision in Hmay. by reflect_bools. }
  wp_step. apply wp_silent; [solve_silent|]. intros [at_|x] w1 Hw1 Hd1; [|by left].
  wp_step. eapply wp_mono; [apply (step_persist d d)|].
  { by rewrite Hw1. }
  { done. }
  intros [r|y] w2 [Hd2 Hr2]; [|left; congruence]. destruct (Hr2 r eq_refl) as (Hs2 & _ & Ha2).
  do 2 wp_step. unfold update_approval. do 2 wp_step.
  apply (wp_settles_after step); [| |congruence].
  - apply settles_commit; [apply _|]. apply silent_ret.
  - etrans; [exact Hs2|]. intros _. rewrite_worlds.
    apply (changes_approval _ _ _ a); [by rewrite Ha2|done|by apply dispatched_evolves].
Qed.

Lemma commits_dispatch_approval id : commits step (_dispatch_approval c id).
Proof.
  unfold _dispatch_approval.
  apply commits_bind; [apply _|apply commits_session; [apply _|apply step_approval_transaction]|].
  intros [frame|]; [apply commits_send|apply commits_silent; [apply _|apply silent_ret]].
Qed.

Lemma commits_dispatch_pending : commits step (_dispatch_pending c).
Proof.
  unfold _dispatch_pending. apply commits_bind; [apply _| |].
  { apply commits_session; [apply _|]. apply settles_body, body_silent; [apply _|solve_silent]. }
  intros ids. apply commits_bind; [apply _|apply commits_for_each; [apply _|apply commits_dispatch_command]|].
  intros _. apply commits_for_each; [apply _|apply commits_dispatch_approval].
Qed.
(** ** Denying what a connection leaves behind *)

Lemma approval_binding_spec a db tid b :
  approval_binding a db = Some (tid, b) →
  threads db !! tid = Some b ∧ tb_device_id b = ap_device_id a.
Proof.
  unfold approval_binding. intros H. apply bind_Some in H as (x & _ & H).
  apply bind_Some in H as (t & _ & H). apply bind_Some in H as (b' & Hb & H).
  destruct (_ && _) eqn:E; simplify_eq. by reflect_bools.
Qed.

Lemma step_deny_effects id a d t reason details :
  ap_device_id a = dev → body step (_append_default_deny_effects id a dev d t reason details).
Proof.
  intros Ha. unfold _append_default_deny_effects.
  apply body_bind; [apply _|apply step_audit|intros _].
  apply body_bind; [apply _|apply step_append|intros e].
  intros w. wp_step. wp_step.
  destruct (approval_binding a (working w)) as [[tid b]|] eqn:Hb; [|by wp_step].
  apply approval_binding_spec in Hb as (Hb & Hd).
  destruct (_ && _); [|by wp_step].
  wp_step. eapply wp_mono; [apply (step_save_binding c _ b); [done|congruence|done]|].
  intros [u|y] w1 [Hd1 Hr1]; [|done]. specialize (Hr1 u eq_refl).
  apply (wp_body_after step); [|done|done].
  apply body_bind; [apply _|apply body_silent; [apply _|apply silent_thread_event_data]|intros data].
  solve_body.
Qed.

Lemma changes_deny_all epoch t reason db :
  device_changes c db (db <| approvals :=
    (λ a, if deniable dev epoch a then deny_row t reason a else a) <$> approvals db |>).
Proof.
  assert (Hstep : ∀ a, approval_evolves a (if deniable dev epoch a then deny_row t reason a else a)
    ∧ (ap_device_id a ≠ dev → (if deniable dev epoch a then deny_row t reason a else a) = a)).
  { intros a. destruct (deniable dev epoch a) eqn:E; [|done]. unfold deniable in E. reflect_bools.
    split; [apply deny_evolves; by right|congruence]. }
  single_write.
  - rewrite lookup_fmap, H. simpl. eexists. split; [done|]. apply Hstep.
  - rewrite lookup_fmap, H in H0. done.
Qed.

Lemma step_deny_undispatched d reason audit_reason epoch :
  d_owner_user_id d = owner → body step (_deny_undispatched dev d reason audit_reason epoch).
Proof.
  intros Ho. unfold _deny_undispatched. rewrite Ho.
  apply body_bind; [apply _|solve_body|intros t].
  apply body_bind; [apply _|apply step_lock_cursor|intros _].
  intros w. do 2 wp_step. set (claimed := select_rows _ _).
  apply (wp_body_after step); [|done|done].
  apply body_bind; [apply _|apply body_modify; intros db _; apply changes_deny_all|intros _].
  apply body_fold_in; [apply _|]. intros events [id a] Hin%elem_of_order_by.
  apply elem_of_select_rows in Hin as [_ Hden]. unfold deniable in Hden. reflect_bools.
  apply body_bind; [apply _|by apply step_deny_effects|intros new]. solve_body.
Qed.

(** A session whose handler relies on what the socket was opened with. *)
Lemma commits_session_device {A} (m : tx A) :
  (∀ w, socket_ok c (working w) → wp m (settled (device_changes c) w) w) →
  commits step (with_session m).
Proof.
  intros Hm w Hok. specialize (Hm (w <| working := durable w |>) Hok). unfold wp, settled in Hm.
  unfold with_session. destruct (m _) as [r w']. simpl in *. destruct Hm as [-> | Hm]; done.
Qed.

Lemma wp_changes_after {A} (m : tx A) w w1 :
  settles step m → socket_ok c (working w) → step (working w) (working w1) →
  durable w1 = durable w → wp m (settled (device_changes c) w) w1.
Proof.
  intros Hm Hok H1 H2. eapply wp_mono; [by apply (wp_settles_after step)|].
  intros r w2 [H|H]; [by left|right]. by apply H.
Qed.

Lemma changes_offline db :
  device_changes c db (db <| devices :=
    alter (λ d, d <| d_active_connection_nonce := None |>) dev (devices db) |>).
Proof.
  apply changes_update_device. intros d _. split; simpl; done || by right.
Qed.

Lemma commits_end_transaction reason : commits step (with_session (end_transaction c reason)).
Proof.
  apply commits_session_device. intros w Hok. unfold end_transaction. do 2 wp_step. do 2 wp_step.
  apply wp_changes_after; [|done|done|done].
  assert (Hown : ∀ d, devices (working w) !! dev = Some d → d_owner_user_id d = owner) by apply Hok.
  destruct (devices (working w) !! dev) as [d|].
  - specialize (Hown d eq_refl).
    apply settles_bind; [apply _| |intros _].
    { case_match; [|solve_body]. apply body_bind; [apply _|solve_body|intros t].
      apply body_modify. intros db _. apply changes_connections. intros r. unfold close_connection.
      destruct (_ && _) eqn:E; [|done]. reflect_bools. by split_and!. }
    apply settles_bind; [apply _| |intros events; apply settles_commit; [apply _|apply silent_ret]].
    case_bool_decide; [|solve_body].
    apply body_bind; [apply _|apply body_modify; intros db _; apply changes_offline|intros _].
    apply body_bind; [apply _|by apply step_deny_undispatched|intros denied]. solve_body.
  - apply settles_bind; [apply _| |intros _].
    { case_match; [|solve_body]. apply body_bind; [apply _|solve_body|intros t].
      apply body_modify. intros db _. apply changes_connections. intros r. unfold close_connection.
      destruct (_ && _) eqn:E; [|done]. reflect_bools. by split_and!. }
    apply settles_bind; [apply _|solve_body|intros events; apply settles_commit; [apply _|apply silent_ret]].
Qed.

Lemma commits_end_connection reason : commits step (_end_connection c reason).
Proof.
  unfold _end_connection.
  apply commits_bind; [apply _|apply commits_silent; [apply _|]|intros _].
  { intros w. unfold hub_unregister. by case_bool_decide. }
  apply commits_bind; [apply _|apply commits_silent; [apply _|solve_silent]|intros _].
  apply commits_bind; [apply _|apply commits_end_transaction|intros events].
  apply commits_silent; [apply _|unfold publish_event; solve_silent].
Qed.

(** ** Settling the epochs a hello replaced *)

Lemma same_commands_record id x t action out reason :
  body same_commands (_record_terminal_dispatch_rejection id x t action out reason).
Proof.
  pose proof silent_thread_event_data.
  unfold _record_terminal_dispatch_rejection, save_binding. solve_body; done.
Qed.

(** What a stale command becomes. *)
Definition settled_stale (t : Z) (x x' : Command) : Prop := x' = settle_stale t x.

Lemma wp_reconcile_command t acc id x w :
  commands (working w) !! id = Some x → cmd_device_id x = dev ∧ outstanding (cmd_status x) = true →
  wp (reconcile_command t acc (id, x))
    (λ r w', durable w' = durable w ∧ ∀ a, r = Ok a →
       step (working w) (working w')
       ∧ ∃ x', settled_stale t x x' ∧ commands (working w') = <[id := x']> (commands (working w))) w.
Proof.
  intros Hx [Hd Ho]. unfold reconcile_command, update_command. do 2 wp_step.
  assert (Hdf : cmd_device_id (settle_stale t x) = dev).
  { rewrite <- Hd. by apply (sc_device x), ce_same, settle_stale_evolves. }
  set (record := if bool_decide (cmd_status x = CsQueued) then _ else _).
  assert (H1 : body step record) by (unfold record; case_match; by apply step_record_rejection).
  assert (H2 : body same_commands record) by (unfold record; case_match; apply same_commands_record).
  wp_step. eapply wp_body_both; [exact H1|exact H2|]. intros [events|y] w1 Hd1 Hr1; [|split; [congruence|done]].
  destruct (Hr1 events eq_refl) as [Hs Hc]. wp_step. split; [congruence|]. intros a _. split.
  - etrans; [|exact Hs]. intros _. rewrite Hw. apply (changes_command _ _ _ x); [done|done|].
    by apply settle_stale_evolves.
  - exists (settle_stale t x). split; [done|]. rewrite Hc, Hw. simpl. by apply alter_as_insert.
Qed.

(** What a stale thread becomes; flushing may move its [updated_at]. *)
Definition failed_stale (b b' : ThreadBinding) : Prop :=
  thread_fixed b b' ∧ tb_status b' = TsFailed ∧ tb_active_turn_id b' = None
  ∧ tb_appserver_epoch b' = tb_appserver_epoch b.

Lemma wp_save_failed id b t w :
  threads (working w) !! id = Some b → tb_device_id b = dev →
  wp (save_binding id (fail_thread t b))
    (λ r w', durable w' = durable w ∧ ∀ a, r = Ok a →
       step (working w) (working w')
       ∧ ∃ b', failed_stale b b' ∧ threads (working w') = <[id := b']> (threads (working w))) w.
Proof.
  intros Hb Hd. unfold save_binding. wp_step. wp_step. rewrite Hb.
  assert (Hf : thread_fixed b (fail_thread t b)) by done.
  assert (Hfs : failed_stale b (fail_thread t b)) by done.
  case_bool_decide as Heq.
  - wp_step. split; [done|]. intros a _. split; [done|]. exists b.
    split; [by rewrite Heq in Hfs|by rewrite insert_id].
  - destruct (_ =? _).
    + do 2 wp_step. wp_step. split; [congruence|]. intros a _. rewrite_worlds. split.
      * intros _. by eapply changes_thread.
      * eexists. split; [|reflexivity]. done.
    + wp_step. split; [congruence|]. intros a _. rewrite_worlds. split.
      * intros _. by eapply changes_thread.
      * eexists. split; [|reflexivity]. done.
Qed.

Lemma wp_reconcile_thread d epoch t events id b w :
  d_owner_user_id d = owner → threads (working w) !! id = Some b → tb_device_id b = dev →
  wp (reconcile_thread dev d epoch t events (id, b))
    (λ r w', durable w' = durable w ∧ ∀ a, r = Ok a →
       step (working w) (working w')
       ∧ ∃ b', failed_stale b b' ∧ threads (working w') = <[id := b']> (threads (working w))) w.
Proof.
  intros Ho Hb Hd. unfold reconcile_thread. rewrite Ho. wp_step.
  eapply wp_mono; [by apply wp_save_failed|]. intros [u|y] w1 [Hd1 H1]; [|done].
  destruct (H1 u eq_refl) as (Hs1 & b' & Hf & Hth).
  match goal with |- wp ?m _ _ => assert (Ha : body step m) by solve_body;
    assert (Hb' : body same_threads m) by (solve_body; done) end.
  eapply wp_body_both; [exact Ha|exact Hb'|]. intros r w2 Hd2 Hr. split; [congruence|].
  intros a Hra. destruct (Hr a Hra) as [Hs2 Hth2]. split; [by etrans|]. exists b'.
  split; [done|]. by rewrite Hth2.
Qed.
End dispatch.
