(* ===== verification/SocketSafety.v ===== *)
(** * What a whole device socket changes

    Activation settles the epochs the hello replaced: no command, thread or
    approval of an older app-server epoch stays open.  From its activation to its
    end, whatever the device sends and whatever the dispatch loop is woken for,
    the connection takes the committed state along [device_changes]. *)

From stdpp Require Import base list gmap.
From Stdlib Require Import NArith ZArith Lia.
From S2P Require Import Prelude Config Json Paths Models Storage World Testbed Wire Budget Snapshot.
From S2P Require Import Events Capacity Commands Approvals Outbox Steps Frames Projection.
From S2P Require Import Connections Handshake DeviceSafety FrameSafety DispatchSafety.
Open Scope Z_scope.

(** No thread that is stale under [epoch] appears. *)
Definition no_new_stale (dev : uuid) (d : Device) (epoch : pystr) (db db' : database) : Prop :=
  ∀ id b', threads db' !! id = Some b' → stale_epoch_thread dev d epoch b' = true →
  ∃ b, threads db !! id = Some b ∧ stale_epoch_thread dev d epoch b = true.

#[export] Instance no_new_stale_rel dev d epoch : EventRel (no_new_stale dev d epoch).
Proof.
  split.
  - split; [by intros db id b' ?; eauto|]. intros x y z H1 H2 id b' Hb Hs.
    destruct (H2 id b' Hb Hs) as (b & Hy & Hsy). by eapply H1.
  - intros db db' [] id b' Hb Hs. exists b'. split; [congruence|done].
Qed.

Section socket.
Context {P : Platform} (c : ActiveDeviceSocket).

Notation dev := (as_device_id c).
Notation owner := (as_owner_user_id c).
Notation step := (device_step c).

(** ** Settling the replaced epochs *)

Lemma wp_settle_commands d epoch t w :
  let stale := order_by (by_created_then_id cmd_created_at)
    (select_rows (λ _ x, stale_epoch_command dev d epoch x) (commands (working w))) in
  wp (fold_tx (reconcile_command t) ([], []) stale)
    (λ r w', durable w' = durable w ∧ ∀ a, r = Ok a →
       step (working w) (working w')
       ∧ rows_become (settled_stale t) stale.*1 (commands (working w)) (commands (working w'))) w.
Proof.
  intros stale.
  apply (wp_fold_rows _ commands (λ x, cmd_device_id x = dev ∧ outstanding (cmd_status x) = true)).
  - intros acc id x w1 Hx Hok. by apply wp_reconcile_command.
  - unfold stale. rewrite order_by_perm. apply NoDup_select_keys.
  - intros id x [Hx Hs]%elem_of_order_by%elem_of_select_rows. split; [done|].
    unfold stale_epoch_command in Hs. by reflect_bools.
Qed.

Lemma wp_settle_threads d epoch t events w :
  d_owner_user_id d = owner →
  let stale := order_by (by_created_then_id tb_created_at)
    (select_rows (λ _ b, stale_epoch_thread dev d epoch b) (threads (working w))) in
  wp (fold_tx (reconcile_thread dev d epoch t) events stale)
    (λ r w', durable w' = durable w ∧ ∀ a, r = Ok a →
       step (working w) (working w')
       ∧ rows_become failed_stale stale.*1 (threads (working w)) (threads (working w'))) w.
Proof.
  intros Ho stale. apply (wp_fold_rows _ threads (λ b, tb_device_id b = dev)).
  - intros acc id b w1 Hb Hd. by apply wp_reconcile_thread.
  - unfold stale. rewrite order_by_perm. apply NoDup_select_keys.
  - intros id b [Hb Hs]%elem_of_order_by%elem_of_select_rows. split; [done|].
    unfold stale_epoch_thread in Hs. by reflect_bools.
Qed.

Lemma selected_key {V} (f : V → bool) le (m : gmap uuid V) id v :
  m !! id = Some v →
  id ∈ (order_by le (select_rows (λ _ x, f x) m)).*1 ↔ f v = true.
Proof.
  intros Hv. rewrite list_elem_of_fmap. split.
  - intros ([i x] & -> & [Hx Hf]%elem_of_order_by%elem_of_select_rows). simpl in *. congruence.
  - intros Hf. exists (id, v). split; [done|]. by apply elem_of_order_by, elem_of_select_rows.
Qed.

(** Every stale row is settled, no other one changes. *)
Lemma rows_become_selected {V} (f : V → bool) G le (m m' : gmap uuid V) id v :
  rows_become G (order_by le (select_rows (λ _ x, f x) m)).*1 m m' → m !! id = Some v →
  if f v then ∃ v', m' !! id = Some v' ∧ G v v' else m' !! id = Some v.
Proof.
  intros H Hv. specialize (H id). pose proof (selected_key f le m id v Hv) as Hsel.
  case_decide as Hin.
  - apply Hsel in Hin. rewrite Hin. destruct H as (v1 & v' & H1 & H2 & H3). simplify_eq. eauto.
  - destruct (f v); [by rewrite Hsel in Hin|congruence].
Qed.

Lemma rows_become_new {V} (f : V → bool) G le (m m' : gmap uuid V) id :
  rows_become G (order_by le (select_rows (λ _ x, f x) m)).*1 m m' → m !! id = None → m' !! id = None.
Proof.
  intros H Hn. specialize (H id). case_decide as Hin; [|congruence].
  destruct H as (v1 & _ & H1 & _). congruence.
Qed.

(** What settling the epochs leaves. *)
Record epochs_settled (d : Device) (epoch : pystr) (t : Z) (db db' : database) : Prop := {
  es_commands id x :
    commands db !! id = Some x →
    commands db' !! id = Some (if stale_epoch_command dev d epoch x then settle_stale t x else x);
  es_threads id b : threads db' !! id = Some b → stale_epoch_thread dev d epoch b = false;
  es_approvals : approvals db' = approvals db;
}.

Lemma failed_not_stale d epoch b b' : failed_stale b b' → stale_epoch_thread dev d epoch b' = false.
Proof.
  intros (_ & Hs & _). unfold stale_epoch_thread. rewrite Hs. by rewrite andb_false_r.
Qed.

Lemma same_approvals_reconcile d epoch t :
  body same_approvals (_reconcile_stale_epoch_commands dev d epoch t).
Proof.
  pose proof silent_thread_event_data.
  unfold _reconcile_stale_epoch_commands, reconcile_command, reconcile_thread, update_command,
    _record_terminal_dispatch_rejection, save_binding.
  solve_body; done.
Qed.

Lemma wp_settle_stale d epoch t w :
  d_owner_user_id d = owner →
  wp (_reconcile_stale_epoch_commands dev d epoch t)
    (λ r w', durable w' = durable w ∧ ∀ a, r = Ok a →
       step (working w) (working w')
       ∧ (∀ id x, commands (working w) !! id = Some x →
            commands (working w') !! id =
              Some (if stale_epoch_command dev d epoch x then settle_stale t x else x))
       ∧ (∀ id b, threads (working w') !! id = Some b → stale_epoch_thread dev d epoch b = false)) w.
Proof.
  intros Ho. unfold _reconcile_stale_epoch_commands. rewrite Ho. wp_step.
  eapply wp_mono.
  { apply wp_conj; [apply (step_lock_cursor c)|apply (body_lock_owner_cursor same_commands)]. }
  cbv beta. intros [n|x] w1 [[Hd1 H1] [_ Hc1]]; [|done].
  specialize (H1 n eq_refl). specialize (Hc1 n eq_refl). do 2 wp_step. wp_step.
  eapply wp_mono; [apply wp_settle_commands|]. cbv beta. intros [st|x] w2 [Hd2 H2]; [|split; [congruence|done]].
  destruct (H2 st eq_refl) as [Hs2 Hc2]. do 2 wp_step. wp_step.
  eapply wp_mono.
  { apply wp_conj; [apply (wp_settle_threads _ _ _ _ _ Ho)|].
    apply (body_fold_tx same_commands). intros events [id b].
    unfold reconcile_thread, save_binding. solve_body; done. }
  cbv beta. intros [events|x] w3 [[Hd3 H3] [_ Hc3]]; [|split; [congruence|done]].
  destruct (H3 events eq_refl) as [Hs3 Ht3]. specialize (Hc3 events eq_refl). wp_step.
  split; [congruence|]. intros a _. split_and!.
  - by do 2 (etrans; [eassumption|]).
  - intros id x Hx. rewrite Hc3. rewrite <- Hc1 in Hx.
    pose proof (rows_become_selected _ _ _ _ _ _ _ Hc2 Hx) as H.
    destruct (stale_epoch_command dev d epoch x); [|done]. by destruct H as (x' & Hx' & ->).
  - intros id b' Hb'. destruct (threads (working w2) !! id) as [b|] eqn:Hb.
    + pose proof (rows_become_selected _ _ _ _ _ _ _ Ht3 Hb) as H.
      destruct (stale_epoch_thread dev d epoch b) eqn:Hst.
      * destruct H as (b1 & Hb1 & Hf). simplify_eq. by eapply failed_not_stale.
      * by simplify_eq.
    + rewrite (rows_become_new _ _ _ _ _ _ Ht3 Hb) in Hb'. done.
Qed.

Lemma wp_reconcile d epoch t w :
  d_owner_user_id d = owner →
  wp (_reconcile_stale_epoch_commands dev d epoch t)
    (λ r w', durable w' = durable w ∧ ∀ a, r = Ok a →
       step (working w) (working w') ∧ epochs_settled d epoch t (working w) (working w')) w.
Proof.
  intros Ho. eapply wp_mono.
  { apply wp_conj; [apply (same_approvals_reconcile d epoch t w)|].
    apply (wp_settle_stale d epoch t w Ho). }
  cbv beta. intros r w' [[Hd Ha] [_ Hr]]. split; [done|]. intros a E.
  destruct (Hr a E) as (Hs & Hc & Ht). split; [done|]. split; [done|done|by eapply Ha].
Qed.

Lemma new_stale_same d epoch db db' : threads db' = threads db → no_new_stale dev d epoch db db'.
Proof. intros E id b' Hb' Hs. rewrite E in Hb'. eauto. Qed.

Lemma new_stale_save d epoch id b :
  tb_status b = TsFailed → body (no_new_stale dev d epoch) (save_binding id b).
Proof.
  intros Hb.
  assert (Hins : ∀ T t, no_new_stale dev d epoch T
    (T <| threads := <[id := b <| tb_updated_at := t |>]> (threads T) |>)).
  { intros T t i b' Hi Hs. simpl in Hi. rewrite lookup_insert in Hi. case_decide; [|eauto].
    simplify_eq. unfold stale_epoch_thread in Hs. simpl in Hs. rewrite Hb, andb_false_r in Hs. done. }
  unfold save_binding. solve_body.
  specialize (Hins db (tb_updated_at b)). by destruct b.
Qed.

Lemma new_stale_deny d epoch reason audit_reason e :
  body (no_new_stale dev d epoch) (_deny_undispatched dev d reason audit_reason e).
Proof.
  unfold _deny_undispatched.
  apply body_bind; [apply _|solve_body|intros t].
  apply body_bind; [apply _|solve_body|intros _].
  apply body_bind; [apply _|solve_body|intros claimed].
  apply body_bind; [apply _|apply body_modify; intros db; by apply new_stale_same|intros _].
  apply body_fold_tx; [apply _|]. intros events [id a].
  apply body_bind; [apply _| |intros new; solve_body].
  unfold _append_default_deny_effects.
  apply body_bind; [apply _|solve_body|intros _].
  apply body_bind; [apply _|solve_body|intros ev].
  apply body_bind; [apply _|solve_body|intros [[tid b]|]]; [|solve_body].
  case_match; [|solve_body].
  apply body_bind; [apply _|by apply new_stale_save|intros _].
  apply body_bind; [apply _|apply body_silent; [apply _|apply silent_thread_event_data]|intros data].
  solve_body.
Qed.

(** ** Activation *)

Lemma wp_activation t w :
  socket_ok c (working w) →
  wp (activation_transaction c t)
    (λ r w', durable w' = durable w ∧ (∀ a, r ≠ Ok a)
       ∨ (∃ a, r = Ok a) ∧ device_changes c (working w) (durable w')
         ∧ ∃ d t', current_connection c dev (working w) = Some d
         ∧ (∀ id x, commands (working w) !! id = Some x →
              commands (durable w') !! id =
                Some (if stale_epoch_command dev d (as_epoch c) x then settle_stale t x else x))
         ∧ (∀ id b, threads (durable w') !! id = Some b →
              stale_epoch_thread dev d (as_epoch c) b = false)
         ∧ approvals (durable w') = denied_all dev (Some (as_epoch c)) t'
              "stale_epoch_default_deny" (approvals (working w))) w.
Proof.
  intros Hok. unfold activation_transaction. do 2 wp_step.
  destruct (current_connection c dev (working w)) as [d|] eqn:Hcur; [|wp_step; by left].
  apply current_connection_spec in Hcur as Hd. destruct Hd as [Hd _].
  assert (Ho : d_owner_user_id d = owner) by by apply Hok.
  wp_step. eapply wp_mono; [by apply wp_reconcile|]. cbv beta.
  intros [[[events obs] trans]|x] w1 [Hd1 H1]; [|by left].
  destruct (H1 _ eq_refl) as (Hs1 & [Hc1 Ht1 Ha1]). wp_step.
  eapply wp_mono.
  { unfold deny_stale_epoch. apply wp_conj; [by apply step_deny_undispatched|].
    apply wp_conj; [apply (new_stale_deny d (as_epoch c))|apply deny_undispatched_run]. }
  cbv beta. intros [denied|x] w2 ([Hd2 Hs2] & [_ Hn2] & t' & Ha2 & Hc2 & _ & _); [|left; split; [congruence|done]].
  specialize (Hs2 _ eq_refl). specialize (Hn2 _ eq_refl). rewrite Ho. wp_step.
  eapply wp_mono.
  { apply wp_conj; [apply (step_append c)|].
    apply wp_append. intros r w' Hup Hdur. exact Hup. }
  cbv beta. intros [e|x] w3 ([Hd3 Hs3] & Hup); [|left; split; [congruence|done]].
  specialize (Hs3 _ eq_refl). do 2 wp_step. wp_step. right. rewrite_worlds.
  assert (Hall : step (working w) (working w3)) by by do 2 (etrans; [eassumption|]).
  split; [by eexists|]. split; [by apply Hall|]. exists d, t'. split_and!; [done| | |].
  - intros id x Hx. rewrite (eu_commands _ _ Hup), Hc2. by apply Hc1.
  - intros id b Hb. rewrite (eu_threads _ _ Hup) in Hb.
    destruct (stale_epoch_thread dev d (as_epoch c) b) eqn:Hst; [|done].
    destruct (Hn2 id b Hb Hst) as (b1 & Hb1 & Hst1). rewrite (Ht1 id b1 Hb1) in Hst1. done.
  - by rewrite (eu_approvals _ _ Hup), Ha2, Ha1.
Qed.

Lemma commits_activation t : commits step (with_session (activation_transaction c t)).
Proof.
  apply commits_session_device. intros w Hok. eapply wp_mono; [by apply wp_activation|].
  intros r w' [[Hd _]|(_ & H & _)]; [by left|by right].
Qed.

Lemma silent_close_socket nonce code : silent (close_socket nonce code).
Proof. solve_silent. Qed.

Lemma silent_hub_register m : silent m → silent (hub_register c m).
Proof.
  intros Hm. unfold hub_register. apply silent_bind; [done|intros owned].
  apply silent_bind; [solve_silent|intros _].
  apply silent_bind; [by intros w|intros previous].
  apply silent_bind; [by intros w|intros _]. solve_silent.
Qed.

Lemma commits_activate replaced t : commits step (activate c replaced t).
Proof.
  unfold activate.
  apply commits_bind; [apply _|apply commits_silent; [apply _|apply silent_hub_register; solve_silent]|intros _].
  apply commits_bind; [apply _|apply commits_silent; [apply _|solve_silent]|intros _].
  apply commits_bind; [apply _|apply commits_try_catch; [apply _|apply commits_activation|]|].
  { intros x. apply commits_silent; [apply _|]. unfold reconciliation_failed. solve_silent. }
  intros [[events obs] trans]. apply commits_silent; [apply _|]. unfold publish_event. solve_silent.
Qed.

(** ** Serving *)

Lemma commits_replay_outbox : commits step (_replay_outbox c).
Proof.
  unfold _replay_outbox. apply commits_session; [apply _|]. apply settles_body, body_silent; [apply _|].
  apply silent_bind; [apply silent_lock_active|intros d]. solve_silent.
Qed.

Lemma commits_hello_ack digest : commits step (_send_hello_ack c digest).
Proof.
  unfold _send_hello_ack.
  apply commits_bind; [apply _|apply commits_silent; [apply _|solve_silent]|intros id].
  apply commits_bind; [apply _|apply commits_silent; [apply _|solve_silent]|intros t].
  apply commits_send.
Qed.

Lemma commits_device_dispatch raw : commits step (device_dispatch c raw).
Proof.
  assert (Hs : ∀ b : bool, commits step (mret b)).
  { intros b. apply commits_silent; [apply _|apply silent_ret]. }
  unfold device_dispatch.
  repeat case_match; auto; try (apply commits_silent; [apply _|solve [solve_silent]]);
    (apply commits_bind; [apply _|first [apply commits_dispatch_command|apply commits_dispatch_approval]|auto]).
Qed.

Lemma commits_device_receive raw : commits step (device_receive c raw).
Proof.
  unfold device_receive, _enforce_device_frame_rate.
  apply commits_bind; [apply _|apply commits_silent; [apply _|solve_silent]|intros _].
  apply commits_bind; [apply _|apply commits_silent; [apply _|solve_silent]|intros e].
  apply commits_bind; [apply _|apply commits_silent; [apply _|solve_silent]|intros _].
  apply commits_bind; [apply _|apply commits_process_frame|intros [[[c' dup] stale] answer]].
  apply commits_bind; [apply _| |intros _].
  { repeat case_match; try (apply commits_send); try (apply commits_silent; [apply _|apply silent_ret]).
    apply commits_bind; [apply _|apply commits_send_envelope|intros _].
    apply commits_silent; [apply _|apply silent_ret]. }
  apply commits_bind; [apply _| |intros _; apply commits_silent; [apply _|apply silent_ret]].
  case_match; [apply commits_dispatch_pending|apply commits_silent; [apply _|apply silent_ret]].
Qed.

(** A frame moves only the receive cursor of the socket. *)
Definition same_socket (a b : ActiveDeviceSocket) : Prop :=
  as_device_id a = as_device_id b ∧ as_owner_user_id a = as_owner_user_id b
  ∧ as_connection_nonce a = as_connection_nonce b.
End socket.

Lemma device_step_same a b db db' :
  same_socket a b → device_step a db db' → device_step b db db'.
Proof.
  intros (E1 & E2 & E3) H [H1 H2].
  assert (Hok : socket_ok a db) by (split; rewrite ?E1, ?E2; done).
  destruct (H Hok). split; rewrite <- ?E1, <- ?E2, <- ?E3; done.
Qed.

Section serving.
Context {P : Platform}.

Lemma process_frame_socket c e : returns (λ r, same_socket r.1.1.1 c) (_process_device_frame c e).
Proof.
  unfold _process_device_frame. do 2 (eapply returns_bind; [apply returns_any|intros ? _]).
  eapply returns_bind; [apply returns_any|intros [[dup answer] effects] _].
  do 2 (eapply returns_bind; [apply returns_any|intros ? _]). by apply returns_ret.
Qed.

Lemma device_receive_socket c raw : returns (λ c', same_socket c' c) (device_receive c raw).
Proof.
  unfold device_receive. do 3 (eapply returns_bind; [apply returns_any|intros ? _]).
  eapply returns_bind; [apply process_frame_socket|intros [[[c' dup] stale] answer] H].
  do 2 (eapply returns_bind; [apply returns_any|intros ? _]). by apply returns_ret.
Qed.

Lemma commits_same a b {A} (m : tx A) :
  same_socket a b → commits (device_step a) m → commits (device_step b) m.
Proof. intros Hs Hm w. eapply device_step_same; [exact Hs|apply Hm]. Qed.

Lemma commits_serve c inputs : commits (device_step c) (serve c inputs).
Proof.
  revert c. induction inputs as [|[raw|raw| |code] inputs IH]; intros c; simpl.
  - apply commits_silent; [apply _|apply silent_ret].
  - eapply commits_bind_returns; [apply _|apply commits_device_receive|apply device_receive_socket|].
    intros c' Hs. eapply commits_same; [exact Hs|apply IH].
  - apply commits_bind; [apply _|apply commits_device_dispatch|]. intros [|]; [|apply IH].
    apply commits_silent; [apply _|apply silent_ret].
  - apply commits_silent; [apply _|solve_silent].
  - apply commits_silent; [apply _|apply silent_raise].
Qed.

Lemma commits_run_connection c hello inputs :
  commits (device_step c) (run_connection c hello inputs).
Proof.
  unfold run_connection.
  apply commits_bind; [apply _|apply commits_silent; [apply _|solve_silent]|intros _].
  apply commits_bind; [apply _|apply commits_hello_ack|intros _].
  apply commits_bind; [apply _|apply commits_silent; [apply _|apply silent_refresh]|intros _].
  apply commits_bind; [apply _|apply commits_session; [apply _|]|intros _].
  { apply settles_body, body_silent; [apply _|].
    apply silent_bind; [apply silent_lock_active|intros; apply silent_ret]. }
  apply commits_bind; [apply _|apply commits_replay_outbox|intros _].
  apply commits_bind; [apply _|apply commits_dispatch_pending|intros _]. apply commits_serve.
Qed.
End serving.

(** ** Properties *)

Section properties.
Context {P : Platform}.

(** C2: Whatever a connected device sends, and whatever the dispatch loop is
    woken for, its socket changes only what is its own.  Activating, serving and
    ending a connection take the committed state, on every outcome, along
    [device_changes]: the rows of other devices, other connections, other
    owners' event cursors, the sessions and the pairings are untouched; commands
    and approvals only move forward along their life cycles; new threads and
    approvals belong to the device and its owner; events and audit records are
    only appended, in the name of this device. *)
Theorem socket_isolation c replaced t hello inputs reason w :
  socket_ok c (durable w) →
  device_changes c (durable w) (durable (activate c replaced t w).2)
  ∧ device_changes c (durable w) (durable (run_connection c hello inputs w).2)
  ∧ device_changes c (durable w) (durable (_end_connection c reason w).2).
Proof.
  intros Hok. split_and!; [apply commits_activate|apply commits_run_connection|
    apply commits_end_connection]; exact Hok.
Qed.

(** C9: Activating a connection settles every replaced app-server epoch in one
    transaction: each outstanding command of an older epoch becomes denied when
    it was never sent and failed as indeterminate when it was, no other command
    changes, no thread of an older epoch stays open, and exactly the undecided
    and undispatched approvals of older epochs are denied.  A refusal commits
    nothing. *)
Theorem activation_settles_epochs c t w :
  socket_ok c (durable w) →
  match with_session (activation_transaction c t) w with
  | (Ok _, w') =>
      ∃ d t', current_connection c (as_device_id c) (durable w) = Some d
      ∧ (∀ id x, commands (durable w) !! id = Some x →
           commands (durable w') !! id =
             Some (if stale_epoch_command (as_device_id c) d (as_epoch c) x
                   then settle_stale t x else x))
      ∧ (∀ id b, threads (durable w') !! id = Some b →
           stale_epoch_thread (as_device_id c) d (as_epoch c) b = false)
      ∧ approvals (durable w') = denied_all (as_device_id c) (Some (as_epoch c)) t'
           "stale_epoch_default_deny" (approvals (durable w))
  | (Raise _, w') => durable w' = durable w
  end.
Proof.
  intros Hok. unfold with_session.
  pose proof (wp_activation c t (w <| working := durable w |>) Hok) as H. unfold wp in H.
  destruct (activation_transaction c t _) as [[a|x] w'] eqn:E; simpl in H |- *.
  - destruct H as [[_ H]|(_ & _ & H)]; [by destruct (H a)|exact H].
  - destruct H as [[H _]|[[a H] _]]; done.
Qed.
End properties.

(** A device with a running thread and a dispatched command of a replaced epoch. *)
Definition stale_command : Command :=
  sample_command <| cmd_status := CsDispatched |> <| cmd_appserver_epoch := Some "epoch-0" |>
                 <| cmd_thread_binding_id := Some 3%N |>.

Definition stale_thread : ThreadBinding :=
  {| tb_owner_user_id := "alice"; tb_device_id := 1%N; tb_remote_thread_id := Some "remote-1";
     tb_status := TsRunning; tb_cwd := Some "/srv/app"; tb_title := "fix"; tb_model := "m";
     tb_active_turn_id := None; tb_snapshot := JObj []; tb_last_error := None;
     tb_appserver_epoch := "epoch-0"; tb_created_at := 0; tb_updated_at := 0 |}.

Definition stale_database : database :=
  sample_database <| commands := {[ 7%N := stale_command ]} |>
                  <| threads := {[ 3%N := stale_thread ]} |>.

Lemma stale_socket_ok : socket_ok sample_socket stale_database.
Proof.
  split.
  - intros d Hd. by apply (sample_lookup 1%N d) in Hd as [_ ->].
  - intros i x t b Hi _ Ht Hb.
    apply (lookup_singleton_Some 7%N i stale_command) in Hi as [<- <-].
    injection Ht as <-. by apply (lookup_singleton_Some 3%N 3%N stale_thread) in Hb as [_ <-].
Qed.

Lemma socket_isolation_witness :
  device_changes sample_socket stale_database
    (durable (after (activate sample_socket [] 5) (start_world stale_database))).
Proof.
  apply (socket_isolation sample_socket [] 5
    {| hl_connector_version := "1"; hl_codex_version := "1"; hl_schema_digest := "d";
       hl_public_key := "k"; hl_workspace_roots := []; hl_capabilities := [];
       hl_resumed_from_seq := 0 |} [] "unknown" (start_world stale_database)).
  exact stale_socket_ok.
Defined.

Definition stale_activated : world :=
  after (with_session (activation_transaction sample_socket 5)) (start_world stale_database).

Lemma activation_settles_epochs_witness :
  commands (durable stale_activated) !! 7%N = Some (settle_stale 5 stale_command)
  ∧ cmd_status (settle_stale 5 stale_command) = CsFailed.
Proof.
  pose proof (activation_settles_epochs sample_socket 5 (start_world stale_database)
    stale_socket_ok) as H.
  assert (E : (match (with_session (activation_transaction sample_socket 5)
    (start_world stale_database)).1 with Ok _ => true | Raise _ => false end) = true)
    by (vm_compute; reflexivity).
  unfold stale_activated, after.
  destruct (with_session (activation_transaction sample_socket 5) (start_world stale_database))
    as [[a|x] w']; [|discriminate E].
  destruct H as (d & t' & Hd & Hc & _). split; [|vm_compute; reflexivity].
  etrans; [exact (Hc 7%N stale_command eq_refl)|].
  change (Some sample_device = Some d) in Hd. injection Hd as <-. reflexivity.
Defined.
