(* ===== verification/Receiver.v ===== *)
(** * Device frames are applied once and in order

    The receive side of a connection refines a queue: whatever a device sends,
    repeats, reorders or drops, the frames whose effects are committed carry
    consecutive sequence numbers after the durable receive cursor, each exactly
    once.  A frame of a replaced epoch projects nothing. *)

From stdpp Require Import base list gmap.
From Stdlib Require Import NArith ZArith Lia.
From S2P Require Import Prelude Config Json Paths Models Storage World Testbed Wire Budget Snapshot.
From S2P Require Import Events Capacity Commands Approvals Outbox Steps Frames Projection.
From S2P Require Import Connections Handshake DeviceSafety FrameSafety DispatchSafety SocketSafety.
Open Scope Z_scope.

(** What applying a frame writes of a device row. *)
Definition device_content (d : Device) : list json * option Z * Z :=
  (d_model_catalog d, d_model_catalog_updated_at d, d_last_event_sequence d).

Section receiver.
Context {P : Platform} (c : ActiveDeviceSocket).

Notation dev := (as_device_id c).

(** What frames are applied to; cursors, the outbox and the connection rows are
    the bookkeeping of the transport. *)
Definition content (db : database) :=
  (commands db, threads db, approvals db, event_log db, audit db, cursors db,
   device_content <$> devices db !! dev).

Definition receive_cursor (db : database) : option Z :=
  d_last_device_sequence <$> devices db !! dev.

(** Bookkeeping: no content changes and the receive cursor stays. *)
Definition idle (db db' : database) : Prop :=
  content db' = content db ∧ receive_cursor db' = receive_cursor db.

#[local] Instance idle_preorder : PreOrder idle.
Proof. split; [by intros db|]. intros x y z [H1 H2] [H3 H4]. split; congruence. Qed.

Lemma idle_device f db :
  (∀ d, device_content (f d) = device_content d ∧ d_last_device_sequence (f d) = d_last_device_sequence d) →
  idle db (db <| devices := alter f dev (devices db) |>).
Proof.
  intros Hf. unfold idle, content, receive_cursor. simpl. rewrite lookup_alter_eq.
  destruct (devices db !! dev) as [d|]; [|done]. simpl. by destruct (Hf d) as [-> ->].
Qed.

Lemma idle_ack a t : body idle (_ack_outbox_locked dev a t).
Proof. unfold _ack_outbox_locked. solve_body; done. Qed.

Lemma idle_update_device f :
  (∀ d, device_content (f d) = device_content d ∧ d_last_device_sequence (f d) = d_last_device_sequence d) →
  body idle (update_device dev f).
Proof. intros Hf. unfold update_device. apply body_modify. intros db. by apply idle_device. Qed.

Lemma idle_update_connection f : body idle (update_connection (as_connection_nonce c) f).
Proof. unfold update_connection. solve_body; done. Qed.

Definition is_stale (e : ControlEnvelope) : bool := negb (bool_decide (en_epoch e = as_epoch c)).

(** What a frame that is not refused does: nothing to the content when it is a
    duplicate, its effects and one step of the cursor when it is the next one. *)
Inductive received (e : ControlEnvelope) (n : Z) (db db' : database) : Prop :=
| received_duplicate :
    en_seq e ≤ n → idle db db' → received e n db db'
| received_next w w' effects :
    en_seq e = n + 1 → idle db (working w) →
    _apply_device_frame_tx c e (is_stale e) w = (Ok effects, w') →
    content db' = content (working w') → receive_cursor db' = Some (en_seq e) →
    received e n db db'.

Lemma idle_settle (duplicate : bool) (answer : option pystr) (effects : FrameEffects) f t :
  settles idle (
    update_device dev (λ d, d <| d_last_seen_at := Some t |>);;
    update_connection (as_connection_nonce c) f;;
    commit;;
    mret (duplicate, answer, effects)).
Proof.
  apply settles_bind; [apply _|by apply idle_update_device|intros _].
  apply settles_bind; [apply _|apply idle_update_connection|intros _].
  apply settles_commit; [apply _|apply silent_ret].
Qed.

Lemma wp_frame_transaction e t w :
  wp (frame_transaction c e t)
    (λ r w', durable w' = durable w
       ∨ ∃ d, current_connection c dev (working w) = Some d
         ∧ received e (d_last_device_sequence d) (working w) (durable w')) w.
Proof.
  unfold frame_transaction. do 2 wp_step.
  destruct (current_connection c dev (working w)) as [d|] eqn:Hcur; [|wp_step; by left].
  apply current_connection_spec in Hcur as Hd. destruct Hd as [Hd _].
  assert (Hn : receive_cursor (working w) = Some (d_last_device_sequence d)).
  { unfold receive_cursor. by rewrite Hd. }
  do 2 wp_step; [by left|].
  wp_step. apply wp_silent; [solve_silent|]. intros [answer|x] w1 Hw1 Hd1; [|by left].
  do 2 wp_step; [by left|].
  wp_step. eapply (wp_mono _ (λ r w', durable w' = durable w ∧ ∀ a, r = Ok a →
    idle (working w) (working w'))).
  { eapply (wp_mono _ (grown idle w1)).
    - destruct (match en_ack e with
                | Some a => if d_last_server_acked_sequence d <? a then Some a else None
                | None => None end); [|by apply body_silent; [apply _|apply silent_ret]].
      apply body_bind; [apply _|by apply idle_update_device|intros _; apply idle_ack].
    - intros r w' [H1 H2]. split; [congruence|]. intros a Ha. rewrite <- Hw1. by eapply H2. }
  intros [u|x] w2 [Hd2 H2]; [|by left]. specialize (H2 u eq_refl).
  do 2 wp_step; [by left|].
  assert (Hrest : ∀ (duplicate : bool) (effects : FrameEffects) f w3, durable w3 = durable w →
    wp (update_device dev (λ d, d <| d_last_seen_at := Some t |>);;
        update_connection (as_connection_nonce c) f;;
        commit;;
        mret (duplicate, answer, effects))
      (λ r w', durable w' = durable w ∨ idle (working w3) (durable w')) w3).
  { intros duplicate effects f w3 H3. eapply wp_mono; [apply idle_settle|].
    intros r w' [H|H]; [left; congruence|by right]. }
  wp_step. destruct (en_seq e <=? d_last_device_sequence d) eqn:Hdup.
  - reflect_bools. wp_step. eapply wp_mono; [by apply Hrest|].
    intros r w' [H|H]; [by left|]. right. exists d. split; [done|].
    apply received_duplicate; [done|]. by etrans.
  - reflect_bools. cbn [negb andb] in Hguard1. apply negb_false_iff, Z.eqb_eq in Hguard1.
    wp_step. fold (is_stale e).
    pose proof (link_device_frame c e (is_stale e) w2) as [Hd3 Hl3]. unfold wp at 1.
    destruct (_apply_device_frame_tx c e (is_stale e) w2) as [[effects|x] w3] eqn:Happ;
      simpl in Hd3, Hl3 |- *; [|left; congruence].
    destruct H2 as [Hc2 Hr2]. rewrite Hn in Hr2. unfold receive_cursor in Hr2.
    destruct (devices (working w2) !! dev) as [d2|] eqn:Hdev2; [|done].
    destruct (Hl3 effects eq_refl d2 Hdev2) as (d3 & Hdev3 & _).
    unfold update_device at 1. do 2 wp_step. wp_step.
    eapply wp_mono; [apply Hrest; congruence|].
    intros r w' [H|[H1 H2']]; [by left|]. right. exists d. split; [done|].
    eapply (received_next _ _ _ _ w2 w3); [done| |exact Happ| |].
    + split; [done|]. unfold receive_cursor. by rewrite Hdev2, Hd, Hr2.
    + rewrite H1, Hw. unfold content. simpl. rewrite lookup_alter_eq, Hdev3. done.
    + rewrite H2', Hw. unfold receive_cursor. simpl. by rewrite lookup_alter_eq, Hdev3.
Qed.

(** ** Whole runs *)

(** Each frame in turn, on the committed state the previous one left. *)
Definition receive_all (es : list ControlEnvelope) (w : world) : world :=
  foldl (λ w e, (_process_device_frame c e w).2) w es.

(** [applied_in_order n es db db']: the content of [db'] comes from the content
    of [db] by applying [es], one frame after another, and their sequence
    numbers count up from [n + 1]. *)
Inductive applied_in_order : Z → list ControlEnvelope → database → database → Prop :=
| applied_none n db db' : content db' = content db → applied_in_order n [] db db'
| applied_next n e es w w' effects db db' :
    en_seq e = n + 1 → content (working w) = content db →
    _apply_device_frame_tx c e (is_stale e) w = (Ok effects, w') →
    applied_in_order (n + 1) es (working w') db' →
    applied_in_order n (e :: es) db db'.

Lemma applied_content n es db1 db2 db' :
  content db1 = content db2 → applied_in_order n es db1 db' → applied_in_order n es db2 db'.
Proof.
  intros E. destruct 1; [apply applied_none; congruence|]. eapply applied_next; eauto. congruence.
Qed.

Lemma process_frame_received e w :
  let w' := (_process_device_frame c e w).2 in
  durable w' = durable w
  ∨ ∃ d, devices (durable w) !! dev = Some d
      ∧ received e (d_last_device_sequence d) (durable w) (durable w').
Proof.
  enough (H : wp (_process_device_frame c e) (λ _ w', durable w' = durable w
    ∨ ∃ d, devices (durable w) !! dev = Some d
      ∧ received e (d_last_device_sequence d) (durable w) (durable w')) w) by exact H.
  unfold _process_device_frame. do 2 wp_step; [by left|].
  wp_step. apply wp_silent; [solve_silent|]. intros [t|x] w1 Hw1 Hd1; [|by left].
  wp_step. unfold wp at 1, with_session.
  pose proof (wp_frame_transaction e t (w1 <| working := durable w1 |>)) as H. unfold wp in H.
  destruct (frame_transaction c e t _) as [r w2]. simpl in H |- *. rewrite Hd1 in H.
  assert (H' : durable w2 = durable w ∨ ∃ d, devices (durable w) !! dev = Some d
    ∧ received e (d_last_device_sequence d) (durable w) (durable w2)).
  { destruct H as [H|(d & Hcur & H)]; [by left|right]. exists d. split; [|done].
    by apply current_connection_spec in Hcur as [? _]. }
  destruct r as [[[dup answer] effects]|x]; [|done].
  apply wp_silent.
  { apply silent_bind; [apply silent_refresh|intros _].
    apply silent_bind; [apply silent_publish_effects|intros _]. apply silent_ret. }
  intros r w3 _ Hd3. by rewrite Hd3.
Qed.

Lemma receive_all_in_order es w n :
  receive_cursor (durable w) = Some n →
  ∃ applied,
    sublist applied es
    ∧ applied_in_order n applied (durable w) (durable (receive_all es w))
    ∧ receive_cursor (durable (receive_all es w)) = Some (n + Z.of_nat (length applied)).
Proof.
  revert w n. induction es as [|e es IH]; intros w n Hn; simpl.
  { exists []. split_and!; [done|by apply applied_none|simpl; rewrite Hn; f_equal; lia]. }
  destruct (process_frame_received e w) as [Hd|(d & Hdev & Hrec)].
  { destruct (IH (_process_device_frame c e w).2 n) as (l & H1 & H2 & H3); [by rewrite Hd|].
    exists l. rewrite Hd in H2. split_and!; [by apply sublist_cons|done|done]. }
  assert (d_last_device_sequence d = n) as Hdn.
  { unfold receive_cursor in Hn. rewrite Hdev in Hn. by injection Hn. }
  rewrite Hdn in Hrec. destruct Hrec as [Hle [Hc Hr]|w1 w2 effects Hseq [Hc Hr] Happ Hc' Hr'].
  - destruct (IH (_process_device_frame c e w).2 n) as (l & H1 & H2 & H3); [congruence|].
    exists l. split_and!; [by apply sublist_cons|by eapply applied_content|done].
  - destruct (IH (_process_device_frame c e w).2 (n + 1)) as (l & H1 & H2 & H3); [congruence|].
    exists (e :: l). split_and!; [by apply sublist_skip| |].
    + eapply applied_next; [done|exact Hc|exact Happ|]. by eapply applied_content.
    + rewrite H3. simpl. f_equal. lia.
Qed.

Lemma applied_sequences n es db db' :
  applied_in_order n es db db' → en_seq <$> es = seqZ (n + 1) (Z.of_nat (length es)).
Proof.
  induction 1 as [|n e es w w' effects db db' Hseq _ _ _ IH]; [done|].
  rewrite fmap_cons, IH. cbn [length]. rewrite Nat2Z.inj_succ.
  rewrite (seqZ_cons (n + 1)) by lia. f_equal; [done|]. f_equal; lia.
Qed.

(** ** The verdict on a frame *)

(** The end of a transaction whose frame is not refused. *)
Lemma settle_returns (duplicate : bool) (answer : option pystr) (effects : FrameEffects) f t w :
  wp (update_device dev (λ d, d <| d_last_seen_at := Some t |>);;
      update_connection (as_connection_nonce c) f;;
      commit;;
      mret (duplicate, answer, effects))
    (λ r w', r = Ok (duplicate, answer, effects) ∧ idle (working w) (durable w')) w.
Proof.
  unfold update_device, update_connection. repeat wp_step. split; [done|].
  rewrite_worlds. by apply (idle_device (λ d, d <| d_last_seen_at := Some t |>) (working w)).
Qed.

Definition no_new_ack (d : Device) (e : ControlEnvelope) : Prop :=
  match en_ack e with
  | Some a => a ≤ d_last_server_acked_sequence d ∧ a ≤ d_last_server_sequence d
  | None => True
  end.

Lemma frame_verdict e t w d :
  current_connection c dev (working w) = Some d → no_new_ack d e →
  let n := d_last_device_sequence d in
  wp (frame_transaction c e t) (λ r w',
    (n + 1 < en_seq e → r = Raise (SequenceGap (en_seq e) n) ∧ durable w' = durable w)
    ∧ (en_seq e ≤ n →
         match duplicate_answer dev (en_seq e) (working w) with
         | None => r = Raise (already_applied n) ∧ durable w' = durable w
         | Some a => r = Ok (true, Some a, no_effects) ∧ idle (working w) (durable w')
         end)
    ∧ (en_seq e = n + 1 →
         match _apply_device_frame_tx c e (is_stale e) w with
         | (Ok effects, w1) =>
             r = Ok (false, None, effects) ∧ content (durable w') = content (working w1)
             ∧ receive_cursor (durable w') = Some (en_seq e)
         | (Raise x, _) => r = Raise x ∧ durable w' = durable w
         end)) w.
Proof.
  intros Hcur Hack n. unfold frame_transaction. do 2 wp_step. rewrite Hcur.
  apply current_connection_spec in Hcur as [Hd _].
  assert (Ha : match en_ack e with
    | Some a => if d_last_server_acked_sequence d <? a then Some a else None
    | None => None end = None).
  { unfold no_new_ack in Hack. destruct (en_ack e) as [a|]; [|done].
    destruct (d_last_server_acked_sequence d <? a) eqn:E; [|done]. apply Z.ltb_lt in E. lia. }
  do 2 wp_step.
  { unfold no_new_ack in Hack. destruct (en_ack e) as [a|]; [|done]. apply Z.ltb_lt in Hguard. lia. }
  rewrite Ha. fold n. wp_step. destruct (en_seq e <=? n) eqn:Hdup; reflect_bools.
  - wp_step. wp_step. destruct (duplicate_answer dev (en_seq e) (working w)) as [a|] eqn:Hans; simpl.
    + do 7 wp_step. eapply wp_mono; [apply settle_returns|]. intros r w' [H1 H2].
      split_and!; [lia| |lia]. by intros _.
    + wp_step. split_and!; [lia|done|lia].
  - do 3 wp_step; [done|]. do 4 wp_step; cbn [negb andb] in *.
    + apply negb_true_iff, Z.eqb_neq in Hguard1. split_and!; [done|lia|lia].
    + apply negb_false_iff, Z.eqb_eq in Hguard1. do 2 wp_step. fold (is_stale e).
      pose proof (link_device_frame c e (is_stale e) w) as [Hd1 Hl1]. unfold wp at 1.
      destruct (_apply_device_frame_tx c e (is_stale e) w) as [[effects|x] w1] eqn:Happ;
        simpl in Hd1, Hl1 |- *; [|by split_and!; [lia|lia|]].
      destruct (Hl1 effects eq_refl d Hd) as (d1 & Hdev1 & _).
      unfold update_device at 1. wp_step. wp_step. wp_step.
      eapply wp_mono; [apply settle_returns|]. intros r w' [H1 [H2 H3]].
      split_and!; [lia|lia|]. intros _. split_and!; [done| |].
      * rewrite H2, Hw. unfold content. simpl. rewrite lookup_alter_eq, Hdev1. done.
      * rewrite H3, Hw. unfold receive_cursor. simpl. by rewrite lookup_alter_eq, Hdev1.
Qed.
End receiver.

(** ** Frames of a replaced epoch *)

(** A command that was reported indeterminate gets its late terminal state. *)
Definition late_refined (x x' : Command) : Prop :=
  x' = x
  ∨ is_indeterminate x = true ∧ same_command x x' ∧ outstanding (cmd_status x') = false.

#[export] Instance late_refined_refl : Reflexive late_refined.
Proof. by left. Qed.

#[export] Instance late_refined_trans : Transitive late_refined.
Proof.
  intros x y z [->|(I1 & [] & O1)] [->|(I2 & [] & O2)]; try by left.
  - right. by split_and!.
  - right. split_and!; [done|by split|done].
  - right. split_and!; [done|split; congruence|done].
Qed.

Definition catalog (dev : uuid) (db : database) : option (list json * option Z) :=
  (λ d, (d_model_catalog d, d_model_catalog_updated_at d)) <$> devices db !! dev.

Record late_only (dev : uuid) (db db' : database) : Prop := {
  lo_threads : threads db' = threads db;
  lo_approvals : approvals db' = approvals db;
  lo_catalog : catalog dev db' = catalog dev db;
  lo_commands id : option_Forall2 late_refined (commands db !! id) (commands db' !! id);
}.

#[export] Instance late_only_rel dev : EventRel (late_only dev).
Proof.
  split.
  - split.
    + by intros db; split.
    + intros x y z [? ? ? C1] [? ? ? C2]. split; [congruence..|]. intros id.
      eapply option_Forall2_trans'; [apply _|apply C1|apply C2].
  - intros db db' H. split; [apply H|apply H| |].
    + unfold catalog. destruct (eu_devices _ _ H dev) as [d d' Hd|]; [|done].
      simpl. by rewrite Hd.
    + intros id. rewrite (eu_commands _ _ H). by apply option_Forall2_refl', _.
Qed.

Section late.
Context {P : Platform} (c : ActiveDeviceSocket).

Notation dev := (as_device_id c).

Lemma refine_late p t x :
  is_indeterminate x = true → ack_terminal (ca_state p) = true → late_refined x (refine_command p t x).
Proof.
  intros Hi Ht. right. split_and!; [done|by split|]. simpl. by destruct (ca_state p).
Qed.

Lemma late_command_ack e :
  is_stale c e = true → body (late_only dev) (_apply_command_ack_tx c e).
Proof.
  unfold is_stale. intros He%negb_true_iff. unfold _apply_command_ack_tx.
  destruct (read_command_ack _) as [p|]; [|solve_body].
  apply body_bind; [apply _|solve_body|intros t].
  apply body_bind; [apply _|solve_body|intros [d|]]; [|solve_body].
  apply body_bind; [apply _|solve_body|intros n].
  intros w. wp_step. wp_step.
  destruct (owned_command c (ca_command_id p) (working w)) as [x|] eqn:Hx; [|by wp_step].
  do 2 wp_step; [done|]. rewrite He. unfold ack_replaced_epoch.
  destruct (_ && _) eqn:E; [|by wp_step]. reflect_bools.
  wp_step. unfold update_command. wp_step.
  apply (wp_body_after (late_only dev)); [solve_body| |congruence].
  rewrite Hw. split; [done..|]. intros id. simpl. rewrite lookup_alter.
  apply owned_command_spec in Hx as [Hx _]. case_decide as Hid.
  - subst id. rewrite Hx. constructor. by apply refine_late.
  - by apply option_Forall2_refl', _.
Qed.

Lemma late_device_frame e :
  is_stale c e = true → body (late_only dev) (_apply_device_frame_tx c e true).
Proof.
  intros He. unfold _apply_device_frame_tx, _apply_stale_device_frame_tx, validated.
  pose proof (late_command_ack e He). solve_body.
Qed.

Lemma late_content db1 db2 db1' db2' :
  content c db1 = content c db1' → content c db2 = content c db2' →
  late_only dev db1 db2 → late_only dev db1' db2'.
Proof.
  unfold content. intros [= Ec1 Et1 Ea1 _ _ _ Ed1] [= Ec2 Et2 Ea2 _ _ _ Ed2] [H1 H2 H3 H4].
  assert (Hcat : ∀ db, catalog dev db = (λ x : list json * option Z * Z, x.1)
    <$> (device_content <$> devices db !! dev)).
  { intros db. unfold catalog. by destruct (devices db !! dev). }
  rewrite !Hcat in H3. split; [congruence..| |by rewrite <- Ec1, <- Ec2].
  rewrite !Hcat. congruence.
Qed.

Lemma late_receive e w :
  is_stale c e = true → late_only dev (durable w) (durable (_process_device_frame c e w).2).
Proof.
  intros He. destruct (process_frame_received c e w) as [->|(d & Hd & Hrec)].
  { by apply er_preorder. }
  destruct Hrec as [_ [Hc _]|w1 w2 effects _ [Hc _] Happ Hc' _].
  - by apply (late_content (durable w) (durable w)); [done|by rewrite Hc|apply er_preorder].
  - apply (late_content (working w1) (working w2)); [done|done|].
    rewrite He in Happ. pose proof (late_device_frame e He w1) as [_ H].
    rewrite Happ in H. by eapply H.
Qed.
End late.

(** ** Properties *)

Section properties.
Context {P : Platform}.

(** C1: The receive side of a connection refines an exactly-once, in-order queue.
    Whatever frames are received, however repeated, reordered or interrupted by
    failures, the committed content is reached by applying some subsequence of
    them one after another; its sequence numbers are consecutive and start right
    after the durable receive cursor, which moves by exactly their number. *)
Theorem device_frames_exactly_once c es w n :
  receive_cursor c (durable w) = Some n →
  ∃ applied,
    sublist applied es
    ∧ en_seq <$> applied = seqZ (n + 1) (Z.of_nat (length applied))
    ∧ applied_in_order c n applied (durable w) (durable (receive_all c es w))
    ∧ receive_cursor c (durable (receive_all c es w)) = Some (n + Z.of_nat (length applied)).
Proof.
  intros Hn. destruct (receive_all_in_order c es w n Hn) as (l & H1 & H2 & H3).
  exists l. split_and!; [done|by eapply applied_sequences|done|done].
Qed.

(** The verdict on a frame of the active connection that carries no new
    acknowledgement.  Beyond the next sequence number it is a [SequenceGap]; at or
    below the receive cursor it is answered with a retained server frame, or
    refused when none is left, and changes no content; the next frame is applied
    and commits exactly when its application succeeds, with its effects, its
    content and the moved cursor together.  A refusal commits nothing. *)
Theorem receive_verdict c e t w d :
  current_connection c (as_device_id c) (durable w) = Some d → no_new_ack d e →
  let n := d_last_device_sequence d in
  let start := w <| working := durable w |> in
  let '(r, w') := with_session (frame_transaction c e t) w in
  (n + 1 < en_seq e → r = Raise (SequenceGap (en_seq e) n) ∧ durable w' = durable w)
  ∧ (en_seq e ≤ n →
       match duplicate_answer (as_device_id c) (en_seq e) (durable w) with
       | None => r = Raise (already_applied n) ∧ durable w' = durable w
       | Some a => r = Ok (true, Some a, no_effects) ∧ idle c (durable w) (durable w')
       end)
  ∧ (en_seq e = n + 1 →
       match _apply_device_frame_tx c e (is_stale c e) start with
       | (Ok effects, w1) =>
           r = Ok (false, None, effects) ∧ content c (durable w') = content c (working w1)
           ∧ receive_cursor c (durable w') = Some (en_seq e)
       | (Raise x, _) => r = Raise x ∧ durable w' = durable w
       end).
Proof.
  intros Hcur Hack n start. pose proof (frame_verdict c e t start d Hcur Hack) as H.
  unfold wp in H. unfold with_session. fold start.
  destruct (frame_transaction c e t start) as [r w']. exact H.
Qed.

(** C16: A frame of a replaced app-server epoch projects nothing.  On every
    outcome of processing it, no thread, no approval and no model catalog
    changes, and a command changes only if it had been reported indeterminate, to
    the terminal state the late acknowledgement names. *)
Theorem replaced_epoch_projects_nothing c e w :
  en_epoch e ≠ as_epoch c →
  late_only (as_device_id c) (durable w) (durable (_process_device_frame c e w).2).
Proof.
  intros He. apply late_receive. unfold is_stale. by rewrite bool_decide_false.
Qed.
End properties.

(** ** Frames on the testbed *)

Definition sample_frame (epoch : pystr) (seq : Z) : ControlEnvelope :=
  {| en_id := 77%N; en_device_id := 1%N; en_epoch := epoch; en_seq := seq; en_ack := None;
     en_type := THeartbeatAck; en_sent_at := 0; en_payload := [] |}.

Lemma device_frames_exactly_once_witness :
  ∃ applied, sublist applied (sample_frame "epoch-0000000001" <$> [2; 1; 1; 2])
    ∧ applied_in_order sample_socket 0 applied sample_database
        (durable (receive_all sample_socket (sample_frame "epoch-0000000001" <$> [2; 1; 1; 2])
                    (start_world sample_database))).
Proof.
  destruct (device_frames_exactly_once sample_socket
    (sample_frame "epoch-0000000001" <$> [2; 1; 1; 2]) (start_world sample_database) 0)
    as (applied & H1 & _ & H2 & _); [reflexivity|]. by exists applied.
Defined.

Lemma receive_verdict_witness :
  (with_session (frame_transaction sample_socket (sample_frame "epoch-0000000001" 3) 5)
     (start_world sample_database)).1 = Raise (SequenceGap 3 0).
Proof.
  pose proof (receive_verdict sample_socket (sample_frame "epoch-0000000001" 3) 5
    (start_world sample_database) sample_device eq_refl I) as H.
  cbv zeta in H.
  destruct (with_session (frame_transaction sample_socket (sample_frame "epoch-0000000001" 3) 5)
     (start_world sample_database)) as [r w'].
  destruct H as (H & _). exact (proj1 (H eq_refl)).
Defined.

Lemma replaced_epoch_projects_nothing_witness :
  late_only 1%N stale_database
    (durable (after (_process_device_frame sample_socket (sample_frame "epoch-0" 1))
       (start_world stale_database))).
Proof.
  apply (replaced_epoch_projects_nothing sample_socket (sample_frame "epoch-0" 1)
    (start_world stale_database)). vm_compute. discriminate.
Defined.
