(* ===== verification/Dispatching.v ===== *)
(** * What is sent to a device

    A command or a decision leaves the server in one transaction that stores its
    frame in the outbox and stamps its row; this file states exactly when. *)

From stdpp Require Import base list gmap.
From Stdlib Require Import NArith ZArith Lia.
From S2P Require Import Prelude Config Json Paths Models Storage World Testbed Wire Budget Snapshot.
From S2P Require Import Events Capacity Commands Approvals Outbox Steps Frames Projection.
From S2P Require Import Connections Handshake DeviceSafety FrameSafety DispatchSafety SocketSafety.
Open Scope Z_scope.

#[local] Instance eq_preorder : PreOrder (@eq database).
Proof. split; apply _. Qed.

(** The outbox and the commands are left alone. *)
Definition no_dispatch (db db' : database) : Prop :=
  commands db' = commands db ∧ outbox db' = outbox db.

#[export] Instance no_dispatch_rel : EventRel no_dispatch.
Proof.
  split; [split; [by intros ?|by intros ??? [] []; split; etrans]|by intros ?? []].
Qed.

Section dispatching.
Context {P : Platform} (c : ActiveDeviceSocket).

Notation dev := (as_device_id c).

(** The text of a frame is the envelope around its payload. *)
Lemma persist_encoded d ty payload :
  returns (λ r, ∃ id t, r.2 = PyStr (dumps escape_ascii
      (server_envelope id dev (as_epoch c) r.1 (d_last_device_sequence d) ty t payload)))
    (_persist_envelope_locked c d ty payload).
Proof.
  unfold _persist_envelope_locked.
  eapply returns_bind; [apply returns_any|intros id _].
  eapply returns_bind; [apply returns_any|intros t _].
  repeat (eapply returns_bind; [apply returns_any|intros ? _]).
  apply returns_ret. by exists id, t.
Qed.

(** The next frame of the active device's outbox carries [payload]. *)
Definition frame_written (ty : pystr) (payload : json) (db db' : database) : Prop :=
  ∃ d f id t,
    devices db !! dev = Some d ∧ d_status d = DsActive ∧ connection_active c d = true
    ∧ outbox db' = outbox (persisted dev (as_connection_nonce c) (d_last_server_sequence d + 1) f db)
    ∧ ob_acked_at f = None
    ∧ ob_encoded_envelope f = PyStr (dumps escape_ascii
        (server_envelope id dev (as_epoch c) (d_last_server_sequence d + 1)
           (d_last_device_sequence d) ty t payload)).

Lemma wp_persist d ty payload db w :
  devices db !! dev = Some d → d_status d = DsActive → connection_active c d = true →
  outbox (working w) = outbox db →
  wp (_persist_envelope_locked c d ty payload)
    (λ r w', durable w' = durable w ∧ ∀ a, r = Ok a →
       frame_written ty payload db (working w')
       ∧ commands (working w') = commands (working w)
       ∧ approvals (working w') = approvals (working w)
       ∧ threads (working w') = threads (working w)) w.
Proof.
  intros Hd Hs Ha Ho. pose proof (persist_run c d ty payload w) as Hrun. cbv zeta in Hrun.
  pose proof (persist_encoded d ty payload w) as Henc. unfold wp.
  destruct (_persist_envelope_locked c d ty payload w) as [[[seq enc]|x] w']; [|by destruct Hrun].
  destruct Hrun as (f & -> & _ & He & Hn & _ & _ & _ & _ & _ & _ & Hw & Hdur & _).
  destruct (Henc _ eq_refl) as (id & t & Ht).
  cbn [fst snd] in Ht |- *. split; [exact Hdur|]. intros a _. rewrite Hw.
  split; [|split_and!; reflexivity].
  exists d, f, id, t. split_and!; [exact Hd|exact Hs|exact Ha| |exact Hn|].
  { cbn. rewrite Ho. reflexivity. }
  rewrite He. exact Ht.
Qed.

(** ** Commands *)

(** What [_dispatch_command] commits. *)
Inductive command_dispatched (id : uuid) (db db' : database) : Prop :=
| cd_nothing : db' = db → command_dispatched id db db'
| cd_settled x t (s : CommandStatus) code message :
    commands db !! id = Some x → cmd_device_id x = dev → cmd_status x = CsQueued →
    s = CsExpired ∧ (∀ deadline, cmd_expires_at x = Some deadline → deadline ≤ t)
    ∨ s = CsDenied ∧ cmd_appserver_epoch x ≠ Some (as_epoch c) →
    commands db' = <[id := reject_command s code message t x]> (commands db) →
    outbox db' = outbox db →
    command_dispatched id db db'
| cd_sent x t deadline key :
    commands db !! id = Some x → cmd_device_id x = dev → cmd_status x = CsQueued →
    cmd_appserver_epoch x = Some (as_epoch c) →
    cmd_expires_at x = Some deadline → t < deadline →
    wire_idempotency_key (cmd_idempotency_scope x) (cmd_idempotency_key x) = Some key →
    commands db' = <[id := dispatch_command_row t x]> (commands db) →
    frame_written "command" (command_payload id x key deadline) db db' →
    command_dispatched id db db'.

Lemma wp_settle id x f t action out reason w :
  commands (working w) !! id = Some x →
  wp (settle_command id x f t action out reason)
    (λ _ w', durable w' = durable w
       ∨ commands (durable w') = <[id := f x]> (commands (working w))
         ∧ outbox (durable w') = outbox (working w)) w.
Proof.
  intros Hx. unfold settle_command, update_command. do 2 wp_step.
  pose proof silent_thread_event_data.
  assert (Hm : settles no_dispatch (
    events ← _record_terminal_dispatch_rejection id (f x) t action out reason;
    commit;;
    mret (events, None : option pystr, Some (transition_of x (f x) (Some (t - cmd_created_at x)))))).
  { unfold _record_terminal_dispatch_rejection, save_binding. solve_settles; solve_body; by split. }
  eapply wp_mono; [apply Hm|]. intros r w' [H'|[H1 H2]]; [left; congruence|right].
  rewrite H1, H2, Hw. split; [|done]. by apply alter_as_insert.
Qed.


Lemma wp_dispatch_transaction id w :
  wp (dispatch_transaction c id)
    (λ _ w', durable w' = durable w ∨ command_dispatched id (working w) (durable w')) w.
Proof.
  unfold dispatch_transaction. wp_step. apply wp_lock_active; [by left|]. intros d Hd Hs Ha.
  wp_step. eapply wp_mono; [apply (body_lock_owner_cursor no_dispatch)|].
  intros [n|x] w1 [Hd1 H1]; [|by left]. destruct (H1 n eq_refl) as [Hc1 Ho1].
  do 2 wp_step. rewrite Hc1. destruct (commands (working w) !! id) as [x|] eqn:Hx; [|wp_step; by left].
  destruct (_ || _) eqn:Hg; [wp_step; by left|]. reflect_bools. do 2 wp_step.
  assert (Hset : ∀ s code msg action out reason,
    s = CsExpired ∧ (∀ deadline, cmd_expires_at x = Some deadline → deadline ≤ t)
    ∨ s = CsDenied ∧ cmd_appserver_epoch x ≠ Some (as_epoch c) →
    wp (settle_command id x (reject_command s code msg t) t action out reason)
      (λ _ w', durable w' = durable w ∨ command_dispatched id (working w) (durable w')) w0).
  { intros s code msg action out reason Hwhy. eapply wp_mono; [apply wp_settle; by rewrite Hw, Hc1|].
    cbv beta. intros r w' [Hsame|[H2 H3]]; [left; congruence|right].
    rewrite Hw, ?Hc1, ?Ho1 in *. by eapply (cd_settled _ _ _ x t s code msg). }
  destruct (cmd_expires_at x) as [deadline|] eqn:Hexp; [|apply Hset; left; split; congruence].
  destruct (deadline <=? t) eqn:Hlate; [apply Hset; left; split; [done|]; intros ? [= <-]; by apply Z.leb_le|].
  reflect_bools.
  destruct (bool_decide (cmd_appserver_epoch x = Some (as_epoch c))) eqn:Hep; simpl;
    [apply bool_decide_eq_true in Hep|apply bool_decide_eq_false in Hep; apply Hset; by right].
  destruct (wire_idempotency_key _ _) as [key|] eqn:Hkey; [|wp_step; left; congruence].
  wp_step. eapply wp_mono; [apply (wp_persist d _ _ (working w)); [done..|]; by rewrite Hw|].
  intros [r|y] w2 [Hd2 H2]; [|left; congruence].
  destruct (H2 r eq_refl) as (Hf & Hc2 & _). unfold update_command. do 5 wp_step. right.
  apply (cd_sent _ _ _ x t deadline key); try assumption.
  - rewrite Hd4. simpl. rewrite Hc2, Hc1. by apply alter_as_insert.
  - rewrite Hd4. exact Hf.
Qed.

(** ** Decisions *)

(** What [_dispatch_approval] commits. *)
Inductive decision_dispatched (id : uuid) (db db' : database) : Prop :=
| dd_nothing : db' = db → decision_dispatched id db db'
| dd_sent a t decided_at :
    approvals db !! id = Some a → ap_device_id a = dev →
    ap_status a = AsApproved ∨ ap_status a = AsDenied →
    ap_decision_dispatched_at a = None → ap_appserver_epoch a = as_epoch c →
    dispatchable_reason (ap_decision_reason a) = true →
    approvals db' = <[id := a <| ap_decision_dispatched_at := Some t |>]> (approvals db) →
    frame_written "approval_decision" (JObj
      [("approval_id", JStr (uuid_str id));
       ("decision", JStr (if bool_decide (ap_status a = AsApproved) then "approve" else "deny"));
       ("decided_at", JStr (iso decided_at))]) db db' →
    decision_dispatched id db db'.

Lemma wp_approval_transaction id w :
  wp (approval_transaction c id)
    (λ _ w', durable w' = durable w ∨ decision_dispatched id (working w) (durable w')) w.
Proof.
  unfold approval_transaction. wp_step. apply wp_lock_active; [by left|]. intros d Hd Hs Hac.
  do 2 wp_step. destruct (approvals (working w) !! id) as [a|] eqn:Ha; [|wp_step; by left].
  destruct (may_dispatch_decision c a) eqn:Hmay; cbn [negb]; [|wp_step; by left].
  unfold may_dispatch_decision in Hmay. reflect_bools.
  wp_step. apply wp_silent; [solve_silent|]. intros [decided_at|x] w1 Hw1 Hd1; [|by left].
  wp_step. eapply wp_mono; [apply (wp_persist d _ _ (working w)); [done..|]; by rewrite Hw1|].
  intros [r|y] w2 [Hd2 Hpost]; [|left; congruence].
  destruct (Hpost r eq_refl) as (Hf & _ & Ha2 & _). unfold update_approval. do 6 wp_step. wp_step. right.
  apply (dd_sent _ _ _ a t decided_at); try assumption.
  - destruct (ap_status a); try discriminate; auto.
  - rewrite Hd4. simpl. rewrite Ha2. by apply (alter_as_insert _ _ _ (λ a, a <| ap_decision_dispatched_at := Some t |>)).
  - rewrite Hd4. exact Hf.
Qed.

(** ** Whole operations *)

(** A session, and statements that commit nothing. *)
Lemma session_then {A B} (m : tx A) (k : A → tx B) (R : database → database → Prop) w :
  (∀ db, R db db) → (∀ a, commits eq (k a)) →
  (∀ w, wp m (λ _ w', durable w' = durable w ∨ R (working w) (durable w')) w) →
  R (durable w) (durable ((with_session m ≫= k) w).2).
Proof.
  intros Hr Hk Hm. specialize (Hm (w <| working := durable w |>)). unfold wp in Hm.
  unfold mbind, tx_bind, with_session. destruct (m _) as [r w1]. cbn [fst snd] in Hm.
  assert (Hw : R (durable w) (durable w1)).
  { destruct Hm as [->|Hm]; [apply Hr|exact Hm]. }
  destruct r as [a|x]; [|exact Hw]. by rewrite <- (Hk a _).
Qed.

Lemma commits_eq_send frames : commits eq (_send_if_active c frames).
Proof.
  unfold _send_if_active. apply commits_session; [apply _|].
  apply settles_body, body_silent; [apply _|].
  apply silent_bind; [apply silent_lock_active|intros]. solve_silent.
Qed.

Lemma dispatch_command_result id w :
  command_dispatched id (durable w) (durable (_dispatch_command c id w).2).
Proof.
  unfold _dispatch_command. apply session_then; [by intros; apply cd_nothing| |apply wp_dispatch_transaction].
  intros [[events encoded] moved].
  apply commits_bind; [apply _|apply commits_silent; [apply _|solve_silent]|intros _].
  apply commits_bind; [apply _|apply commits_silent; [apply _|unfold publish_event; solve_silent]|intros _].
  destruct encoded; [apply commits_eq_send|apply commits_silent; [apply _|apply silent_ret]].
Qed.

Lemma dispatch_approval_result id w :
  decision_dispatched id (durable w) (durable (_dispatch_approval c id w).2).
Proof.
  unfold _dispatch_approval. apply session_then; [by intros; apply dd_nothing| |apply wp_approval_transaction].
  intros [frame|]; [apply commits_eq_send|apply commits_silent; [apply _|apply silent_ret]].
Qed.

(** C3: A command leaves the server at most once and only with authority.  Whatever
    the outcome of [_dispatch_command], the committed state is unchanged, or a
    queued command of this device was settled because its deadline had passed or
    its epoch was replaced, or a queued, unexpired command of the connection's
    epoch became dispatched together with the outbox frame that carries exactly
    its payload and deadline.  Likewise a decision is stamped as dispatched
    together with its frame, only once, only while decided, dispatchable and of
    the connection's epoch. *)
Theorem dispatch_gate id w :
  command_dispatched id (durable w) (durable (_dispatch_command c id w).2)
  ∧ decision_dispatched id (durable w) (durable (_dispatch_approval c id w).2).
Proof. split; [apply dispatch_command_result|apply dispatch_approval_result]. Qed.
End dispatching.
