(* ===== verification/ApprovalRequests.v ===== *)
(** * Approval requests of a device

    A request is admitted as pending only with its deadline ahead and room in
    every quota; anything else is stored as denied, with nothing of the request
    kept, and the denial is sent back.  A repeated request changes nothing. *)

From stdpp Require Import base list gmap.
From Stdlib Require Import NArith ZArith Lia.
From S2P Require Import Prelude Config Json Paths Models Storage World Testbed Wire Budget Snapshot.
From S2P Require Import Events Capacity Commands Approvals Outbox Steps Frames Projection.
From S2P Require Import Connections Handshake DeviceSafety FrameSafety DispatchSafety SocketSafety.
Open Scope Z_scope.

Section requests.
Context {P : Platform} (c : ActiveDeviceSocket).

Notation dev := (as_device_id c).
Notation owner := (as_owner_user_id c).

(** The device's pending approvals that are not overdue. *)
Definition live_pending (t : Z) (db : database) : Z :=
  count_rows (λ _ a, bool_decide (ap_device_id a = dev) && bool_decide (ap_status a = AsPending)
                     && (t <? ap_expires_at a)) (approvals db).

Definition request_deadline (p : ApprovalRequestPayload) (t : Z) : Z :=
  Z.min (ar_expires_at p) (t + seconds (approval_ttl_seconds settings)).

(** What [admit_approval] decides on the tables of [db]; [t'] is when the quota
    of the owner is looked at. *)
Inductive admitted (d : Device) (epoch : pystr) (p : ApprovalRequestPayload)
    (command_id : option uuid) (t t' : Z) (db : database) : option pystr → Approval → Prop :=
| admitted_pending n :
    let a := requested_approval c epoch p command_id t (request_deadline p t) in
    t < request_deadline p t →
    live_pending t db < device_max_pending_approvals settings →
    active_pending_approval_count owner t' db < bootstrap_max_pending_approvals settings →
    approval_item_valid a = true →
    compact_ensure_ascii_size (approval_item_json (ar_approval_id p) a d) = Ok n →
    n ≤ BOOTSTRAP_APPROVAL_ITEM_MAX_BYTES →
    admitted d epoch p command_id t t' db None a
| admitted_denied reason deadline :
    t < deadline →
    admitted d epoch p command_id t t' db (Some reason)
      (default_denied reason t (requested_approval c epoch p command_id t deadline)).

Lemma wp_admit d epoch p command_id t w :
  wp (admit_approval c d epoch p command_id t)
    (λ r w', working w' = working w ∧ durable w' = durable w
       ∧ ∀ reason a, r = Ok (reason, a) →
           admitted d epoch p command_id t (clock (ticks w)) (working w) reason a) w.
Proof.
  unfold admit_approval. fold (request_deadline p t).
  assert (Hexp : t < if t <? request_deadline p t then request_deadline p t else t + 1).
  { destruct (t <? request_deadline p t) eqn:E; reflect_bools; lia. }
  wp_step. destruct (request_deadline p t <=? t) eqn:Hlate; reflect_bools.
  { do 2 wp_step. split_and!; [done..|]. intros reason a [= <- <-]. by apply admitted_denied. }
  rewrite (proj2 (Z.ltb_lt _ _)) in * by done.
  unfold approval_capacity_denial_reason_locked. do 2 wp_step. fold (live_pending t (working w)).
  destruct (_ <=? live_pending t (working w)) eqn:Hroom; reflect_bools.
  { do 2 wp_step. split_and!; [done..|]. intros reason a [= <- <-]. by apply admitted_denied. }
  wp_step. unfold wp at 1. cbn [now fst snd]. set (v := w <| ticks := S (ticks w) |>).
  do 2 wp_step. change (working v) with (working w).
  destruct (_ <=? active_pending_approval_count owner _ (working w)) eqn:Hown; reflect_bools.
  { do 2 wp_step. split_and!; [done..|]. intros reason a [= <- <-]. by apply admitted_denied. }
  do 2 wp_step. unfold ensure_approval_projection_fits, approval_item, ensure_fits.
  set (a := requested_approval _ _ _ _ _ _).
  destruct (approval_item_valid a) eqn:Hvalid; [|by split_and!].
  unfold wp, try_catch, mbind, tx_bind. cbn [guard_exn negb mret tx_ret].
  destruct (compact_ensure_ascii_size _) as [n|x] eqn:Hsize.
  - destruct (Z.ltb_spec BOOTSTRAP_APPROVAL_ITEM_MAX_BYTES n); (split_and!; [done..|]);
      intros reason a0 [= <- <-]; [by apply admitted_denied|].
    by apply (admitted_pending _ _ _ _ _ _ _ n).
  - destruct x; (split_and!; [done..|]); intros r0 a0 [= <- <-]; by apply admitted_denied.
Qed.

Lemma returns_wp {A} (m : tx A) (Q : A → Prop) :
  returns Q m → ∀ w, wp m (λ r _, ∀ a, r = Ok a → Q a) w.
Proof. intros Hm w a. by apply Hm. Qed.

(** What the request does to the session, and what it answers. *)
Inductive request_stored (d : Device) (e : ControlEnvelope) (p : ApprovalRequestPayload) (t t' : Z)
    (db db' : database) : FrameEffects → Prop :=
| rs_repeated a :
    approvals db !! ar_approval_id p = Some a →
    ap_device_id a = dev → ap_appserver_epoch a = en_epoch e →
    ap_request_hash a = _approval_request_hash p →
    approvals db' = approvals db → threads db' = threads db →
    request_stored d e p t t' db db' no_effects
| rs_pending a effects :
    approvals db !! ar_approval_id p = None →
    admitted d (en_epoch e) p
      (fst <$> requesting_command c (en_epoch e) (ar_command_id p) db) t t' db None a →
    approvals db' = <[ar_approval_id p := a]> (approvals db) →
    fe_approval_dispatches effects = [] →
    request_stored d e p t t' db db' effects
| rs_denied a reason effects :
    approvals db !! ar_approval_id p = None →
    admitted d (en_epoch e) p
      (fst <$> requesting_command c (en_epoch e) (ar_command_id p) db) t t' db (Some reason) a →
    approvals db' = <[ar_approval_id p := a]> (approvals db) → threads db' = threads db →
    fe_approval_dispatches effects = [ar_approval_id p] →
    request_stored d e p t t' db db' effects.

Lemma wp_store d e p t w :
  approvals (working w) !! ar_approval_id p = None →
  wp (store_approval c d e p t)
    (λ r w', durable w' = durable w ∧ ∀ effects, r = Ok effects →
       request_stored d e p t (clock (ticks w)) (working w) (working w') effects) w.
Proof.
  intros Hfree. unfold store_approval. do 2 wp_step.
  set (command := requesting_command c _ _ _). wp_step.
  eapply wp_mono; [apply wp_admit|]. cbv beta. intros [[reason a]|x] w1 (Hw1 & Hd1 & Hadm); [|by split].
  specialize (Hadm reason a eq_refl). do 2 wp_step.
  assert (Happ : approvals (working w0) = <[ar_approval_id p := a]> (approvals (working w))).
  { by rewrite Hw. }
  destruct reason as [reason|].
  - do 2 wp_step.
    match goal with |- wp ?m _ _ => assert (Hb : body same_approvals m ∧ body same_threads m
      ∧ ∀ w, wp m (λ r _, ∀ effects, r = Ok effects →
          fe_approval_dispatches effects = [ar_approval_id p]) w) end.
    { split_and!; [solve_body..|].
      apply returns_wp. repeat (eapply returns_bind; [apply returns_any|intros ? _]). by apply returns_ret. }
    destruct Hb as (Hb1 & Hb2 & Hb3).
    eapply wp_mono; [apply wp_conj; [apply Hb1|apply wp_conj; [apply Hb2|apply Hb3]]|].
    cbv beta. intros r w2 ([Hd2 Ha2] & [_ Ht2] & He).
    split; [congruence|]. intros effects Hr.
    eapply (rs_denied _ _ _ _ _ _ _ a reason); try eassumption.
    + rewrite <- Happ. by eapply Ha2.
    + rewrite (Ht2 _ Hr). by rewrite Hw.
    + by apply He.
  - match goal with |- wp ?m _ _ => assert (Hb : body same_approvals m
      ∧ ∀ w, wp m (λ r _, ∀ effects, r = Ok effects → fe_approval_dispatches effects = []) w) end.
    { split.
      - unfold save_binding, append_thread_updated, current_thread_data. solve_body; done.
      - apply returns_wp. repeat (eapply returns_bind; [apply returns_any|intros ? _]).
        by apply returns_ret. }
    destruct Hb as (Hb1 & Hb3).
    eapply wp_mono; [apply wp_conj; [apply Hb1|apply Hb3]|].
    cbv beta. intros r w2 ([Hd2 Ha2] & He).
    split; [congruence|]. intros effects Hr.
    eapply (rs_pending _ _ _ _ _ _ _ a); try eassumption.
    + rewrite <- Happ. by eapply Ha2.
    + by apply He.
Qed.

Lemma wp_approval_request e w :
  wp (_apply_approval_request_tx c e)
    (λ r w', durable w' = durable w ∧ ∀ effects, r = Ok effects →
       ∃ p d view, read_approval_request (en_payload e) = Some p
         ∧ owned_device c (working w) = Some d ∧ event_update (working w) view
         ∧ request_stored d e p (clock (ticks w)) (clock (S (ticks w))) view (working w')
             effects) w.
Proof.
  unfold _apply_approval_request_tx. destruct (read_approval_request _) as [p|]; [|by wp_step].
  wp_step. unfold wp at 1. cbn [now fst snd]. set (t := clock (ticks w)).
  set (w0 := w <| ticks := S (ticks w) |>). do 2 wp_step.
  change (working w0) with (working w).
  destruct (owned_device c (working w)) as [d|] eqn:Hown; [|by wp_step].
  wp_step. destruct (lock_owner_cursor_run owner w0) as (n & w1 & Hrun & Hup & Hd1 & Ht1).
  unfold wp at 1. rewrite Hrun. cbn [fst snd]. change (ticks w0) with (S (ticks w)) in Ht1.
  change (durable w0) with (durable w) in Hd1. change (working w0) with (working w) in Hup.
  do 2 wp_step.
  destruct (approvals (working w1) !! ar_approval_id p) as [a|] eqn:Ha.
  - do 2 wp_step; [split; [congruence|done]|]. do 2 wp_step; [split; [congruence|done]|].
    wp_step. split; [congruence|]. intros effects [= <-]. exists p, d, (working w1).
    reflect_bools. split_and!; [done..|]. by apply (rs_repeated _ _ _ _ _ _ _ a).
  - wp_step. unfold capacity_as_protocol_error.
    match goal with |- wp ?m _ _ => assert (Hsame : wp m (λ _ w', w' = w1) w1) end.
    { unfold ensure_approval_record_capacity_locked. repeat wp_step; done. }
    eapply wp_mono; [exact Hsame|]. intros [u|x] w2 ->; [|split; [congruence|done]].
    eapply wp_mono; [by apply wp_store|]. intros r w3 [Hd3 H3].
    split; [congruence|]. intros effects Hr. exists p, d, (working w1).
    rewrite Ht1 in H3. split_and!; [done..|]. by apply H3.
Qed.

(** C26: A device's approval request fails closed.  When applying it succeeds, a
    repeated request changed no approval and no thread; a new one was stored as
    pending with the frame's epoch, its deadline ahead of the server's clock and
    at most the time-to-live away, and room in the device and owner quotas at that
    and the next reading of the clock, for the command it names; or it was stored as denied with every part of the request erased, no thread waiting
    for it, and the denial queued for the device.  A failure commits nothing. *)
Theorem approval_request_fail_closed e w :
  let '(r, w') := _apply_approval_request_tx c e w in
  durable w' = durable w
  ∧ ∀ effects, r = Ok effects →
      ∃ p d view, read_approval_request (en_payload e) = Some p
        ∧ owned_device c (working w) = Some d ∧ event_update (working w) view
        ∧ request_stored d e p (clock (ticks w)) (clock (S (ticks w))) view (working w') effects.
Proof.
  pose proof (wp_approval_request e w) as H. unfold wp in H.
  by destruct (_apply_approval_request_tx c e w).
Qed.
End requests.
