(* ===== verification/ConnectionClaim.v ===== *)
(** * Claiming the connection of a device

    The first transaction of [_begin_connection] leaves one connected row of the
    device, the new one, within the bound on connection records, and hands over
    the cursors the device resumes from. *)

From stdpp Require Import base list gmap.
From Stdlib Require Import NArith ZArith Lia.
From S2P Require Import Prelude Config Json Paths Models Storage World Testbed Wire Budget Snapshot.
From S2P Require Import Events Capacity Commands Approvals Outbox Steps Frames Projection.
From S2P Require Import Connections Handshake DeviceSafety FrameSafety DispatchSafety SocketSafety.
Open Scope Z_scope.

(** The connection rows stay, and the device its status and its connection. *)
Definition claim_kept (dev : uuid) (db db' : database) : Prop :=
  connections db' = connections db
  ∧ ∀ d, devices db !! dev = Some d →
      ∃ d', devices db' !! dev = Some d' ∧ d_status d' = d_status d
        ∧ d_active_connection_nonce d' = d_active_connection_nonce d
        ∧ d_active_epoch d' = d_active_epoch d.

#[export] Instance claim_kept_rel dev : EventRel (claim_kept dev).
Proof.
  split.
  - split; [intros db; split; [done|]; eauto|]. intros x y z [E1 H1] [E2 H2]. split; [congruence|].
    intros d Hd. destruct (H1 d Hd) as (d1 & Hd1 & ? & ? & ?).
    destruct (H2 d1 Hd1) as (d2 & Hd2 & ? & ? & ?). exists d2. split_and!; congruence.
  - intros db db' H. split; [apply H|]. intros d Hd.
    destruct (event_update_device _ _ _ _ H Hd) as (d' & Hd' & Hc). exists d'.
    split_and!; [exact Hd'|by rewrite Hc..].
Qed.

Section claim.
Context {P : Platform} (dev : uuid).

Lemma kept_ack a t : body (claim_kept dev) (_ack_outbox_locked dev a t).
Proof. unfold _ack_outbox_locked. solve_body; split; simpl; eauto. Qed.

Lemma kept_acked a :
  body (claim_kept dev) (update_device dev (λ d, d <| d_last_server_acked_sequence := a |>)).
Proof.
  unfold update_device. apply body_modify. intros db. split; [done|]. intros d Hd. simpl.
  rewrite lookup_alter_eq, Hd. simpl. by eexists.
Qed.

Lemma replaced_not_connected t r : connected_to dev (replace_connection dev t r) = false.
Proof.
  unfold replace_connection. destruct (connected_to dev r) eqn:E; [|exact E].
  unfold connected_to. simpl. by rewrite andb_false_r.
Qed.

Lemma of_device_replaced t r : of_device dev (replace_connection dev t r) = of_device dev r.
Proof. unfold replace_connection. by destruct (connected_to dev r). Qed.

(** The rows of a device that a claim leaves: a subset, none of them connected. *)
Record room_made (m m' : gmap uuid DeviceConnection) : Prop := {
  rm_others id r : m !! id = Some r → of_device dev r = false → m' !! id = Some r;
  rm_from id r : m' !! id = Some r → m !! id = Some r;
  rm_room : count_rows (λ _ r, of_device dev r) m' < device_max_connection_records settings;
}.

Lemma wp_make_room w :
  wp (make_connection_room dev)
    (λ r w', durable w' = durable w ∧ ∀ u, r = Ok u →
       devices (working w') = devices (working w)
       ∧ room_made (connections (working w)) (connections (working w'))) w.
Proof.
  unfold make_connection_room. do 2 wp_step.
  destruct (_ <=? connection_count dev (working w)) eqn:Hfull; reflect_bools.
  - do 4 wp_step. do 2 wp_step. wp_step; [split; [congruence|done]|]. split; [congruence|]. intros u _.
    apply Z.leb_gt in Hguard. rewrite Hw. split; [done|].
    set (ids := oldest_disconnected _ _ _) in *.
    split; simpl.
    + intros id r Hr Hn. apply map_lookup_filter_Some. split; [done|]. simpl. intros Hin.
      unfold ids, oldest_disconnected in Hin.
      apply list_elem_of_fmap in Hin as ([i x] & -> & Hin).
      apply elem_of_take in Hin as (k & Hin%list_elem_of_lookup_2 & _).
      apply elem_of_order_by, elem_of_select_rows in Hin as [Hx Hsel]. simpl in *.
      simplify_eq. by rewrite Hn in Hsel.
    + by intros id r [Hr _]%map_lookup_filter_Some.
    + exact Hguard.
  - wp_step. split; [done|]. intros u _. split; [done|]. split; [done|done|exact Hfull].
Qed.

(** Replacing, making room and inserting a connected row leave one of them. *)
Lemma one_connected t m m2 id r :
  room_made (replace_connection dev t <$> m) m2 → m2 !! id = None →
  of_device dev r = true → dc_status r = CnConnected →
  let m' := <[id := r]> m2 in
  (∀ id' r', m' !! id' = Some r' → connected_to dev r' = true ↔ id' = id)
  ∧ count_rows (λ _ r, of_device dev r) m' ≤ device_max_connection_records settings
  ∧ (∀ id' r', m !! id' = Some r' → of_device dev r' = false → m' !! id' = Some r').
Proof.
  intros [Ho Hf Hr] Hfree Hdev Hst m'. split_and!.
  - intros id' r'. unfold m'. rewrite lookup_insert. case_decide as Hid.
    + intros [= <-]. subst id'. unfold connected_to. rewrite Hdev, Hst. done.
    + intros Hr'. split; [|congruence]. intros Hcon. apply Hf in Hr'.
      apply lookup_fmap_Some in Hr' as (r0 & <- & _). by rewrite replaced_not_connected in Hcon.
  - unfold m'. rewrite count_rows_insert by done. rewrite Hdev. lia.
  - intros id' r' Hm Hn. unfold m'. rewrite lookup_insert_ne.
    + apply Ho; [|done]. rewrite lookup_fmap, Hm. simpl. f_equal. unfold replace_connection, connected_to.
      by rewrite Hn.
    + intros <-. rewrite Ho with (r := r') in Hfree; [done| |done].
      rewrite lookup_fmap, Hm. simpl. f_equal. unfold replace_connection, connected_to. by rewrite Hn.
Qed.

Lemma wp_insert_commit r key text w :
  wp (try_catch (insert_connection r;; commit)
        (λ x, store_compare_delete key text;; raise x))
    (λ o w', match o with
     | Raise _ => durable w' = durable w
     | Ok _ => ∃ id, connections (working w) !! id = None
         ∧ durable w' = (working w) <| connections := <[id := r]> (connections (working w)) |>
     end) w.
Proof.
  unfold insert_connection. do 3 wp_step. apply wp_silent_ok; [solve_silent|by eexists|].
  intros id w1 Hw1 Hd1. do 2 wp_step. do 2 wp_step.
  - wp_step. apply wp_silent; [solve_silent|]. intros [b|x] w2 Hw2 Hd2; [|congruence].
    wp_step. congruence.
  - reflect_bools. wp_step. wp_step. exists id. rewrite_worlds. split; [|done].
    by apply eq_None_not_Some.
Qed.
End claim.

Section claiming.
Context {P : Platform}.

(** What a successful claim leaves. *)
Record claimed (ws : DeviceWebSocket) (dev : uuid) (e : ControlEnvelope) (h : HelloPayload) (t : Z)
    (nonce : pystr) (db db' : database) (replaced : list pystr) (c : ActiveDeviceSocket) : Prop := {
  cl_authority : ∃ d a, devices db !! dev = Some d ∧ d_status d = DsActive
    ∧ en_ack e = Some a ∧ a ≤ d_last_server_sequence d
    ∧ hl_resumed_from_seq h ≤ d_last_device_sequence d
    ∧ as_received_sequence c = d_last_device_sequence d
    ∧ as_owner_user_id c = d_owner_user_id d;
  cl_socket : as_device_id c = dev ∧ as_connection_nonce c = nonce ∧ as_epoch c = en_epoch e;
  cl_device : ∃ d', devices db' !! dev = Some d' ∧ connection_active c d' = true
    ∧ d_status d' = DsActive;
  cl_one : ∃ id r, connections db' !! id = Some r ∧ dc_connection_nonce r = nonce
    ∧ (∀ id' r', connections db' !! id' = Some r' → connected_to dev r' = true ↔ id' = id);
  cl_bound : connection_count dev db' ≤ device_max_connection_records settings;
  cl_others id r : connections db !! id = Some r → of_device dev r = false →
    connections db' !! id = Some r;
  cl_replaced n : n ∈ replaced ↔
    ∃ id r, connections db !! id = Some r ∧ connected_to dev r = true ∧ dc_connection_nonce r = n;
}.

Lemma wp_claim ws dev e h t nonce w :
  wp (claim_connection ws dev e h t nonce)
    (λ r w', match r with
     | Ok (replaced, c) => claimed ws dev e h t nonce (working w) (durable w') replaced c
     | Raise _ => durable w' = durable w
     end) w.
Proof.
  unfold claim_connection. do 2 wp_step.
  destruct (devices (working w) !! dev) as [d|] eqn:Hd; [|by wp_step].
  do 2 wp_step; [done|]. do 2 wp_step; [done|]. do 2 wp_step; [done|].
  destruct (en_ack e) as [a|] eqn:Hack; [|done]. cbn [default].
  reflect_bools.
  wp_step. eapply (wp_mono _ (grown (claim_kept dev) w)).
  { case_match; [|by apply body_silent; [apply _|apply silent_ret]].
    apply body_bind; [apply _|apply kept_acked|intros _; apply kept_ack]. }
  intros [u|x] w1 [Hd1 H1]; [|done]. destruct (H1 u eq_refl) as [Hc1 Hk1].
  destruct (Hk1 d Hd) as (d1 & Hdev1 & Hs1 & _).
  do 2 wp_step. do 2 wp_step. wp_step. eapply wp_mono; [apply wp_make_room|]. cbv beta.
  intros [u2|x] w2 [Hd2 H2]; [|congruence]. destruct (H2 u2 eq_refl) as [Hdev2 [Ho2 Hf2 Hr2]].
  unfold update_device at 1. do 2 wp_step. wp_step.
  eapply wp_mono; [apply (body_add_audit (claim_kept dev))|].
  intros [u3|x] w4 [Hd4 H4]; [|congruence]. destruct (H4 u3 eq_refl) as [Hc4 Hk4].
  wp_step. apply wp_silent; [solve_silent|]. intros [u4|x] w5 Hw5 Hd5; [|congruence].
  wp_step. eapply wp_mono; [apply wp_insert_commit|]. cbv beta.
  intros [u5|x] w6 H6; [|congruence]. destruct H6 as (id & Hfree & Hw6). wp_step.
  assert (Hm : connections (working w5) = connections (working w2)).
  { rewrite Hw5, Hc4, Hw0. done. }
  rewrite Hm in Hfree, Hw6.
  edestruct (one_connected dev t (connections (working w1)) (connections (working w2)) id
    (new_connection dev nonce (en_epoch e) t ws h (d_last_device_sequence d)
       (d_last_server_sequence d) (d_last_server_acked_sequence d `max` a)))
    as (Hone & Hbound & Hothers); [by split|exact Hfree|by apply bool_decide_true|reflexivity|].
  destruct (Hk4 (d1 <| d_active_epoch := Some (en_epoch e) |>
    <| d_active_connection_nonce := Some nonce |> <| d_last_seen_at := Some t |>
    <| d_device_metadata := hello_metadata (d_device_metadata d1) h |>)) as (d4 & Hdev4 & Hs4 & Hn4 & He4).
  { rewrite Hw0. simpl. rewrite lookup_alter_eq, Hdev2. simpl. by rewrite Hdev1. }
  rewrite Hc1 in Hothers |- *. split.
  - exists d, a. by split_and!.
  - done.
  - exists d4. rewrite Hw6, Hw5. split_and!; [done| |rewrite Hs4; simpl; congruence].
    unfold connection_active. rewrite Hn4, He4. simpl. by rewrite !bool_decide_true.
  - rewrite Hw6. do 2 eexists. split_and!; [apply lookup_insert_eq|done|exact Hone].
  - rewrite Hw6. exact Hbound.
  - rewrite Hw6. exact Hothers.
  - intros n. rewrite list_elem_of_fmap. split.
    + intros ([i x] & -> & [Hx Hcon]%elem_of_select_rows). eauto.
    + intros (i & x & Hx & Hcon & <-). exists (i, x). by rewrite elem_of_select_rows.
Qed.
End claiming.

Section properties.
Context {P : Platform}.

(** A hello that is accepted leaves its connection as the only one of the
    device.  When the first transaction of [_begin_connection] returns, the
    device was active, the hello acknowledged no frame the server had not sent
    and resumed from no frame it had not received, the device row names the new
    nonce and epoch, exactly the new row is connected, the device keeps at most
    [device_max_connection_records] rows, rows of other devices stay, and the
    nonces it replaced are those that were connected.  A refusal commits nothing. *)
Theorem claim_single_connection ws dev e h t nonce w :
  match with_session (claim_connection ws dev e h t nonce) w with
  | (Ok (replaced, c), w') => claimed ws dev e h t nonce (durable w) (durable w') replaced c
  | (Raise _, w') => durable w' = durable w
  end.
Proof.
  pose proof (wp_claim ws dev e h t nonce (w <| working := durable w |>)) as H. unfold wp in H.
  unfold with_session. by destruct (claim_connection ws dev e h t nonce _) as [[[replaced c]|x] w'].
Qed.
End properties.
