(* ===== verification/Lifetime.v ===== *)
(** * Every connection is ended

    However a device socket comes to its end, its connection is unregistered,
    its row is closed, and the device is offline with its open approvals denied,
    unless the cleanup itself fails. *)

From stdpp Require Import base list gmap.
From Stdlib Require Import NArith ZArith Lia.
From S2P Require Import Prelude Config Json Paths Models Storage World Testbed Wire Budget Snapshot.
From S2P Require Import Events Capacity Commands Approvals Outbox Steps Frames Projection.
From S2P Require Import Connections Handshake DeviceSafety FrameSafety DispatchSafety SocketSafety.
From S2P Require Import ConnectionClaim.
Open Scope Z_scope.

Section lifetime.
Context {P : Platform} (c : ActiveDeviceSocket).

Notation dev := (as_device_id c).
Notation nonce := (as_connection_nonce c).

(** No row of the connection is connected and the device does not name it. *)
Record offline (db : database) : Prop := {
  of_row id r : connections db !! id = Some r → dc_connection_nonce r = nonce →
    dc_status r ≠ CnConnected;
  of_device_row d : devices db !! dev = Some d → d_active_connection_nonce d ≠ Some nonce;
}.

Lemma kept_deny d reason audit_reason e :
  body (claim_kept dev) (_deny_undispatched dev d reason audit_reason e).
Proof.
  pose proof silent_thread_event_data.
  unfold _deny_undispatched, _append_default_deny_effects, save_binding.
  solve_body; split; simpl; eauto.
Qed.

Lemma closed_rows reason t m id r :
  (close_connection nonce reason t <$> m : gmap uuid DeviceConnection) !! id = Some r →
  dc_connection_nonce r = nonce → dc_status r ≠ CnConnected.
Proof.
  intros (r0 & <- & _)%lookup_fmap_Some. unfold close_connection.
  destruct (_ && _) eqn:E; [done|]. intros Hn Hs. by rewrite !bool_decide_true in E.
Qed.

Lemma not_still_connected db id r :
  still_connected nonce db = false → connections db !! id = Some r →
  dc_connection_nonce r = nonce → dc_status r ≠ CnConnected.
Proof.
  intros H Hr Hn Hs. enough (still_connected nonce db = true) by congruence.
  apply exists_row_spec. exists id, r. split; [done|]. by rewrite !bool_decide_true.
Qed.

(** What ending commits: the device offline, and its open approvals denied when
    the connection was its current one. *)
Definition ended (db db' : database) : Prop :=
  offline db'
  ∧ match devices db !! dev with
    | Some d =>
        if bool_decide (d_active_connection_nonce d = Some nonce)
        then ∃ t, approvals db' = denied_all dev None t "disconnect_default_deny" (approvals db)
        else approvals db' = approvals db
    | None => approvals db' = approvals db
    end.

Lemma wp_close_row reason w :
  wp (if still_connected nonce (working w) then
        t ← now;
        modify (λ db, db <| connections := close_connection nonce reason t <$> connections db |>)
      else mret tt)
    (λ r w', r = Ok tt ∧ durable w' = durable w ∧ devices (working w') = devices (working w)
       ∧ approvals (working w') = approvals (working w)
       ∧ ∀ id r, connections (working w') !! id = Some r → dc_connection_nonce r = nonce →
           dc_status r ≠ CnConnected) w.
Proof.
  destruct (still_connected nonce (working w)) eqn:E.
  - do 3 wp_step. split_and!; [done|congruence|by rewrite_worlds..|]. rewrite_worlds. simpl.
    intros id r. apply closed_rows.
  - wp_step. split_and!; try done. intros id r. by apply not_still_connected.
Qed.

Lemma wp_end_transaction reason w :
  wp (end_transaction c reason)
    (λ r w', match r with
             | Ok _ => ended (working w) (durable w')
             | Raise _ => durable w' = durable w
             end) w.
Proof.
  unfold end_transaction. do 2 wp_step. do 2 wp_step. wp_step.
  eapply wp_mono; [apply wp_close_row|]. intros [[]|x] w1 (Hr & Hd1 & Hdev1 & Ha1 & Hrows); [|done].
  assert (Hsame : ∀ w', durable w' = working w' → connections (working w') = connections (working w1) →
    (∀ d, devices (working w') !! dev = Some d → d_active_connection_nonce d ≠ Some nonce) →
    offline (durable w')).
  { intros w' -> Hc Hn. split; [|done]. by rewrite Hc. }
  unfold ended. destruct (devices (working w) !! dev) as [d|] eqn:Hd.
  2:{ do 2 wp_step. wp_step. wp_step. wp_step. split; [|congruence]. apply Hsame; [congruence..|].
      rewrite_worlds. rewrite Hdev1, Hd. done. }
  case_bool_decide as Hcur.
  2:{ do 2 wp_step. wp_step. wp_step. wp_step. split; [|congruence]. apply Hsame; [congruence..|].
      rewrite_worlds. rewrite Hdev1, Hd. by intros ? [= <-]. }
  unfold update_device. do 2 wp_step. wp_step. wp_step.
  eapply wp_mono.
  { unfold deny_disconnected. apply wp_conj; [apply (kept_deny d)|apply deny_undispatched_run]. }
  cbv beta. intros [denied|x] w2 ([Hd2 Hk2] & t & Ha2 & _); [|congruence].
  wp_step.
  eapply wp_mono.
  { apply wp_conj; [apply (body_append (claim_kept dev))|apply (body_append same_approvals)]. }
  cbv beta. intros [e|x] w3 ([Hd3 Hk3] & _ & Ha3); [|congruence].
  assert (Hk : claim_kept dev (working w0) (working w3)).
  { etrans; [by eapply Hk2|by eapply Hk3]. }
  specialize (Ha3 e eq_refl). do 3 wp_step. wp_step. destruct Hk as [Hck Hnk]. split.
  - apply Hsame; [congruence|rewrite Hw0, Hck; done|]. rewrite Hw0. intros d' Hd'.
    destruct (Hnk (d <| d_active_connection_nonce := None |>)) as (d2 & Hd2' & _ & Hn2 & _).
    { simpl. rewrite lookup_alter_eq, Hdev1, Hd. done. }
    rewrite Hd' in Hd2'. injection Hd2' as <-. by rewrite Hn2.
  - exists t. rewrite Hd4, Ha3, Ha2. simpl. by rewrite Ha1.
Qed.

(** What is already ended stays as it is. *)
Lemma ended_again db db1 db2 : ended db db1 → ended db1 db2 → ended db db2.
Proof.
  intros [[_ Hoff] H1] [Hoff2 H2]. split; [done|].
  assert (Happ : approvals db2 = approvals db1).
  { destruct (devices db1 !! dev) as [d1|] eqn:Hd1; [|done].
    rewrite bool_decide_false in H2; [done|]. by apply Hoff. }
  destruct (devices db !! dev) as [d|]; [|congruence].
  destruct (bool_decide _); [|congruence]. destruct H1 as [t H1]. exists t. congruence.
Qed.

(** Ending a connection commits its end or nothing; it commits when it returns. *)
Lemma wp_end_connection reason w :
  wp (_end_connection c reason)
    (λ r w', match r with
             | Ok _ => ended (durable w) (durable w')
             | Raise _ => ended (durable w) (durable w') ∨ durable w' = durable w
             end) w.
Proof.
  unfold _end_connection. wp_step. apply wp_silent; [intros w0; unfold hub_unregister; by case_bool_decide|].
  intros [u|x] w1 _ Hd1; [|by right].
  wp_step. apply wp_silent; [solve_silent|]. intros [b|x] w2 _ Hd2; [|right; congruence].
  wp_step. unfold wp at 1, with_session.
  pose proof (wp_end_transaction reason (w2 <| working := durable w2 |>)) as H. unfold wp in H.
  destruct (end_transaction c reason _) as [[events|x] w3]; simpl in H |- *;
    rewrite Hd2, Hd1 in H; [|by right].
  apply wp_silent; [unfold publish_event; solve_silent|]. intros r w4 _ Hd4. rewrite Hd4.
  destruct r; [done|by left].
Qed.

(** ** The cleanup of a socket *)

(** The reasons [_end_connection] is called with after [run_connection], the
    next one when the one before failed. *)
Definition cleanup_reasons (failure : option exn) : list pystr :=
  match failure with
  | Some (StaleConnection _) => ["connection_replaced"; "websocket_closed"]
  | Some x =>
      if is_protocol_failure x then ["protocol_error"; "websocket_closed"]
      else ["websocket_closed"]
  | None => ["websocket_closed"]
  end.

(** Every attempt of the cleanup that starts in [w] fails, each where the one
    before left off, and none of them commits anything. *)
Inductive cleanup_failed : list pystr → world → Prop :=
| cf_nil w : cleanup_failed [] w
| cf_cons reason reasons x w w' :
    _end_connection c reason w = (Raise x, w') → durable w' = durable w →
    cleanup_failed reasons w' → cleanup_failed (reason :: reasons) w.

(** The committed state once the socket is done with: the connection ended, or
    every attempt at it failed. *)
Definition ended_or_failed (reasons : list pystr) (w w' : world) : Prop :=
  ended (durable w) (durable w') ∨ cleanup_failed reasons w ∧ durable w' = durable w.

Lemma wp_ended reason w :
  wp (_end_connection c reason)
    (λ r w', ended (durable w) (durable w')
       ∨ ∃ x, r = Raise x ∧ _end_connection c reason w = (Raise x, w') ∧ durable w' = durable w) w.
Proof.
  pose proof (wp_end_connection reason w) as H. unfold wp in *.
  destruct (_end_connection c reason w) as [[u|x] w1]; [by left|].
  destruct H as [H|H]; [by left|right]. by exists x.
Qed.

Lemma wp_finish reason w :
  wp (finish c reason) (λ _ w', ended_or_failed ["websocket_closed"] w w') w.
Proof.
  unfold finish. wp_step. eapply wp_mono; [apply wp_ended|].
  intros r w1 [H1|(x & -> & H1 & Hd)].
  - destruct r; [|by left]. apply wp_silent; [solve_silent|]. intros r w2 _ Hd. left. by rewrite Hd.
  - right. split; [|done]. econstructor; [done..|constructor].
Qed.

Lemma wp_end_for reason w :
  wp (end_for c reason) (λ _ w', ended_or_failed [reason; "websocket_closed"] w w') w.
Proof.
  unfold end_for. wp_step. eapply wp_mono; [apply wp_ended|].
  intros [u|x] w1 H1; [left; by destruct H1 as [|(? & ? & _)]|].
  wp_step. eapply wp_mono; [apply wp_ended|]. intros r w2 H2.
  assert (H : ended_or_failed [reason; "websocket_closed"] w w2).
  { destruct H1 as [H1|(y & _ & H1 & Hd1)], H2 as [H2|(z & _ & H2 & Hd2)].
    - left. by eapply ended_again.
    - left. by rewrite Hd2.
    - left. by rewrite <- Hd1.
    - right. split; [|congruence]. econstructor; [done..|]. econstructor; [done..|constructor]. }
  destruct r; [|exact H]. apply wp_silent; [solve_silent|]. intros r w3 _ Hd.
  unfold ended_or_failed. by rewrite Hd.
Qed.

Lemma wp_then_silent {A B} (m : tx A) (k : A → tx B) reasons w :
  wp m (λ _ w', ended_or_failed reasons w w') w → (∀ a, silent (k a)) →
  wp (m ≫= k) (λ _ w', ended_or_failed reasons w w') w.
Proof.
  intros Hm Hk. wp_step. eapply wp_mono; [exact Hm|]. intros [a|x] w1 H1; [|done].
  apply wp_silent; [apply Hk|]. intros r w2 _ Hd. unfold ended_or_failed. by rewrite Hd.
Qed.

Lemma serve_and_end_cleans_up hello inputs w :
  let '(r, w1) := run_connection c hello inputs w in
  ended_or_failed (cleanup_reasons (match r with Ok _ => None | Raise x => Some x end)) w1
    (serve_and_end c hello inputs w).2.
Proof.
  unfold serve_and_end. unfold mbind at 1, tx_bind at 1. unfold try_catch at 1, mbind at 1, tx_bind at 1.
  destruct (run_connection c hello inputs w) as [[u|x] w1].
  { exact (wp_finish "unknown" w1). }
  assert (Hfail : wp (if is_protocol_failure x then
      end_for c "protocol_error";; close_socket nonce 4400;;
      measure (MWebsocketClosed "device" "protocol_error")
    else finish c "unknown";; raise x)
    (λ _ w', ended_or_failed (if is_protocol_failure x then ["protocol_error"; "websocket_closed"]
                              else ["websocket_closed"]) w1 w') w1).
  { destruct (is_protocol_failure x); apply wp_then_silent; try (apply wp_end_for);
      try (apply wp_finish); intros; solve_silent. }
  destruct x; try exact Hfail.
  - refine (wp_then_silent _ _ _ w1 (wp_end_for "connection_replaced" w1) _). intros; solve_silent.
  - exact (wp_finish (_websocket_close_reason code) w1).
Qed.
End lifetime.

Section properties.
Context {P : Platform}.

(** C25: A connection is always ended.  [_end_connection] commits, whenever it
    returns, a state in which no row of the connection is connected, the device
    does not name it, and, if it was the device's current one, every open
    approval of the device is denied; when it raises it has committed this or
    nothing.
    Serving a socket, with any frames, wake-ups, timeouts and failures, never
    leaves it open: from the very world in which the connection was left, it is
    ended, with a second attempt when the first one of a known cause fails,
    unless every one of these attempts raised, and then nothing has changed. *)
Theorem connection_always_ended c hello inputs reason w :
  (let '(r, w') := _end_connection c reason w in
   match r with
   | Ok _ => ended c (durable w) (durable w')
   | Raise _ => ended c (durable w) (durable w') ∨ durable w' = durable w
   end)
  ∧ (let '(r, w1) := run_connection c hello inputs w in
     ended_or_failed c (cleanup_reasons (match r with Ok _ => None | Raise x => Some x end)) w1
       (serve_and_end c hello inputs w).2).
Proof.
  split; [|apply serve_and_end_cleans_up].
  pose proof (wp_end_connection c reason w) as H. unfold wp in H.
  by destruct (_end_connection c reason w) as [[u|x] w'].
Qed.
End properties.
