(* ===== verification/FrameFaults.v ===== *)
(** * A frame the server can neither apply nor refuse

    The thread and turn identifiers of a device end in [VARCHAR(255)] columns.
    [_project_thread_list] skips longer ones; the projection of [turn/started]
    events does not look, so the flush fails with an error that is none of the
    protocol errors [handle_device] answers. *)

From stdpp Require Import base list gmap.
From Stdlib Require Import NArith ZArith Lia.
From S2P Require Import Prelude Config Json Paths Models Storage World Testbed Wire Budget Snapshot.
From S2P Require Import Events Capacity Commands Approvals Outbox Steps Frames Projection.
From S2P Require Import Connections Handshake DeviceSafety FrameSafety DispatchSafety SocketSafety.
Open Scope Z_scope.

Section faults.
Context {P : Platform} (c : ActiveDeviceSocket).

(** The projected thread is small enough for the bootstrap response. *)
Definition projection_fits (tid : uuid) (b : ThreadBinding) (t : Z) : Prop :=
  thread_summary_valid b = true
  ∧ ∃ n, compact_ensure_ascii_size
      (thread_summary_json tid (b <| tb_updated_at := t |>) "waiting_for_approval") = Ok n
    ∧ n ≤ BOOTSTRAP_THREAD_SUMMARY_MAX_BYTES.

Lemma summary_json_same tid b b' status :
  tb_title b' = tb_title b → tb_cwd b' = tb_cwd b → tb_model b' = tb_model b →
  tb_device_id b' = tb_device_id b → tb_updated_at b' = tb_updated_at b →
  thread_summary_json tid b' status = thread_summary_json tid b status.
Proof. intros E1 E2 E3 E4 E5. unfold thread_summary_json. by rewrite E1, E2, E3, E4, E5. Qed.

Lemma wp_projection_fits tid b t f (Q : outcome unit → world → Prop) w :
  projection_fits tid b t →
  (∀ b, tb_title (f b) = tb_title b ∧ tb_cwd (f b) = tb_cwd b ∧ tb_model (f b) = tb_model b
        ∧ tb_device_id (f b) = tb_device_id b ∧ tb_updated_at (f b) = t) →
  Q (Ok tt) w → wp (capacity_as_protocol_error (ensure_thread_projection_fits tid (f b))) Q w.
Proof.
  intros [Hv (n & Hn & Hle)] Hf HQ.
  destruct (Hf b) as (E1 & E2 & E3 & E4 & E5).
  unfold capacity_as_protocol_error, ensure_thread_projection_fits, ensure_fits.
  rewrite (summary_json_same tid (b <| tb_updated_at := t |>)) by done. rewrite Hn.
  assert (Hvalid : thread_summary_valid (f b) = true).
  { unfold thread_summary_valid in *. by rewrite E1, E2, E3. }
  rewrite Hvalid. do 3 wp_step; [done|]. wp_step; [apply Z.ltb_lt in Hguard0; lia|]. exact HQ.
Qed.

(** A flush of columns that do not fit fails in the database. *)
Lemma wp_flush_oversized tid b (Q : outcome unit → world → Prop) w :
  columns_fit b = false →
  Q (Raise IntegrityError) w → Q (Raise DataError) w → wp (flush_binding tid b) Q w.
Proof.
  intros Hc H1 H2. unfold flush_binding. rewrite Hc. do 2 wp_step. do 2 wp_step; [exact H1|].
  do 2 wp_step; [exact H2|done].
Qed.

Lemma wp_lock_ticks o (Q : outcome Z → world → Prop) w :
  (∀ n w', event_update (working w) (working w') → durable w' = durable w → ticks w' = ticks w →
     Q (Ok n) w') → wp (lock_owner_cursor o) Q w.
Proof.
  intros HQ. pose proof (wp_lock_owner_cursor o (λ r w', event_update (working w) (working w')) w) as H.
  unfold lock_owner_cursor, wp, mbind, tx_bind, modify, query in *. simpl in *.
  apply HQ; [|done|done]. apply H. by intros.
Qed.

Lemma wp_now_at (Q : outcome Z → world → Prop) w :
  (∀ w', working w' = working w → durable w' = durable w → Q (Ok (clock (ticks w))) w') → wp now Q w.
Proof. intros HQ. by apply HQ. Qed.

Lemma event_binding_threads epoch rid db db' :
  threads db' = threads db → event_binding c epoch rid db' = event_binding c epoch rid db.
Proof. intros E. unfold event_binding. by rewrite E. Qed.

(** A [turn/started] event whose turn identifier is longer than 255 characters,
    for a thread the device runs, is neither applied nor refused as a protocol
    error: the flush fails with a database error, which [handle_device] does not
    answer, and nothing of the transaction remains. *)
Theorem oversized_turn_unhandled e event d rid tid b turn w :
  read_event (en_payload e) = Some event → de_method event = "turn/started" →
  owned_device c (working w) = Some d →
  _extract_string ["threadId"; "thread_id"] (JObj (de_params event)) = Some rid →
  event_binding c (en_epoch e) rid (working w) = Some (tid, b) →
  _extract_string ["turnId"; "turn_id"; "id"] (JObj (de_params event)) = Some turn →
  255 < py_len turn → projection_fits tid b (clock (ticks w)) →
  let '(r, w') := _apply_device_event_tx c e w in
  (r = Raise DataError ∨ r = Raise IntegrityError) ∧ durable w' = durable w
  ∧ is_protocol_failure DataError = false ∧ is_protocol_failure IntegrityError = false.
Proof.
  intros Hev Hmethod Hd Hrid Hb Hturn Hlong Hfit.
  enough (H : wp (_apply_device_event_tx c e) (λ r w', (r = Raise DataError ∨ r = Raise IntegrityError)
    ∧ durable w' = durable w) w).
  { unfold wp in H. destruct (_apply_device_event_tx c e w) as [r w']. simpl in H.
    destruct H. by split_and!. }
  unfold _apply_device_event_tx. rewrite Hev, Hmethod, Hrid. do 2 wp_step; [done|].
  do 2 wp_step. rewrite Hd. wp_step. apply wp_lock_ticks. intros n w1 Hup Hd1 Hticks.
  do 2 wp_step. rewrite (event_binding_threads _ _ (working w)) by (rewrite (eu_threads _ _ Hup); done).
  rewrite Hb. wp_step. unfold project_event.
  rewrite !bool_decide_false, bool_decide_true by done. rewrite Hturn. wp_step. cbn [ep_binding].
  wp_step. apply wp_now_at. intros w2 Hw2 Hd2. rewrite Hticks. wp_step.
  apply (wp_projection_fits tid b (clock (ticks w)) (λ b, b <| tb_status := TsRunning |>
    <| tb_active_turn_id := Some turn |> <| tb_updated_at := clock (ticks w) |>)); [done|done|].
  wp_step. apply wp_flush_oversized.
  { unfold columns_fit. simpl. rewrite (proj2 (Z.leb_gt (py_len turn) 255)) by done.
    by rewrite andb_false_r. }
  - split; [by right|congruence].
  - split; [by left|congruence].
Qed.
End faults.

(** ** The frame on the testbed *)

Definition long_turn : pystr := PyStr (replicate 256 97%N).

Definition long_turn_frame : ControlEnvelope :=
  {| en_id := 77%N; en_device_id := 1%N; en_epoch := "epoch-0"; en_seq := 1; en_ack := None;
     en_type := TEvent; en_sent_at := 0;
     en_payload := [("method", JStr "turn/started");
                    ("params", JObj [("threadId", JStr "remote-1"); ("turnId", JStr long_turn)])] |}.

Definition long_turn_event : DeviceEventPayload :=
  {| de_method := "turn/started";
     de_params := [("threadId", JStr "remote-1"); ("turnId", JStr long_turn)] |}.

Lemma oversized_turn_unhandled_witness :
  durable (after (_apply_device_event_tx sample_socket long_turn_frame) (start_world stale_database))
  = stale_database.
Proof.
  pose proof (oversized_turn_unhandled sample_socket long_turn_frame long_turn_event sample_device
    "remote-1" 3%N stale_thread long_turn (start_world stale_database)) as H.
  destruct (_apply_device_event_tx sample_socket long_turn_frame (start_world stale_database))
    as [r w'] eqn:E.
  unfold after. rewrite E. apply H.
  - vm_compute. reflexivity.
  - reflexivity.
  - vm_compute. reflexivity.
  - vm_compute. reflexivity.
  - vm_compute. reflexivity.
  - vm_compute. reflexivity.
  - vm_compute. reflexivity.
  - split; [vm_compute; reflexivity|]. eexists. split; [vm_compute; reflexivity|].
    vm_compute. discriminate.
Defined.
