(* ===== verification/FrameTypes.v ===== *)
(** * The type of an accepted frame

    What [_parse_device_envelope] promises the handlers, and that validating an
    envelope is idempotent: the dump of an envelope reads back as itself. *)

From stdpp Require Import base list gmap.
From Stdlib Require Import NArith ZArith Lia.
From S2P Require Import Prelude Config Json Paths Models Storage World Testbed Wire Budget Snapshot.
From S2P Require Import Events Capacity Commands Approvals Outbox Frames.
Open Scope Z_scope.

Section types.
Context {P : Platform}.

(** The fields of [ControlEnvelope], as the model constrains them. *)
Record envelope_typed (e : ControlEnvelope) : Prop := {
  et_epoch : 16 ≤ py_len (en_epoch e) ≤ 128;
  et_sequence : 0 ≤ en_seq e ≤ MAX_SEQUENCE;
  et_handshake : en_seq e = 0 ↔ is_handshake (en_type e) = true;
  et_ack a : en_ack e = Some a → 0 ≤ a ≤ MAX_SEQUENCE;
  et_payload : is_Some (validate_envelope_payload e);
}.

Lemma require_Some (b : bool) u : require b = Some u → b = true.
Proof. by destruct b. Qed.

Lemma strict_int_Some lo hi j z : strict_int lo hi j = Some z → lo ≤ z ≤ hi.
Proof.
  unfold strict_int. destruct j; try done. destruct (_ && _) eqn:E; [|done].
  intros [= <-]. by reflect_bools.
Qed.

Lemma str_between_Some lo hi j s : str_between lo hi j = Some s → lo ≤ py_len s ≤ hi.
Proof.
  unfold str_between. destruct j; try done. destruct (_ && _) eqn:E; [|done].
  intros [= <-]. by reflect_bools.
Qed.

Lemma optional_sequence_Some j a n :
  optional_sequence j = Some a → a = Some n → 0 ≤ n ≤ MAX_SEQUENCE.
Proof.
  unfold optional_sequence. intros H ->. destruct j as [[]|]; simplify_eq.
  all: by apply fmap_Some in H as (m & Hz%strict_int_Some & [= <-]).
Qed.

(** [bind_inv H]: the values a reader that returned has read. *)
Ltac bind_inv H :=
  match type of H with
  | (mbind _ _) = Some _ =>
      let x := fresh "x" in let Hx := fresh "Hx" in
      apply bind_Some in H as (x & Hx & H)
  end.

Lemma read_envelope_typed j e : read_envelope j = Some e → envelope_typed e.
Proof.
  unfold read_envelope. intros H. repeat bind_inv H. injection H as <-.
  apply bind_Some in Hx6 as (j6 & _ & Hx6%str_between_Some).
  apply bind_Some in Hx7 as (j7 & _ & Hx7%strict_int_Some).
  apply require_Some in Hx12, Hx13. split; simpl; [done|done| | |by exists x14].
  - destruct (is_handshake x9), (x7 =? 0) eqn:E; try done; reflect_bools; split; try done; lia.
  - intros a Ha. by eapply optional_sequence_Some.
Qed.

(** ** Identifiers *)

Definition hex_step (acc c : N) : N := if (c =? 45)%N then acc else (16 * acc + hex_value c)%N.

Lemma hex_digit_value d :
  0 ≤ d < 16 → hex_step 0 (hex_digit d) = Z.to_N d ∧ is_hex (hex_digit d) = true
    ∧ (hex_digit d =? 45)%N = false.
Proof.
  intros Hd. assert (H : d = 0 ∨ d = 1 ∨ d = 2 ∨ d = 3 ∨ d = 4 ∨ d = 5 ∨ d = 6 ∨ d = 7 ∨ d = 8 ∨ d = 9
    ∨ d = 10 ∨ d = 11 ∨ d = 12 ∨ d = 13 ∨ d = 14 ∨ d = 15) by lia.
  by repeat destruct H as [->|H]; [..|subst].
Qed.

Lemma hex_padded_value k n acc :
  0 ≤ n < 16 ^ Z.of_nat k →
  foldl hex_step acc (hex_padded k n) = (acc * 16 ^ N.of_nat k + Z.to_N n)%N.
Proof.
  revert n. induction k as [|k IH]; intros n Hn.
  { simpl in *. replace n with 0 by lia. simpl. lia. }
  cbn [hex_padded]. rewrite foldl_app. cbn [foldl].
  rewrite Nat2Z.inj_succ, Z.pow_succ_r in Hn by lia.
  rewrite IH by (split; [apply Z.div_pos; lia|apply Z.div_lt_upper_bound; lia]).
  pose proof (Z.mod_pos_bound n 16 ltac:(lia)) as Hm.
  destruct (hex_digit_value (n mod 16) Hm) as (Hv & _ & Hne).
  unfold hex_step in *. rewrite Hne in *. rewrite Nat2N.inj_succ, N.pow_succ_r'.
  assert (E : hex_value (hex_digit (n mod 16)) = Z.to_N (n mod 16)) by lia.
  rewrite E. pose proof (Z.div_mod n 16 ltac:(lia)) as Hdm.
  assert (Hq : 0 ≤ n / 16) by (apply Z.div_pos; lia).
  apply N2Z.inj. rewrite !N2Z.inj_add, !N2Z.inj_mul, ?N2Z.inj_pow, !Z2N.id by lia. lia.
Qed.

Lemma hex_padded_hex k n :
  length (hex_padded k n) = k
  ∧ forallb (λ c, is_hex c && negb (c =? 45)%N) (hex_padded k n) = true.
Proof.
  revert n. induction k as [|k IH]; intros n; [done|]. cbn [hex_padded].
  destruct (IH (n / 16)) as [Hl Hc]. rewrite length_app, Hl, forallb_app, Hc. simpl.
  destruct (hex_digit_value (n mod 16)) as (_ & -> & ->); [apply Z.mod_pos_bound; lia|].
  split; [lia|done].
Qed.

(** 32 digits with the four hyphens. *)
Definition hyphenated (h : list N) : list N :=
  take 8 h ++ [45%N] ++ take 4 (drop 8 h) ++ [45%N] ++ take 4 (drop 12 h)
  ++ [45%N] ++ take 4 (drop 16 h) ++ [45%N] ++ drop 20 h.

Lemma hyphenated_number h acc :
  foldl hex_step acc (hyphenated h) = foldl hex_step acc h.
Proof.
  assert (E : h = take 8 h ++ take 4 (drop 8 h) ++ take 4 (drop 12 h) ++ take 4 (drop 16 h) ++ drop 20 h).
  { change 20%nat with (16 + 4)%nat. rewrite <- drop_drop, take_drop.
    change 16%nat with (12 + 4)%nat. rewrite <- drop_drop, take_drop.
    change 12%nat with (8 + 4)%nat. by rewrite <- drop_drop, take_drop, take_drop. }
  unfold hyphenated. rewrite E at 6. by rewrite !foldl_app.
Qed.

Lemma hyphenated_shape h :
  length h = 32%nat → forallb (λ c, is_hex c && negb (c =? 45)%N) h = true →
  canonical_uuid_shape (hyphenated h) = true.
Proof.
  intros Hl Hh.
  do 32 (destruct h as [|? h]; [discriminate Hl|]). destruct h; [|discriminate Hl]. clear Hl.
  cbn [forallb] in Hh. rewrite !andb_true_iff in Hh. destruct_and! Hh.
  unfold canonical_uuid_shape, hyphenated.
  cbn [length app take drop forallb].
  repeat match goal with H : is_hex _ = true |- _ => rewrite H; clear H end. reflexivity.
Qed.

Lemma wire_uuid_str u : (u < 2 ^ 128)%N → wire_uuid (JStr (uuid_str u)) = Some u.
Proof.
  intros Hu. destruct (hex_padded_hex 32 (Z.of_N u)) as [Hl Hh].
  unfold wire_uuid, uuid_str. cbn [codepoints].
  fold (hyphenated (hex_padded 32 (Z.of_N u))). rewrite hyphenated_shape by done.
  change (hex_number ?l) with (foldl hex_step 0%N l). f_equal.
  rewrite hyphenated_number, hex_padded_value.
  - rewrite N.mul_0_l, N.add_0_l. apply N2Z.id.
  - split; [lia|]. change (16 ^ Z.of_nat 32) with (Z.of_N (2 ^ 128)). lia.
Qed.

(** ** Properties *)

Lemma envelope_type_value_of t : envelope_type_of (envelope_type_value t) = Some t.
Proof. by destruct t. Qed.

Lemma strict_int_in lo hi z : lo ≤ z ≤ hi → strict_int lo hi (JInt z) = Some z.
Proof. intros [H1 H2]. unfold strict_int. apply Z.leb_le in H1, H2. by rewrite H1, H2. Qed.

Lemma str_between_in lo hi s : lo ≤ py_len s ≤ hi → str_between lo hi (JStr s) = Some s.
Proof. intros [H1 H2]. unfold str_between. apply Z.leb_le in H1, H2. by rewrite H1, H2. Qed.

Lemma bind_to {A B} (m : option A) x (f : A → option B) y : m = Some x → f x = y → m ≫= f = y.
Proof. by intros -> <-. Qed.

(** C32: Every frame the service accepts from a device has the type its handlers
    rely on: a device-outbound type, an epoch of 16 to 128 characters, sequence
    and acknowledgement numbers in range, sequence zero exactly for handshake
    frames, a payload that its model accepts, so no handler refuses it again, and
    the configured limits on shape and payload size. *)
Theorem accepted_frame_typed raw e :
  _parse_device_envelope raw = Ok e →
  envelope_typed e ∧ en_type e ∈ DEVICE_OUTBOUND_TYPES
  ∧ _validate_json_shape (device_max_json_depth settings) (device_max_json_nodes settings)
      (device_max_string_chars settings) (dump_envelope e) = None
  ∧ payload_size_error e = None.
Proof.
  unfold _parse_device_envelope. destruct (utf8_len _) as [n|]; [|done].
  destruct (_ <? n); [done|].
  destruct (pydantic_json raw ≫= read_envelope) as [e'|] eqn:Hread; [|done].
  apply bind_Some in Hread as (j & _ & Hread%read_envelope_typed).
  destruct (require_device_outbound e') as [u|] eqn:Hout; [|done].
  destruct (_validate_json_shape _ _ _ _) eqn:Hshape; [done|].
  destruct (payload_size_error e') eqn:Hsize; [done|]. intros [= <-]. split_and!; try done.
  apply require_Some in Hout. by apply bool_decide_eq_true in Hout.
Qed.

(** C33: Validation is idempotent: the JSON dump of a well-typed envelope, as
    [model_dump(mode="json")] writes it, reads back as the same envelope, its
    128-bit identifiers included. *)
Theorem envelope_round_trip e :
  envelope_typed e → (en_id e < 2 ^ 128)%N → (en_device_id e < 2 ^ 128)%N →
  wire_datetime (JStr (iso (en_sent_at e))) = Some (en_sent_at e) →
  within_bytes MAX_FRAME_BYTES (dump_envelope e) = true →
  read_envelope (dump_envelope e) = Some e.
Proof.
  intros [He Hs Hh Ha [p Hp]] Hi Hd Ht Hb. unfold read_envelope.
  eapply bind_to; [reflexivity|]. cbv beta.
  eapply bind_to; [by rewrite Hb|]. eapply bind_to; [reflexivity|].
  eapply bind_to; [reflexivity|]. eapply bind_to; [reflexivity|].
  eapply bind_to; [by apply wire_uuid_str|]. eapply bind_to; [by apply wire_uuid_str|].
  eapply bind_to; [by apply str_between_in|]. eapply bind_to; [by apply strict_int_in|].
  eapply (bind_to _ (en_ack e)).
  { destruct (en_ack e) as [a|]; [|reflexivity].
    change (Some <$> strict_int 0 MAX_SEQUENCE (JInt a) = Some (Some a)).
    by rewrite strict_int_in by by apply Ha. }
  eapply bind_to; [apply envelope_type_value_of|]. eapply bind_to; [exact Ht|].
  eapply bind_to; [reflexivity|].
  assert (E : is_handshake (en_type e) = (en_seq e =? 0)).
  { apply eq_true_iff_eq. rewrite <- Hh. symmetry. apply Z.eqb_eq. }
  rewrite E. eapply bind_to; [by destruct (en_seq e =? 0)|].
  eapply bind_to; [by destruct (en_seq e =? 0)|].
  eapply bind_to; [exact Hp|]. by destruct e.
Qed.
End types.

(** ** A frame on the testbed *)

Definition sample_envelope : ControlEnvelope :=
  {| en_id := 5%N; en_device_id := 1%N; en_epoch := "epoch-0000000001"; en_seq := 1;
     en_ack := Some 0; en_type := THeartbeat; en_sent_at := 1700000000000000;
     en_payload := [("status", JStr "ok")] |}.

Definition sample_text : pystr := PyStr (dumps escape_ascii (dump_envelope sample_envelope)).

Lemma accepted_frame_typed_witness :
  _parse_device_envelope sample_text = Ok sample_envelope
  ∧ en_type sample_envelope ∈ DEVICE_OUTBOUND_TYPES.
Proof.
  assert (E : _parse_device_envelope sample_text = Ok sample_envelope) by (vm_compute; reflexivity).
  split; [exact E|]. exact (proj1 (proj2 (accepted_frame_typed sample_text sample_envelope E))).
Defined.

Lemma envelope_round_trip_witness :
  read_envelope (dump_envelope sample_envelope) = Some sample_envelope.
Proof.
  apply (envelope_round_trip sample_envelope).
  - split; simpl; [vm_compute; split; discriminate|vm_compute; split; discriminate|split; discriminate| |].
    + intros a [= <-]. vm_compute. split; discriminate.
    + vm_compute. by eexists.
  - reflexivity.
  - reflexivity.
  - vm_compute. reflexivity.
  - vm_compute. reflexivity.
Defined.
