(* ===== verification/Retention.v ===== *)
(** * Retention ([control_api/retention.py])

    [RetentionService] deletes old terminal rows, a bounded batch per table and
    transaction, in an order that respects the foreign keys.  A batch selects
    its candidates and then deletes those that still satisfy the predicate:
    [meanwhile] is what other transactions commit between the two statements.
    The sweeping session writes nothing before its [DELETE], which therefore
    reads the committed state. *)

From stdpp Require Import base list gmap.
From Stdlib Require Import NArith ZArith Lia.
From S2P Require Import Prelude Config Json Models Storage World Testbed Events Commands Approvals.
From S2P Require Import Outbox.
Open Scope Z_scope.

Definition _TERMINAL_COMMAND_STATUSES : list CommandStatus :=
  [CsSucceeded; CsFailed; CsDenied; CsCancelled; CsExpired].
Definition _TERMINAL_APPROVAL_STATUSES : list ApprovalStatus :=
  [AsApproved; AsDenied; AsExpired; AsCancelled].
Definition _TERMINAL_THREAD_STATUSES : list ThreadBindingStatus := [TsClosed; TsStale].

Record RetentionSweepResult := {
  rs_control_sessions : Z;
  rs_device_pairings : Z;
  rs_approvals : Z;
  rs_commands : Z;
  rs_device_connections : Z;
  rs_thread_bindings : Z;
  rs_devices : Z;
  rs_audit_events : Z;
}.

Definition total (r : RetentionSweepResult) : Z :=
  rs_control_sessions r + rs_device_pairings r + rs_approvals r + rs_commands r
  + rs_device_connections r + rs_thread_bindings r + rs_devices r + rs_audit_events r.

(** [column <= cutoff] and [column IS NOT NULL AND column <= cutoff]. *)
Definition before (column : option Z) (cutoff : Z) : bool :=
  match column with Some t => t <=? cutoff | None => false end.

(** ** The predicates

    Each is split into what the row itself says, and the [EXISTS] subqueries
    about the rows that refer to it. *)

Definition no_unacknowledged_frames (db : database) (device_id : uuid) : bool :=
  negb (exists_row (λ k f, frame_of device_id k && negb (is_acked f)) (outbox db)).

Definition old_session (cutoff : Z) (s : ControlSession) : bool :=
  (cs_expires_at s <=? cutoff)
  && match cs_revoked_at s with None => true | Some t => t <=? cutoff end.

Definition old_pairing (cutoff : Z) (p : DevicePairing) : bool :=
  (dp_expires_at p <=? cutoff) && py_in (dp_status p) [PsCompleted; PsExpired; PsCancelled].

Definition safely_delivered (a : Approval) : bool :=
  bool_decide (is_Some (ap_decision_dispatched_at a))
  || bool_decide (ap_status a = AsDenied)
     && match ap_decision_reason a with
        | Some r => py_in r NON_DISPATCHABLE_APPROVAL_REASONS
        | None => false
        end
  || py_in (ap_status a) [AsExpired; AsCancelled].

Definition old_approval (cutoff : Z) (db : database) (a : Approval) : bool :=
  py_in (ap_status a) _TERMINAL_APPROVAL_STATUSES && before (ap_decided_at a) cutoff
  && safely_delivered a && no_unacknowledged_frames db (ap_device_id a).

Definition old_command (cutoff : Z) (db : database) (c : Command) : bool :=
  py_in (cmd_status c) _TERMINAL_COMMAND_STATUSES && before (cmd_completed_at c) cutoff
  && no_unacknowledged_frames db (cmd_device_id c).

Definition no_approval_reference (db : database) (id : uuid) : bool :=
  negb (exists_row (λ _ a, bool_decide (ap_command_id a = Some id)) (approvals db)).

Definition old_connection (cutoff : Z) (c : DeviceConnection) : bool :=
  bool_decide (dc_status c = CnDisconnected) && before (dc_disconnected_at c) cutoff.

Definition unresolved (a : Approval) : bool :=
  bool_decide (ap_status a = AsPending)
  || py_in (ap_status a) [AsApproved; AsDenied]
     && bool_decide (ap_decision_dispatched_at a = None)
     && dispatchable_reason (ap_decision_reason a).

Definition no_unresolved_approvals (db : database) (device_id : uuid) : bool :=
  negb (exists_row (λ _ a, bool_decide (ap_device_id a = device_id) && unresolved a)
          (approvals db)).

Definition old_thread (cutoff : Z) (db : database) (t : ThreadBinding) : bool :=
  py_in (tb_status t) _TERMINAL_THREAD_STATUSES && bool_decide (tb_active_turn_id t = None)
  && (tb_updated_at t <=? cutoff) && no_unacknowledged_frames db (tb_device_id t)
  && no_unresolved_approvals db (tb_device_id t).

Definition thread_unreferenced (db : database) (id : uuid) : bool :=
  negb (exists_row (λ _ c, bool_decide (cmd_thread_binding_id c = Some id)) (commands db))
  && negb (existsb (λ e, bool_decide (ev_thread_binding_id e = Some id)) (event_log db)).

Definition old_device (cutoff : Z) (d : Device) : bool :=
  bool_decide (d_status d = DsRevoked) && before (d_revoked_at d) cutoff
  && bool_decide (d_refresh_credential_hash d = None) && bool_decide (d_active_epoch d = None)
  && bool_decide (d_active_connection_nonce d = None)
  && (d_last_server_acked_sequence d =? d_last_server_sequence d).

(** A row of a table that may not outlive its device refers to it. *)
Definition device_restricted (db : database) (id : uuid) : bool :=
  exists_row (λ _ c, bool_decide (dc_device_id c = id)) (connections db)
  || exists_row (λ _ t, bool_decide (tb_device_id t = id)) (threads db)
  || exists_row (λ _ c, bool_decide (cmd_device_id c = id)) (commands db)
  || exists_row (λ _ a, bool_decide (ap_device_id a = id)) (approvals db)
  || existsb (λ e, bool_decide (ev_device_id e = id)) (event_log db).

Definition device_unreferenced (db : database) (id : uuid) : bool :=
  negb (exists_row (λ _ p, bool_decide (dp_device_id p = Some id)) (pairings db))
  && negb (device_restricted db id)
  && negb (exists_row (λ k _, frame_of id k) (outbox db)).

(** ** The tables

    [model_rows] is the table with its primary keys, [model_id_le] the order of
    the keys, [model_delete] the [DELETE] of the rows that satisfy a condition,
    with the [ON DELETE] actions of [models.py]; [None] is a violated
    [RESTRICT].  The audit table's keys are its positions: only the sweep
    deletes from it. *)
Record Model (I R : Type) := {
  model_rows : database → list (I * R);
  model_id_le : I → I → bool;
  model_delete : (I → R → bool) → database → option database;
}.
Arguments model_rows {I R} _ _.
Arguments model_id_le {I R} _ _ _.
Arguments model_delete {I R} _ _ _.

Definition survivors {V} (doomed : uuid → V → bool) (m : gmap uuid V) : gmap uuid V :=
  filter (λ kv, doomed kv.1 kv.2 = false) m.

Definition deleted {V} (doomed : uuid → V → bool) (m : gmap uuid V) (id : uuid) : bool :=
  match m !! id with Some v => doomed id v | None => false end.

(** [ON DELETE SET NULL]. *)
Definition set_null (gone : uuid → bool) (reference : option uuid) : option uuid :=
  match reference with Some id => if gone id then None else Some id | None => None end.

Definition sessions_model : Model uuid ControlSession := {|
  model_rows db := map_to_list (sessions db);
  model_id_le := N.leb;
  model_delete doomed db :=
    let gone := deleted doomed (sessions db) in
    Some (db <| sessions := survivors doomed (sessions db) |>
      <| pairings := (λ p, p <| dp_claimed_by_session_id :=
                                  set_null gone (dp_claimed_by_session_id p) |>) <$> pairings db |>
      <| approvals := (λ a, a <| ap_decided_by_session_id :=
                                   set_null gone (ap_decided_by_session_id a) |>)
                      <$> approvals db |>);
|}.

Definition pairings_model : Model uuid DevicePairing := {|
  model_rows db := map_to_list (pairings db);
  model_id_le := N.leb;
  model_delete doomed db := Some (db <| pairings := survivors doomed (pairings db) |>);
|}.

Definition approvals_model : Model uuid Approval := {|
  model_rows db := map_to_list (approvals db);
  model_id_le := N.leb;
  model_delete doomed db := Some (db <| approvals := survivors doomed (approvals db) |>);
|}.

Definition commands_model : Model uuid Command := {|
  model_rows db := map_to_list (commands db);
  model_id_le := N.leb;
  model_delete doomed db :=
    let gone := deleted doomed (commands db) in
    Some (db <| commands := survivors doomed (commands db) |>
      <| approvals := (λ a, a <| ap_command_id := set_null gone (ap_command_id a) |>)
                      <$> approvals db |>);
|}.

Definition connections_model : Model uuid DeviceConnection := {|
  model_rows db := map_to_list (connections db);
  model_id_le := N.leb;
  model_delete doomed db := Some (db <| connections := survivors doomed (connections db) |>);
|}.

Definition threads_model : Model uuid ThreadBinding := {|
  model_rows db := map_to_list (threads db);
  model_id_le := N.leb;
  model_delete doomed db :=
    let gone := deleted doomed (threads db) in
    Some (db <| threads := survivors doomed (threads db) |>
      <| commands := (λ c, c <| cmd_thread_binding_id :=
                                  set_null gone (cmd_thread_binding_id c) |>) <$> commands db |>
      <| event_log := (λ e, e <| ev_thread_binding_id :=
                                   set_null gone (ev_thread_binding_id e) |>) <$> event_log db |>);
|}.

Definition devices_model : Model uuid Device := {|
  model_rows db := map_to_list (devices db);
  model_id_le := N.leb;
  model_delete doomed db :=
    let gone := deleted doomed (devices db) in
    if existsb (λ kv, gone kv.1 && device_restricted db kv.1) (map_to_list (devices db)) then None
    else Some (db <| devices := survivors doomed (devices db) |>
      <| outbox := filter (λ kv, gone kv.1.1 = false) (outbox db) |>
      <| pairings := (λ p, p <| dp_device_id := set_null gone (dp_device_id p) |>)
                     <$> pairings db |>);
|}.

Definition audit_model : Model nat AuditEvent := {|
  model_rows db := imap pair (audit db);
  model_id_le := Nat.leb;
  model_delete doomed db :=
    Some (db <| audit := (filter (λ kv, doomed kv.1 kv.2 = false) (imap pair (audit db))).*2 |>);
|}.

(** ** The operations *)

Section operations.
Context {P : Platform}.

(** [ORDER BY column, id]; a null sorts last. *)
Definition by_column {I R} (id_le : I → I → bool) (column : R → option Z)
    (a b : I * R) : bool :=
  match column a.2, column b.2 with
  | Some x, Some y => (x <? y) || ((x =? y) && id_le a.1 b.1)
  | None, None => id_le a.1 b.1
  | Some _, None => true
  | None, Some _ => false
  end.

Definition candidates {I R} (model : Model I R)
    (predicate : database → I → R → bool) (column : R → option Z) (db : database) : list I :=
  (take (Z.to_nat (retention_sweep_batch_size settings))
     (order_by (by_column (model_id_le model) column)
        (filter (λ kr, predicate db kr.1 kr.2 = true) (model_rows model db)))).*1.

Definition _delete_batch {I R} `{EqDecision I} (meanwhile : database → database)
    (model : Model I R) (predicate : database → I → R → bool) (column : R → option Z) : tx Z :=
  candidate_ids ← query (candidates model predicate column);
  match candidate_ids with
  | [] => rollback;; mret 0
  | _ =>
      other_transactions meanwhile;;
      db ← query id;
      match model_delete model
              (λ id row, bool_decide (id ∈ candidate_ids) && predicate db id row) db with
      | None => raise IntegrityError
      | Some db =>
          modify (λ _, db);;
          commit;;
          mret (Z.of_nat (length candidate_ids))
      end
  end.

Definition _delete_control_sessions meanwhile (now : Z) : tx Z :=
  let cutoff := now - days (session_record_retention_days settings) in
  _delete_batch meanwhile sessions_model (λ _ _, old_session cutoff) (λ s, Some (cs_expires_at s)).

Definition _delete_device_pairings meanwhile (now : Z) : tx Z :=
  let cutoff := now - days (device_pairing_retention_days settings) in
  _delete_batch meanwhile pairings_model (λ _ _, old_pairing cutoff) (λ p, Some (dp_expires_at p)).

Definition _delete_approvals meanwhile (now : Z) : tx Z :=
  let cutoff := now - days (approval_record_retention_days settings) in
  _delete_batch meanwhile approvals_model (λ db _, old_approval cutoff db) ap_decided_at.

Definition _delete_commands meanwhile (now : Z) : tx Z :=
  let cutoff := now - days (command_record_retention_days settings) in
  _delete_batch meanwhile commands_model
    (λ db id c, old_command cutoff db c && no_approval_reference db id) cmd_completed_at.

Definition _delete_device_connections meanwhile (now : Z) : tx Z :=
  let cutoff := now - days (device_connection_retention_days settings) in
  _delete_batch meanwhile connections_model (λ _ _, old_connection cutoff) dc_disconnected_at.

Definition _delete_thread_bindings meanwhile (now : Z) : tx Z :=
  let cutoff := now - days (thread_binding_retention_days settings) in
  _delete_batch meanwhile threads_model
    (λ db id t, old_thread cutoff db t && thread_unreferenced db id) (λ t, Some (tb_updated_at t)).

Definition _delete_devices meanwhile (now : Z) : tx Z :=
  let cutoff := now - days (revoked_device_retention_days settings) in
  _delete_batch meanwhile devices_model
    (λ db id d, old_device cutoff d && device_unreferenced db id) d_revoked_at.

Definition _delete_audit_events meanwhile (now : Z) : tx Z :=
  let cutoff := now - days (audit_event_retention_days settings) in
  _delete_batch meanwhile audit_model (λ _ _ a, au_created_at a <=? cutoff)
    (λ a, Some (au_created_at a)).

Definition sweep (meanwhile : nat → database → database) (at_time : option Z) :
    tx RetentionSweepResult :=
  t ← match at_time with Some t => mret t | None => now end;
  sessions ← _delete_control_sessions (meanwhile 0%nat) t;
  pairings ← _delete_device_pairings (meanwhile 1%nat) t;
  approvals ← _delete_approvals (meanwhile 2%nat) t;
  commands ← _delete_commands (meanwhile 3%nat) t;
  connections ← _delete_device_connections (meanwhile 4%nat) t;
  threads ← _delete_thread_bindings (meanwhile 5%nat) t;
  devices ← _delete_devices (meanwhile 6%nat) t;
  audit ← _delete_audit_events (meanwhile 7%nat) t;
  mret {| rs_control_sessions := sessions; rs_device_pairings := pairings;
          rs_approvals := approvals; rs_commands := commands;
          rs_device_connections := connections; rs_thread_bindings := threads;
          rs_devices := devices; rs_audit_events := audit |}.
End operations.

(** ** Referential integrity and what a sweep may remove *)

Definition resolves {V} (m : gmap uuid V) (reference : option uuid) : Prop :=
  ∀ id, reference = Some id → is_Some (m !! id).

Record refs_ok (db : database) : Prop := {
  rf_connection id c : connections db !! id = Some c → is_Some (devices db !! dc_device_id c);
  rf_outbox k f : outbox db !! k = Some f → is_Some (devices db !! k.1);
  rf_thread id t : threads db !! id = Some t → is_Some (devices db !! tb_device_id t);
  rf_command id c : commands db !! id = Some c →
    is_Some (devices db !! cmd_device_id c) ∧ resolves (threads db) (cmd_thread_binding_id c);
  rf_approval id a : approvals db !! id = Some a →
    is_Some (devices db !! ap_device_id a) ∧ resolves (commands db) (ap_command_id a)
    ∧ resolves (sessions db) (ap_decided_by_session_id a);
  rf_event e : e ∈ event_log db →
    is_Some (devices db !! ev_device_id e) ∧ resolves (threads db) (ev_thread_binding_id e);
  rf_pairing id p : pairings db !! id = Some p →
    resolves (devices db) (dp_device_id p) ∧ resolves (sessions db) (dp_claimed_by_session_id p);
}.

(** The rows of [m] are still in [m'], up to [same], or were expendable. *)
Definition kept {V} (expendable : uuid → V → bool) (same : V → V → Prop)
    (m m' : gmap uuid V) : Prop :=
  ∀ id,
    match m !! id, m' !! id with
    | Some v, Some v' => same v v'
    | Some v, None => expendable id v = true
    | None, Some _ => False
    | None, None => True
    end.

Section kept.
Context {V : Type} (E : uuid → V → bool) (same : V → V → Prop).

Lemma kept_trans E' m1 m2 m3 :
  Transitive same → (∀ id v v', m1 !! id = Some v → m2 !! id = Some v' → same v v' →
    E' id v' = true → E id v = true) →
  kept E same m1 m2 → kept E' same m2 m3 → kept E same m1 m3.
Proof.
  intros Ht HE H1 H2 id. specialize (H1 id). specialize (H2 id). specialize (HE id).
  destruct (m1 !! id), (m2 !! id), (m3 !! id); eauto; done.
Qed.

Lemma kept_survivors doomed m :
  Reflexive same → (∀ id v, m !! id = Some v → doomed id v = true → E id v = true) →
  kept E same m (survivors doomed m).
Proof.
  intros Hr HE id. unfold survivors. destruct (m !! id) as [v|] eqn:Hv.
  - destruct (doomed id v) eqn:Hd.
    + rewrite map_lookup_filter_None_2 by (right; intros ? ?; simplify_eq/=; congruence). eauto.
    + by rewrite (map_lookup_filter_Some_2 _ _ _ v).
  - by rewrite map_lookup_filter_None_2 by (by left).
Qed.

Lemma kept_fmap f m : (∀ v, same v (f v)) → kept E same m (f <$> m).
Proof. intros Hf id. rewrite lookup_fmap. by destruct (m !! id); simpl. Qed.

Lemma kept_refl m : Reflexive same → kept E same m m.
Proof. intros Hr id. by destruct (m !! id). Qed.

Lemma kept_inv m m' id v' :
  kept E same m m' → m' !! id = Some v' → ∃ v, m !! id = Some v ∧ same v v'.
Proof. intros H Hv. specialize (H id). rewrite Hv in H. destruct (m !! id); [eauto|done]. Qed.
End kept.

Definition same_pairing (p p' : DevicePairing) : Prop :=
  ∃ s, p' = p <| dp_claimed_by_session_id := s |>.
Definition same_approval (a a' : Approval) : Prop :=
  ∃ s, a' = a <| ap_decided_by_session_id := s |>.

#[export] Instance same_pairing_preorder : PreOrder same_pairing.
Proof.
  split; [intros p; exists (dp_claimed_by_session_id p); by destruct p|].
  intros p ? ? [s ->] [s' ->]. by exists s'.
Qed.
#[export] Instance same_approval_preorder : PreOrder same_approval.
Proof.
  split; [intros a; exists (ap_decided_by_session_id a); by destruct a|].
  intros a ? ? [s ->] [s' ->]. by exists s'.
Qed.

Section retained.
Context {P : Platform} (t : Z).

Let cutoff (retention : Settings → Z) : Z := t - days (retention settings).

(** What a sweep at time [t] may do to the committed state: remove old rows and
    clear references to removed sessions. *)
Record retained (db db' : database) : Prop := {
  rt_sessions : kept (λ _, old_session (cutoff session_record_retention_days)) eq
    (sessions db) (sessions db');
  rt_pairings : kept (λ _, old_pairing (cutoff device_pairing_retention_days)) same_pairing
    (pairings db) (pairings db');
  rt_approvals : kept (λ _, old_approval (cutoff approval_record_retention_days) db)
    same_approval (approvals db) (approvals db');
  rt_commands : kept (λ _, old_command (cutoff command_record_retention_days) db) eq
    (commands db) (commands db');
  rt_connections : kept (λ _, old_connection (cutoff device_connection_retention_days)) eq
    (connections db) (connections db');
  rt_threads : kept (λ _, old_thread (cutoff thread_binding_retention_days) db) eq
    (threads db) (threads db');
  rt_devices : kept (λ id d, old_device (cutoff revoked_device_retention_days) d
                             && negb (exists_row (λ k _, frame_of id k) (outbox db))) eq
    (devices db) (devices db');
  rt_outbox : outbox db' = outbox db;
  rt_events : event_log db' = event_log db;
  rt_cursors : cursors db' = cursors db;
  rt_audit : audit db' `sublist_of` audit db
    ∧ filter (λ a, cutoff audit_event_retention_days < au_created_at a) (audit db')
      = filter (λ a, cutoff audit_event_retention_days < au_created_at a) (audit db);
}.

Lemma same_approval_unresolved a a' : same_approval a a' → unresolved a' = unresolved a.
Proof. by intros [s ->]. Qed.

(** An unresolved approval is never old. *)
Lemma unresolved_not_old c db a : unresolved a = true → old_approval c db a = false.
Proof.
  unfold unresolved, old_approval, safely_delivered, dispatchable_reason. intros H.
  apply not_true_iff_false. intros [[[H1 _]%andb_true_iff H2]%andb_true_iff _]%andb_true_iff.
  destruct (ap_status a), (ap_decision_dispatched_at a), (ap_decision_reason a) as [r|];
    try discriminate; simpl in H, H2; destruct (py_in r _); discriminate.
Qed.

Lemma no_unresolved_back c db db' dev :
  kept (λ _, old_approval c db) same_approval (approvals db) (approvals db') →
  no_unresolved_approvals db' dev = true → no_unresolved_approvals db dev = true.
Proof.
  intros Hk. unfold no_unresolved_approvals. rewrite !negb_true_iff, <- !not_true_iff_false.
  intros Hno (id & a & Ha & Hu)%exists_row_spec. apply Hno. apply exists_row_spec.
  reflect_bools. specialize (Hk id). rewrite Ha in Hk.
  destruct (approvals db' !! id) as [a'|] eqn:Ha'.
  - exists id, a'. split; [done|]. destruct Hk as [s ->]. apply andb_true_iff.
    split; [by apply bool_decide_true|done].
  - by rewrite unresolved_not_old in Hk.
Qed.

#[export] Instance retained_trans : Transitive retained.
Proof.
  intros a b c [] []. assert (Hf : ∀ dev, no_unacknowledged_frames b dev
    = no_unacknowledged_frames a dev).
  { intros dev. unfold no_unacknowledged_frames. congruence. }
  split; try (eapply kept_trans; [apply _| |eassumption|eassumption]);
    try (intros id v v' _ _; intros <-; done); try congruence.
  - by intros id v v' _ _ [s ->].
  - intros id v v' _ _ [s ->]. unfold old_approval. simpl. by rewrite Hf.
  - intros id v v' _ _ <-. unfold old_command. by rewrite Hf.
  - intros id v v' _ _ <-. unfold old_thread. rewrite Hf, !andb_true_iff.
    intros [? ?%(no_unresolved_back _ _ _ _ rt_approvals0)]. done.
  - destruct rt_audit0, rt_audit1. split; [by etrans|congruence].
Qed.
End retained.

(** ** The [DELETE] statements *)

Definition row_count (db : database) : nat :=
  size (sessions db) + size (pairings db) + size (approvals db) + size (commands db)
  + size (connections db) + size (threads db) + size (devices db) + length (audit db).

Definition hits {I R} (doomed : I → R → bool) (rows : list (I * R)) : nat :=
  length (filter (λ kr, doomed kr.1 kr.2 = true) rows).

Section statements.
Context {V : Type} (doomed : uuid → V → bool) (m : gmap uuid V).

Lemma survivors_size :
  size m = (size (survivors doomed m)
            + hits doomed (map_to_list m))%nat.
Proof.
  unfold hits.
  pose proof (length_select_rows doomed m) as Hl. unfold count_rows, select_rows in Hl.
  assert (Hs : survivors doomed m = filter (λ kv, ¬ doomed kv.1 kv.2 = true) m).
  { apply map_filter_ext. intros k v _. simpl. by rewrite not_true_iff_false. }
  rewrite Hs. rewrite <- (map_filter_union_complement (λ kv, doomed kv.1 kv.2 = true) m) at 1.
  rewrite map_size_disj_union by apply map_disjoint_filter_complement. lia.
Qed.
End statements.

Lemma fmap_id_on {V} (f : V → V) (m : gmap uuid V) :
  (∀ id v, m !! id = Some v → f v = v) → f <$> m = m.
Proof.
  intros Hf. apply map_eq. intros id. rewrite lookup_fmap.
  destruct (m !! id) as [v|] eqn:Hv; [|done]. simpl. f_equal. eauto.
Qed.

Lemma list_fmap_id_on {V} (f : V → V) (l : list V) : (∀ v, v ∈ l → f v = v) → f <$> l = l.
Proof.
  intros Hf. rewrite <- (list_fmap_id l) at 2. apply list_fmap_ext. intros i v Hv. simpl.
  apply Hf. by eapply list_elem_of_lookup_2.
Qed.

Section references.
Context {V : Type} (doomed : uuid → V → bool) (m : gmap uuid V).

Lemma lookup_survivors id v :
  survivors doomed m !! id = Some v ↔ m !! id = Some v ∧ doomed id v = false.
Proof. apply map_lookup_filter_Some. Qed.

Lemma survives id : is_Some (m !! id) → deleted doomed m id = false →
  is_Some (survivors doomed m !! id).
Proof.
  unfold deleted. intros [v Hv]. rewrite Hv. intros Hd. exists v. by apply lookup_survivors.
Qed.

Lemma resolves_set_null r :
  resolves m r → resolves (survivors doomed m) (set_null (deleted doomed m) r).
Proof.
  intros Hr id. destruct r as [i|]; simpl; [|done]. destruct (deleted _ _ _) eqn:Hd; [done|].
  intros [= <-]. apply survives; [by apply Hr|done].
Qed.

Lemma set_null_other r :
  (∀ id, r = Some id → deleted doomed m id = false) → set_null (deleted doomed m) r = r.
Proof. intros H. destruct r as [id|]; simpl; [|done]. by rewrite H. Qed.
End references.

Section deletes.
Context {P : Platform} (t : Z).

(** What a model promises [_delete_batch]: deleting rows that satisfy the
    predicate violates no constraint, breaks no reference, changes nothing that
    is not old, and removes as many rows as it was asked to. *)
Record deletes {I R} (model : Model I R) (predicate : database → I → R → bool) : Prop := {
  dl_keys db : NoDup (model_rows model db).*1;
  dl_run db doomed :
    refs_ok db → (∀ id r, doomed id r = true → predicate db id r = true) →
    ∃ db', model_delete model doomed db = Some db' ∧ refs_ok db' ∧ retained t db db'
      ∧ row_count db = (row_count db' + hits doomed (model_rows model db))%nat;
}.

Ltac untouched :=
  split; simpl; try reflexivity; try (by apply kept_refl; apply _); try (by split).

Ltac counted doomed m :=
  pose proof (survivors_size doomed m);
  unfold row_count; simpl; rewrite ?map_size_fmap, ?length_fmap;
  match goal with |- _ = (_ + ?n)%nat => change n with (hits doomed (map_to_list m)) end; lia.

Lemma deletes_pairings :
  deletes pairings_model (λ _ _, old_pairing (t - days (device_pairing_retention_days settings))).
Proof.
  split; [intros db; apply NoDup_fst_map_to_list|]. intros db doomed [] Hd. eexists.
  split; [done|]. split_and!; [| |counted doomed (pairings db)].
  - split; simpl; eauto. intros id p [Hp _]%lookup_survivors. eauto.
  - untouched. apply kept_survivors; [apply _|]. intros id v _. apply Hd.
Qed.

Lemma deletes_approvals :
  deletes approvals_model
    (λ db _, old_approval (t - days (approval_record_retention_days settings)) db).
Proof.
  split; [intros db; apply NoDup_fst_map_to_list|]. intros db doomed [] Hd. eexists.
  split; [done|]. split_and!; [| |counted doomed (approvals db)].
  - split; simpl; eauto. intros id p [Hp _]%lookup_survivors. eauto.
  - untouched. apply kept_survivors; [apply _|]. intros id v _. apply Hd.
Qed.

Lemma deletes_connections :
  deletes connections_model
    (λ _ _, old_connection (t - days (device_connection_retention_days settings))).
Proof.
  split; [intros db; apply NoDup_fst_map_to_list|]. intros db doomed [] Hd. eexists.
  split; [done|]. split_and!; [| |counted doomed (connections db)].
  - split; simpl; eauto. intros id p [Hp _]%lookup_survivors. eauto.
  - untouched. apply kept_survivors; [apply _|]. intros id v _. apply Hd.
Qed.

Lemma deletes_sessions :
  deletes sessions_model (λ _ _, old_session (t - days (session_record_retention_days settings))).
Proof.
  split; [intros db; apply NoDup_fst_map_to_list|]. intros db doomed [] Hd. eexists.
  split; [done|]. split_and!; [| |counted doomed (sessions db)].
  - split; simpl; eauto.
    + intros id a. rewrite lookup_fmap. intros (a0 & Ha & ->)%fmap_Some. simpl.
      destruct (rf_approval0 _ _ Ha) as (? & ? & ?). eauto using resolves_set_null.
    + intros id p. rewrite lookup_fmap. intros (p0 & Hp & ->)%fmap_Some. simpl.
      destruct (rf_pairing0 _ _ Hp). eauto using resolves_set_null.
  - untouched.
    + apply kept_survivors; [apply _|]. intros id v _. apply Hd.
    + apply kept_fmap. intros p. by eexists.
    + apply kept_fmap. intros a. by eexists.
Qed.

(** A deleted row satisfied the predicate, so nothing refers to it. *)
Lemma deletes_commands :
  deletes commands_model (λ db id c,
    old_command (t - days (command_record_retention_days settings)) db c
    && no_approval_reference db id).
Proof.
  split; [intros db; apply NoDup_fst_map_to_list|]. intros db doomed Hok Hd. eexists.
  split; [done|].
  assert (Hfree : ∀ i a id, approvals db !! i = Some a → ap_command_id a = Some id →
    deleted doomed (commands db) id = false).
  { intros i a id Ha Hr. unfold deleted. destruct (commands db !! id) as [c|]; [|done].
    apply not_true_iff_false. intros [_ H]%Hd%andb_true_iff. unfold no_approval_reference in H.
    apply negb_true_iff, not_true_iff_false in H. apply H, exists_row_spec. exists i, a.
    split; [done|]. by apply bool_decide_true. }
  rewrite (fmap_id_on _ (approvals db)).
  2: { intros i a Ha. rewrite set_null_other by eauto. by destruct a. }
  destruct Hok. split_and!; [| |counted doomed (commands db)].
  - split; simpl; eauto.
    + intros id c [Hc _]%lookup_survivors. eauto.
    + intros id a Ha. destruct (rf_approval0 _ _ Ha) as (? & Hc & ?). split_and!; [done| |done].
      intros i Hi. eapply survives; [by apply Hc|by eapply Hfree].
  - untouched. apply kept_survivors; [apply _|]. intros id v _ [H _]%Hd%andb_true_iff. done.
Qed.

Lemma deletes_threads :
  deletes threads_model (λ db id x,
    old_thread (t - days (thread_binding_retention_days settings)) db x
    && thread_unreferenced db id).
Proof.
  split; [intros db; apply NoDup_fst_map_to_list|]. intros db doomed Hok Hd. eexists.
  split; [done|].
  assert (Hgone : ∀ id, deleted doomed (threads db) id = true → thread_unreferenced db id = true).
  { intros id. unfold deleted. destruct (threads db !! id) as [x|]; [|done].
    by intros [_ H]%Hd%andb_true_iff. }
  assert (Hcmd : ∀ i c id, commands db !! i = Some c → cmd_thread_binding_id c = Some id →
    deleted doomed (threads db) id = false).
  { intros i c id Hc Hr. apply not_true_iff_false. intros [H _]%Hgone%andb_true_iff.
    apply negb_true_iff, not_true_iff_false in H. apply H, exists_row_spec. exists i, c.
    split; [done|]. by apply bool_decide_true. }
  assert (Hev : ∀ e id, e ∈ event_log db → ev_thread_binding_id e = Some id →
    deleted doomed (threads db) id = false).
  { intros e id He Hr. apply not_true_iff_false. intros [_ H]%Hgone%andb_true_iff.
    apply negb_true_iff, not_true_iff_false in H. apply H, existsb_exists. exists e.
    split; [by apply list_elem_of_In|]. by apply bool_decide_true. }
  rewrite (fmap_id_on _ (commands db)).
  2: { intros i c Hc. rewrite set_null_other by eauto. by destruct c. }
  rewrite (list_fmap_id_on _ (event_log db)).
  2: { intros e He. rewrite set_null_other by eauto. by destruct e. }
  destruct Hok. split_and!; [| |counted doomed (threads db)].
  - split; simpl; eauto.
    + intros id x [Hx _]%lookup_survivors. eauto.
    + intros id c Hc. destruct (rf_command0 _ _ Hc) as [? Hr]. split; [done|].
      intros i Hi. apply survives; [by apply Hr|by eapply Hcmd].
    + intros e He. destruct (rf_event0 _ He) as [? Hr]. split; [done|].
      intros i Hi. apply survives; [by apply Hr|by eapply Hev].
  - untouched. apply kept_survivors; [apply _|]. intros id v _ [H _]%Hd%andb_true_iff. done.
Qed.

Lemma unreferenced_restricted db id : device_restricted db id = false ↔
  (∀ i c, connections db !! i = Some c → dc_device_id c ≠ id)
  ∧ (∀ i x, threads db !! i = Some x → tb_device_id x ≠ id)
  ∧ (∀ i c, commands db !! i = Some c → cmd_device_id c ≠ id)
  ∧ (∀ i a, approvals db !! i = Some a → ap_device_id a ≠ id)
  ∧ (∀ e, e ∈ event_log db → ev_device_id e ≠ id).
Proof.
  assert (Hrow : ∀ V (f : V → uuid) (m : gmap uuid V),
    exists_row (λ _ v, bool_decide (f v = id)) m = false ↔ ∀ i v, m !! i = Some v → f v ≠ id).
  { intros V f m. rewrite <- not_true_iff_false, exists_row_spec.
    split; [intros H i v Hv E; apply H; exists i, v; by rewrite bool_decide_true|].
    intros H (i & v & Hv & E%bool_decide_eq_true_1). by eapply H. }
  unfold device_restricted. rewrite !orb_false_iff, !Hrow, <- not_true_iff_false, existsb_exists.
  split.
  - intros ((((? & ?) & ?) & ?) & He). split_and!; [done..|]. intros e Hin E. apply He. exists e.
    rewrite bool_decide_true by done. split; [by apply list_elem_of_In|done].
  - intros (? & ? & ? & ? & He). split_and!; [done..|].
    intros (e & Hin & E%bool_decide_eq_true_1). eapply He; [|exact E]. by apply list_elem_of_In.
Qed.

Lemma deletes_devices :
  deletes devices_model (λ db id d,
    old_device (t - days (revoked_device_retention_days settings)) d && device_unreferenced db id).
Proof.
  split; [intros db; apply NoDup_fst_map_to_list|]. intros db doomed Hok Hd.
  assert (Hgone : ∀ id, deleted doomed (devices db) id = true →
    device_restricted db id = false
    ∧ exists_row (λ _ p, bool_decide (dp_device_id p = Some id)) (pairings db) = false
    ∧ exists_row (λ k _, frame_of id k) (outbox db) = false).
  { intros id. unfold deleted. destruct (devices db !! id) as [x|]; [|done].
    intros [_ H]%Hd%andb_true_iff. unfold device_unreferenced in H. by reflect_bools. }
  assert (Hpair : ∀ i p id, pairings db !! i = Some p → dp_device_id p = Some id →
    deleted doomed (devices db) id = false).
  { intros i p id Hp Hr. apply not_true_iff_false. intros (_ & H & _)%Hgone.
    apply not_true_iff_false in H. apply H, exists_row_spec. exists i, p. split; [done|].
    by apply bool_decide_true. }
  assert (Hbox : ∀ k f, outbox db !! k = Some f → deleted doomed (devices db) k.1 = false).
  { intros k f Hf. apply not_true_iff_false. intros (_ & _ & H)%Hgone.
    apply not_true_iff_false in H. apply H, exists_row_spec. exists k, f. split; [done|].
    by apply bool_decide_true. }
  cbn [model_delete devices_model].
  rewrite (fmap_id_on _ (pairings db)).
  2: { intros i p Hp. rewrite set_null_other by eauto. by destruct p. }
  replace (filter _ (outbox db)) with (outbox db).
  2: { symmetry. apply map_filter_id. intros k f Hf. eauto. }
  replace (existsb _ _) with false.
  2: { symmetry. apply not_true_iff_false. intros ([k d] & _ & [H1 H2]%andb_true_iff)%existsb_exists.
    simpl in *. apply Hgone in H1 as [H1 _]. by rewrite H1 in H2. }
  eexists. split; [done|].
  assert (Hdev : ∀ id, deleted doomed (devices db) id = false → is_Some (devices db !! id) →
    is_Some (survivors doomed (devices db) !! id)) by eauto using survives.
  assert (Hkeep : ∀ id, device_restricted db id = true → deleted doomed (devices db) id = false).
  { intros id Hr. apply not_true_iff_false. intros [H _]%Hgone. by rewrite H in Hr. }
  destruct Hok. split_and!; [| |counted doomed (devices db)].
  - pose proof (λ id Hx, proj1 (unreferenced_restricted db id) (proj1 (Hgone id Hx))) as Hfree.
    split; simpl; eauto.
    + intros i c Hc. apply Hdev; [|eauto]. apply not_true_iff_false.
      intros (H & _)%Hfree. by eapply H.
    + intros i x Hx. apply Hdev; [|eauto]. apply not_true_iff_false.
      intros (_ & Hz & _)%Hfree. by eapply Hz.
    + intros i c Hc. destruct (rf_command0 _ _ Hc) as [Hy ?]. split; [|done]. apply Hdev; [|done].
      apply not_true_iff_false. intros (_ & _ & Hz & _)%Hfree. by eapply Hz.
    + intros i a Ha. destruct (rf_approval0 _ _ Ha) as [Hy ?]. split; [|done]. apply Hdev; [|done].
      apply not_true_iff_false. intros (_ & _ & _ & Hz & _)%Hfree. by eapply Hz.
    + intros e He. destruct (rf_event0 _ He) as [Hy ?]. split; [|done]. apply Hdev; [|done].
      apply not_true_iff_false. intros (_ & _ & _ & _ & Hz)%Hfree. by eapply Hz.
    + intros i p Hp. destruct (rf_pairing0 _ _ Hp) as [Hr ?]. split; [|done].
      intros id Hid. apply Hdev; [by eapply Hpair|by apply Hr].
  - untouched. apply kept_survivors; [apply _|]. intros id v Hv Hx.
    destruct (andb_prop _ _ (Hd _ _ Hx)) as [H _]. apply andb_true_iff. split; [done|].
    destruct (Hgone id) as (_ & _ & H'); [unfold deleted; by rewrite Hv|]. by rewrite H'.
Qed.

Lemma filter_rest {I R} (doomed : I → R → bool) (young : R → Prop) `{!∀ r, Decision (young r)}
    (rows : list (I * R)) :
  (∀ id r, doomed id r = true → ¬ young r) →
  filter young (filter (λ kr, doomed kr.1 kr.2 = false) rows).*2 = filter young rows.*2
  ∧ (length rows = length (filter (λ kr, doomed kr.1 kr.2 = false) rows) + hits doomed rows)%nat.
Proof.
  intros Hd. unfold hits. induction rows as [|[k r] rows [IH1 IH2]]; [done|].
  destruct (doomed k r) eqn:E.
  - rewrite filter_cons_False by (simpl; congruence). rewrite (filter_cons_True _ (k, r)) by done.
    rewrite fmap_cons, (filter_cons_False young) by eauto. rewrite IH1. split; [done|simpl; lia].
  - rewrite filter_cons_True by done. rewrite (filter_cons_False _ (k, r)) by (simpl; congruence).
    rewrite !fmap_cons, !filter_cons, IH1. split; [done|simpl; lia].
Qed.

Lemma imap_pair_snd {A} (l : list A) : (imap pair l).*2 = l.
Proof. rewrite fmap_imap. etrans; [exact (imap_const (λ x, x) l)|apply list_fmap_id]. Qed.

Lemma deletes_audit :
  deletes audit_model
    (λ _ _ a, au_created_at a <=? t - days (audit_event_retention_days settings)).
Proof.
  split.
  { intros db. simpl. apply NoDup_alt. intros i j k. rewrite !list_lookup_fmap, !list_lookup_imap.
    destruct (audit db !! i), (audit db !! j); simpl; congruence. }
  intros db doomed Hok Hd. eexists. split; [done|].
  destruct (filter_rest doomed (λ a, t - days (audit_event_retention_days settings)
    < au_created_at a) (imap pair (audit db))) as [H1 H2].
  { intros id a Ha%Hd. lia. }
  rewrite imap_pair_snd in H1. rewrite length_imap in H2. split_and!.
  - destruct Hok. split; simpl; eauto.
  - untouched. rewrite H1. split; [|done]. rewrite <- (imap_pair_snd (audit db)) at 2.
    apply fmap_sublist, sublist_filter.
  - unfold row_count. simpl. rewrite length_fmap. lia.
Qed.
End deletes.

(** ** A batch *)

Section batches.
Context {P : Platform} (t : Z).

Lemma candidates_spec {I R} (model : Model I R) predicate column db id :
  id ∈ candidates model predicate column db →
  ∃ r, (id, r) ∈ model_rows model db ∧ predicate db id r = true.
Proof.
  unfold candidates. intros ([i r] & -> & H)%list_elem_of_fmap.
  apply elem_of_take in H as (k & H & _). apply list_elem_of_lookup_2 in H.
  apply elem_of_order_by, list_elem_of_filter in H as [? ?]. by exists r.
Qed.

Lemma candidates_bound {I R} (model : Model I R) predicate column db :
  Z.of_nat (length (candidates model predicate column db))
    ≤ Z.max 0 (retention_sweep_batch_size settings).
Proof. unfold candidates. rewrite length_fmap, length_take. lia. Qed.

Lemma candidates_nil {I R} (model : Model I R) predicate column db id r :
  0 < retention_sweep_batch_size settings →
  candidates model predicate column db = [] → (id, r) ∈ model_rows model db →
  predicate db id r = false.
Proof.
  unfold candidates. intros Hn H%fmap_nil_inv Hr. apply not_true_iff_false. intros Hp.
  assert (Hin : (id, r) ∈ order_by (by_column (model_id_le model) column)
    (filter (λ kr, predicate db kr.1 kr.2 = true) (model_rows model db))).
  { by apply elem_of_order_by, list_elem_of_filter. }
  destruct (order_by _ _) as [|x l]; [by apply not_elem_of_nil in Hin|].
  destruct (Z.to_nat (retention_sweep_batch_size settings)) eqn:E; [lia|done].
Qed.

(** As many rows are deleted as were selected, if nothing intervened. *)
Lemma candidates_hits {I R} `{EqDecision I} (model : Model I R) predicate column db :
  NoDup (model_rows model db).*1 →
  hits (λ id r, bool_decide (id ∈ candidates model predicate column db) && predicate db id r)
    (model_rows model db) = length (candidates model predicate column db).
Proof.
  intros Hnd. unfold hits, candidates.
  set (l := take _ _). assert (Hl : ∀ kr, kr ∈ l → kr ∈ model_rows model db
    ∧ predicate db kr.1 kr.2 = true).
  { intros kr (k & H & _)%elem_of_take. apply list_elem_of_lookup_2 in H.
    apply elem_of_order_by, list_elem_of_filter in H as [? ?]. done. }
  rewrite length_fmap. apply Permutation_length, NoDup_Permutation.
  - apply NoDup_filter. by eapply NoDup_fmap_1.
  - apply (sublist_NoDup _ (order_by (by_column (model_id_le model) column)
      (filter (λ kr, predicate db kr.1 kr.2 = true) (model_rows model db)))).
    + rewrite order_by_perm. apply NoDup_filter. by eapply NoDup_fmap_1.
    + apply sublist_take.
  - intros [i r]. rewrite list_elem_of_filter. simpl. split.
    + intros [[Hi Hp]%andb_true_iff Hr]. apply bool_decide_eq_true_1 in Hi.
      apply list_elem_of_fmap in Hi as ([j r'] & Hj & Hin). simpl in Hj. subst j.
      destruct (Hl _ Hin) as [Hr' _].
      by rewrite (NoDup_fmap_inj fst (model_rows model db) (i, r) (i, r')).
    + intros Hin. destruct (Hl _ Hin) as [Hr Hp]. split; [|done]. apply andb_true_iff.
      split; [|done]. apply bool_decide_true. by apply (list_elem_of_fmap_2 fst l (i, r)).
Qed.

(** What a batch did: nothing was selected and nothing changed, or old rows
    were removed from what the other transactions had left. *)
Definition batch_done {I R} (meanwhile : database → database) (model : Model I R)
    (predicate : database → I → R → bool) (column : R → option Z) (db : database) (n : Z)
    (db' : database) : Prop :=
  n = 0 ∧ db' = db ∧ candidates model predicate column db = []
  ∨ 0 < n ∧ retained t (meanwhile db) db'
    ∧ (meanwhile db = db → row_count db = (row_count db' + Z.to_nat n)%nat).

Lemma wp_delete_batch {I R} `{EqDecision I} meanwhile (model : Model I R) predicate column
    (Q : outcome Z → world → Prop) w :
  deletes t model predicate → working w = durable w → refs_ok (durable w) →
  refs_ok (meanwhile (durable w)) →
  (∀ n w', working w' = durable w' → refs_ok (durable w') →
     0 ≤ n ≤ Z.max 0 (retention_sweep_batch_size settings) →
     batch_done meanwhile model predicate column (durable w) n (durable w') → Q (Ok n) w') →
  wp (_delete_batch meanwhile model predicate column) Q w.
Proof.
  intros [Hkeys Hrun] Hwd Hok Hmw HQ. unfold _delete_batch. do 2 wp_step.
  pose proof (candidates_bound model predicate column (durable w)) as Hb.
  destruct (candidates model predicate column (durable w)) as [|i l] eqn:Hc.
  { do 3 wp_step. apply HQ; [congruence|congruence|lia|]. left. by rewrite Hd. }
  rewrite <- Hc in *. wp_step. unfold wp at 1, other_transactions. cbn [fst snd].
  do 2 wp_step. cbn [working durable].
  edestruct (Hrun (meanwhile (durable w))) as (db' & Hdel & Hok' & Hret & Hcount);
    [by apply Hmw| |unfold id at 2; rewrite Hdel].
  { intros k r [_ Hp]%andb_true_iff. exact Hp. }
  do 5 wp_step. apply HQ; [congruence|congruence|lia|]. rewrite Hd0. right.
  split_and!; [rewrite Hc; simpl; lia|done|]. intros E. rewrite E in Hcount.
  rewrite Nat2Z.id, Hcount. f_equal. by apply candidates_hits.
Qed.
End batches.

(** ** A sweep *)

Section sweeps.
Context {P : Platform} (t : Z).

#[export] Instance retained_refl : Reflexive (retained t).
Proof. intros db. split; simpl; try (by apply kept_refl; apply _); done. Qed.

(** Nothing is left to delete. *)
Record drained (db : database) : Prop := {
  dr_sessions id s : sessions db !! id = Some s →
    old_session (t - days (session_record_retention_days settings)) s = false;
  dr_pairings id p : pairings db !! id = Some p →
    old_pairing (t - days (device_pairing_retention_days settings)) p = false;
  dr_approvals id a : approvals db !! id = Some a →
    old_approval (t - days (approval_record_retention_days settings)) db a = false;
  dr_commands id c : commands db !! id = Some c →
    old_command (t - days (command_record_retention_days settings)) db c
    && no_approval_reference db id = false;
  dr_connections id c : connections db !! id = Some c →
    old_connection (t - days (device_connection_retention_days settings)) c = false;
  dr_threads id x : threads db !! id = Some x →
    old_thread (t - days (thread_binding_retention_days settings)) db x
    && thread_unreferenced db id = false;
  dr_devices id d : devices db !! id = Some d →
    old_device (t - days (revoked_device_retention_days settings)) d
    && device_unreferenced db id = false;
  dr_audit a : a ∈ audit db →
    (au_created_at a <=? t - days (audit_event_retention_days settings)) = false;
}.

Ltac run_batch lem :=
  wp_step; eapply (wp_delete_batch t); [apply lem|done|done|by eauto|];
  let n := fresh "n" in let w := fresh "v" in
  intros n w ? ? ? ?; cbv beta iota.

(** Each batch moves the committed state as [batch_done] says. *)
Lemma wp_sweep meanwhile (Q : outcome RetentionSweepResult → world → Prop) w :
  working w = durable w → refs_ok (durable w) →
  (∀ i db, refs_ok db → refs_ok (meanwhile i db)) →
  (∀ s p a c n x d u w', working w' = durable w' → refs_ok (durable w') →
     0 ≤ s + p + a + c + n + x + d + u ≤ 8 * Z.max 0 (retention_sweep_batch_size settings) →
     (∃ d1 d2 d3 d4 d5 d6 d7,
        batch_done t (meanwhile 0%nat) sessions_model
          (λ _ _, old_session (t - days (session_record_retention_days settings)))
          (λ r, Some (cs_expires_at r)) (durable w) s d1
        ∧ batch_done t (meanwhile 1%nat) pairings_model
          (λ _ _, old_pairing (t - days (device_pairing_retention_days settings)))
          (λ r, Some (dp_expires_at r)) d1 p d2
        ∧ batch_done t (meanwhile 2%nat) approvals_model
          (λ db _, old_approval (t - days (approval_record_retention_days settings)) db)
          ap_decided_at d2 a d3
        ∧ batch_done t (meanwhile 3%nat) commands_model
          (λ db id r, old_command (t - days (command_record_retention_days settings)) db r
                      && no_approval_reference db id) cmd_completed_at d3 c d4
        ∧ batch_done t (meanwhile 4%nat) connections_model
          (λ _ _, old_connection (t - days (device_connection_retention_days settings)))
          dc_disconnected_at d4 n d5
        ∧ batch_done t (meanwhile 5%nat) threads_model
          (λ db id r, old_thread (t - days (thread_binding_retention_days settings)) db r
                      && thread_unreferenced db id) (λ r, Some (tb_updated_at r)) d5 x d6
        ∧ batch_done t (meanwhile 6%nat) devices_model
          (λ db id r, old_device (t - days (revoked_device_retention_days settings)) r
                      && device_unreferenced db id) d_revoked_at d6 d d7
        ∧ batch_done t (meanwhile 7%nat) audit_model
          (λ _ _ r, au_created_at r <=? t - days (audit_event_retention_days settings))
          (λ r, Some (au_created_at r)) d7 u (durable w')) →
     Q (Ok {| rs_control_sessions := s; rs_device_pairings := p; rs_approvals := a;
              rs_commands := c; rs_device_connections := n; rs_thread_bindings := x;
              rs_devices := d; rs_audit_events := u |}) w') →
  wp (sweep meanwhile (Some t)) Q w.
Proof.
  intros Hwd Hok Hmw HQ. unfold sweep. do 2 wp_step.
  unfold _delete_control_sessions. run_batch (deletes_sessions t).
  unfold _delete_device_pairings. run_batch (deletes_pairings t).
  unfold _delete_approvals. run_batch (deletes_approvals t).
  unfold _delete_commands. run_batch (deletes_commands t).
  unfold _delete_device_connections. run_batch (deletes_connections t).
  unfold _delete_thread_bindings. run_batch (deletes_threads t).
  unfold _delete_devices. run_batch (deletes_devices t).
  unfold _delete_audit_events. run_batch (deletes_audit t).
  wp_step. apply HQ; [done|done|lia|]. do 7 eexists. eauto 10.
Qed.

(** Removing old rows and what other transactions do, in any order. *)
Definition sweep_step (meanwhile : nat → database → database) (a b : database) : Prop :=
  retained t a b ∨ ∃ i, b = meanwhile i a.

Lemma batch_steps {I R} meanwhile i (model : Model I R) predicate column db n db' :
  batch_done t (meanwhile i) model predicate column db n db' →
  rtc (sweep_step meanwhile) db db'.
Proof.
  intros [(_ & -> & _)|(_ & H & _)]; [done|].
  eapply rtc_l; [right; by exists i|]. apply rtc_once. by left.
Qed.

(** Without other transactions. *)
Lemma batch_quiet {I R} (model : Model I R) predicate column db n db' :
  batch_done t (λ db, db) model predicate column db n db' →
  0 ≤ n ∧ retained t db db' ∧ row_count db = (row_count db' + Z.to_nat n)%nat
  ∧ (n = 0 → db' = db ∧ candidates model predicate column db = []).
Proof.
  intros [(-> & -> & H)|(Hn & H & Hc)].
  - split_and!; [lia|done|lia|done].
  - split_and!; [lia|done|by apply Hc|lia].
Qed.

Lemma candidates_nil_map {V} (model : Model uuid V) predicate column db (m : gmap uuid V) id v :
  0 < retention_sweep_batch_size settings → model_rows model db = map_to_list m →
  candidates model predicate column db = [] → m !! id = Some v → predicate db id v = false.
Proof.
  intros Hn Hm Hc Hv. eapply candidates_nil; [done..|]. rewrite Hm. by apply elem_of_map_to_list.
Qed.

Lemma wp_sweep_quiet (Q : outcome RetentionSweepResult → world → Prop) w :
  0 < retention_sweep_batch_size settings → working w = durable w → refs_ok (durable w) →
  (∀ r w', working w' = durable w' → refs_ok (durable w') → retained t (durable w) (durable w') →
     0 ≤ total r → row_count (durable w) = (row_count (durable w') + Z.to_nat (total r))%nat →
     (total r = 0 → drained (durable w')) → Q (Ok r) w') →
  wp (sweep (λ _ db, db) (Some t)) Q w.
Proof.
  intros Hb Hwd Hok HQ. apply wp_sweep; [done..|].
  intros s p a c n x d u w' Hwd' Hok' _ (d1 & d2 & d3 & d4 & d5 & d6 & d7 & H).
  destruct H as ((? & R1 & C1 & E1)%batch_quiet & (? & R2 & C2 & E2)%batch_quiet
    & (? & R3 & C3 & E3)%batch_quiet & (? & R4 & C4 & E4)%batch_quiet
    & (? & R5 & C5 & E5)%batch_quiet & (? & R6 & C6 & E6)%batch_quiet
    & (? & R7 & C7 & E7)%batch_quiet & (? & R8 & C8 & E8)%batch_quiet).
  apply HQ; [done|done| |unfold total; simpl; lia..|].
  { do 7 (etrans; [eassumption|]). done. }
  unfold total. simpl. intros E0.
  destruct (E1 ltac:(lia)) as [-> N1], (E2 ltac:(lia)) as [-> N2], (E3 ltac:(lia)) as [-> N3],
    (E4 ltac:(lia)) as [-> N4], (E5 ltac:(lia)) as [-> N5], (E6 ltac:(lia)) as [-> N6],
    (E7 ltac:(lia)) as [-> N7], (E8 ltac:(lia)) as [-> N8].
  split.
  - intros id v. by apply (candidates_nil_map sessions_model _ _ _ _ id v Hb eq_refl N1).
  - intros id v. by apply (candidates_nil_map pairings_model _ _ _ _ id v Hb eq_refl N2).
  - intros id v. by apply (candidates_nil_map approvals_model _ _ _ _ id v Hb eq_refl N3).
  - intros id v. by apply (candidates_nil_map commands_model _ _ _ _ id v Hb eq_refl N4).
  - intros id v. by apply (candidates_nil_map connections_model _ _ _ _ id v Hb eq_refl N5).
  - intros id v. by apply (candidates_nil_map threads_model _ _ _ _ id v Hb eq_refl N6).
  - intros id v. by apply (candidates_nil_map devices_model _ _ _ _ id v Hb eq_refl N7).
  - intros y (i & Hy)%list_elem_of_lookup_1.
    apply (candidates_nil _ _ _ _ i y Hb N8). by apply elem_of_lookup_imap_2.
Qed.
End sweeps.

(** ** Properties *)

Section retention.
Context {P : Platform}.

(** C35: A retention sweep keeps the database consistent and the living safe.
    Whatever other transactions commit between the statements of its batches, as
    long as they keep every reference valid, a sweep ends normally, no delete
    violates a constraint, every foreign key still resolves, and the committed
    state has moved only by those transactions and by [retained] steps: rows that
    are not old and terminal are still there, unchanged but for references to
    removed sessions, and so are all events, cursors, outbox frames and young
    audit records.  It removes at most one batch per table. *)
Theorem sweep_keeps_the_living meanwhile t w :
  working w = durable w → refs_ok (durable w) →
  (∀ i db, refs_ok db → refs_ok (meanwhile i db)) →
  ∃ result w', sweep meanwhile (Some t) w = (Ok result, w')
    ∧ working w' = durable w' ∧ refs_ok (durable w')
    ∧ rtc (sweep_step t meanwhile) (durable w) (durable w')
    ∧ 0 ≤ total result ≤ 8 * Z.max 0 (retention_sweep_batch_size settings).
Proof.
  intros Hwd Hok Hmw.
  assert (H : wp (sweep meanwhile (Some t)) (λ r w', ∃ result, r = Ok result
    ∧ working w' = durable w' ∧ refs_ok (durable w')
    ∧ rtc (sweep_step t meanwhile) (durable w) (durable w')
    ∧ 0 ≤ total result ≤ 8 * Z.max 0 (retention_sweep_batch_size settings)) w).
  { apply wp_sweep; [done..|]. intros s p a c n x d u w' Hwd' Hok' Hb
      (d1 & d2 & d3 & d4 & d5 & d6 & d7 & H1 & H2 & H3 & H4 & H5 & H6 & H7 & H8).
    eexists. split_and!; [done..| |exact (proj1 Hb)|exact (proj2 Hb)].
    do 7 (etrans; [by eapply batch_steps|]). by eapply batch_steps. }
  unfold wp in H. destruct (sweep _ _ w) as [r w'] eqn:E. simpl in H.
  destruct H as (result & -> & H).
  by exists result, w'.
Qed.

(** C36: Retention drains.  When no other transaction intervenes, finitely many
    sweeps, no more than one per row and one to notice, remove everything that
    is old, terminal and unreferenced at the time of the sweeps, keep every
    reference valid, and touch nothing else. *)
Theorem retention_drains t w :
  0 < retention_sweep_batch_size settings → refs_ok (durable w) →
  ∃ n w', (n ≤ S (row_count (durable w)))%nat
    ∧ for_each (λ _, with_session (sweep (λ _ db, db) (Some t);; mret tt)) (replicate n tt) w
      = (Ok tt, w')
    ∧ drained t (durable w') ∧ refs_ok (durable w') ∧ retained t (durable w) (durable w').
Proof.
  intros Hb. remember (row_count (durable w)) as k eqn:Hk. revert w Hk.
  induction (lt_wf k) as [k _ IH]. intros w Hk Hok.
  assert (H : wp (with_session (sweep (λ _ db, db) (Some t);; mret tt)) (λ r w', r = Ok tt
    ∧ refs_ok (durable w') ∧ retained t (durable w) (durable w')
    ∧ ∃ m, k = (row_count (durable w') + m)%nat ∧ (m = 0%nat → drained t (durable w'))) w).
  { set (w0 := w <| working := durable w |>).
    assert (H : wp (sweep (λ _ db, db) (Some t);; mret tt) (λ r w', r = Ok tt
      ∧ refs_ok (durable w') ∧ retained t (durable w) (durable w')
      ∧ ∃ m, k = (row_count (durable w') + m)%nat ∧ (m = 0%nat → drained t (durable w'))) w0).
    { wp_step. apply (wp_sweep_quiet t); [done..|]. intros r w' _ Hok' Hr Hn Hc Hd. wp_step.
      split_and!; [done..|]. exists (Z.to_nat (total r)). split; [by rewrite Hk|].
      intros. apply Hd. lia. }
    revert H. generalize (sweep (λ _ db, db) (Some t);; mret tt). intros m H.
    unfold wp, with_session in *. fold w0. by destruct (m w0). }
  unfold wp in H. destruct (with_session _ w) as [r w1] eqn:E. simpl in H.
  destruct H as (-> & Hok1 & Hr & m & Hm & Hd). destruct m as [|m].
  - exists 1%nat, w1. split; [lia|]. split; [|by auto].
    cbn [replicate for_each]. by rewrite (run_bind _ _ _ _ _ E).
  - destruct (IH (row_count (durable w1)) ltac:(lia) w1 eq_refl Hok1)
      as (n & w' & Hn & E' & Hd' & Hok' & Hr').
    exists (S n), w'. split; [lia|]. split_and!; [|done..|by etrans].
    cbn [replicate for_each]. by rewrite (run_bind _ _ _ _ _ E).
Qed.
End retention.

(** A revoked device, long gone, with a finished command and a closed thread. *)
Definition aged_database : database :=
  empty_database
    <| devices := {[ 1%N := sample_device <| d_status := DsRevoked |> <| d_revoked_at := Some 0 |>
                              <| d_refresh_credential_hash := None |> <| d_active_epoch := None |>
                              <| d_active_connection_nonce := None |> ]} |>
    <| commands := {[ 7%N := sample_command <| cmd_status := CsSucceeded |>
                               <| cmd_completed_at := Some 0 |> ]} |>
    <| threads := {[ 3%N := {| tb_owner_user_id := "alice"; tb_device_id := 1%N;
         tb_remote_thread_id := Some "remote-1"; tb_status := TsClosed; tb_cwd := None;
         tb_title := "fix"; tb_model := "m"; tb_active_turn_id := None; tb_snapshot := JObj [];
         tb_last_error := None; tb_appserver_epoch := "epoch-0"; tb_created_at := 0;
         tb_updated_at := 0 |} ]} |>.

Definition aged_time : Z := days 10000.

Lemma aged_refs : refs_ok aged_database.
Proof.
  assert (Hdev : is_Some (devices aged_database !! 1%N)) by (by eexists).
  split; simpl; try (intros ? ? H; by rewrite lookup_empty in H).
  - intros id x [<- <-]%lookup_singleton_Some. exact Hdev.
  - intros id c [<- <-]%lookup_singleton_Some. split; [exact Hdev|by intros ?].
  - intros e H. by apply not_elem_of_nil in H.
Qed.

(** Another transaction reopens the thread just before its row is deleted. *)
Definition reopen (i : nat) (db : database) : database :=
  if (i =? 5)%nat
  then db <| threads := (λ b, b <| tb_status := TsIdle |>) <$> threads db |> else db.

Lemma reopen_refs i db : refs_ok db → refs_ok (reopen i db).
Proof.
  intros Hok. unfold reopen. destruct (i =? 5)%nat; [|done]. destruct Hok. split; simpl; eauto.
  - intros id x. rewrite lookup_fmap. intros (y & Hy & ->)%fmap_Some. exact (rf_thread0 _ _ Hy).
  - intros id c Hc. destruct (rf_command0 _ _ Hc) as [? Hr]. split; [done|]. intros j Hj.
    rewrite lookup_fmap. by apply fmap_is_Some, Hr.
  - intros e He. destruct (rf_event0 _ He) as [? Hr]. split; [done|]. intros j Hj.
    rewrite lookup_fmap. by apply fmap_is_Some, Hr.
Qed.

Lemma sweep_keeps_the_living_witness :
  (∃ result w', sweep reopen (Some aged_time) (start_world aged_database) = (Ok result, w')
    ∧ working w' = durable w' ∧ refs_ok (durable w')
    ∧ rtc (sweep_step aged_time reopen) aged_database (durable w')
    ∧ 0 ≤ total result ≤ 8 * Z.max 0 (retention_sweep_batch_size settings))
  ∧ (let db := durable (after (sweep reopen (Some aged_time)) (start_world aged_database)) in
     bool_decide (is_Some (threads db !! 3%N)) && bool_decide (is_Some (devices db !! 1%N))
     && negb (bool_decide (is_Some (commands db !! 7%N)))) = true.
Proof.
  split; [|vm_compute; reflexivity].
  apply (sweep_keeps_the_living reopen aged_time (start_world aged_database) eq_refl aged_refs
    reopen_refs).
Defined.

Lemma retention_drains_witness :
  (∃ n w', (n ≤ S (row_count aged_database))%nat
    ∧ for_each (λ _, with_session (sweep (λ _ db, db) (Some aged_time);; mret tt))
        (replicate n tt) (start_world aged_database) = (Ok tt, w')
    ∧ drained aged_time (durable w') ∧ refs_ok (durable w')
    ∧ retained aged_time aged_database (durable w'))
  ∧ (let db := durable (after (sweep (λ _ db, db) (Some aged_time)) (start_world aged_database)) in
     (row_count db =? 0)%nat) = true.
Proof.
  split; [|vm_compute; reflexivity].
  apply (retention_drains aged_time (start_world aged_database)); [done|exact aged_refs].
Defined.
