(* ===== verification/DeviceAuth.v ===== *)
(** * Device access tokens ([control_api/device_auth.py])

    A device trades its refresh credential and a fresh signature for a
    short-lived access token; the store remembers the nonces it has seen, the
    token's data, and which token is the device's current one. *)

From stdpp Require Import base list gmap.
From Stdlib Require Import NArith ZArith Lia.
From S2P Require Import Prelude Config Base64 Json Utf8 Models Storage World Testbed Wire Security.
From S2P Require Import Events Capacity.
Open Scope Z_scope.

Record DeviceConnectTokenRequest := {
  ctr_device_id : uuid;
  ctr_public_key : pystr;
  ctr_timestamp : pystr;
  ctr_nonce : pystr;
  ctr_signature : pystr;
}.

Record IssuedDeviceToken := { it_value : pystr; it_expires_at : Z }.

Section device_auth.
Context {P : Platform}.

Definition _decode_base64url (value : pystr) (expected_length : nat) : outcome (list N) :=
  match urlsafe_b64decode (padded4 (codepoints value)) with
  | Some raw => if negb (length raw =? expected_length)%nat then Raise DeviceProofRejected else Ok raw
  | None => Raise DeviceProofRejected
  end.

Definition ends_with_z (l : list N) : bool := bool_decide (last l = Some 90%N).

Definition _parse_rfc3339 (value : pystr) : outcome Z :=
  let l := codepoints value in
  let normalized :=
    if ends_with_z l then PyStr (take (length l - 1) l ++ codepoints "+00:00") else value in
  match fromisoformat normalized with
  | Some (t, true) => Ok t
  | _ => Raise DeviceProofRejected
  end.

Definition _device_authorization (authorization : option pystr) : outcome pystr :=
  match authorization with
  | None => Raise DeviceCredentialRejected
  | Some a =>
      match strip_prefix (codepoints "Device ") (codepoints a) with
      | None => Raise DeviceCredentialRejected
      | Some rest =>
          match py_strip rest with
          | [] => Raise DeviceCredentialRejected
          | credential => Ok (PyStr credential)
          end
      end
  end.

Definition _audit_denied (device_id : uuid) (metadata : RequestMetadata) (reason : pystr)
    (actor_exists : bool) : tx unit :=
  add_audit None None (if actor_exists then Some device_id else None)
    "device.connect_token.issue" AoDenied "device" (uuid_str device_id) metadata
    (JObj [("reason", JStr reason)]);;
  commit.

Definition credential_matches (d : Device) (refresh_credential : pystr) : outcome bool :=
  match d_refresh_credential_hash d with
  | None => Ok false
  | Some h =>
      if d_credential_scheme d =? 1 then Ok (matches "device-refresh" refresh_credential h)
      else if d_credential_scheme d =? 2 then
        match pairing_secret_commitment refresh_credential with
        | Ok c => Ok (matches "device-refresh-v2" c h)
        | Raise e => Raise e
        end
      else Ok false
  end.

Definition nonce_key (device_id : uuid) (nonce : list N) : pystr :=
  "device-proof-nonce:" +++ uuid_str device_id +++ ":" +++ sha256_hex nonce.

Definition access_key (token_hash : pystr) : pystr := "device-access:" +++ token_hash.

Definition current_key (device_id : uuid) : pystr :=
  "device-access-current:" +++ uuid_str device_id.

(** The device, its credential and its key: a denial is audited and raised. *)
Definition check_credential (refresh_credential : pystr) (payload : DeviceConnectTokenRequest)
    (metadata : RequestMetadata) : tx (Device * pystr) :=
  let id := ctr_device_id payload in
  device ← query (λ db, devices db !! id);
  match device with
  | None => _audit_denied id metadata "device_unavailable" false;; raise DeviceCredentialRejected
  | Some d =>
      if negb (bool_decide (d_status d = DsActive)) then
        _audit_denied id metadata "device_unavailable" true;; raise DeviceCredentialRejected
      else
        ok ← of_outcome (credential_matches d refresh_credential);
        if negb ok then
          _audit_denied id metadata "invalid_refresh_credential" true;;
          raise DeviceCredentialRejected
        else
          match canonicalize_ed25519_public_key (ctr_public_key payload) with
          | Raise _ =>
              _audit_denied id metadata "invalid_public_key" true;; raise DeviceProofRejected
          | Ok canonical_key =>
              if negb (bool_decide (canonical_key = d_public_key d)) then
                _audit_denied id metadata "public_key_mismatch" true;; raise DeviceProofRejected
              else mret (d, canonical_key)
          end
  end.

(** The proof: fresh, and signed by the device's key.  Returns the time and the
    decoded nonce. *)
Definition check_proof (canonical_key : pystr) (payload : DeviceConnectTokenRequest)
    (metadata : RequestMetadata) : tx (Z * list N) :=
  let id := ctr_device_id payload in
  proof_time ← of_outcome (_parse_rfc3339 (ctr_timestamp payload));
  t ← now;
  if device_proof_max_skew_seconds settings * 1000000 <? Z.abs (t - proof_time) then
    _audit_denied id metadata "timestamp_outside_window" true;; raise DeviceProofRejected
  else
    nonce ← of_outcome (_decode_base64url (ctr_nonce payload) 24);
    signature ← of_outcome (_decode_base64url (ctr_signature payload) 64);
    public_key ← of_outcome (_decode_base64url canonical_key 32);
    proof ← of_outcome (encode (uuid_str id +++ PyStr [10%N] +++ ctr_timestamp payload
                                +++ PyStr [10%N] +++ ctr_nonce payload));
    if negb (ed25519_verify public_key signature proof) then
      _audit_denied id metadata "invalid_signature" true;; raise DeviceProofRejected
    else mret (t, nonce).

Definition claim_nonce (device_id : uuid) (nonce : list N) (metadata : RequestMetadata) : tx unit :=
  claimed ← store_set_if_absent (nonce_key device_id nonce) "1" (device_nonce_ttl_seconds settings);
  if negb claimed then
    _audit_denied device_id metadata "nonce_replay" true;; raise DeviceProofReplay
  else mret tt.

Definition token_data (device_id : uuid) (d : Device) : pystr :=
  PyStr (dumps escape_ascii (JObj [("device_id", JStr (uuid_str device_id));
                                   ("credential_version", JInt (d_credential_version d))])).

(** The new token replaces the device's current one. *)
Definition grant_token (device_id : uuid) (d : Device) (t : Z) (metadata : RequestMetadata) :
    tx IssuedDeviceToken :=
  secret ← random_token 48;
  let access_token := "dca_" +++ secret in
  let token_hash := digest "device-access" access_token in
  let ttl := device_access_token_ttl_seconds settings in
  previous_hash ← store_get (current_key device_id);
  (match previous_hash with
   | Some h => if py_truthy h then store_delete (access_key h) else mret tt
   | None => mret tt
   end);;
  store_set (access_key token_hash) (token_data device_id d) ttl;;
  store_set (current_key device_id) token_hash ttl;;
  add_audit (Some (d_owner_user_id d)) None (Some device_id) "device.connect_token.issue"
    AoSucceeded "device" (uuid_str device_id) metadata
    (JObj [("credential_version", JInt (d_credential_version d))]);;
  commit;;
  mret {| it_value := access_token; it_expires_at := t + ttl * 1000000 |}.

Definition issue (authorization : option pystr) (payload : DeviceConnectTokenRequest)
    (metadata : RequestMetadata) : tx IssuedDeviceToken :=
  refresh_credential ← of_outcome (_device_authorization authorization);
  '(d, canonical_key) ← check_credential refresh_credential payload metadata;
  '(t, nonce) ← check_proof canonical_key payload metadata;
  claim_nonce (ctr_device_id payload) nonce metadata;;
  grant_token (ctr_device_id payload) d t metadata.

(** [uuid.UUID(str(data["device_id"]))] and [int(data["credential_version"])]. *)
Definition parse_token_data (raw : pystr) : option (uuid * Z) :=
  data ← json_loads raw;
  match data with
  | JObj l =>
      device_id ← assoc_get "device_id" l;
      id ← uuid_of_text (py_str device_id);
      version ← assoc_get "credential_version" l;
      v ← match version with
          | JInt z => Some z
          | JBool b => Some (if b then 1 else 0)
          | j => int_of_json j
          end;
      Some (id, v)
  | _ => None
  end.

Definition authenticate_access_token (access_token : pystr) : tx (option (uuid * Device)) :=
  let token_hash := digest "device-access" access_token in
  raw ← store_get (access_key token_hash);
  match raw with
  | None => mret None
  | Some raw =>
      match parse_token_data raw with
      | None => store_delete (access_key token_hash);; mret None
      | Some (device_id, credential_version) =>
          current_hash ← store_get (current_key device_id);
          if negb (bool_decide (current_hash = Some token_hash)) then mret None
          else
            device ← query (λ db, devices db !! device_id);
            match device with
            | Some d =>
                if bool_decide (d_status d = DsActive)
                   && (d_credential_version d =? credential_version)
                then mret (Some (device_id, d)) else mret None
            | None => mret None
            end
      end
  end.

Definition revoke_access_token (device_id : uuid) : tx unit :=
  token_hash ← store_get (current_key device_id);
  (match token_hash with
   | Some h => if py_truthy h then store_delete (access_key h) else mret tt
   | None => mret tt
   end);;
  store_delete (current_key device_id).
End device_auth.

(** ** Runs that return *)

Section runs.
Context {P : Platform}.

Lemma denied_ok_inv {A} id meta reason b e w (a : A) w' :
  (_audit_denied id meta reason b;; raise e) w = (Ok a, w') → False.
Proof. intros (? & ? & _ & H)%bind_ok_inv. done. Qed.

(** What a request that passes [check_credential] proves about itself. *)
Record credential_ok (cred : pystr) (p : DeviceConnectTokenRequest) (db : database) (d : Device) :
    Prop := {
  co_device : devices db !! ctr_device_id p = Some d;
  co_active : d_status d = DsActive;
  co_match : credential_matches d cred = Ok true;
  co_key : canonicalize_ed25519_public_key (ctr_public_key p) = Ok (d_public_key d);
}.

Lemma check_credential_ok cred p meta w d k w' :
  check_credential cred p meta w = (Ok (d, k), w') →
  w' = w ∧ k = d_public_key d ∧ credential_ok cred p (working w) d.
Proof.
  unfold check_credential. intros (o & w1 & [-> ->]%query_ok_inv & H)%bind_ok_inv.
  destruct (devices (working w) !! ctr_device_id p) as [d0|] eqn:Hd;
    [|by apply denied_ok_inv in H].
  destruct (negb _) eqn:Hs in H; [by apply denied_ok_inv in H|].
  apply bind_ok_inv in H as (ok & w1 & [Hm ->]%of_outcome_ok_inv & H).
  destruct ok; [|by apply denied_ok_inv in H]. cbn [negb] in H.
  destruct (canonicalize_ed25519_public_key _) as [key|] eqn:Hk; [|by apply denied_ok_inv in H].
  destruct (negb _) eqn:He in H; [by apply denied_ok_inv in H|]. injection H as <- <- <-.
  reflect_bools. subst key. done.
Qed.

(** The proof [check_proof] accepts at the instant [t]. *)
Record proof_ok (key : pystr) (p : DeviceConnectTokenRequest) (t : Z) (nonce : list N) : Prop := {
  po_time : ∃ s, _parse_rfc3339 (ctr_timestamp p) = Ok s
    ∧ Z.abs (t - s) ≤ device_proof_max_skew_seconds settings * 1000000;
  po_nonce : _decode_base64url (ctr_nonce p) 24 = Ok nonce;
  po_signed : ∃ public_key signature proof,
    _decode_base64url key 32 = Ok public_key
    ∧ _decode_base64url (ctr_signature p) 64 = Ok signature
    ∧ encode (uuid_str (ctr_device_id p) +++ PyStr [10%N] +++ ctr_timestamp p
              +++ PyStr [10%N] +++ ctr_nonce p) = Ok proof
    ∧ ed25519_verify public_key signature proof = true;
}.

Lemma check_proof_ok key p meta w t nonce w' :
  check_proof key p meta w = (Ok (t, nonce), w') →
  w' = w <| ticks := S (ticks w) |> ∧ t = clock (ticks w) ∧ proof_ok key p t nonce.
Proof.
  unfold check_proof. intros (s & w1 & [Hs ->]%of_outcome_ok_inv & H)%bind_ok_inv.
  apply bind_ok_inv in H as (t0 & w1 & E & H). injection E as <- <-.
  destruct (_ <? _) eqn:Ht in H; [by apply denied_ok_inv in H|].
  apply bind_ok_inv in H as (n & w1 & [Hn ->]%of_outcome_ok_inv & H).
  apply bind_ok_inv in H as (sg & w1 & [Hsg ->]%of_outcome_ok_inv & H).
  apply bind_ok_inv in H as (pk & w1 & [Hpk ->]%of_outcome_ok_inv & H).
  apply bind_ok_inv in H as (pf & w1 & [Hpf ->]%of_outcome_ok_inv & H).
  destruct (negb _) eqn:Hv in H; [by apply denied_ok_inv in H|]. injection H as <- <- <-.
  reflect_bools. split_and!; [done..|]. split; [eauto|done|]. by exists pk, sg, pf.
Qed.

(** A key that stays in the store until a deadline. *)
Definition live_until (k v : pystr) (deadline : Z) (w : world) : Prop :=
  ∀ t, monotonic (ticks w) ≤ t < deadline → kv_view t (store w) !! k = Some v.

Lemma claim_nonce_ok id nonce meta w w' :
  claim_nonce id nonce meta w = (Ok tt, w') →
  kv_view (monotonic (ticks w)) (store w) !! nonce_key id nonce = None
  ∧ ticks w' = S (ticks w) ∧ working w' = working w ∧ durable w' = durable w
  ∧ (∀ t, monotonic (ticks w) ≤ t < monotonic (ticks w) + device_nonce_ttl_seconds settings →
       kv_view t (store w') !! nonce_key id nonce = Some "1").
Proof.
  unfold claim_nonce. intros (b & w1 & H1 & H2)%bind_ok_inv.
  destruct b; [|by apply denied_ok_inv in H2]. injection H2 as ->.
  apply store_op_ok_inv in H1 as (Hb & Ht & Hs & Hw & Hd).
  destruct (kv_view (monotonic (ticks w)) (store w) !! nonce_key id nonce) eqn:E.
  { destruct (kv_set_if_absent_taken (monotonic (ticks w)) (nonce_key id nonce) "1"
      (device_nonce_ttl_seconds settings) (store w)) as [Hf _]; [by eexists|]. congruence. }
  split_and!; [done..|]. intros t Hlt. rewrite Hs.
  destruct (kv_set_if_absent_free (monotonic (ticks w)) (nonce_key id nonce) "1"
    (device_nonce_ttl_seconds settings) (store w) E) as [_ ->]; [|lia].
  unfold view_set. rewrite (proj2 (Z.ltb_lt _ _)) by lia. apply lookup_insert_eq.
Qed.
End runs.

(** ** Clocks *)

(** Both clocks only advance, the monotonic one no faster than the wall clock,
    and consecutive readings are at most [delay] seconds apart. *)
Class ClockLaws (P : Platform) (delay : Z) : Prop := {
  cl_clock :: MonotonicClock P;
  cl_wall i j : (i ≤ j)%nat → clock i ≤ clock j;
  cl_rate i j : (i ≤ j)%nat → (monotonic j - monotonic i) * 1000000 < clock j - clock i + 1000000;
  cl_delay n : clock (S n) - clock n ≤ delay * 1000000;
}.

Section keeps.
Context {P : Platform} `{!MonotonicClock P}.

(** Whoever is in the store under [k] stays there until it expires. *)
Lemma live_until_leaves k v deadline {A} (m : tx A) w :
  leaves k m → live_until k v deadline w →
  live_until k v deadline (m w).2 ∧ (ticks w ≤ ticks (m w).2)%nat.
Proof.
  intros Hm H. destruct (Hm w) as [Ht Hv]. split; [|done]. intros t [H1 H2].
  rewrite Hv by done. apply H. split; [|done]. etrans; [|exact H1]. by apply cl_monotonic.
Qed.
End keeps.

Lemma nonce_key_not_access id nonce h : nonce_key id nonce ≠ access_key h.
Proof. intros E%(f_equal (λ s, codepoints s !! 7%nat)). discriminate. Qed.

Lemma nonce_key_not_current id nonce id' : nonce_key id nonce ≠ current_key id'.
Proof. intros E%(f_equal (λ s, codepoints s !! 7%nat)). discriminate. Qed.

Section single_use.
Context {P : Platform}.

Lemma grant_token_leaves_nonce `{!MonotonicClock P} id d t meta id' nonce :
  leaves (nonce_key id' nonce) (grant_token id d t meta).
Proof.
  pose proof (nonce_key_not_access id' nonce). pose proof (nonce_key_not_current id' nonce).
  solve_leaves.
Qed.

(** C31: A proof is good for one token.  If nonces are remembered for longer
    than twice the admitted clock skew (plus one second and the delay between a
    clock reading and the store operation after it), then once a token was
    issued for a signed request, presenting the same request again, under any
    credential and at any later time, is never answered with a token, as long
    as nobody deletes the remembered nonce. *)
Theorem device_proof_single_use delay `{!ClockLaws P delay} a1 a2 p m1 m2 w1 w1' w2 r1 r2 nonce :
  issue a1 p m1 w1 = (Ok r1, w1') → (ticks w1' ≤ ticks w2)%nat →
  _decode_base64url (ctr_nonce p) 24 = Ok nonce →
  (∀ t v, monotonic (ticks w2) ≤ t →
     kv_view t (store w1') !! nonce_key (ctr_device_id p) nonce = Some v →
     kv_view t (store w2) !! nonce_key (ctr_device_id p) nonce = Some v) →
  2 * device_proof_max_skew_seconds settings + delay + 1 < device_nonce_ttl_seconds settings →
  (issue a2 p m2 w2).1 ≠ Ok r2.
Proof.
  intros H1 Hle Hn Hkeep Httl H2.
  destruct (issue a2 p m2 w2) as [r w2'] eqn:E2. simpl in H2. subst r.
  unfold issue in H1, E2.
  apply bind_ok_inv in H1 as (c1 & v1 & [_ ->]%of_outcome_ok_inv & H1).
  apply bind_ok_inv in H1 as ([d1 k1] & v1 & (-> & _ & _)%check_credential_ok & H1).
  apply bind_ok_inv in H1 as ([t1 n1] & v1 & (-> & Ht1 & [[s1 [Hs1 Hb1]] Hn1 _])%check_proof_ok & H1).
  apply bind_ok_inv in H1 as ([] & v1 & (_ & Hv1 & _ & _ & Hlive)%claim_nonce_ok & H1).
  apply bind_ok_inv in E2 as (c2 & v2 & [_ ->]%of_outcome_ok_inv & E2).
  apply bind_ok_inv in E2 as ([d2 k2] & v2 & (-> & _ & _)%check_credential_ok & E2).
  apply bind_ok_inv in E2 as ([t2 n2] & v2 & (-> & Ht2 & [[s2 [Hs2 Hb2]] Hn2 _])%check_proof_ok & E2).
  apply bind_ok_inv in E2 as ([] & v2 & (Hfree & _)%claim_nonce_ok & _).
  rewrite Hn in Hn1, Hn2. injection Hn1 as <-. injection Hn2 as <-.
  rewrite Hs1 in Hs2. injection Hs2 as <-. simpl in *.
  set (n1 := S (ticks w1)) in *. set (n2 := S (ticks w2)) in *.
  assert (Hl : live_until (nonce_key (ctr_device_id p) nonce) "1"
    (monotonic n1 + device_nonce_ttl_seconds settings) v1).
  { intros t [Ha Hb]. apply Hlive. split; [|done]. etrans; [|exact Ha]. apply cl_monotonic. lia. }
  pose proof (live_until_leaves _ _ _ _ v1
    (grant_token_leaves_nonce (ctr_device_id p) d1 t1 m1 (ctr_device_id p) nonce) Hl) as [Hl' Hticks]. rewrite H1 in Hl', Hticks. simpl in Hl', Hticks.
  assert (Hnn : (n1 ≤ n2)%nat) by (subst n1 n2; lia).
  pose proof (cl_rate n1 n2 Hnn) as Hr. pose proof (cl_delay (ticks w2)) as Hd. fold n2 in Hd.
  pose proof (cl_wall (ticks w1) n1 ltac:(subst n1; lia)) as Hw.
  assert (Hlt : monotonic n2 < monotonic n1 + device_nonce_ttl_seconds settings) by lia.
  rewrite (Hkeep (monotonic n2) "1") in Hfree; [done| |].
  - apply cl_monotonic. subst n2. lia.
  - apply Hl'. split; [|done]. apply cl_monotonic. subst n2. lia.
Qed.
End single_use.

(** ** What issuing writes *)

(** [m] adds audit records and nothing else, whatever its outcome. *)
Definition add_audits (l : list AuditEvent) (db : database) : database :=
  db <| audit := audit db ++ l |>.

Definition audit_only {P : Platform} {A} (m : tx A) : Prop :=
  ∀ w, (∃ l, working (m w).2 = add_audits l (working w))
    ∧ (durable (m w).2 = durable w ∨ ∃ l, durable (m w).2 = add_audits l (working w)).

Lemma add_audits_nil db : add_audits [] db = db.
Proof. unfold add_audits. destruct db. cbn. by rewrite app_nil_r. Qed.

Lemma add_audits_app l l' db : add_audits l' (add_audits l db) = add_audits (l ++ l') db.
Proof. unfold add_audits. destruct db. cbn. by rewrite app_assoc. Qed.

Section audits.
Context {P : Platform}.

Lemma audit_only_silent {A} (m : tx A) : silent m → audit_only m.
Proof.
  intros Hm w. destruct (Hm w) as [-> ->]. split; [|by left]. exists []. by rewrite add_audits_nil.
Qed.

Lemma audit_only_bind {A B} (m : tx A) (f : A → tx B) :
  audit_only m → (∀ a, audit_only (f a)) → audit_only (m ≫= f).
Proof.
  intros Hm Hf w. unfold mbind, tx_bind. destruct (Hm w) as [[l Hl] Hd].
  destruct (m w) as [[a|e] w1]; simpl in *; [|eauto].
  destruct (Hf a w1) as [[l' Hl'] Hd']. split.
  - exists (l ++ l'). by rewrite Hl', Hl, add_audits_app.
  - destruct Hd' as [->|[l'' ->]]; [done|]. right. exists (l ++ l''). by rewrite Hl, add_audits_app.
Qed.

Lemma audit_only_commit : audit_only commit.
Proof. intros w. split; [|right]; exists []; by rewrite add_audits_nil. Qed.

Lemma audit_only_add a b c d e f g h i : audit_only (add_audit a b c d e f g h i).
Proof.
  intros w. unfold add_audit, mbind, tx_bind, now, modify. simpl. split; [by eexists|by left].
Qed.

Lemma issue_audit_only a p m : audit_only (issue a p m).
Proof.
  unfold issue, check_credential, check_proof, claim_nonce, grant_token, random_token, _audit_denied.
  repeat first
    [ apply audit_only_commit | apply audit_only_add
    | apply audit_only_silent; solve [solve_silent]
    | apply audit_only_bind; [|intros ?]
    | match goal with |- audit_only (match ?x with _ => _ end) => destruct x end
    | match goal with |- audit_only (if ?x then _ else _) => destruct x end ].
Qed.

(** C30: A device token is issued only to the device.  [issue] returns a token
    only for an active device whose stored credential matches the one presented,
    whose registered key is the one named, and whose key signed this very
    request (device, timestamp, nonce) within the clock skew, with a nonce the
    store did not remember.  On every outcome, what it writes and commits in the
    database is audit records and nothing else. *)
Theorem token_issue_gate a p m w :
  (∀ r, (issue a p m w).1 = Ok r → ∃ cred d t nonce,
     _device_authorization a = Ok cred ∧ credential_ok cred p (working w) d
     ∧ t = clock (ticks w) ∧ proof_ok (d_public_key d) p t nonce
     ∧ kv_view (monotonic (S (ticks w))) (store w) !! nonce_key (ctr_device_id p) nonce = None
     ∧ it_expires_at r = t + device_access_token_ttl_seconds settings * 1000000)
  ∧ (∃ l, working (issue a p m w).2 = add_audits l (working w))
  ∧ (durable (issue a p m w).2 = durable w
     ∨ ∃ l, durable (issue a p m w).2 = add_audits l (working w)).
Proof.
  split; [|apply issue_audit_only]. intros r Hr.
  destruct (issue a p m w) as [o w'] eqn:E. simpl in Hr. subst o. unfold issue in E.
  apply bind_ok_inv in E as (c & v & [Hc ->]%of_outcome_ok_inv & E).
  apply bind_ok_inv in E as ([d k] & v & (-> & -> & Hd)%check_credential_ok & E).
  apply bind_ok_inv in E as ([t n] & v & (-> & Ht & Hp)%check_proof_ok & E).
  apply bind_ok_inv in E as ([] & v & (Hfree & _)%claim_nonce_ok & E).
  exists c, d, t, n. split_and!; [done..|exact Hfree|].
  unfold grant_token in E.
  apply bind_ok_inv in E as (? & ? & _ & E). apply bind_ok_inv in E as (? & ? & _ & E).
  apply bind_ok_inv in E as (? & ? & _ & E). apply bind_ok_inv in E as (? & ? & _ & E).
  apply bind_ok_inv in E as (? & ? & _ & E). apply bind_ok_inv in E as (? & ? & _ & E).
  apply bind_ok_inv in E as (? & ? & _ & E). by injection E as <- _.
Qed.
End audits.

(** ** One live token per device *)

Lemma access_key_not_current h id : access_key h ≠ current_key id.
Proof. intros E%(f_equal (λ s, codepoints s !! 13%nat)). discriminate. Qed.

Section one_token.
Context {P : Platform} `{!MonotonicClock P}.

Lemma store_op_later {A} (f : Z → kvs → A * kvs) w a w' :
  store_op f w = (Ok a, w') →
  monotonic (ticks w) ≤ monotonic (ticks w') ∧ store w' = (f (monotonic (ticks w)) (store w)).2.
Proof.
  intros (_ & Ht & Hs & _)%store_op_ok_inv. split; [apply cl_monotonic; lia|done].
Qed.

(** What the store holds after a token was granted. *)
Lemma grant_token_ok id d t meta w r w' :
  grant_token id d t meta w = (Ok r, w') →
  let h := digest "device-access" (it_value r) in
  let lifetime := device_access_token_ttl_seconds settings in
  (∀ u h', monotonic (ticks w') ≤ u → kv_view u (store w') !! current_key id = Some h' → h' = h)
  ∧ (∀ u, monotonic (ticks w') ≤ u < monotonic (ticks w) + lifetime →
       kv_view u (store w') !! current_key id = Some h
       ∧ kv_view u (store w') !! access_key h = Some (token_data id d)).
Proof.
  unfold grant_token. intros E.
  apply bind_ok_inv in E as (secret & w1 & E1 & E). cbv zeta in E.
  assert (Hw1 : monotonic (ticks w) ≤ monotonic (ticks w1)).
  { apply bind_ok_inv in E1 as (b & v & Eb & [= _ <-]). injection Eb as _ <-.
    apply cl_monotonic. simpl. lia. }
  set (h := digest "device-access" ("dca_" +++ secret)) in *.
  set (ttl := device_access_token_ttl_seconds settings) in *.
  apply bind_ok_inv in E as (prev & w2 & (Hw2 & _)%store_op_later & E).
  apply bind_ok_inv in E as ([] & w3 & E3 & E).
  assert (Hw3 : monotonic (ticks w2) ≤ monotonic (ticks w3)).
  { destruct prev as [x|]; [|by injection E3 as <-]. destruct (py_truthy x).
    - by apply store_op_later in E3 as [? _].
    - by injection E3 as <-. }
  apply bind_ok_inv in E as ([] & w4 & (Hw4 & Hs4)%store_op_later & E).
  apply bind_ok_inv in E as ([] & w5 & (Hw5 & Hs5)%store_op_later & E).
  apply bind_ok_inv in E as ([] & w6 & E6 & E). apply bind_ok_inv in E as ([] & w7 & E7 & E).
  injection E7 as <-. injection E as <- <-. cbn [it_value]. fold h.
  unfold add_audit in E6. apply bind_ok_inv in E6 as (t6 & v6 & E6 & E7).
  injection E6 as _ <-. injection E7 as <-. cbn [ticks store working durable].
  change (ticks (w5 <| durable := _ |>)) with (ticks w5).
  simpl in Hs4, Hs5. pose proof (cl_monotonic (ticks w5) (S (ticks w5)) ltac:(lia)) as Hw6.
  assert (Hcur : ∀ u, monotonic (ticks w5) ≤ u → kv_view u (store w5) !! current_key id
    = if u <? monotonic (ticks w4) + ttl then Some h else None).
  { intros u Hu. rewrite Hs5, kv_set_view by lia. unfold view_set.
    destruct (u <? _); [apply lookup_insert_eq|apply lookup_delete_eq]. }
  split.
  - intros u h' Hu. simpl in Hu. cbn. rewrite Hcur by lia. destruct (_ <? _); congruence.
  - intros u Hu. simpl in Hu. cbn. rewrite Hcur by lia. rewrite (proj2 (Z.ltb_lt _ _)) by lia.
    split; [done|]. rewrite Hs5, kv_set_view by lia. unfold view_set.
    rewrite (proj2 (Z.ltb_lt u (monotonic (ticks w4) + ttl))) by lia.
    rewrite lookup_insert_ne by (apply not_eq_sym, access_key_not_current).
    rewrite Hs4, kv_set_view by lia. unfold view_set.
    rewrite (proj2 (Z.ltb_lt u (monotonic (ticks w3) + ttl))) by lia. apply lookup_insert_eq.
Qed.

(** What an authenticated device proves. *)
Lemma authenticate_ok token w id d w' :
  authenticate_access_token token w = (Ok (Some (id, d)), w') →
  let h := digest "device-access" token in
  ∃ raw, kv_view (monotonic (ticks w)) (store w) !! access_key h = Some raw
    ∧ parse_token_data raw = Some (id, d_credential_version d)
    ∧ kv_view (monotonic (S (ticks w))) (store w) !! current_key id = Some h
    ∧ devices (working w) !! id = Some d ∧ d_status d = DsActive
    ∧ working w' = working w ∧ durable w' = durable w.
Proof.
  unfold authenticate_access_token. intros (raw & w1 & E1 & E)%bind_ok_inv.
  apply store_op_ok_inv in E1 as (Hr & Ht1 & Hs1 & Hw1 & Hd1). rewrite kv_get_spec in Hr.
  destruct raw as [raw|]; [|done].
  destruct (parse_token_data raw) as [[i v]|] eqn:Hp.
  2: { apply bind_ok_inv in E as (? & ? & _ & [=]). }
  apply bind_ok_inv in E as (cur & w2 & E2 & E).
  apply store_op_ok_inv in E2 as (Hc & Ht2 & Hs2 & Hw2 & Hd2). rewrite kv_get_spec in Hc.
  destruct (negb _) eqn:Hcur in E; [done|]. reflect_bools.
  apply bind_ok_inv in E as (dv & w3 & [-> ->]%query_ok_inv & E).
  destruct (devices (working w2) !! i) as [d0|] eqn:Hdev; [|done].
  destruct (_ && _) eqn:Hok; [|done]. injection E as -> -> <-. reflect_bools.
  exists raw. subst v. rewrite Ht1, Hs1 in Hc. rewrite kv_get_view in Hc by (apply cl_monotonic; lia).
  split_and!; congruence.
Qed.
End one_token.

Section properties.
Context {P : Platform} `{!MonotonicClock P}.

(** A device has one live token.  After a token was issued, no token with
    another digest authenticates as that device, and, while the device stays as
    it was, the new token does authenticate as it for its lifetime (provided the
    store answers and its own token data reads back). *)
Theorem one_live_token a p m w r w' :
  issue a p m w = (Ok r, w') →
  (∀ token d w'', authenticate_access_token token w' = (Ok (Some (ctr_device_id p, d)), w'') →
     digest "device-access" token = digest "device-access" (it_value r))
  ∧ (∀ d, devices (working w) !! ctr_device_id p = Some d →
       parse_token_data (token_data (ctr_device_id p) d)
         = Some (ctr_device_id p, d_credential_version d) →
       store_up (ticks w') = true → store_up (S (ticks w')) = true →
       monotonic (S (ticks w'))
         < monotonic (ticks w) + device_access_token_ttl_seconds settings →
       (authenticate_access_token (it_value r) w').1 = Ok (Some (ctr_device_id p, d))).
Proof.
  intros E. pose proof (issue_audit_only a p m w) as [[l Hl] _]. rewrite E in Hl. simpl in Hl.
  unfold issue in E.
  apply bind_ok_inv in E as (c & v & [_ ->]%of_outcome_ok_inv & E).
  apply bind_ok_inv in E as ([d k] & v & (-> & -> & [Hdev Hact _ _])%check_credential_ok & E).
  apply bind_ok_inv in E as ([t n] & v & (-> & _ & _)%check_proof_ok & E).
  apply bind_ok_inv in E as ([] & v & (_ & Hv & _ & _)%claim_nonce_ok & E).
  destruct (grant_token_ok _ _ _ _ _ _ _ E) as [Hold Hnew].
  assert (Hmono : monotonic (ticks w) ≤ monotonic (ticks v)).
  { apply cl_monotonic. rewrite Hv. simpl. lia. }
  assert (Hmono' : monotonic (ticks w') ≤ monotonic (S (ticks w'))) by (apply cl_monotonic; lia).
  split.
  - intros token d' w'' (raw & _ & _ & Hcur & _)%authenticate_ok.
    by apply (Hold _ _ Hmono').
  - intros d' Hd' Hparse Hup1 Hup2 Hlife. rewrite Hd' in Hdev. injection Hdev as ->.
    destruct (Hnew (monotonic (ticks w'))) as [_ Ha]; [lia|].
    destruct (Hnew (monotonic (S (ticks w')))) as [Hc _]; [lia|].
    unfold authenticate_access_token, store_get, store_op, mbind, tx_bind. rewrite Hup1.
    destruct (kv_get _ (access_key _) _) as [x s1] eqn:G1. cbn [fst snd].
    pose proof (kv_get_spec (monotonic (ticks w'))
      (access_key (digest "device-access" (it_value r))) (store w')) as S1.
    pose proof (λ u, kv_get_view (monotonic (ticks w'))
      (access_key (digest "device-access" (it_value r))) (store w') u) as V1.
    rewrite G1 in S1, V1. simpl in S1, V1. rewrite Ha in S1. subst x. rewrite Hparse.
    cbn [ticks store working]. simpl. rewrite Hup2.
    destruct (kv_get _ (current_key _) s1) as [x s2] eqn:G2. cbn [fst snd].
    pose proof (kv_get_spec (monotonic (S (ticks w'))) (current_key (ctr_device_id p)) s1) as S2.
    rewrite G2, V1 in S2 by done. simpl in S2. rewrite Hc in S2. subst x.
    rewrite bool_decide_true by done. simpl. rewrite Hl. unfold query. cbn.
    rewrite Hd'. by rewrite bool_decide_true, Z.eqb_refl.
Qed.
End properties.

(** ** A device and its request on the testbed *)

Definition sample_key_bytes : list N := be_bytes 32 77777.
Definition sample_key : pystr := PyStr (_base64url_encode sample_key_bytes).

Definition enrolled_device : Device :=
  sample_device <| d_public_key := sample_key |>
    <| d_refresh_credential_hash :=
         Some (@digest testbed "device-refresh-v2" (@sha256_hex testbed (codepoints "secret"))) |>.

Definition enrolled_database : database :=
  empty_database <| devices := {[ 1%N := enrolled_device ]} |>.

(** Signed for the instant [t]. *)
Definition sample_request (t : Z) : DeviceConnectTokenRequest :=
  let nonce := PyStr (_base64url_encode (be_bytes 24 5)) in
  let proof := uuid_str 1%N +++ PyStr [10%N] +++ iso t +++ PyStr [10%N] +++ nonce in
  {| ctr_device_id := 1%N; ctr_public_key := "ed25519:" +++ sample_key; ctr_timestamp := iso t;
     ctr_nonce := nonce;
     ctr_signature := PyStr (_base64url_encode (toy_signature sample_key_bytes (codepoints proof))) |}.

Definition is_ok {A} `{P : Platform} (r : outcome A * world) : bool :=
  match r.1 with Ok _ => true | Raise _ => false end.

Definition sample_issue (w : @world testbed) : outcome IssuedDeviceToken * @world testbed :=
  issue (Some "Device secret") (sample_request start_micros) no_metadata w.

Lemma sample_issue_ok : is_ok (sample_issue (start_world enrolled_database)) = true.
Proof. vm_compute. reflexivity. Qed.

Lemma is_ok_inv {A} `{P : Platform} (r : outcome A * world) :
  is_ok r = true → ∃ a, r = (Ok a, r.2).
Proof. destruct r as [[a|e] w]; [by exists a|done]. Qed.

#[export] Instance testbed_monotonic : MonotonicClock testbed.
Proof. intros i j Hij. apply Z.div_le_mono; lia. Qed.

#[export] Instance testbed_clocks : ClockLaws testbed 1.
Proof.
  split; [apply _|..].
  - intros i j Hij. cbn [clock testbed]. lia.
  - intros i j Hij. cbn [clock monotonic testbed]. pose proof (Z.div_mod (Z.of_nat i) 1000).
    pose proof (Z.div_mod (Z.of_nat j) 1000). pose proof (Z.mod_pos_bound (Z.of_nat i) 1000).
    pose proof (Z.mod_pos_bound (Z.of_nat j) 1000). lia.
  - intros n. cbn [clock testbed]. lia.
Qed.

Definition first_issue : outcome IssuedDeviceToken * @world testbed :=
  sample_issue (start_world enrolled_database).

Lemma first_issue_ok : is_ok first_issue = true.
Proof. exact sample_issue_ok. Qed.

Lemma device_proof_single_use_witness : is_ok (sample_issue first_issue.2) = false.
Proof.
  destruct (is_ok_inv _ first_issue_ok) as [r1 E1].
  destruct (is_ok (sample_issue first_issue.2)) eqn:E; [exfalso|reflexivity].
  apply is_ok_inv in E as [r2 E2].
  refine (device_proof_single_use 1 _ _ _ _ _ (start_world enrolled_database) first_issue.2
    first_issue.2 r1 r2 (be_bytes 24 5) E1 (le_n _) _ (λ t v _ Hv, Hv) _ (f_equal fst E2)).
  - vm_compute. reflexivity.
  - vm_compute. reflexivity.
Defined.

Lemma one_live_token_witness :
  match first_issue.1 with
  | Ok r => (authenticate_access_token (it_value r) first_issue.2).1 = Ok (Some (1%N, enrolled_device))
  | Raise _ => False
  end.
Proof.
  destruct (is_ok_inv _ first_issue_ok) as [r1 E1]. rewrite (f_equal fst E1). simpl fst.
  refine (proj2 (one_live_token _ _ _ _ _ _ E1) enrolled_device _ _ _ _ _).
  all: vm_compute; reflexivity.
Defined.

(** ** A valid configuration that forgets too early *)

Definition short_memory : Settings :=
  default_settings <| device_proof_max_skew_seconds := 300 |> <| device_nonce_ttl_seconds := 60 |>.

(** The testbed under [short_memory], with sixty-one seconds between readings. *)
#[local] Instance slow_testbed : Platform := {|
  settings := short_memory;
  clock n := start_micros + 61000000 * Z.of_nat n;
  monotonic n := 61 * Z.of_nat n;
  uuid4 := @uuid4 testbed;
  store_up := @store_up testbed;
  send_up := @send_up testbed;
  instance_id := @instance_id testbed;
  sha256 := @sha256 testbed;
  session_hmac_hex := @session_hmac_hex testbed;
  model_dump_json_bytes := @model_dump_json_bytes testbed;
  json_loads := @json_loads testbed;
  pydantic_json := @pydantic_json testbed;
  pydantic_datetime := @pydantic_datetime testbed;
  py_repr := @py_repr testbed;
  uuid_of_text := @uuid_of_text testbed;
  float_timestamp := @float_timestamp testbed;
  fromisoformat := @fromisoformat testbed;
  int_of_json := @int_of_json testbed;
  token_bytes := @token_bytes testbed;
  ed25519_verify := @ed25519_verify testbed;
  aead_encrypt := @aead_encrypt testbed;
  aead_decrypt := @aead_decrypt testbed;
  kvs := gmap pystr InMemory._MemoryValue;
  kvs_store := InMemory.InMemoryKeyValueStore;
|}.

Definition slow_issue (w : @world slow_testbed) : outcome IssuedDeviceToken * @world slow_testbed :=
  issue (P := slow_testbed) (Some "Device secret") (sample_request (start_micros + 300000000))
    no_metadata w.

Definition slow_start : @world slow_testbed :=
  {| working := enrolled_database; durable := enrolled_database;
     store := (kv_empty : @kvs slow_testbed); ticks := 0; effects := []; hub := ∅ |}.

(** Without the condition on the nonce lifetime a proof is good twice.  The
    settings class admits a clock skew of 300 seconds beside a nonce lifetime of
    60; under that configuration the same signed request, presented again after
    its nonce was forgotten, is answered with a second token. *)
Theorem nonce_replay_gap :
  settings_valid short_memory = true
  ∧ is_ok (slow_issue slow_start) = true
  ∧ is_ok (slow_issue (slow_issue slow_start).2) = true.
Proof. split_and!; vm_compute; reflexivity. Qed.
