(* ===== verification/Pairing.v ===== *)
(** * Device pairing ([services.PairingService])

    An anonymous connector starts a pairing with a signed proof of its key and
    commitments to a code, a poll token and a refresh credential; a signed-in
    user claims it by its code; the connector polls with its token and becomes
    a device of that user.

    A pairing row is found before it is locked, so between the first reads of
    [start] and its insert other transactions may commit: [meanwhile] is what
    they do.  Updates of the session are emitted with its flush, before its
    inserts, so [start] expires the rows it supersedes only there.
    [_expire_unactivated] returns no event, so what the code does with the
    events it collects from it never runs.  Strings longer than their column are
    refused by the request models. *)

From stdpp Require Import base list gmap.
From Stdlib Require Import NArith ZArith Lia.
From S2P Require Import Prelude Config Base64 Json Paths Models Storage World Security.
From S2P Require Import Events Capacity.
Open Scope Z_scope.

Definition MAX_LIVE_PAIRINGS_GLOBAL : Z := 2048.
Definition MAX_LIVE_PAIRINGS_PER_SOURCE : Z := 16.
Definition MAX_RETAINED_PAIRINGS_GLOBAL : Z := 10000.
Definition MAX_RETAINED_PAIRINGS_PER_SOURCE : Z := 100.

(** The arguments of [start]; the proof's time with whether it names a zone. *)
Record StartRequest := {
  sr_pairing_id : uuid;
  sr_proof_created_at : Z * bool;
  sr_audience : pystr;
  sr_public_key : pystr;
  sr_device_name : pystr;
  sr_device_metadata : json;
  sr_workspace_roots : list pystr;
  sr_code_commitment : pystr;
  sr_poll_token_commitment : pystr;
  sr_refresh_credential_commitment : pystr;
  sr_signature : pystr;
}.

(** What [start] keeps of a verified request: the arguments of
    [_same_start_intent]. *)
Record StartIntent := {
  si_proof_created_at : Z;
  si_audience : pystr;
  si_public_key : pystr;
  si_device_name : pystr;
  si_device_metadata : json;
  si_workspace_roots : list pystr;
  si_code_hash : pystr;
  si_poll_token_hash : pystr;
  si_refresh_credential_hash : pystr;
}.

Definition live_status (s : PairingStatus) : bool :=
  match s with PsPending | PsClaimed => true | _ => false end.

Definition pairing_status_value (s : PairingStatus) : pystr :=
  match s with
  | PsPending => "pending" | PsClaimed => "claimed" | PsCompleted => "completed"
  | PsExpired => "expired" | PsCancelled => "cancelled"
  end.

Definition is_live (p : DevicePairing) : bool := live_status (dp_status p).

(** Python's equality of two dictionaries with string values. *)
Definition same_metadata (a b : json) : bool :=
  match a, b with
  | JObj l, JObj m =>
      (length l =? length m)%nat
      && forallb (λ kv, bool_decide (assoc_get kv.1 m = Some kv.2)) l
  | a, b => bool_decide (a = b)
  end.

Definition _same_start_intent (p : DevicePairing) (i : StartIntent) : bool :=
  (dp_protocol_version p =? 2)
  && bool_decide (dp_proof_created_at p = Some (si_proof_created_at i))
  && bool_decide (dp_audience p = Some (si_audience i))
  && bool_decide (dp_public_key p = si_public_key i)
  && bool_decide (dp_device_name p = si_device_name i)
  && same_metadata (dp_device_metadata p) (si_device_metadata i)
  && bool_decide (dp_workspace_roots p = si_workspace_roots i)
  && bool_decide (dp_code_hash p = si_code_hash i)
  && bool_decide (dp_poll_token_hash p = si_poll_token_hash i)
  && bool_decide (default "" (dp_refresh_credential_hash p) = si_refresh_credential_hash i).

(** ** Rows *)

Definition has_live_key (key : pystr) (_ : uuid) (p : DevicePairing) : bool :=
  bool_decide (dp_public_key p = key) && is_live p.

Definition active_with_key (key : pystr) (_ : uuid) (d : Device) : bool :=
  bool_decide (d_public_key d = key) && bool_decide (d_status d = DsActive).

(** The unique constraints of [device_pairings] that a new row may violate; a
    null is equal to nothing. *)
Definition opt_clash {A} `{EqDecision A} (a b : option A) : bool :=
  match a, b with Some x, Some y => bool_decide (x = y) | _, _ => false end.

Definition pairing_clash (r : DevicePairing) (_ : uuid) (p : DevicePairing) : bool :=
  bool_decide (dp_code_hash p = dp_code_hash r)
  || bool_decide (dp_poll_token_hash p = dp_poll_token_hash r)
  || opt_clash (dp_refresh_credential_hash p) (dp_refresh_credential_hash r)
  || opt_clash (dp_device_id p) (dp_device_id r)
  || (bool_decide (dp_public_key p = dp_public_key r) && is_live p && is_live r).

Definition pairing_insertable (id : uuid) (r : DevicePairing) (db : database) : bool :=
  negb (bool_decide (is_Some (pairings db !! id)))
  && negb (exists_row (pairing_clash r) (pairings db))
  && (dp_created_at r <? dp_expires_at r).

Definition device_clash (d : Device) (_ : uuid) (d' : Device) : bool :=
  opt_clash (d_refresh_credential_hash d') (d_refresh_credential_hash d)
  || (bool_decide (d_public_key d' = d_public_key d) && bool_decide (d_status d' = DsActive)
      && bool_decide (d_status d = DsActive)).

Definition device_insertable (id : uuid) (d : Device) (db : database) : bool :=
  negb (bool_decide (is_Some (devices db !! id))) && negb (exists_row (device_clash d) (devices db)).

(** A device as [Device(...)] builds it, with the column defaults. *)
Definition new_device (owner : pystr) (p : DevicePairing) (t : Z) : Device :=
  {| d_owner_user_id := owner; d_name := dp_device_name p; d_public_key := dp_public_key p;
     d_refresh_credential_hash := dp_refresh_credential_hash p; d_credential_version := 1;
     d_credential_scheme := 2; d_status := DsActive;
     d_device_metadata := dp_device_metadata p; d_workspace_roots := dp_workspace_roots p;
     d_model_catalog := []; d_model_catalog_updated_at := None;
     d_active_epoch := None; d_active_connection_nonce := None;
     d_last_device_sequence := 0; d_last_server_sequence := 0; d_last_server_acked_sequence := 0;
     d_last_event_sequence := 0; d_created_at := t; d_last_seen_at := None;
     d_revoked_at := None |}.

Definition reservation (owner : pystr) (_ : uuid) (p : DevicePairing) : bool :=
  bool_decide (dp_claimed_by_user_id p = Some owner) && bool_decide (dp_status p = PsClaimed).

Definition reservations (owner : pystr) (db : database) : Z :=
  count_rows (reservation owner) (pairings db).

Definition expire_pairing (p : DevicePairing) : DevicePairing := p <| dp_status := PsExpired |>.

Definition claim_row (owner : pystr) (session_id : uuid) (t : Z) (p : DevicePairing) :
    DevicePairing :=
  p <| dp_claimed_by_user_id := Some owner |> <| dp_claimed_by_session_id := Some session_id |>
    <| dp_claimed_at := Some t |> <| dp_status := PsClaimed |>.

Definition complete_row (device_id : uuid) (t : Z) (p : DevicePairing) : DevicePairing :=
  p <| dp_device_id := Some device_id |> <| dp_credential_delivered_at := Some t |>
    <| dp_completed_at := Some t |> <| dp_status := PsCompleted |>.

Definition save_pairing (id : uuid) (p : DevicePairing) (db : database) : database :=
  db <| pairings := <[id := p]> (pairings db) |>.

Section pairing.
Context {P : Platform}.

(** ** Rows of a start *)

Definition pairing_lifetime : Z := pairing_ttl_seconds settings * 1000000.

Definition new_pairing (i : StartIntent) (t : Z) (source_ip : option pystr) : DevicePairing :=
  {| dp_code_hash := si_code_hash i; dp_poll_token_hash := si_poll_token_hash i;
     dp_refresh_credential_hash := Some (si_refresh_credential_hash i);
     dp_protocol_version := 2; dp_proof_created_at := Some (si_proof_created_at i);
     dp_audience := Some (si_audience i); dp_public_key := si_public_key i;
     dp_device_name := si_device_name i; dp_device_metadata := si_device_metadata i;
     dp_workspace_roots := si_workspace_roots i; dp_status := PsPending;
     dp_claimed_by_user_id := None; dp_claimed_by_session_id := None; dp_device_id := None;
     dp_created_at := t; dp_expires_at := t + pairing_lifetime; dp_claimed_at := None;
     dp_credential_delivered_at := None; dp_completed_at := None; dp_source_ip := source_ip |}.

Definition recovered_pairing (device_id : uuid) (d : Device) (i : StartIntent) (t : Z)
    (source_ip : option pystr) : DevicePairing :=
  (new_pairing i t source_ip) <| dp_status := PsCompleted |>
    <| dp_claimed_by_user_id := Some (d_owner_user_id d) |> <| dp_device_id := Some device_id |>
    <| dp_claimed_at := Some t |> <| dp_credential_delivered_at := Some t |>
    <| dp_completed_at := Some t |>.

Definition insert_pairing (id : uuid) (r : DevicePairing) : tx unit :=
  ok ← query (pairing_insertable id r);
  guard_exn (negb ok) IntegrityError;;
  modify (save_pairing id r).

(** ** Helpers of the service *)

Definition pairing_audit (actor : option pystr) (device_id : option uuid) (action : pystr)
    (outcome : AuditOutcome) (pairing_id : uuid) (metadata : RequestMetadata) (details : json) :
    tx unit :=
  add_audit actor None device_id action outcome "device_pairing" (uuid_str pairing_id) metadata
    details.

Definition _expire_unactivated (id : uuid) (p : DevicePairing) (metadata : RequestMetadata) :
    tx unit :=
  guard_exn (bool_decide (dp_status p = PsCompleted)) PairingConflict;;
  modify (save_pairing id (expire_pairing p));;
  pairing_audit None None "pairing.expire" AoSucceeded id metadata
    (JObj [("unactivated_device_created", JBool false)]).

Definition _verify_start_proof (r : StartRequest) (created_at public_key : pystr)
    (roots : list pystr) : tx unit :=
  match _base64url_decode (codepoints (sr_signature r)), _base64url_decode (codepoints public_key)
  with
  | Some signature, Some key =>
      guard_exn (negb ((length signature =? 64)%nat && (length key =? 32)%nat))
        PairingProofRejected;;
      proof ← of_outcome (pairing_start_proof (sr_pairing_id r) created_at (sr_audience r)
                public_key (sr_code_commitment r) (sr_poll_token_commitment r)
                (sr_refresh_credential_commitment r) (sr_device_name r)
                (metadata_str "connector_version" (sr_device_metadata r))
                (metadata_str "codex_version" (sr_device_metadata r)) roots);
      guard_exn (negb (ed25519_verify key signature proof)) PairingProofRejected
  | _, _ => raise PairingProofRejected
  end.

Definition _ensure_start_capacity (source_ip : option pystr) : tx unit :=
  retained_global ← query (λ db, count_rows (λ _ _, true) (pairings db));
  live_global ← query (λ db, count_rows (λ _ p, is_live p) (pairings db));
  guard_exn (MAX_RETAINED_PAIRINGS_GLOBAL <=? retained_global) PairingCapacityExceeded;;
  guard_exn (MAX_LIVE_PAIRINGS_GLOBAL <=? live_global) PairingCapacityExceeded;;
  match source_ip with
  | None => mret tt
  | Some ip =>
      let from_source p := bool_decide (dp_source_ip p = Some ip) in
      retained_source ← query (λ db, count_rows (λ _ p, from_source p) (pairings db));
      live_source ← query (λ db, count_rows (λ _ p, from_source p && is_live p) (pairings db));
      guard_exn (MAX_RETAINED_PAIRINGS_PER_SOURCE <=? retained_source) PairingCapacityExceeded;;
      guard_exn (MAX_LIVE_PAIRINGS_PER_SOURCE <=? live_source) PairingCapacityExceeded
  end.

(** [except OwnerCapacityExceeded as exc: raise e from exc]. *)
Definition capacity_as (e : exn) (m : tx unit) : tx unit :=
  try_catch m (λ x, match x with OwnerCapacityExceeded _ => raise e | x => raise x end).

(** ** [start] *)

(** Everything [start] checks before it reads the clock. *)
Definition verify_start (r : StartRequest) : tx StartIntent :=
  canonical_key ← of_outcome (canonicalize_ed25519_public_key (sr_public_key r));
  match canonicalize_workspace_roots (sr_workspace_roots r) with
  | None => raise (ValueError "workspace_roots")
  | Some canonical_roots =>
      guard_exn (negb (sr_proof_created_at r).2) PairingProofRejected;;
      let t := (sr_proof_created_at r).1 in
      let proof_created_at := t - t mod 1000000 in
      let expected_audiences :=
        (λ origin, origin +++ pairing_poll_path_prefix settings +++ "/device-pairings/start")
          <$> allowed_origins settings in
      guard_exn (negb (py_in (sr_audience r) expected_audiences)) PairingProofRejected;;
      _verify_start_proof r (iso proof_created_at) canonical_key canonical_roots;;
      mret {| si_proof_created_at := proof_created_at; si_audience := sr_audience r;
              si_public_key := canonical_key; si_device_name := sr_device_name r;
              si_device_metadata := sr_device_metadata r; si_workspace_roots := canonical_roots;
              si_code_hash := digest "pairing-code-v2" (sr_code_commitment r);
              si_poll_token_hash := digest "pairing-poll-v2" (sr_poll_token_commitment r);
              si_refresh_credential_hash :=
                digest "device-refresh-v2" (sr_refresh_credential_commitment r) |}
  end.

(** A row with the same intent answers the request, unless it is over. *)
Definition resume_start (id : uuid) (p : DevicePairing) (i : StartIntent) (t : Z)
    (metadata : RequestMetadata) : tx (uuid * DevicePairing) :=
  guard_exn (negb (_same_start_intent p i)) PairingConflict;;
  match dp_status p with
  | PsExpired | PsCancelled => raise PairingExpired
  | s =>
      if negb (bool_decide (s = PsCompleted)) && (dp_expires_at p <=? t) then
        _expire_unactivated id p metadata;;
        commit;;
        raise PairingExpired
      else mret (id, p)
  end.

(** The device is enrolled but its pairing row is gone. *)
Definition recover_start (meanwhile : database → database) (id : uuid) (d : Device)
    (i : StartIntent) (t : Z) (metadata : RequestMetadata) : tx (uuid * DevicePairing) :=
  guard_exn (negb (bool_decide (d_status d = DsActive)
                   && bool_decide (d_public_key d = si_public_key i)
                   && bool_decide (default "" (d_refresh_credential_hash d)
                                   = si_refresh_credential_hash i))) PairingConflict;;
  other_transactions meanwhile;;
  let record := recovered_pairing id d i t (rm_source_ip metadata) in
  inserted ← try_catch
    (insert_pairing id record;;
     pairing_audit (Some (d_owner_user_id d)) (Some id) "pairing.recover" AoSucceeded id metadata
       (JObj [("reason", JStr "completed_pairing_record_missing")]);;
     commit;;
     mret true)
    (λ e, match e with IntegrityError => mret false | e => raise e end);
  if inserted : bool then mret (id, record)
  else
    rollback;;
    concurrent ← query (λ db, pairings db !! id);
    match concurrent with
    | Some p => if _same_start_intent p i then mret (id, p) else raise PairingConflict
    | None => raise PairingConflict
    end.

Definition expire_all (rows : list (uuid * DevicePairing)) (metadata : RequestMetadata) : tx unit :=
  for_each (λ r, _expire_unactivated r.1 r.2 metadata) rows.

Definition new_start (meanwhile : database → database) (id : uuid) (i : StartIntent) (t : Z)
    (metadata : RequestMetadata) : tx (uuid * DevicePairing) :=
  bound ← query (λ db, exists_row (λ _ d, bool_decide (d_refresh_credential_hash d
                                          = Some (si_refresh_credential_hash i))) (devices db));
  guard_exn bound PairingConflict;;
  guard_exn (si_proof_created_at i <? t - pairing_lifetime) PairingExpired;;
  guard_exn (t + 60000000 <? si_proof_created_at i) PairingProofRejected;;
  live_pairings ← query (λ db, select_rows (has_live_key (si_public_key i)) (pairings db));
  guard_exn (existsb (λ r : uuid * DevicePairing, t <? dp_expires_at r.2) live_pairings)
    PairingConflict;;
  paired ← query (λ db, exists_row (active_with_key (si_public_key i)) (devices db));
  if paired : bool then expire_all live_pairings metadata;; raise PairingConflict
  else
    other_transactions meanwhile;;
    _ensure_start_capacity (rm_source_ip metadata);;
    let record := new_pairing i t (rm_source_ip metadata) in
    inserted ← try_catch
      (expire_all live_pairings metadata;; insert_pairing id record;; mret true)
      (λ e, match e with IntegrityError => mret false | e => raise e end);
    if inserted : bool then
      pairing_audit None None "pairing.start" AoSucceeded id metadata
        (JObj [("device_name", JStr (si_device_name i));
               ("workspace_root_count", JInt (Z.of_nat (length (si_workspace_roots i))))]);;
      commit;;
      mret (id, record)
    else
      rollback;;
      concurrent ← query (λ db, pairings db !! id);
      match concurrent with
      | Some p => resume_start id p i t metadata
      | None => raise PairingConflict
      end.

Definition start (meanwhile : database → database) (r : StartRequest)
    (metadata : RequestMetadata) : tx (uuid * DevicePairing) :=
  let id := sr_pairing_id r in
  i ← verify_start r;
  t ← now;
  capacity_as PairingCapacityExceeded
    (ensure_device_projection_fits id
       (new_device "pairing-candidate" (new_pairing i t None) t));;
  existing ← query (λ db, pairings db !! id);
  match existing with
  | Some p => resume_start id p i t metadata
  | None =>
      recovery_device ← query (λ db, devices db !! id);
      match recovery_device with
      | Some d => recover_start meanwhile id d i t metadata
      | None => new_start meanwhile id i t metadata
      end
  end.

(** ** [claim] *)

Definition _audit_denied_claim (session_id : uuid) (session : ControlSession)
    (metadata : RequestMetadata) (reason : pystr) (pairing_id : option uuid) : tx unit :=
  t ← now;
  modify (λ db, db <| audit := audit db ++
    [{| au_actor_user_id := Some (cs_user_id session); au_actor_session_id := Some session_id;
        au_actor_device_id := None; au_action := "pairing.claim"; au_outcome := AoDenied;
        au_resource_type := (λ _, "device_pairing" : pystr) <$> pairing_id;
        au_resource_id := uuid_str <$> pairing_id;
        au_request_id := rm_request_id metadata; au_source_ip := rm_source_ip metadata;
        au_user_agent := rm_user_agent metadata; au_details := JObj [("reason", JStr reason)];
        au_created_at := t |}] |>);;
  commit.

(** A pending, unexpired pairing is claimed within the owner's quotas. *)
Definition grant_claim (id : uuid) (p : DevicePairing) (session_id : uuid)
    (session : ControlSession) (t : Z) (metadata : RequestMetadata) : tx (uuid * DevicePairing) :=
  let owner := cs_user_id session in
  lock_owner_cursor owner;;
  reserved ← query (reservations owner);
  active ← query (active_device_count owner);
  guard_exn (bootstrap_max_devices settings <=? active + reserved) PairingCapacityExceeded;;
  total ← query (total_device_count owner);
  guard_exn (owner_max_device_records settings <=? total + reserved) PairingCapacityExceeded;;
  capacity_as PairingCapacityExceeded (ensure_device_projection_fits id (new_device owner p t));;
  let p' := claim_row owner session_id t p in
  modify (save_pairing id p');;
  add_audit (Some owner) (Some session_id) None "pairing.claim" AoSucceeded "device_pairing"
    (uuid_str id) metadata (JObj [("future_device_id", JStr (uuid_str id))]);;
  commit;;
  mret (id, p').

Definition claim (code : pystr) (session_id : uuid) (session : ControlSession)
    (metadata : RequestMetadata) : tx (uuid * DevicePairing) :=
  normalized_code ← of_outcome (normalize_pairing_code code);
  commitment ← of_outcome (pairing_secret_commitment normalized_code);
  let code_hash := digest "pairing-code-v2" commitment in
  let denied := _audit_denied_claim session_id session metadata in
  pairing ← query (λ db, head (select_rows (λ _ p, bool_decide (dp_code_hash p = code_hash))
                                 (pairings db)));
  match pairing with
  | None => denied "code_not_found" None;; raise PairingNotFound
  | Some (id, p) =>
      t ← now;
      if bool_decide (dp_status p = PsCompleted) then
        device ← query (λ db, dp_device_id p ≫= λ i, devices db !! i);
        if bool_decide (dp_claimed_by_user_id p = Some (cs_user_id session))
           && bool_decide (d_status <$> device = Some DsActive)
        then mret (id, p)
        else denied "status_completed" (Some id);; raise PairingConflict
      else if dp_expires_at p <=? t then
        _expire_unactivated id p metadata;;
        denied "expired" (Some id);;
        raise PairingExpired
      else if bool_decide (dp_status p = PsClaimed) then
        if bool_decide (dp_claimed_by_user_id p = Some (cs_user_id session)) then mret (id, p)
        else denied "status_claimed" (Some id);; raise PairingConflict
      else if negb (bool_decide (dp_status p = PsPending)) then
        denied ("status_" +++ pairing_status_value (dp_status p)) (Some id);; raise PairingConflict
      else if bool_decide (dp_workspace_roots p = []) then
        denied "workspace_roots_missing" (Some id);; raise PairingConflict
      else
        existing ← query (λ db, exists_row (active_with_key (dp_public_key p)) (devices db));
        if existing : bool then
          denied "public_key_already_paired" (Some id);; raise PairingConflict
        else grant_claim id p session_id session t metadata
  end.

(** ** [poll] *)

Definition insert_device (id : uuid) (d : Device) : tx unit :=
  ok ← query (device_insertable id d);
  guard_exn (negb ok) IntegrityError;;
  modify (λ db, db <| devices := <[id := d]> (devices db) |>).

(** The claimed pairing becomes a device of its claimant. *)
Definition enrol (id : uuid) (p : DevicePairing) (owner : pystr) (t : Z)
    (metadata : RequestMetadata) : tx (DevicePairing * Device) :=
  let device := new_device owner p t in
  capacity_as PairingConflict (ensure_device_projection_fits id device);;
  insert_device id device;;
  let p' := complete_row id t p in
  modify (save_pairing id p');;
  add_audit (Some owner) None (Some id) "pairing.complete" AoSucceeded "device" (uuid_str id)
    metadata (JObj [("pairing_id", JStr (uuid_str id));
                    ("credential_version", JInt (d_credential_version device));
                    ("credential_scheme", JInt 2)]);;
  event ← append owner id DeviceUpdated (device_summary_json id device "offline" JNull) None None;
  commit;;
  publish_event owner event;;
  mret (p', device).

Definition poll (id : uuid) (poll_token : pystr) (metadata : RequestMetadata) :
    tx (DevicePairing * option Device) :=
  pairing ← query (λ db, pairings db !! id);
  match pairing with
  | None => raise PairingNotFound
  | Some p =>
      authentic ←
        (if negb (dp_protocol_version p =? 2) then mret false
         else
           commitment ← of_outcome (pairing_secret_commitment poll_token);
           mret (matches "pairing-poll-v2" commitment (dp_poll_token_hash p)));
      if negb authentic then
        pairing_audit None None "pairing.poll" AoDenied id metadata
          (JObj [("reason", JStr "invalid_poll_token")]);;
        commit;;
        raise PairingUnauthorized
      else
        t ← now;
        if bool_decide (dp_status p = PsCompleted) then
          device ← query (λ db, dp_device_id p ≫= λ i, devices db !! i);
          match device, dp_refresh_credential_hash p with
          | Some d, Some h =>
              if bool_decide (d_status d = DsActive)
                 && bool_decide (default "" (d_refresh_credential_hash d) = h)
              then mret (p, Some d) else raise PairingConflict
          | _, _ => raise PairingConflict
          end
        else if dp_expires_at p <=? t then
          _expire_unactivated id p metadata;;
          commit;;
          raise PairingExpired
        else
          match dp_status p with
          | PsPending => mret (p, None)
          | PsExpired | PsCancelled => raise PairingExpired
          | PsCompleted => raise PairingConflict
          | PsClaimed =>
              match dp_claimed_by_user_id p, dp_device_id p, dp_refresh_credential_hash p with
              | Some owner, None, Some _ =>
                  existing ← query (λ db, exists_row (active_with_key (dp_public_key p))
                                            (devices db));
                  guard_exn existing PairingConflict;;
                  '(p', d) ← enrol id p owner t metadata;
                  mret (p', Some d)
              | _, _, _ => raise PairingConflict
              end
          end
  end.

(** ** [expire_due]; [locked] are the rows another transaction holds. *)

Definition pairing_due (t : Z) (p : DevicePairing) : bool := is_live p && (dp_expires_at p <=? t).

Definition by_expiry_then_id (a b : uuid * DevicePairing) : bool :=
  (dp_expires_at a.2 <? dp_expires_at b.2)
  || ((dp_expires_at a.2 =? dp_expires_at b.2) && (a.1 <=? b.1)%N).

Definition expire_pairing_candidate (locked : uuid → bool) (t : Z) (id : uuid) : tx Z :=
  pairing ← query (λ db, pairings db !! id);
  match pairing with
  | Some p =>
      if pairing_due t p && negb (locked id) then
        _expire_unactivated id p no_metadata;;
        commit;;
        mret 1
      else rollback;; mret 0
  | None => rollback;; mret 0
  end.

Definition expire_due_pairings (locked : uuid → bool) (now_arg limit : option Z) : tx Z :=
  t ← match now_arg with Some t => mret t | None => now end;
  let batch := match limit with
               | Some n => if n =? 0 then retention_sweep_batch_size settings else n
               | None => retention_sweep_batch_size settings
               end in
  candidates ← query (λ db,
    (take (Z.to_nat batch)
       (order_by by_expiry_then_id (select_rows (λ _ p, pairing_due t p) (pairings db)))).*1);
  rollback;;
  fold_tx (λ expired id, n ← expire_pairing_candidate locked t id; mret (expired + n)) 0 candidates.
End pairing.
