(* ===== verification/PairingSafety.v ===== *)
(** * What pairing promises

    [pairing_step] is the protocol that the rows of [device_pairings] and
    [devices] follow, whoever moves them: a signed start, a claim, an enrolment,
    an expiry, and what other services may do to these rows.  The operations of
    Pairing.v refine it, under the authority of their caller. *)

From stdpp Require Import base list gmap.
From Stdlib Require Import NArith ZArith Lia.
From S2P Require Import Prelude Config Base64 Json Paths Models Storage World Testbed Security.
From S2P Require Import Events Capacity Pairing.
Open Scope Z_scope.

Section protocol.
Context {P : Platform}.

(** The key's owner signed this intent for this pairing. *)
Definition authentic_intent (id : uuid) (i : StartIntent) : Prop :=
  ∃ code poll refresh key signature proof,
    si_code_hash i = digest "pairing-code-v2" code
    ∧ si_poll_token_hash i = digest "pairing-poll-v2" poll
    ∧ si_refresh_credential_hash i = digest "device-refresh-v2" refresh
    ∧ _base64url_decode (codepoints (si_public_key i)) = Some key
    ∧ pairing_start_proof id (iso (si_proof_created_at i)) (si_audience i) (si_public_key i)
        code poll refresh (si_device_name i)
        (metadata_str "connector_version" (si_device_metadata i))
        (metadata_str "codex_version" (si_device_metadata i)) (si_workspace_roots i) = Ok proof
    ∧ ed25519_verify key signature proof = true.

(** There is room for one more pairing, in all and of its source. *)
Definition below {R} `{Countable K} (limit : Z) (f : K → R → bool) (m : gmap K R) : Prop :=
  count_rows f m < limit.

Definition from_source (ip : pystr) (p : DevicePairing) : bool :=
  bool_decide (dp_source_ip p = Some ip).

Record start_room (source_ip : option pystr) (db : database) : Prop := {
  sr_retained : below MAX_RETAINED_PAIRINGS_GLOBAL (λ _ _, true) (pairings db);
  sr_live : below MAX_LIVE_PAIRINGS_GLOBAL (λ _ p, is_live p) (pairings db);
  sr_source ip : source_ip = Some ip →
    below MAX_RETAINED_PAIRINGS_PER_SOURCE (λ _ p, from_source ip p) (pairings db)
    ∧ below MAX_LIVE_PAIRINGS_PER_SOURCE (λ _ p, from_source ip p && is_live p) (pairings db);
}.

(** What other services do to a device row: its identity stays, and it may be
    revoked, which forgets its credential. *)
Record device_moves (d d' : Device) : Prop := {
  dm_owner : d_owner_user_id d' = d_owner_user_id d;
  dm_key : d_public_key d' = d_public_key d;
  dm_credential : d_refresh_credential_hash d' = d_refresh_credential_hash d
    ∨ d_refresh_credential_hash d' = None;
  dm_status : d_status d' = d_status d ∨ d_status d' = DsRevoked;
}.

Record elsewhere (db db' : database) : Prop := {
  el_pairings : pairings db' = pairings db;
  el_devices id : option_Forall2 device_moves (devices db !! id) (devices db' !! id);
}.

(** Who may claim a pairing for an owner, and who may enrol its device. *)
Record authority := {
  may_claim : uuid → DevicePairing → pystr → Prop;
  may_enrol : uuid → DevicePairing → Prop;
}.

Inductive pairing_step (A : authority) (db : database) : database → Prop :=
| ps_elsewhere db' : elsewhere db db' → pairing_step A db db'
| ps_start id i t ip :
    authentic_intent id i → start_room ip db →
    pairing_insertable id (new_pairing i t ip) db = true →
    pairing_step A db (save_pairing id (new_pairing i t ip) db)
| ps_recover id d i t ip :
    authentic_intent id i → devices db !! id = Some d → d_status d = DsActive →
    d_public_key d = si_public_key i →
    pairing_insertable id (recovered_pairing id d i t ip) db = true →
    pairing_step A db (save_pairing id (recovered_pairing id d i t ip) db)
| ps_claim id p owner session_id t :
    pairings db !! id = Some p → may_claim A id p owner →
    dp_status p = PsPending → t < dp_expires_at p → dp_workspace_roots p ≠ [] →
    active_device_count owner db + reservations owner db < bootstrap_max_devices settings →
    total_device_count owner db + reservations owner db < owner_max_device_records settings →
    pairing_step A db (save_pairing id (claim_row owner session_id t p) db)
| ps_enrol id p owner t :
    pairings db !! id = Some p → may_enrol A id p →
    dp_status p = PsClaimed → dp_claimed_by_user_id p = Some owner → t < dp_expires_at p →
    is_Some (dp_refresh_credential_hash p) →
    device_insertable id (new_device owner p t) db = true →
    pairing_step A db (save_pairing id (complete_row id t p)
      (db <| devices := <[id := new_device owner p t]> (devices db) |>))
| ps_expire id p :
    pairings db !! id = Some p → dp_status p ≠ PsCompleted →
    pairing_step A db (save_pairing id (expire_pairing p) db)
| ps_forget id p :
    pairings db !! id = Some p → is_live p = false →
    pairing_step A db (db <| pairings := delete id (pairings db) |>).

#[global] Instance device_moves_refl : Reflexive device_moves.
Proof. intros d. split; auto. Qed.

Lemma elsewhere_same db db' :
  pairings db' = pairings db → devices db' = devices db → elsewhere db db'.
Proof. intros Hp Hd. split; [done|]. intros id. rewrite Hd. destruct (devices db !! id); by constructor. Qed.

Lemma event_update_elsewhere db db' : event_update db db' → elsewhere db db'.
Proof.
  intros [D _ _ _ _ _ _ E]. split; [done|]. intros id. destruct (D id) as [d d' ->|]; constructor.
  split; simpl; auto.
Qed.

(** The history of the two tables since [db0]. *)
Definition since (A : authority) (db0 db : database) : Prop := rtc (pairing_step A) db0 db.

Lemma since_step A db0 db db' : since A db0 db → pairing_step A db db' → since A db0 db'.
Proof. intros H1 H2. eapply rtc_r; eauto. Qed.

#[global] Instance since_event_free A db0 : EventFree (since A db0).
Proof.
  split; intros; (eapply since_step; [done|]); apply ps_elsewhere.
  - apply event_update_elsewhere. by eapply event_update_counter.
  - by apply elsewhere_same.
  - by apply elsewhere_same.
  - by apply elsewhere_same.
Qed.
End protocol.

(** ** The operations follow the protocol *)

Section refinement.
Context {P : Platform} (A : authority) (db0 : database).

(** Session and committed state are both in the protocol's future of [db0]. *)
Local Notation good := (λ _ w', since A db0 (working w') ∧ since A db0 (durable w')).

Lemma wp_stable {B} (m : tx B) w :
  stable (since A db0) m → since A db0 (working w) → since A db0 (durable w) → wp m good w.
Proof. intros H. apply H. Qed.

Lemma pairing_audit_stable a b c d e f g : stable (since A db0) (pairing_audit a b c d e f g).
Proof. apply add_audit_event_free, _. Qed.

Lemma wp_audit a b c d e f g h k (Q : outcome unit → world → Prop) w :
  since A db0 (working w) →
  (∀ w', since A db0 (working w') → durable w' = durable w →
     pairings (working w') = pairings (working w) → devices (working w') = devices (working w) →
     Q (Ok tt) w') →
  wp (add_audit a b c d e f g h k) Q w.
Proof.
  intros H1 HQ. unfold wp, add_audit, mbind, tx_bind, now, modify. cbn [fst snd].
  apply HQ; simpl; [by apply ef_audit|done..].
Qed.

Lemma audit_denied_claim_stable sid s meta reason id :
  stable (since A db0) (_audit_denied_claim sid s meta reason id).
Proof. unfold _audit_denied_claim. solve_stable. by apply ef_audit. Qed.

(** Expiring a row that is not completed. *)
Lemma wp_expire id p meta (Q : outcome unit → world → Prop) w :
  since A db0 (working w) → pairings (working w) !! id = Some p →
  (∀ w', since A db0 (working w') → durable w' = durable w →
     pairings (working w') = <[id := expire_pairing p]> (pairings (working w)) →
     devices (working w') = devices (working w) → Q (Ok tt) w') →
  (Q (Raise PairingConflict) w) →
  wp (_expire_unactivated id p meta) Q w.
Proof.
  intros H1 Hp HQ HR. unfold _expire_unactivated, pairing_audit.
  do 2 wp_step; [exact HR|]. reflect_bools. do 2 wp_step.
  assert (Hs : since A db0 (working w0)).
  { rewrite Hw. eapply since_step; [exact H1|]. by apply ps_expire. }
  apply wp_audit; [exact Hs|]. intros w1 Hs1 Hd1 Hp1 Hv1.
  apply HQ; [done|congruence|by rewrite Hp1, Hw|by rewrite Hv1, Hw].
Qed.

(** The rows an expiry leaves: the same ones, some of them expired. *)
Definition expired_from (m m' : gmap uuid DevicePairing) : Prop :=
  ∀ id p', m' !! id = Some p' → ∃ p, m !! id = Some p ∧ (p' = p ∨ p' = expire_pairing p).

Lemma expired_from_trans m1 m2 m3 : expired_from m1 m2 → expired_from m2 m3 → expired_from m1 m3.
Proof.
  intros H1 H2 id p (q & Hq & Hp)%H2. destruct (H1 _ _ Hq) as (r & Hr & Hqr).
  exists r. split; [done|]. destruct Hp as [->| ->], Hqr as [->| ->]; auto.
Qed.

Lemma expired_from_save m id p : m !! id = Some p → expired_from m (<[id := expire_pairing p]> m).
Proof.
  intros Hp i p'. rewrite lookup_insert. case_decide as Hi; [|eauto].
  intros [= <-]. subst i. eauto.
Qed.

Lemma start_room_expired ip db db' :
  expired_from (pairings db) (pairings db') → start_room ip db → start_room ip db'.
Proof.
  intros He [H1 H2 H3].
  assert (Hmono : ∀ f : uuid → DevicePairing → bool,
    (∀ i p, f i (expire_pairing p) = true → f i p = true) →
    count_rows f (pairings db') ≤ count_rows f (pairings db)).
  { intros f Hf. apply count_rows_mono. intros k v' (v & Hv & Hvv)%He Hfv.
    exists v. split; [done|]. destruct Hvv as [->| ->]; auto. }
  split; [..|intros ip' Hip; destruct (H3 ip' Hip) as [H4 H5]; split]; unfold below in *;
    (eapply Z.le_lt_trans; [apply Hmono|eassumption]).
  all: intros i p; unfold from_source, is_live; simpl; rewrite ?andb_false_r; done.
Qed.

Lemma wp_expire_all rows meta (Q : outcome unit → world → Prop) w :
  since A db0 (working w) → NoDup rows.*1 →
  (∀ id p, (id, p) ∈ rows → pairings (working w) !! id = Some p) →
  (∀ w', since A db0 (working w') → durable w' = durable w →
     expired_from (pairings (working w)) (pairings (working w')) → 
     devices (working w') = devices (working w) → Q (Ok tt) w') →
  (∀ e w', since A db0 (working w') → durable w' = durable w → e ≠ IntegrityError → Q (Raise e) w') →
  wp (expire_all rows meta) Q w.
Proof.
  unfold expire_all. revert w. induction rows as [|[id p] rows IH]; intros w H1 Hnd Hin HQ HR; simpl.
  { apply HQ; [done|done| |done]. intros i p'. eauto. }
  inversion Hnd as [|? ? Hid Hnd']; subst.
  assert (Hp : pairings (working w) !! id = Some p) by (apply Hin; left).
  apply wp_bind. apply (wp_expire id p); [exact H1|exact Hp| |by apply HR].
  intros w1 Hs1 Hd1 Hp1 Hv1. apply IH; [exact Hs1|exact Hnd'|..].
  - intros i q Hi. rewrite Hp1. rewrite lookup_insert_ne; [apply Hin; by right|].
    intros ->. apply Hid. apply list_elem_of_fmap. by exists (i, q).
  - intros w2 Hs2 Hd2 He2 Hv2. apply HQ; [done|congruence| |congruence].
    eapply expired_from_trans; [|exact He2]. rewrite Hp1. by apply expired_from_save.
  - intros e w2 Hs2 Hd2 He2. apply HR; [done|congruence|done].
Qed.

Lemma wp_insert_pairing id r (Q : outcome unit → world → Prop) w :
  (pairing_insertable id r (working w) = true →
   ∀ w', working w' = save_pairing id r (working w) → durable w' = durable w → Q (Ok tt) w') →
  (Q (Raise IntegrityError) w) →
  wp (insert_pairing id r) Q w.
Proof.
  intros HQ HR. unfold insert_pairing. do 4 wp_step; [exact HR|]. reflect_bools.
  wp_step. by apply HQ.
Qed.

Lemma resume_start_good id p i t meta w :
  since A db0 (working w) → since A db0 (durable w) → pairings (working w) !! id = Some p →
  wp (resume_start id p i t meta) good w.
Proof.
  intros H1 H2 Hp. unfold resume_start. do 2 wp_step; [done|].
  assert (Hgo : dp_status p ≠ PsCompleted → wp (_expire_unactivated id p meta;; commit;;
    raise (A := uuid * DevicePairing) PairingExpired) good w).
  { intros Hs. wp_step. apply (wp_expire id p); [done|done| |done].
    intros w1 Hs1 Hd1 _ _. do 3 wp_step. by rewrite_worlds. }
  destruct (dp_status p) eqn:Hst; simpl; try done.
  all: destruct (dp_expires_at p <=? t); [by apply Hgo|done].
Qed.

(** What the rows a transaction has locked are to the others. *)
Record respects_locks (key : pystr) (id : uuid) (meanwhile : database → database) : Prop := {
  rl_pairings db i p : pairings db !! i = Some p → has_live_key key i p = true →
    pairings (meanwhile db) !! i = Some p;
  rl_device db d : devices db !! id = Some d → devices (meanwhile db) !! id = Some d;
}.

Lemma wp_other_transactions meanwhile (Q : outcome unit → world → Prop) w :
  (∀ w', working w' = meanwhile (durable w) → durable w' = meanwhile (durable w) →
     Q (Ok tt) w') →
  wp (other_transactions meanwhile) Q w.
Proof. intros HQ. by apply HQ. Qed.

Section start.
Context (meanwhile : database → database) (id : uuid) (i : StartIntent) (t : Z).
Context (meta : RequestMetadata).
Hypothesis Henv : ∀ db, rtc (pairing_step A) db (meanwhile db).
Hypothesis Hlocks : respects_locks (si_public_key i) id meanwhile.
Hypothesis Hauth : authentic_intent id i.

Lemma since_meanwhile db : since A db0 db → since A db0 (meanwhile db).
Proof. unfold since. intros H. etrans; [exact H|apply Henv]. Qed.

(** [except IntegrityError]: the insert lost a race. *)
Lemma wp_unless_integrity (m : tx bool) (Q : outcome bool → world → Prop) w :
  wp m (λ r w', match r with Raise IntegrityError => Q (Ok false) w' | r => Q r w' end) w →
  wp (try_catch m (λ e, match e with IntegrityError => mret false | e => raise e end)) Q w.
Proof. unfold wp, try_catch. by destruct (m w) as [[a|[]] w']. Qed.

Lemma recover_start_good d w :
  since A db0 (durable w) → working w = durable w → devices (durable w) !! id = Some d →
  wp (recover_start meanwhile id d i t meta) good w.
Proof.
  intros H2 Hwd Hd. assert (H1 : since A db0 (working w)) by congruence.
  pose proof (since_meanwhile _ H2) as Hm. unfold recover_start. do 2 wp_step; [done|].
  reflect_bools. wp_step. apply wp_other_transactions. intros w1 Hw1 Hd1. wp_step.
  apply wp_unless_integrity. wp_step. apply wp_insert_pairing.
  2: { cbn [negb]. do 4 wp_step. destruct (pairings _ !! id) as [p|]; [|by wp_step; rewrite_worlds].
       destruct (_same_start_intent p i); wp_step; by rewrite_worlds. }
  intros Hins w2 Hw2 Hd2. wp_step.
  assert (Hs : since A db0 (working w2)).
  { rewrite Hw2. rewrite Hw1 in *. eapply since_step; [exact Hm|].
    apply ps_recover; [done| |done..]. by apply Hlocks. }
  apply wp_audit; [exact Hs|]. intros w3 Hs3 _ _ _. do 4 wp_step. by rewrite_worlds.
Qed.

Lemma start_room_ok source (Q : outcome unit → world → Prop) w :
  (start_room source (working w) → Q (Ok tt) w) → (∀ e, e ≠ IntegrityError → Q (Raise e) w) →
  wp (_ensure_start_capacity source) Q w.
Proof.
  intros HQ HR. unfold _ensure_start_capacity. do 6 wp_step; [by apply HR|].
  do 2 wp_step; [by apply HR|]. destruct source as [ip|].
  - do 6 wp_step; [by apply HR|]. wp_step; [by apply HR|]. reflect_bools. apply HQ.
    split; unfold below; [lia..|]. intros ? [= <-]. unfold from_source. lia.
  - wp_step. reflect_bools. apply HQ. split; unfold below; [lia..|]. done.
Qed.

Lemma new_start_good w :
  since A db0 (durable w) → working w = durable w →
  wp (new_start meanwhile id i t meta) good w.
Proof.
  intros H2 Hwd. assert (H1 : since A db0 (working w)) by congruence.
  pose proof (since_meanwhile _ H2) as Hm. unfold new_start.
  do 4 wp_step; [done|]. do 2 wp_step; [done|]. do 2 wp_step; [done|].
  do 4 wp_step; [done|]. do 2 wp_step.
  set (live := select_rows (has_live_key (si_public_key i)) (pairings (durable w))) in *.
  assert (Hnd : NoDup live.*1) by apply NoDup_select_keys.
  assert (Hin : ∀ k p, (k, p) ∈ live → pairings (durable w) !! k = Some p
    ∧ has_live_key (si_public_key i) k p = true) by (by intros k p Hk%elem_of_select_rows).
  destruct (exists_row (active_with_key _) (devices _)).
  { wp_step. apply wp_expire_all; [done|done|by intros k p [? _]%Hin; rewrite Hwd| |].
    - intros w1 Hs1 Hd1 _ _. wp_step. by rewrite_worlds.
    - intros e w1 Hs1 Hd1 _. by rewrite_worlds. }
  wp_step. apply wp_other_transactions. intros w1 Hw1 Hd1. wp_step.
  apply start_room_ok; [|by intros e _; rewrite_worlds]. rewrite Hw1. intros Hroom.
  wp_step. apply wp_unless_integrity. wp_step.
  apply wp_expire_all; [by rewrite Hw1|done| | |].
  { intros k p [Hk Hl]%Hin. rewrite Hw1. by apply Hlocks. }
  2: { intros e w2 Hs2 Hd2 He. destruct e; try done; by rewrite Hd2, Hd1. }
  rewrite Hw1. intros w2 Hs2 Hd2 He2 _. wp_step. apply wp_insert_pairing.
  2: { do 4 wp_step. destruct (pairings _ !! id) as [p|] eqn:Hp.
       - apply resume_start_good; by rewrite_worlds.
       - wp_step. by rewrite_worlds. }
  intros Hins w3 Hw3 Hd3. wp_step. cbv beta iota. wp_step.
  apply wp_audit.
  { rewrite Hw3. eapply since_step; [exact Hs2|]. apply ps_start; [done| |done].
    by eapply start_room_expired. }
  intros w4 Hs4 Hd4 _ _. do 3 wp_step. by rewrite_worlds.
Qed.
End start.

Lemma silent_capacity_as e id d : silent (capacity_as e (ensure_device_projection_fits id d)).
Proof.
  unfold capacity_as, ensure_device_projection_fits, ensure_fits. apply silent_try_catch.
  - solve_silent.
  - intros []; solve_silent.
Qed.

Lemma silent_verify_start r : silent (verify_start r).
Proof. unfold verify_start, _verify_start_proof. solve_silent. Qed.

Lemma verify_start_ok r w i :
  (verify_start r w).1 = Ok i → authentic_intent (sr_pairing_id r) i.
Proof.
  destruct (verify_start r w) as [o w'] eqn:E. cbn [fst]. intros ->. unfold verify_start in E.
  apply bind_ok_inv in E as (key & w1 & [Hk ->]%of_outcome_ok_inv & E).
  destruct (canonicalize_workspace_roots _) as [roots|]; [|done].
  apply bind_ok_inv in E as (? & w1 & [_ ->]%guard_ok_inv & E).
  apply bind_ok_inv in E as (? & w1 & [_ ->]%guard_ok_inv & E).
  apply bind_ok_inv in E as (? & w1 & Ev & E). injection E as <- _.
  unfold _verify_start_proof in Ev.
  destruct (_base64url_decode (codepoints (sr_signature r))) as [sg|]; [|done].
  destruct (_base64url_decode (codepoints key)) as [kb|] eqn:Hkb; [|done].
  apply bind_ok_inv in Ev as (? & w2 & [_ ->]%guard_ok_inv & Ev).
  apply bind_ok_inv in Ev as (proof & w2 & [Hp ->]%of_outcome_ok_inv & Ev).
  apply guard_ok_inv in Ev as [Hv _]. reflect_bools.
  by exists (sr_code_commitment r), (sr_poll_token_commitment r),
    (sr_refresh_credential_commitment r), kb, sg, proof.
Qed.

Lemma start_good meanwhile r meta w :
  since A db0 (durable w) → working w = durable w →
  (∀ db, rtc (pairing_step A) db (meanwhile db)) →
  (∀ i, (verify_start r w).1 = Ok i →
     respects_locks (si_public_key i) (sr_pairing_id r) meanwhile) →
  wp (start meanwhile r meta) good w.
Proof.
  intros H2 Hwd Henv Hlocks. assert (H1 : since A db0 (working w)) by congruence.
  unfold start. wp_step.
  pose proof (verify_start_ok r w) as Hauth. pose proof (silent_verify_start r w) as [Hs1 Hs2].
  unfold wp at 1. destruct (verify_start r w) as [[i|e] w1]; simpl in *; [|by rewrite Hs1, Hs2, Hwd].
  specialize (Hauth i eq_refl). specialize (Hlocks i eq_refl). rewrite Hwd in Hs1.
  do 2 wp_step. wp_step. apply wp_silent; [apply silent_capacity_as|]. intros [[]|e]; wp_intro.
  2: { split; congruence. }
  do 2 wp_step. destruct (pairings _ !! sr_pairing_id r) as [p|] eqn:Hp.
  { apply resume_start_good; congruence. }
  do 2 wp_step. destruct (devices _ !! sr_pairing_id r) as [d|] eqn:Hdev.
  - apply recover_start_good; congruence || done.
  - apply new_start_good; congruence || done.
Qed.
End refinement.

(** ** Claims, polls and expiry *)

Section callers.
Context {P : Platform}.

(** Whoever knows the code of a pairing may claim it for himself; whoever knows
    its poll token may have its device enrolled. *)
Definition claim_authority (code : pystr) (session : ControlSession) : authority :=
  {| may_claim _ p owner := owner = cs_user_id session ∧
       ∃ normalized commitment, normalize_pairing_code code = Ok normalized
         ∧ pairing_secret_commitment normalized = Ok commitment
         ∧ dp_code_hash p = digest "pairing-code-v2" commitment;
     may_enrol _ _ := False |}.

Definition poll_authority (id : uuid) (poll_token : pystr) : authority :=
  {| may_claim _ _ _ := False;
     may_enrol id' p := id' = id ∧ dp_protocol_version p = 2 ∧
       ∃ commitment, pairing_secret_commitment poll_token = Ok commitment
         ∧ matches "pairing-poll-v2" commitment (dp_poll_token_hash p) = true |}.

Definition no_authority : authority :=
  {| may_claim _ _ _ := False; may_enrol _ _ := False |}.

Local Notation good A db0 := (λ _ w', since A db0 (working w') ∧ since A db0 (durable w')).

Lemma wp_denied {B} A db0 sid s meta reason id e w :
  since A db0 (working w) → since A db0 (durable w) →
  wp (_audit_denied_claim sid s meta reason id;; raise (A := B) e) (good A db0) w.
Proof.
  intros H1 H2. apply wp_stable; [|done..]. apply stable_bind; [|intros; apply stable_raise].
  apply audit_denied_claim_stable.
Qed.

Lemma grant_claim_good db0 code id p sid s t meta w :
  let A := claim_authority code s in
  since A db0 (working w) → since A db0 (durable w) →
  pairings (working w) !! id = Some p → may_claim A id p (cs_user_id s) →
  dp_status p = PsPending → t < dp_expires_at p → dp_workspace_roots p ≠ [] →
  wp (grant_claim id p sid s t meta) (good A db0) w.
Proof.
  intros A H1 H2 Hp Hmay Hst Hexp Hroots. unfold grant_claim. wp_step.
  apply wp_lock_owner_cursor. intros n w1 Hu Hd1.
  assert (Hs1 : since A db0 (working w1)).
  { eapply since_step; [exact H1|]. by apply ps_elsewhere, event_update_elsewhere. }
  assert (Hd : since A db0 (durable w1)) by congruence.
  assert (Hp1 : pairings (working w1) !! id = Some p) by (destruct Hu; congruence).
  do 6 wp_step; [done|]. do 4 wp_step; [done|]. wp_step.
  apply wp_silent; [apply silent_capacity_as|]. intros [[]|e]; wp_intro; [|by rewrite_worlds].
  reflect_bools. do 3 wp_step.
  assert (Hs : since A db0 (working w2)).
  { rewrite Hw0. eapply since_step; [exact Hs1|]. apply ps_claim; try done; lia. }
  apply (wp_audit A db0); [exact Hs|]. intros w3 Hs3 Hd3 _ _. do 3 wp_step. by rewrite_worlds.
Qed.

Lemma claim_good db0 code sid s meta w :
  let A := claim_authority code s in
  since A db0 (working w) → since A db0 (durable w) →
  wp (claim code sid s meta) (good A db0) w.
Proof.
  intros A H1 H2. unfold claim. do 2 wp_step; [|done]. do 2 wp_step; [|done]. do 2 wp_step.
  destruct (head _) as [[id p]|] eqn:Hh; [|by apply wp_denied].
  assert (Hp : pairings (working w) !! id = Some p ∧ dp_code_hash p = digest "pairing-code-v2" a0).
  { destruct (select_rows _ _) as [|x l] eqn:El; [done|]. injection Hh as ->.
    assert (Hin : (id, p) ∈ (id, p) :: l) by left. rewrite <- El in Hin.
    apply elem_of_select_rows in Hin as [? ?]. by reflect_bools. }
  destruct Hp as [Hp Hcode]. do 2 wp_step.
  case_bool_decide as Hst.
  { do 2 wp_step. destruct (_ && _); [wp_step; by rewrite_worlds|].
    apply wp_denied; by rewrite_worlds. }
  destruct (dp_expires_at p <=? t) eqn:Hexp.
  { wp_step. apply (wp_expire A db0 id p); [by rewrite_worlds..| |by rewrite_worlds].
    intros w1 Hs1 Hd1 _ _. apply wp_denied; [done|]. by rewrite_worlds. }
  case_bool_decide as Hcl.
  { case_bool_decide; [wp_step; by rewrite_worlds|]. apply wp_denied; by rewrite_worlds. }
  case_bool_decide as Hpe; cbn [negb]; [|apply wp_denied; by rewrite_worlds].
  case_bool_decide as Hr; [apply wp_denied; by rewrite_worlds|].
  do 2 wp_step. destruct (exists_row _ _); [apply wp_denied; by rewrite_worlds|].
  reflect_bools. apply grant_claim_good; try done; try by rewrite_worlds.
  split; [done|]. by exists a, a0.
Qed.

Lemma wp_insert_device id d (Q : outcome unit → world → Prop) w :
  (device_insertable id d (working w) = true →
   ∀ w', working w' = (working w) <| devices := <[id := d]> (devices (working w)) |> →
     durable w' = durable w → Q (Ok tt) w') →
  (Q (Raise IntegrityError) w) →
  wp (insert_device id d) Q w.
Proof.
  intros HQ HR. unfold insert_device. do 4 wp_step; [exact HR|]. reflect_bools.
  wp_step. by apply HQ.
Qed.

Lemma enrol_good A db0 id p owner t meta w :
  since A db0 (working w) → since A db0 (durable w) →
  pairings (working w) !! id = Some p → may_enrol A id p →
  dp_status p = PsClaimed → dp_claimed_by_user_id p = Some owner → t < dp_expires_at p →
  is_Some (dp_refresh_credential_hash p) →
  wp (enrol id p owner t meta) (good A db0) w.
Proof.
  intros H1 H2 Hp Hmay Hst Hcl Hexp Href. unfold enrol. wp_step.
  apply wp_silent; [apply silent_capacity_as|]. intros [[]|e]; wp_intro; [|by rewrite_worlds].
  wp_step. apply wp_insert_device; [|by rewrite_worlds]. rewrite Hw. intros Hins w1 Hw1 Hd1.
  do 3 wp_step.
  assert (Hs : since A db0 (working w2)).
  { rewrite Hw0. eapply since_step; [exact H1|]. by eapply ps_enrol. }
  apply (wp_audit A db0); [exact Hs|]. intros w3 Hs3 Hd3 _ _. wp_step.
  apply wp_append. intros r w4 Hu Hd4.
  assert (Hs4 : since A db0 (working w4)).
  { eapply since_step; [exact Hs3|]. by apply ps_elsewhere, event_update_elsewhere. }
  destruct r as [ev|e]; [|by rewrite_worlds].
  do 3 wp_step. apply wp_silent; [apply silent_publish|]. intros [[]|e]; wp_intro.
  - wp_step. by rewrite_worlds.
  - by rewrite_worlds.
Qed.

Lemma poll_good db0 id token meta w :
  let A := poll_authority id token in
  since A db0 (working w) → since A db0 (durable w) →
  wp (poll id token meta) (good A db0) w.
Proof.
  intros A H1 H2. unfold poll. do 2 wp_step.
  destruct (pairings (working w) !! id) as [p|] eqn:Hp; [|done]. wp_step.
  assert (Hdeny : ∀ e, wp (pairing_audit None None "pairing.poll" AoDenied id meta
    (JObj [("reason", JStr "invalid_poll_token")]);; commit;;
    raise (A := DevicePairing * option Device) e) (good A db0) w).
  { intros e. apply wp_stable; [|done..]. apply stable_bind; [apply pairing_audit_stable|].
    intros _. solve_stable. }
  destruct (Z.eqb_spec (dp_protocol_version p) 2) as [Hv|]; cbn [negb]; [|wp_step; apply Hdeny].
  do 2 wp_step; [|done]. wp_step. destruct (matches _ a _) eqn:Hm; cbn [negb]; [|apply Hdeny].
  do 2 wp_step. case_bool_decide as Hst.
  { do 2 wp_step. repeat case_match; wp_step; by rewrite_worlds. }
  destruct (dp_expires_at p <=? t) eqn:Hexp.
  { wp_step. apply (wp_expire A db0 id p); [by rewrite_worlds..| |by rewrite_worlds].
    intros w1 Hs1 Hd1 _ _. do 3 wp_step. by rewrite_worlds. }
  destruct (dp_status p) eqn:Hs; try (wp_step; by rewrite_worlds).
  destruct (dp_claimed_by_user_id p) as [owner|] eqn:Hcl; [|wp_step; by rewrite_worlds].
  destruct (dp_device_id p); [wp_step; by rewrite_worlds|].
  destruct (dp_refresh_credential_hash p) as [h|] eqn:Hh; [|wp_step; by rewrite_worlds].
  do 4 wp_step; [by rewrite_worlds|]. wp_step. eapply wp_mono.
  - apply (enrol_good A db0); try (by rewrite_worlds); try done; [|lia].
    split; [done|]. split; [done|]. by exists a.
  - by intros [[p' d]|e] w' Hw'.
Qed.

Lemma expire_pairing_candidate_stable db0 locked t id :
  stable (since no_authority db0) (expire_pairing_candidate locked t id).
Proof.
  intros w H1 H2. unfold expire_pairing_candidate. do 2 wp_step.
  destruct (pairings (working w) !! id) as [p|] eqn:Hp.
  2: { do 3 wp_step. by rewrite_worlds. }
  destruct (_ && _) eqn:Hdue; [|do 3 wp_step; by rewrite_worlds].
  unfold pairing_due, is_live in Hdue. reflect_bools. wp_step.
  apply (wp_expire no_authority db0 id p); [done|done| |done].
  intros w1 Hs1 Hd1 _ _. do 3 wp_step. by rewrite_worlds.
Qed.

Lemma expire_due_pairings_good locked now_arg limit db0 :
  stable (since no_authority db0) (expire_due_pairings locked now_arg limit).
Proof. pose proof (expire_pairing_candidate_stable db0). unfold expire_due_pairings. solve_stable. Qed.
End callers.

(** ** What the protocol keeps *)

Definition unique_rows {K V X} `{Countable K} (m : gmap K V) (key : V → option X) : Prop :=
  ∀ i j p q x, m !! i = Some p → m !! j = Some q → key p = Some x → key q = Some x → i = j.

Lemma unique_rows_insert {K V X} `{Countable K} (m : gmap K V) (key : V → option X) k v :
  unique_rows m key →
  (∀ i p x, m !! i = Some p → i ≠ k → key p = Some x → key v ≠ Some x) →
  unique_rows (<[k := v]> m) key.
Proof.
  intros Hm Hv i j p q x. rewrite !lookup_insert. repeat case_decide; subst; intros Hi Hj Hp Hq;
    simplify_eq; try done; [exfalso; by eapply (Hv j)|exfalso; by eapply (Hv i)|by eapply Hm].
Qed.

(** A row whose key stays, or goes. *)
Lemma unique_rows_update {K V X} `{Countable K} (m : gmap K V) (key : V → option X) k v v' :
  unique_rows m key → m !! k = Some v → (∀ x, key v' = Some x → key v = Some x) →
  unique_rows (<[k := v']> m) key.
Proof.
  intros Hm Hk Hv. apply unique_rows_insert; [done|]. intros i p x Hi Hik Hp Hx%Hv.
  apply Hik. by eapply Hm.
Qed.

Definition live_key (p : DevicePairing) : option pystr :=
  if is_live p then Some (dp_public_key p) else None.

Definition active_key (d : Device) : option pystr :=
  if bool_decide (d_status d = DsActive) then Some (d_public_key d) else None.

Section invariant.
Context {P : Platform}.

(** One live pairing and one active device per key, one pairing per code and
    per poll token, one device per refresh credential; and the devices an owner
    has, with those his claims are about to give him, stay within the quotas. *)
Record pairing_ok (db : database) : Prop := {
  pk_live : unique_rows (pairings db) live_key;
  pk_code : unique_rows (pairings db) (λ p, Some (dp_code_hash p));
  pk_poll : unique_rows (pairings db) (λ p, Some (dp_poll_token_hash p));
  pk_active : unique_rows (devices db) active_key;
  pk_credential : unique_rows (devices db) d_refresh_credential_hash;
  pk_quota owner :
    active_device_count owner db + reservations owner db ≤ bootstrap_max_devices settings;
  pk_records owner :
    total_device_count owner db + reservations owner db ≤ owner_max_device_records settings;
}.

Lemma insertable_fresh id r db :
  pairing_insertable id r db = true →
  pairings db !! id = None ∧ (∀ j p, pairings db !! j = Some p → pairing_clash r j p = false).
Proof.
  unfold pairing_insertable. intros H. reflect_bools. split; [by apply eq_None_not_Some|].
  intros j p. by apply exists_row_false.
Qed.

(** Inserting a row that is not claimed. *)
Lemma pairing_ok_insert id r db :
  pairing_insertable id r db = true → dp_status r ≠ PsClaimed → pairing_ok db →
  pairing_ok (save_pairing id r db).
Proof.
  intros [Hfree Hclash]%insertable_fresh Hst [H1 H2 H3 H4 H5 H6 H7].
  assert (Hres : ∀ owner, reservations owner (save_pairing id r db) = reservations owner db).
  { intros owner. unfold reservations. cbn [pairings save_pairing]. 
    change (pairings (save_pairing id r db)) with (<[id := r]> (pairings db)).
    rewrite count_rows_insert by done. unfold reservation at 1.
    by rewrite (bool_decide_false (dp_status r = PsClaimed)), andb_false_r. }
  assert (Hrow : ∀ j p, pairings db !! j = Some p →
    dp_code_hash p ≠ dp_code_hash r ∧ dp_poll_token_hash p ≠ dp_poll_token_hash r
    ∧ (dp_public_key p = dp_public_key r → is_live p = true → is_live r = false)).
  { intros j p Hj. specialize (Hclash j p Hj). unfold pairing_clash in Hclash. reflect_bools.
    split_and!; [done..|]. intros Hk Hl. rewrite Hl, bool_decide_true in * by done.
    by destruct (is_live r). }
  split; [apply unique_rows_insert; [done|]..|done|done| |].
  - intros j p x Hj _ Hp Hr. destruct (Hrow j p Hj) as (_ & _ & Hl). unfold live_key in *.
    destruct (is_live p), (is_live r); simplify_eq. by discriminate Hl.
  - intros j p x Hj _ [= <-] [= Hr]. by destruct (Hrow j p Hj) as (? & _ & _).
  - intros j p x Hj _ [= <-] [= Hr]. by destruct (Hrow j p Hj) as (_ & ? & _).
  - intros owner. rewrite Hres. apply H6.
  - intros owner. rewrite Hres. apply H7.
Qed.

(** A row moves on, keeping its identity; [n] more or fewer reservations. *)
Lemma pairing_ok_update id p p' db db' :
  pairings db !! id = Some p →
  dp_public_key p' = dp_public_key p → dp_code_hash p' = dp_code_hash p →
  dp_poll_token_hash p' = dp_poll_token_hash p → (is_live p' = true → is_live p = true) →
  pairings db' = <[id := p']> (pairings db) →
  unique_rows (devices db') active_key → unique_rows (devices db') d_refresh_credential_hash →
  (∀ owner, active_device_count owner db' + (if reservation owner id p' then 1 else 0)
    ≤ bootstrap_max_devices settings - reservations owner db
      + (if reservation owner id p then 1 else 0)) →
  (∀ owner, total_device_count owner db' + (if reservation owner id p' then 1 else 0)
    ≤ owner_max_device_records settings - reservations owner db
      + (if reservation owner id p then 1 else 0)) →
  pairing_ok db → pairing_ok db'.
Proof.
  intros Hp Hk Hc Ht Hl Hm Ha Hr Hq Hn [H1 H2 H3 _ _ _ _].
  assert (Hres : ∀ owner, reservations owner db' = reservations owner db
    - (if reservation owner id p then 1 else 0) + (if reservation owner id p' then 1 else 0)).
  { intros owner. unfold reservations. rewrite Hm. by apply count_rows_update. }
  split; [rewrite Hm; eapply unique_rows_update; [done|exact Hp|]..|done|done| |].
  - intros x. unfold live_key. destruct (is_live p') eqn:E; [|done]. rewrite Hl, Hk by done. done.
  - intros x. by rewrite Hc.
  - intros x. by rewrite Ht.
  - intros owner. specialize (Hq owner). rewrite Hres. lia.
  - intros owner. specialize (Hn owner). rewrite Hres. lia.
Qed.

Lemma expire_pairing_ok id p db :
  pairings db !! id = Some p → pairing_ok db → pairing_ok (save_pairing id (expire_pairing p) db).
Proof.
  intros Hp Hok. pose proof Hok as [_ _ _ Ha Hr Hq Hn].
  eapply (pairing_ok_update id p (expire_pairing p)); try done.
  - intros owner. specialize (Hq owner). unfold reservation at 1. simpl.
    rewrite andb_false_r. change (active_device_count owner (save_pairing _ _ db))
      with (active_device_count owner db). destruct (reservation _ _ _); lia.
  - intros owner. specialize (Hn owner). unfold reservation at 1. simpl.
    rewrite andb_false_r. change (total_device_count owner (save_pairing _ _ db))
      with (total_device_count owner db). destruct (reservation _ _ _); lia.
Qed.

Lemma claim_row_ok id p owner sid t db :
  pairings db !! id = Some p → dp_status p = PsPending →
  active_device_count owner db + reservations owner db < bootstrap_max_devices settings →
  total_device_count owner db + reservations owner db < owner_max_device_records settings →
  pairing_ok db → pairing_ok (save_pairing id (claim_row owner sid t p) db).
Proof.
  intros Hp Hst Hq' Hn' Hok. pose proof Hok as [_ _ _ Ha Hr Hq Hn].
  assert (Hres : ∀ o, reservation o id (claim_row owner sid t p) = bool_decide (owner = o)
    ∧ reservation o id p = false).
  { intros o. unfold reservation. simpl. rewrite Hst, andb_false_r, andb_true_r. split; [|done].
    apply bool_decide_ext. by split; [intros [= ->]|intros ->]. }
  eapply (pairing_ok_update id p (claim_row owner sid t p)); try done.
  - intros _. unfold is_live. by rewrite Hst.
  - intros o. destruct (Hres o) as [-> ->]. change (active_device_count o (save_pairing _ _ db))
      with (active_device_count o db). specialize (Hq o). case_bool_decide; [subst o|]; lia.
  - intros o. destruct (Hres o) as [-> ->]. change (total_device_count o (save_pairing _ _ db))
      with (total_device_count o db). specialize (Hn o). case_bool_decide; [subst o|]; lia.
Qed.

Lemma device_insertable_fresh id d db :
  device_insertable id d db = true →
  devices db !! id = None ∧ (∀ j d', devices db !! j = Some d' → device_clash d j d' = false).
Proof.
  unfold device_insertable. intros H. reflect_bools. split; [by apply eq_None_not_Some|].
  intros j p. by apply exists_row_false.
Qed.

Lemma enrol_ok id p owner t db :
  pairings db !! id = Some p → dp_status p = PsClaimed → dp_claimed_by_user_id p = Some owner →
  device_insertable id (new_device owner p t) db = true →
  pairing_ok db →
  pairing_ok (save_pairing id (complete_row id t p)
    (db <| devices := <[id := new_device owner p t]> (devices db) |>)).
Proof.
  intros Hp Hst Hcl [Hfree Hclash]%device_insertable_fresh Hok.
  pose proof Hok as [_ _ _ Ha Hr Hq Hn].
  assert (Hres : ∀ o, reservation o id (complete_row id t p) = false
    ∧ reservation o id p = bool_decide (owner = o)).
  { intros o. unfold reservation. simpl. rewrite Hst, Hcl, andb_false_r, andb_true_r.
    split; [done|]. apply bool_decide_ext. by split; [intros [= ->]|intros ->]. }
  assert (Hrow : ∀ j d x, devices db !! j = Some d →
    (active_key d = Some x → dp_public_key p ≠ x)
    ∧ (d_refresh_credential_hash d = Some x → dp_refresh_credential_hash p ≠ Some x)).
  { intros j d x Hj. specialize (Hclash j d Hj). unfold device_clash in Hclash.
    simpl in Hclash. apply orb_false_iff in Hclash as [Hc1 Hc2]. split.
    - unfold active_key. destruct (base.decide (d_status d = DsActive)) as [Hd|Hd];
        [|by rewrite bool_decide_false].
      rewrite (bool_decide_true (d_status d = _)) in * by done. intros [= <-] Hk.
      by rewrite bool_decide_true in Hc2.
    - intros Hd Hd'. rewrite Hd, Hd' in Hc1. simpl in Hc1. by rewrite bool_decide_true in Hc1. }
  eapply (pairing_ok_update id p (complete_row id t p)); try done.
  - apply unique_rows_insert; [done|]. intros j d x Hj _ Hd [= Hk].
    destruct (Hrow j d x Hj) as [Hx _]. by apply Hx.
  - apply unique_rows_insert; [done|]. intros j d x Hj _ Hd Hk.
    destruct (Hrow j d x Hj) as [_ Hx]. by apply Hx.
  - intros o. destruct (Hres o) as [-> ->]. specialize (Hq o).
    unfold active_device_count, is_revoked in *. simpl. rewrite count_rows_insert by done. simpl.
    simpl. rewrite andb_true_r. case_bool_decide; lia.
  - intros o. destruct (Hres o) as [-> ->]. specialize (Hn o).
    unfold total_device_count in *. simpl. rewrite count_rows_insert by done. simpl.
    case_bool_decide; lia.
Qed.

Lemma elsewhere_back db db' id d' :
  elsewhere db db' → devices db' !! id = Some d' →
  ∃ d, devices db !! id = Some d ∧ device_moves d d'.
Proof.
  intros [_ D] Hd. specialize (D id). rewrite Hd in D. inversion D as [d ? Hm E|]; subst. eauto.
Qed.

Lemma elsewhere_ok db db' : elsewhere db db' → pairing_ok db → pairing_ok db'.
Proof.
  intros He [H1 H2 H3 H4 H5 H6 H7]. pose proof (elsewhere_back db db') as Hb.
  assert (Hp : pairings db' = pairings db) by apply He.
  assert (Hcount : ∀ f : uuid → Device → bool,
    (∀ k d d', device_moves d d' → f k d' = true → f k d = true) →
    count_rows f (devices db') ≤ count_rows f (devices db)).
  { intros f Hf. apply count_rows_mono. intros k d' Hk Hfd.
    destruct (Hb k d' He Hk) as (d & Hd & Hm). eauto. }
  assert (Huniq : ∀ key : Device → option pystr,
    (∀ d d' x, device_moves d d' → key d' = Some x → key d = Some x) →
    unique_rows (devices db) key → unique_rows (devices db') key).
  { intros key Hkey Hu i j p q x Hi Hj Hx Hy.
    destruct (Hb i p He Hi) as (p0 & Hp0 & Hm), (Hb j q He Hj) as (q0 & Hq0 & Hn).
    eapply Hu; eauto. }
  split; [by rewrite Hp..|apply Huniq; [|done]|apply Huniq; [|done]| |].
  - intros d d' x [_ Hk _ Hs]. unfold active_key. rewrite Hk.
    by destruct Hs as [->| ->].
  - intros d d' x [_ _ Hc _]. by destruct Hc as [->| ->].
  - intros owner. unfold reservations. rewrite Hp. etrans; [|apply H6]. apply Z.add_le_mono_r.
    apply Hcount. intros k d d' [Ho _ _ Hs]. unfold is_revoked. rewrite Ho.
    destruct Hs as [->| ->]; [done|]. by rewrite andb_false_r.
  - intros owner. unfold reservations. rewrite Hp. etrans; [|apply H7]. apply Z.add_le_mono_r.
    apply Hcount. intros k d d' [Ho _ _ Hs]. by rewrite Ho.
Qed.

Lemma forget_ok id p db :
  pairings db !! id = Some p → pairing_ok db →
  pairing_ok (db <| pairings := delete id (pairings db) |>).
Proof.
  intros Hp [H1 H2 H3 H4 H5 H6 H7].
  assert (Hres : ∀ o, count_rows (reservation o) (delete id (pairings db)) ≤ reservations o db).
  { intros o. rewrite (count_rows_delete _ _ _ p) by done. unfold reservations.
    destruct (reservation o id p); lia. }
  assert (Huniq : ∀ key : DevicePairing → option pystr,
    unique_rows (pairings db) key → unique_rows (delete id (pairings db)) key).
  { intros key Hu i j p' q x [_ Hi]%lookup_delete_Some [_ Hj]%lookup_delete_Some. by apply Hu. }
  split; [by apply Huniq..|done|done| |].
  - intros o. specialize (H6 o). specialize (Hres o). unfold reservations at 1. simpl.
    change (active_device_count o (db <| pairings := _ |>)) with (active_device_count o db). lia.
  - intros o. specialize (H7 o). specialize (Hres o). unfold reservations at 1. simpl.
    change (total_device_count o (db <| pairings := _ |>)) with (total_device_count o db). lia.
Qed.

Lemma pairing_step_ok A db db' : pairing_ok db → pairing_step A db db' → pairing_ok db'.
Proof.
  intros Hok [db1 He|id i t ip _ _ Hi|id d i t ip _ _ _ _ Hi|id p owner sid t Hp _ Hs _ _ Hq Hn
    |id p owner t Hp _ Hs Hc _ _ Hi|id p Hp _|id p Hp _].
  - by eapply elsewhere_ok.
  - by apply pairing_ok_insert.
  - by apply pairing_ok_insert.
  - by apply claim_row_ok.
  - by apply enrol_ok.
  - by apply expire_pairing_ok.
  - by eapply forget_ok.
Qed.

Lemma since_ok A db0 db : pairing_ok db0 → since A db0 db → pairing_ok db.
Proof. intros H1 H2. eapply rtc_invariant; [apply pairing_step_ok|exact H2|exact H1]. Qed.

End invariant.

(** ** Who a device belongs to *)

Section authentic.
Context {P : Platform}.

(** Every pairing row carries what its key's owner signed; every device the key
    and the credential of such a signed intent for its own id; and a device
    belongs to the user who claimed its completed pairing. *)
Record authentic (db : database) : Prop := {
  at_pairing id p : pairings db !! id = Some p →
    ∃ i, authentic_intent id i ∧ dp_public_key p = si_public_key i
      ∧ dp_device_name p = si_device_name i ∧ dp_workspace_roots p = si_workspace_roots i
      ∧ dp_code_hash p = si_code_hash i ∧ dp_poll_token_hash p = si_poll_token_hash i
      ∧ dp_refresh_credential_hash p = Some (si_refresh_credential_hash i);
  at_device id d : devices db !! id = Some d →
    ∃ i, authentic_intent id i ∧ d_public_key d = si_public_key i
      ∧ (d_refresh_credential_hash d = Some (si_refresh_credential_hash i)
         ∨ d_refresh_credential_hash d = None);
  at_owner id p d : pairings db !! id = Some p → devices db !! id = Some d →
    dp_status p = PsCompleted → dp_claimed_by_user_id p = Some (d_owner_user_id d);
}.

(** Saving a row that keeps what was signed. *)
Lemma authentic_save id p db :
  authentic db →
  (∃ i, authentic_intent id i ∧ dp_public_key p = si_public_key i
      ∧ dp_device_name p = si_device_name i ∧ dp_workspace_roots p = si_workspace_roots i
      ∧ dp_code_hash p = si_code_hash i ∧ dp_poll_token_hash p = si_poll_token_hash i
      ∧ dp_refresh_credential_hash p = Some (si_refresh_credential_hash i)) →
  (∀ d, devices db !! id = Some d → dp_status p = PsCompleted →
     dp_claimed_by_user_id p = Some (d_owner_user_id d)) →
  authentic (save_pairing id p db).
Proof.
  intros [H1 H2 H3] Hi Ho. split.
  - intros k q. simpl. rewrite lookup_insert. case_decide; [intros [= <-]; by subst k|apply H1].
  - exact H2.
  - intros k q d. simpl. rewrite lookup_insert. case_decide; [|by apply H3].
    intros [= <-] Hd Hs. subst k. by apply Ho.
Qed.

Lemma authentic_enrol id p owner t db :
  authentic db → pairings db !! id = Some p → dp_claimed_by_user_id p = Some owner →
  authentic (save_pairing id (complete_row id t p)
    (db <| devices := <[id := new_device owner p t]> (devices db) |>)).
Proof.
  intros Hat Hp Hcl. pose proof Hat as [H1 H2 H3].
  destruct (H1 id p Hp) as (i & Hi & Hk & Hn & Hr & Hc & Ht & Hh). apply authentic_save.
  - split; [exact H1|..].
    + intros k d. simpl. rewrite lookup_insert. case_decide; [|apply H2].
      intros [= <-]. subst k. exists i. simpl. auto.
    + intros k q d. simpl. rewrite lookup_insert. case_decide; [|by apply H3].
      intros Hq [= <-] Hs. subst k. simpl. by simplify_eq.
  - by exists i.
  - intros d. simpl. rewrite lookup_insert_eq. by intros [= <-] _.
Qed.

Lemma pairing_step_authentic A db db' : authentic db → pairing_step A db db' → authentic db'.
Proof.
  intros Hat Hstep. pose proof Hat as [H1 H2 H3].
  destruct Hstep as [db1 He|id i t ip Hi _ _|id d i t ip Hi Hd _ _ _|id p owner sid t Hp _ Hs _ _ _ _
    |id p owner t Hp _ Hs Hc _ _ Hi|id p Hp _|id p Hp _].
  - pose proof (elsewhere_back db db1) as Hb.
    assert (Hpp : pairings db1 = pairings db) by apply He. split; rewrite ?Hpp; [exact H1|..].
    + intros k d' Hk. destruct (Hb k d' He Hk) as (d & Hd & [_ Hkey Hc _]).
      destruct (H2 k d Hd) as (i & Hi & Hki & Hci). exists i. rewrite Hkey.
      split_and!; [done..|]. destruct Hc as [->| ->]; auto.
    + intros k p d' Hp Hk Hs. destruct (Hb k d' He Hk) as (d & Hd & [Ho _ _ _]).
      rewrite Ho. by apply (H3 k).
  - apply authentic_save; [done|by exists i|done].
  - apply authentic_save; [done|by exists i|]. intros d' Hd' _. by simplify_eq.
  - apply authentic_save; [done|by apply (H1 id p)|done].
  - by apply authentic_enrol.
  - apply authentic_save; [done|by apply (H1 id p)|done].
  - split; simpl.
    + intros k q [_ Hq]%lookup_delete_Some. by apply H1.
    + exact H2.
    + intros k q d [_ Hq]%lookup_delete_Some. by apply H3.
Qed.

Lemma since_authentic A db0 db : authentic db0 → since A db0 db → authentic db.
Proof. intros H1 H2. eapply rtc_invariant; [apply pairing_step_authentic|exact H2|exact H1]. Qed.
End authentic.

(** ** The calls of the service *)

Section calls.
Context {P : Platform}.

(** A call; a start comes with what other transactions, acting under [others],
    do while it holds no write. *)
Inductive pairing_call :=
| CallStart (others : authority) (meanwhile : database → database) (r : StartRequest)
| CallClaim (code : pystr) (session_id : uuid) (session : ControlSession)
| CallPoll (id : uuid) (poll_token : pystr)
| CallExpireDue (locked : uuid → bool) (now limit : option Z).

Definition perform (c : pairing_call) (metadata : RequestMetadata) (w : world) : world :=
  match c with
  | CallStart _ meanwhile r => (start meanwhile r metadata w).2
  | CallClaim code session_id session => (claim code session_id session metadata w).2
  | CallPoll id poll_token => (poll id poll_token metadata w).2
  | CallExpireDue locked now limit => (expire_due_pairings locked now limit w).2
  end.

Definition authority_of (c : pairing_call) : authority :=
  match c with
  | CallStart others _ _ => others
  | CallClaim code _ session => claim_authority code session
  | CallPoll id poll_token => poll_authority id poll_token
  | CallExpireDue _ _ _ => no_authority
  end.

(** A new session; the other transactions follow the protocol and wait for the
    rows this one has locked. *)
Definition callable (c : pairing_call) (w : world) : Prop :=
  working w = durable w ∧
  match c with
  | CallStart others meanwhile r =>
      (∀ db, since others db (meanwhile db))
      ∧ ∀ i, (verify_start r w).1 = Ok i →
          respects_locks (si_public_key i) (sr_pairing_id r) meanwhile
  | _ => True
  end.

Lemma perform_since c meta w :
  callable c w → since (authority_of c) (durable w) (durable (perform c meta w)).
Proof.
  intros [Hwd Hc].
  assert (H2 : since (authority_of c) (durable w) (durable w)) by apply rtc_refl.
  assert (H1 : since (authority_of c) (durable w) (working w)) by (rewrite Hwd; apply rtc_refl).
  destruct c as [others meanwhile r|code sid s|id token|locked now limit]; simpl in *.
  - destruct Hc as [Henv Hlocks]. by apply (start_good others (durable w)).
  - by apply claim_good.
  - by apply poll_good.
  - by apply expire_due_pairings_good.
Qed.

(** C17: Pairing follows its protocol.  Whatever the outcome of a call, what it
    commits is a run of the protocol: a row appears only for an intent its key
    signed, within the room left; it is claimed only while pending and unexpired
    by the session's user who presented its code, within his quotas; it becomes
    a device only when claimed and unexpired and its poll token was presented;
    it expires; and nothing completed changes.  A start adds no claim and no
    device of its own to what concurrent transactions do, an expiry sweep
    neither. *)
Theorem pairing_refines c meta w :
  callable c w →
  rtc (pairing_step (authority_of c)) (durable w) (durable (perform c meta w)).
Proof. apply perform_since. Qed.

(** C24: Pairing keeps its tables consistent.  Whatever the outcome of a call,
    no two live pairings and no two active devices share a key, codes, poll
    tokens and refresh credentials stay unique, and no owner's devices together
    with those his claims are about to give him exceed the device quotas. *)
Theorem pairing_invariant c meta w :
  callable c w → pairing_ok (durable w) → pairing_ok (durable (perform c meta w)).
Proof. intros Hc Hok. eapply since_ok; [exact Hok|by apply perform_since]. Qed.

(** C18: A device is what its key's owner asked for and belongs to its claimant.
    Every call keeps: each pairing row carries the key, name, roots and
    commitments of an intent signed by that key for that pairing; each device
    has the key, and until it is revoked the credential, of an intent signed for
    its id; and a device is owned by the user who claimed its pairing. *)
Theorem enrolment_authentic c meta w :
  callable c w → authentic (durable w) → authentic (durable (perform c meta w)).
Proof. intros Hc Hok. eapply since_authentic; [exact Hok|by apply perform_since]. Qed.
End calls.
