(* ===== verification/PairingFlow.v ===== *)
(** * The pairing flow

    A start answers its own repetition; a claimed pairing that is polled in time
    becomes a device; and the whole flow on the testbed. *)

From stdpp Require Import base list gmap.
From Stdlib Require Import NArith ZArith Lia.
From S2P Require Import Prelude Config Base64 Json Paths Models Storage World Testbed Security.
From S2P Require Import Budget Events Capacity Pairing PairingSafety.
Open Scope Z_scope.

(** ** Repeating a start *)

Section idempotent.
Context {P : Platform}.

(** The verdict on a request does not depend on the world. *)
Lemma verify_start_pure r w :
  (verify_start r w).2 = w ∧ ∀ w', (verify_start r w').1 = (verify_start r w).1.
Proof.
  unfold verify_start, _verify_start_proof, mbind, tx_bind, of_outcome, guard_exn, raise, mret, tx_ret.
  repeat case_match; simplify_eq; by split.
Qed.

Lemma assoc_get_NoDup l k v : NoDup l.*1 → (k, v) ∈ l → assoc_get k l = Some v.
Proof.
  induction l as [|[k' v'] l IH]; simpl; [by intros _ H%not_elem_of_nil|].
  intros [Hk Hl]%NoDup_cons [[= <- <-]|Hin]%elem_of_cons; [by rewrite decide_True|].
  rewrite decide_False; [by apply IH|]. intros ->. apply Hk, list_elem_of_fmap.
  by exists (k', v).
Qed.

(** A dictionary equals itself. *)
Definition is_dictionary (j : json) : Prop :=
  match j with JObj l => NoDup l.*1 | _ => True end.

Lemma same_metadata_refl j : is_dictionary j → same_metadata j j = true.
Proof.
  destruct j; simpl; intros Hj; rewrite ?bool_decide_true by done; try done.
  rewrite Nat.eqb_refl. apply forallb_forall. intros [k v] Hin%list_elem_of_In.
  apply bool_decide_true. by apply assoc_get_NoDup.
Qed.

Lemma same_intent_new i t ip :
  is_dictionary (si_device_metadata i) → _same_start_intent (new_pairing i t ip) i = true.
Proof.
  intros Hd. unfold _same_start_intent. simpl. by rewrite same_metadata_refl, !bool_decide_true.
Qed.

(** What a returned row is: it has the request's intent, and it is committed. *)
Definition answered (id : uuid) (i : StartIntent) (x : uuid * DevicePairing) (w' : world) : Prop :=
  x.1 = id ∧ _same_start_intent x.2 i = true ∧ pairings (durable w') !! id = Some x.2.

Lemma resume_start_ok id p i t meta w x w' :
  resume_start id p i t meta w = (Ok x, w') →
  x = (id, p) ∧ _same_start_intent p i = true ∧ w' = w.
Proof.
  unfold resume_start. intros (u & v & [Hs ->]%guard_ok_inv & E)%bind_ok_inv. reflect_bools.
  assert (Hno : ∀ v v', (_expire_unactivated id p meta;; commit;;
    raise (A := uuid * DevicePairing) PairingExpired) v ≠ (Ok x, v')).
  { intros v v' (? & ? & _ & (? & ? & _ & [=])%bind_ok_inv)%bind_ok_inv. }
  destruct (dp_status p); simpl in E; try done.
  all: try (destruct (_ <=? _); [by apply Hno in E|]); by injection E as <- <-.
Qed.

Lemma insert_pairing_ok id r w u w' :
  insert_pairing id r w = (Ok u, w') →
  working w' = save_pairing id r (working w) ∧ durable w' = durable w.
Proof.
  unfold insert_pairing. intros (b & v & [-> ->]%query_ok_inv & E)%bind_ok_inv.
  apply bind_ok_inv in E as (? & v & [_ ->]%guard_ok_inv & E). by injection E as _ <-.
Qed.

(** Auditing and committing a row that was just inserted. *)
Lemma audit_commit_ok a b c d id meta det w (x : uuid * DevicePairing) y w' :
  (pairing_audit a b c d id meta det;; commit;; mret x) w = (Ok y, w') →
  y = x ∧ pairings (durable w') = pairings (working w).
Proof.
  unfold pairing_audit, add_audit. intros E.
  apply bind_ok_inv in E as (? & ? & E1 & E). apply bind_ok_inv in E1 as (? & ? & E0 & E1).
  injection E0 as <- <-. injection E1 as _ <-.
  apply bind_ok_inv in E as (? & ? & E2 & E). injection E2 as _ <-. by injection E as <- <-.
Qed.

(** [try: m except IntegrityError]. *)
Lemma unless_integrity_ok (m : tx bool) w b w' :
  try_catch m (λ e, match e with IntegrityError => mret false | e => raise e end) w = (Ok b, w') →
  b = false ∨ m w = (Ok b, w').
Proof. unfold try_catch. destruct (m w) as [[a|[]] v]; intros [= <- <-]; auto. Qed.

Lemma recover_start_ok meanwhile id d i t meta w x w' :
  is_dictionary (si_device_metadata i) →
  recover_start meanwhile id d i t meta w = (Ok x, w') → answered id i x w'.
Proof.
  intros Hdict E. unfold recover_start in E.
  apply bind_ok_inv in E as (? & v & [Hg ->]%guard_ok_inv & E).
  apply bind_ok_inv in E as (? & v & Eo & E). injection Eo as _ <-.
  apply bind_ok_inv in E as (b & v & Et & E). apply unless_integrity_ok in Et. destruct b.
  - destruct Et as [|Et]; [done|]. injection E as <- <-.
    apply bind_ok_inv in Et as (? & v1 & [Hw _]%insert_pairing_ok & Et).
    apply bind_ok_inv in Et as (? & v2 & Ea & Et). apply bind_ok_inv in Et as (? & v3 & Ec & Et).
    injection Et as <-. injection Ec as _ <-. simpl.
    unfold pairing_audit, add_audit in Ea. apply bind_ok_inv in Ea as (? & ? & E0 & Ea).
    injection E0 as <- <-. injection Ea as _ <-. split_and!; [done| |].
    + unfold _same_start_intent. simpl. by rewrite same_metadata_refl, !bool_decide_true.
    + simpl. rewrite Hw. apply lookup_insert_eq.
  - apply bind_ok_inv in E as (? & v1 & Er & E). injection Er as _ <-.
    apply bind_ok_inv in E as (? & v1 & [-> ->]%query_ok_inv & E). simpl in E.
    destruct (pairings (durable v) !! id) as [p|] eqn:Hp; [|done].
    destruct (_same_start_intent p i) eqn:Hs; [|done]. by injection E as <- <-.
Qed.

Lemma new_start_ok meanwhile id i t meta w x w' :
  is_dictionary (si_device_metadata i) →
  new_start meanwhile id i t meta w = (Ok x, w') → answered id i x w'.
Proof.
  intros Hdict E. unfold new_start in E.
  apply bind_ok_inv in E as (? & v & [-> ->]%query_ok_inv & E).
  do 3 apply bind_ok_inv in E as (? & ? & [_ ->]%guard_ok_inv & E).
  apply bind_ok_inv in E as (? & v & [-> ->]%query_ok_inv & E).
  apply bind_ok_inv in E as (? & ? & [_ ->]%guard_ok_inv & E).
  apply bind_ok_inv in E as (? & v & [-> ->]%query_ok_inv & E).
  destruct (exists_row (active_with_key _) _).
  { apply bind_ok_inv in E as (? & ? & _ & E). done. }
  apply bind_ok_inv in E as (? & v & _ & E). apply bind_ok_inv in E as (? & v1 & _ & E).
  apply bind_ok_inv in E as (b & v2 & Et & E). apply unless_integrity_ok in Et. destruct b.
  - destruct Et as [|Et]; [done|]. apply audit_commit_ok in E as [-> Hd].
    apply bind_ok_inv in Et as (? & v3 & _ & Et).
    apply bind_ok_inv in Et as (? & v4 & [Hw _]%insert_pairing_ok & Et). injection Et as <-.
    split_and!; [done|by apply same_intent_new|]. rewrite Hd, Hw. apply lookup_insert_eq.
  - apply bind_ok_inv in E as (? & v3 & Er & E). injection Er as _ <-.
    apply bind_ok_inv in E as (? & v3 & [-> ->]%query_ok_inv & E). simpl in E.
    destruct (pairings (durable v2) !! id) as [p|] eqn:Hp; [|done].
    apply resume_start_ok in E as (-> & Hs & ->). done.
Qed.

(** The projection check reads neither the time nor the world. *)
Lemma projection_check_pure id i t t' w w' :
  let check t := capacity_as PairingCapacityExceeded (ensure_device_projection_fits id
                   (new_device "pairing-candidate" (new_pairing i t None) t)) in
  check t w = (Ok tt, w') → ∀ v, check t' v = (Ok tt, v).
Proof.
  cbv zeta. unfold ensure_device_projection_fits, new_device_summary.
  change (device_summary_json id (new_device _ (new_pairing i t' None) t') "offline" (JStr datetime_max))
    with (device_summary_json id (new_device "pairing-candidate" (new_pairing i t None) t) "offline"
            (JStr datetime_max)).
  change (device_summary_valid (new_device _ (new_pairing i t' None) t'))
    with (device_summary_valid (new_device "pairing-candidate" (new_pairing i t None) t)).
  unfold capacity_as, ensure_fits, try_catch, mbind, tx_bind.
  destruct (device_summary_valid _); [|done]. cbn [guard_exn negb mret tx_ret].
  destruct (compact_ensure_ascii_size _) as [n|e]; [|by destruct e].
  destruct (_ <? n); [done|]. done.
Qed.

Lemma start_ok meanwhile r meta w x w' :
  is_dictionary (sr_device_metadata r) → working w = durable w →
  start meanwhile r meta w = (Ok x, w') →
  ∃ i, (verify_start r w).1 = Ok i ∧ answered (sr_pairing_id r) i x w'
    ∧ ∀ t v, capacity_as PairingCapacityExceeded (ensure_device_projection_fits (sr_pairing_id r)
               (new_device "pairing-candidate" (new_pairing i t None) t)) v = (Ok tt, v).
Proof.
  intros Hdict Hwd E. unfold start in E.
  apply bind_ok_inv in E as (i & v & Ev & E). pose proof (verify_start_pure r w) as [Hv _].
  rewrite Ev in Hv. simpl in Hv. subst v.
  assert (Hi : is_dictionary (si_device_metadata i)).
  { unfold verify_start in Ev. apply bind_ok_inv in Ev as (? & ? & _ & Ev).
    destruct (canonicalize_workspace_roots _); [|done]. 
    do 3 apply bind_ok_inv in Ev as (? & ? & _ & Ev). by injection Ev as <- _. }
  apply bind_ok_inv in E as (t & v & Et & E). injection Et as _ <-.
  apply bind_ok_inv in E as ([] & v & Ec & E).
  pose proof (λ t', projection_check_pure _ _ _ t' _ _ Ec) as Hpure.
  rewrite Hpure in Ec. injection Ec as <-.
  exists i. rewrite Ev. split; [done|]. split; [|done].
  apply bind_ok_inv in E as (? & v & [-> ->]%query_ok_inv & E). simpl in E.
  destruct (pairings (working w) !! sr_pairing_id r) as [p|] eqn:Hp.
  { apply resume_start_ok in E as (-> & Hs & ->). split_and!; [done|done|]. simpl. by rewrite <- Hwd. }
  apply bind_ok_inv in E as (? & v & [-> ->]%query_ok_inv & E). simpl in E.
  destruct (devices (working w) !! sr_pairing_id r) as [d|].
  - by eapply recover_start_ok.
  - by eapply new_start_ok.
Qed.

(** Starting is idempotent.  A start that returns has committed the row it
    returns.  As long as that row is there, and completed or still live, the
    same request presented again, by whom and whenever before the row expires,
    is answered with the same row and writes nothing. *)
Theorem start_idempotent m1 m2 r meta1 meta2 w1 w1' w2 id p :
  is_dictionary (sr_device_metadata r) → working w1 = durable w1 →
  start m1 r meta1 w1 = (Ok (id, p), w1') →
  pairings (durable w1') !! id = Some p
  ∧ (pairings (working w2) !! id = Some p →
     dp_status p = PsCompleted ∨ (is_live p = true ∧ clock (ticks w2) < dp_expires_at p) →
     start m2 r meta2 w2 = (Ok (id, p), w2 <| ticks := S (ticks w2) |>)).
Proof.
  intros Hdict Hwd E. apply start_ok in E as (i & Hi & (Hid & Hs & Hp) & Hfits); [|done..].
  simpl in *. subst id. split; [done|]. intros Hrow Hst.
  pose proof (verify_start_pure r w2) as [Hw2 Hpure]. rewrite (Hpure w1) in Hi.
  assert (Ev : verify_start r w2 = (Ok i, w2)) 
    by (by rewrite (surjective_pairing (verify_start r w2)), Hi, Hw2).
  unfold start. rewrite (run_bind _ _ _ _ _ Ev).
  rewrite (run_bind now _ w2 (clock (ticks w2)) (w2 <| ticks := S (ticks w2) |>)) by done.
  rewrite (run_bind _ _ _ _ _ (Hfits _ _)).
  rewrite (run_bind (query _) _ _ (Some p) (w2 <| ticks := S (ticks w2) |>)) by (by rewrite <- Hrow).
  unfold resume_start. rewrite Hs. cbn [negb].
  rewrite (run_bind _ _ _ tt (w2 <| ticks := S (ticks w2) |>)) by done.
  destruct Hst as [-> |[Hl Hx]]; [done|]. unfold is_live in Hl.
  rewrite (proj2 (Z.leb_gt _ _) Hx), andb_false_r. by destruct (dp_status p).
Qed.
End idempotent.

(** ** Polling a claimed pairing *)

Section enrolment.
Context {P : Platform}.

(** What [poll] needs of a claimed pairing to enrol its device at [t]. *)
Record enrollable (id : uuid) (p : DevicePairing) (owner : pystr) (t : Z) (db : database) : Prop := {
  en_row : pairings db !! id = Some p;
  en_version : dp_protocol_version p = 2;
  en_claimed : dp_status p = PsClaimed;
  en_owner : dp_claimed_by_user_id p = Some owner;
  en_no_device : dp_device_id p = None;
  en_credential : is_Some (dp_refresh_credential_hash p);
  en_live : t < dp_expires_at p;
  en_unpaired : exists_row (active_with_key (dp_public_key p)) (devices db) = false;
  en_insertable : device_insertable id (new_device owner p t) db = true;
  en_valid : device_summary_valid (new_device owner p t) = true;
  en_fits : ∃ n, compact_ensure_ascii_size (device_summary_json id (new_device owner p t) "offline"
                   (JStr datetime_max)) = Ok n ∧ n ≤ BOOTSTRAP_DEVICE_SUMMARY_MAX_BYTES;
  en_stream : stream_last db owner < MAX_EVENT_CURSOR;
}.

Lemma add_audit_run a b c d e f g h k w :
  ∃ l, add_audit a b c d e f g h k w
    = (Ok tt, w <| ticks := S (ticks w) |>
                <| working := (working w) <| audit := audit (working w) ++ l |> |>).
Proof. unfold add_audit, mbind, tx_bind, now, modify. by eexists [_]. Qed.

Lemma enrol_run id p owner t meta w :
  enrollable id p owner t (working w) → (∀ n, store_up n = true) →
  ∃ w' d, enrol id p owner t meta w = (Ok (complete_row id t p, new_device owner p t), w')
    ∧ working w' = durable w'
    ∧ pairings (durable w') !! id = Some (complete_row id t p)
    ∧ devices (durable w') !! id = Some d ∧ counter_update (new_device owner p t) d.
Proof.
  intros [Hp _ _ _ _ _ _ _ Hins Hvalid (n & Hn & Hle) Hlast] Hup. unfold enrol.
  assert (Hfit : ∀ v, capacity_as PairingConflict
    (ensure_device_projection_fits id (new_device owner p t)) v = (Ok tt, v)).
  { intros v. unfold capacity_as, ensure_device_projection_fits, new_device_summary, ensure_fits,
      try_catch, mbind, tx_bind.
    rewrite Hvalid. cbn [guard_exn negb mret tx_ret]. rewrite Hn. by rewrite (proj2 (Z.ltb_ge _ _) Hle). }
  rewrite (run_bind _ _ _ _ _ (Hfit w)).
  set (w1 := w <| working := (working w) <| devices := <[id := new_device owner p t]>
                                            (devices (working w)) |> |>).
  rewrite (run_bind (insert_device _ _) _ w tt w1).
  2: { unfold insert_device, mbind, tx_bind, query. cbn [fst snd]. by rewrite Hins. }
  set (w2 := w1 <| working := save_pairing id (complete_row id t p) (working w1) |>).
  rewrite (run_bind (modify _) _ w1 tt w2) by done.
  destruct (add_audit_run (Some owner) None (Some id) "pairing.complete" AoSucceeded "device"
    (uuid_str id) meta (JObj [("pairing_id", JStr (uuid_str id));
      ("credential_version", JInt (d_credential_version (new_device owner p t)));
      ("credential_scheme", JInt 2)]) w2) as [l Ha].
  rewrite (run_bind _ _ _ _ _ Ha). clear Ha. set (w3 := update_field working _ _).
  destruct (append_run owner id DeviceUpdated
    (device_summary_json id (new_device owner p t) "offline" JNull) None None w3
    (new_device owner p t)) as (e & c & w4 & Happ & Hw4 & _ & _ & _ & _ & Hid & _); [..|rewrite (run_bind _ _ _ _ _ Happ)].
  - apply lookup_insert_eq.
  - done.
  - done.
  - exact Hlast.
  - rewrite (run_bind commit _ w4 tt (w4 <| durable := working w4 |>)) by done.
    rewrite (run_bind (publish_event _ _) _ _ tt
      ((w4 <| durable := working w4 |>) <| ticks := S (ticks w4) |>
         <| effects := effects w4 ++ [EPublish ("browser:" +++ owner)
              (browser_event_json (event_of_row e))] |>)).
    2: { unfold publish_event, publish. by rewrite Hup. }
    eexists _, _. split; [reflexivity|]. split; [done|]. simpl. rewrite Hw4. simpl. rewrite Hid.
    split; [apply lookup_insert_eq|]. split; [apply lookup_insert_eq|]. reflexivity.
Qed.

(** A claimed pairing that is polled in time becomes a device.  When the
    pairing is claimed and unexpired, the token is its poll token, its key is
    not in use, its summary fits the bootstrap, the owner's stream is not
    exhausted and the store answers, [poll] returns the device; pairing and
    device are committed, and polling again returns the device again. *)
Theorem poll_enrols id p owner poll_token commitment meta w :
  enrollable id p owner (clock (ticks w)) (working w) →
  pairing_secret_commitment poll_token = Ok commitment →
  matches "pairing-poll-v2" commitment (dp_poll_token_hash p) = true →
  (∀ n, store_up n = true) →
  ∃ p' d' w', poll id poll_token meta w
      = (Ok (p', Some (new_device owner p (clock (ticks w)))), w')
    ∧ p' = complete_row id (clock (ticks w)) p
    ∧ pairings (durable w') !! id = Some p' ∧ devices (durable w') !! id = Some d'
    ∧ counter_update (new_device owner p (clock (ticks w))) d'
    ∧ ∀ meta', (poll id poll_token meta' w').1 = Ok (p', Some d').
Proof.
  intros Hen Hc Hm Hup. pose proof Hen as [Hp Hv Hst Ho Hnd [h Hh] Hlive Hfree _ _ _].
  set (v := w <| ticks := S (ticks w) |>).
  destruct (enrol_run id p owner (clock (ticks w)) meta v Hen Hup)
    as (w' & d' & E & Hwd & Hp' & Hd' & Hcnt).
  exists (complete_row id (clock (ticks w)) p), d', w'. split; [|split_and!; [done..|]].
  - unfold poll. rewrite (run_bind (query _) _ w (Some p) w) by (by rewrite <- Hp).
    rewrite Hv. cbn [Z.eqb negb Pos.eqb]. rewrite (run_bind _ _ w true w).
    2: { rewrite Hc. unfold mbind, tx_bind, of_outcome. by rewrite Hm. }
    cbn [negb].
    rewrite (run_bind now _ w (clock (ticks w)) v) by done.
    rewrite Hst, Ho, Hnd, Hh. rewrite (proj2 (Z.leb_gt _ _) Hlive). cbn [bool_decide].
    rewrite bool_decide_false by done.
    rewrite (run_bind (query _) _ v false v) by (by rewrite <- Hfree).
    rewrite (run_bind _ _ v tt v) by done. by rewrite (run_bind _ _ _ _ _ E).
  - intros meta'. rewrite <- Hwd in Hp', Hd'. unfold poll.
    rewrite (run_bind (query _) _ w' (Some _) w') by (by rewrite <- Hp').
    cbn [dp_protocol_version complete_row]. simpl. rewrite Hv. cbn [Z.eqb negb Pos.eqb].
    rewrite (run_bind _ _ w' true w').
    2: { rewrite Hc. unfold mbind, tx_bind, of_outcome. by rewrite Hm. }
    cbn [negb].
    rewrite (run_bind now _ w' (clock (ticks w')) (w' <| ticks := S (ticks w') |>)) by done.
    rewrite (run_bind (query _) _ _ (Some d') (w' <| ticks := S (ticks w') |>)).
    2: { unfold query. simpl. by rewrite Hd'. }
    simpl. rewrite Hh, Hcnt. simpl. by rewrite Hh, bool_decide_true.
Qed.
End enrolment.

(** ** The flow on the testbed *)

Definition sample_pairing_code : pystr := "ABCD-EFGH-JKLM-NPQR".
Definition sample_pairing_key : list N := be_bytes 32 424242.
Definition commitment_of (s : pystr) : pystr := @sha256_hex testbed (codepoints s).

Definition unsigned_start : StartRequest :=
  {| sr_pairing_id := 7%N; sr_proof_created_at := (start_micros, true);
     sr_audience := "http://testserver/codex-api/v1/device-pairings/start";
     sr_public_key := PyStr (_base64url_encode sample_pairing_key); sr_device_name := "laptop";
     sr_device_metadata := JObj [("connector_version", JStr "0.1.11");
                                 ("codex_version", JStr "0.147.0")];
     sr_workspace_roots := ["/srv/app"];
     sr_code_commitment := commitment_of "ABCDEFGHJKLMNPQR";
     sr_poll_token_commitment := commitment_of "poll-token";
     sr_refresh_credential_commitment := commitment_of "secret"; sr_signature := "" |}.

(** The bytes the connector signs. *)
Definition start_proof_of (r : StartRequest) : list N :=
  match @pairing_start_proof testbed (sr_pairing_id r) (iso (sr_proof_created_at r).1)
          (sr_audience r) (sr_public_key r) (sr_code_commitment r) (sr_poll_token_commitment r)
          (sr_refresh_credential_commitment r) (sr_device_name r) "0.1.11" "0.147.0"
          (sr_workspace_roots r) with
  | Ok proof => proof
  | Raise _ => []
  end.

Definition sample_start_request : StartRequest :=
  {| sr_pairing_id := sr_pairing_id unsigned_start;
     sr_proof_created_at := sr_proof_created_at unsigned_start;
     sr_audience := sr_audience unsigned_start; sr_public_key := sr_public_key unsigned_start;
     sr_device_name := sr_device_name unsigned_start;
     sr_device_metadata := sr_device_metadata unsigned_start;
     sr_workspace_roots := sr_workspace_roots unsigned_start;
     sr_code_commitment := sr_code_commitment unsigned_start;
     sr_poll_token_commitment := sr_poll_token_commitment unsigned_start;
     sr_refresh_credential_commitment := sr_refresh_credential_commitment unsigned_start;
     sr_signature := PyStr (_base64url_encode
       (toy_signature sample_pairing_key (start_proof_of unsigned_start))) |}.

Definition sample_session : ControlSession :=
  {| cs_token_hash := "t"; cs_csrf_token_hash := "c"; cs_user_id := "alice";
     cs_username := None; cs_email := None; cs_display_name := None;
     cs_token_version := None; cs_issued_at := start_micros;
     cs_expires_at := start_micros + 600000000; cs_last_seen_at := start_micros;
     cs_revoked_at := None; cs_request_ip := None; cs_user_agent := None |}.

Definition sample_start (w : @world testbed) : outcome (uuid * DevicePairing) * @world testbed :=
  start (λ db, db) sample_start_request no_metadata w.
Definition sample_claim (w : @world testbed) : outcome (uuid * DevicePairing) * @world testbed :=
  claim sample_pairing_code 3%N sample_session no_metadata w.
Definition sample_poll (w : @world testbed) :
    outcome (DevicePairing * option Device) * @world testbed :=
  poll 7%N "poll-token" no_metadata w.

Definition succeeds {A} {P : Platform} (r : outcome A * world) : bool :=
  match r.1 with Ok _ => true | Raise _ => false end.

Definition world0 : @world testbed := start_world empty_database.
Definition world1 : @world testbed := (sample_start world0).2.
Definition world2 : @world testbed := (sample_claim world1).2.
Definition world3 : @world testbed := (sample_poll world2).2.

Lemma sample_flow :
  succeeds (sample_start world0) = true ∧ succeeds (sample_claim world1) = true
  ∧ match (sample_poll world2).1 with Ok (_, Some d) => bool_decide (d_owner_user_id d = "alice")
                                    | _ => false end = true
  ∧ succeeds (sample_claim world0) = false ∧ succeeds (sample_poll world0) = false.
Proof. vm_compute. done. Qed.

(** ** Witnesses *)

Lemma pairing_ok_empty : @pairing_ok testbed empty_database.
Proof. by split; try (intros i j p q x Hi; rewrite lookup_empty in Hi). Qed.

Lemma authentic_empty : @authentic testbed empty_database.
Proof. by split; intros id p; intros; simplify_map_eq. Qed.

Definition sample_call : pairing_call := CallStart no_authority (λ db, db) sample_start_request.

Lemma sample_callable : callable sample_call world0.
Proof. split; [done|]. split; [intros db; apply rtc_refl|]. intros i _. by split. Qed.

Lemma pairing_refines_witness :
  rtc (@pairing_step testbed (authority_of sample_call)) (durable world0)
    (durable (perform sample_call no_metadata world0)).
Proof. apply (pairing_refines sample_call no_metadata world0 sample_callable). Defined.

Lemma pairing_invariant_witness :
  pairing_ok (durable (perform sample_call no_metadata world0)).
Proof.
  apply (pairing_invariant sample_call no_metadata world0 sample_callable pairing_ok_empty).
Defined.

Lemma enrolment_authentic_witness :
  authentic (durable (perform sample_call no_metadata world0)).
Proof.
  apply (enrolment_authentic sample_call no_metadata world0 sample_callable authentic_empty).
Defined.

Lemma sample_start_succeeds :
  succeeds (start (P := testbed) (λ db, db) sample_start_request no_metadata world0) = true.
Proof. vm_compute. reflexivity. Qed.

Lemma start_idempotent_witness :
  match start (P := testbed) (λ db, db) sample_start_request no_metadata world0 with
  | (Ok (id, p), w1) =>
      pairings (durable w1) !! id = Some p
      ∧ (pairings (working w1) !! id = Some p →
         is_live p = true → clock (ticks w1) < dp_expires_at p →
         start (λ db, db) sample_start_request no_metadata w1
           = (Ok (id, p), w1 <| ticks := S (ticks w1) |>))
  | _ => False
  end.
Proof.
  pose proof sample_start_succeeds as H.
  destruct (start _ sample_start_request no_metadata world0) as [[[id p]|e] w1] eqn:E;
    [clear H|discriminate H].
  assert (Hdict : is_dictionary (sr_device_metadata sample_start_request)).
  { repeat constructor; vm_compute; intros Hin; by inversion Hin as [|? ? ? H']; inversion H'. }
  destruct (start_idempotent (λ db, db) (λ db, db) sample_start_request no_metadata no_metadata
    world0 w1 w1 id p Hdict eq_refl E) as [H1 H2].
  split; [exact H1|]. intros Hrow Hl Hx. exact (H2 Hrow (or_intror (conj Hl Hx))).
Defined.

Definition claimed_row : DevicePairing :=
  claim_row "alice" 3%N start_micros
    (@new_pairing testbed
       {| si_proof_created_at := start_micros; si_audience := "audience";
          si_public_key := "key"; si_device_name := "laptop";
          si_device_metadata := JObj []; si_workspace_roots := ["/srv/app"];
          si_code_hash := "code";
          si_poll_token_hash := @digest testbed "pairing-poll-v2" (commitment_of "poll-token");
          si_refresh_credential_hash := "refresh" |} start_micros None).

Definition claimed_world : @world testbed :=
  start_world (empty_database <| pairings := {[ 7%N := claimed_row ]} |>).

Lemma claimed_enrollable :
  enrollable 7%N claimed_row "alice" (@clock testbed 0) (working claimed_world).
Proof.
  split; try (by vm_compute); [by eexists|]. eexists. split; [vm_compute; reflexivity|done].
Qed.

Lemma poll_enrols_witness :
  ∃ p' d' w', sample_poll claimed_world
      = (Ok (p', Some (new_device "alice" claimed_row (@clock testbed 0))), w')
    ∧ p' = complete_row 7%N (@clock testbed 0) claimed_row
    ∧ pairings (durable w') !! 7%N = Some p' ∧ devices (durable w') !! 7%N = Some d'
    ∧ counter_update (new_device "alice" claimed_row (@clock testbed 0)) d'
    ∧ ∀ meta', (poll 7%N "poll-token" meta' w').1 = Ok (p', Some d').
Proof.
  refine (poll_enrols 7%N claimed_row "alice" "poll-token" (commitment_of "poll-token") no_metadata
    claimed_world claimed_enrollable _ _ _).
  - vm_compute. reflexivity.
  - vm_compute. reflexivity.
  - reflexivity.
Defined.
