(* ===== verification/Sub2api.v ===== *)
(** * The upstream identity ([control_api/sub2api.py])

    [GET /auth/me] with the user's access token: what the response says of the
    token and its user.  The response is the environment's: a failure of the
    request, or a status and the JSON value of its body, if it is one. *)

From stdpp Require Import base list.
From Stdlib Require Import NArith ZArith Lia.
From S2P Require Import Prelude Config Json Models Storage World Security.
Open Scope Z_scope.

Record Sub2APIUser := {
  su_user_id : pystr;
  su_username : option pystr;
  su_email : option pystr;
  su_display_name : option pystr;
  su_token_version : option pystr;
}.

Record Sub2APIRequestIdentity := { ri_client_ip : pystr; ri_user_agent : pystr }.

Inductive HttpResult :=
| HttpTimeout
| HttpRequestError
| HttpResponse (status_code : Z) (body : option json).

(** The server's answer to the [n]-th reading of the environment. *)
Class Upstream := auth_me : nat → pystr → Sub2APIRequestIdentity → HttpResult.

Definition _response_error_code (body : option json) : option pystr :=
  match body with
  | Some (JObj l) => match assoc_get "code" l with Some (JStr s) => Some s | _ => None end
  | _ => None
  end.

Section sub2api.
Context {P : Platform}.

Definition _optional_string (value : option json) : outcome (option pystr) :=
  match value with
  | None | Some JNull => Ok None
  | Some (JStr s) =>
      match py_strip (codepoints s) with
      | [] => Ok None
      | normalized => Ok (Some (PyStr normalized))
      end
  | Some _ => Raise Sub2APIProtocolError
  end.

Definition _user_is_enabled (user : list (pystr * json)) : outcome bool :=
  match assoc_get "status" user with
  | Some (JStr s) =>
      if bool_decide (s = "active") then Ok true
      else if py_in s ["disabled"; "inactive"; "banned"; "blocked"; "suspended"; "deleted";
                       "locked"] then Ok false
      else Raise Sub2APIProtocolError
  | _ => Raise Sub2APIProtocolError
  end.

(** [set(body) == {"code", "message", "data"}]. *)
Definition auth_me_envelope (body : list (pystr * json)) : bool :=
  let expected : list pystr := ["code"; "message"; "data"] in
  forallb (λ kv, py_in kv.1 expected) body
  && forallb (λ k, bool_decide (is_Some (assoc_get k body))) expected.

Definition parse_auth_me (body : json) : outcome Sub2APIUser :=
  match body with
  | JObj b =>
      if negb (auth_me_envelope b) then Raise Sub2APIProtocolError
      else if negb (match assoc_get "code" b with Some (JInt z) => z =? 0 | _ => false end)
      then Raise Sub2APIProtocolError
      else if negb (bool_decide (assoc_get "message" b = Some (JStr "success")))
      then Raise Sub2APIProtocolError
      else
        match assoc_get "data" b with
        | Some (JObj candidate) =>
            match assoc_get "id" candidate with
            | Some (JInt user_id) =>
                if negb ((1 <=? user_id) && (user_id <=? 2 ^ 63 - 1)) then Raise Sub2APIProtocolError
                else
                  match _user_is_enabled candidate with
                  | Raise e => Raise e
                  | Ok false => Raise DisabledSub2APIUser
                  | Ok true =>
                      match _optional_string (assoc_get "username" candidate) with
                      | Raise e => Raise e
                      | Ok username =>
                          match _optional_string (assoc_get "email" candidate) with
                          | Raise e => Raise e
                          | Ok email =>
                              Ok {| su_user_id := PyStr (py_str_int user_id);
                                    su_username := username; su_email := email;
                                    su_display_name := None; su_token_version := None |}
                          end
                      end
                  end
            | _ => Raise Sub2APIProtocolError
            end
        | _ => Raise Sub2APIProtocolError
        end
  | _ => Raise Sub2APIProtocolError
  end.

(** What a response means. *)
Definition read_auth_me (r : HttpResult) : outcome Sub2APIUser :=
  match r with
  | HttpTimeout | HttpRequestError => Raise Sub2APIUnavailable
  | HttpResponse status body =>
      let error_code := _response_error_code body in
      if (status =? 401) && bool_decide (error_code = Some ("USER_INACTIVE" : pystr))
      then Raise DisabledSub2APIUser
      else if (status =? 401) && bool_decide (error_code = Some ("TOKEN_REVOKED" : pystr))
      then Raise RevokedSub2APIToken
      else if (status =? 401) || (status =? 403) then Raise InvalidSub2APIToken
      else if (status <? 200) || (300 <=? status) then Raise Sub2APIUnavailable
      else if negb (status =? 200) then Raise Sub2APIProtocolError
      else match body with None => Raise Sub2APIProtocolError | Some b => parse_auth_me b end
  end.

Definition verify_access_token {U : Upstream} (access_token : pystr)
    (request_identity : Sub2APIRequestIdentity) : tx Sub2APIUser := λ w,
  (read_auth_me (auth_me (ticks w) access_token request_identity),
   w <| ticks := S (ticks w) |>).
End sub2api.
