(* ===== verification/Sessions.v ===== *)
(** * Control sessions ([services.SessionService], [services.RateLimiter])

    A session row is the authority; the store only caches that a token's digest
    belongs to a row and that the upstream accepted the token a moment ago, and
    every failure of the store is answered from the database.  While the
    upstream is asked, other transactions may commit: [meanwhile] is what they
    do.  The per-user and per-session locks of the process make [create] and the
    verification one step. *)

From stdpp Require Import base list gmap.
From Stdlib Require Import NArith ZArith Lia.
From S2P Require Import Prelude Config Json Models Storage World Security Capacity Retention.
From S2P Require Import Sub2api.
Open Scope Z_scope.

Definition CONTROL_SESSION_REVOCATION_CHANNEL_PREFIX : pystr := "control-session-revoked".

Definition control_session_revocation_channel (session_id : uuid) : pystr :=
  CONTROL_SESSION_REVOCATION_CHANNEL_PREFIX +++ ":" +++ uuid_str session_id.

Record CreatedSession := {
  cr_id : uuid;
  cr_record : ControlSession;
  cr_cookies : CookieTokens;
}.

(** [secrets.compare_digest] on strings: it refuses those that are not ASCII. *)
Definition is_ascii (s : pystr) : bool := forallb (λ c, (c <? 128)%N) (codepoints s).

Definition compare_digest (a b : pystr) : outcome bool :=
  if is_ascii a && is_ascii b then Ok (bool_decide (a = b)) else Raise TypeError.

Definition of_user (user_id : pystr) (s : ControlSession) : bool :=
  bool_decide (cs_user_id s = user_id).

Definition session_live (t : Z) (s : ControlSession) : bool :=
  bool_decide (cs_revoked_at s = None) && (t <? cs_expires_at s).

Definition active_sessions (user_id : pystr) (t : Z) (db : database) : Z :=
  count_rows (λ _ s, of_user user_id s && session_live t s) (sessions db).

Definition session_records (user_id : pystr) (db : database) : Z :=
  count_rows (λ _ s, of_user user_id s) (sessions db).

Definition by_session_expiry (a b : uuid * ControlSession) : bool :=
  (cs_expires_at a.2 <? cs_expires_at b.2)
  || ((cs_expires_at a.2 =? cs_expires_at b.2) && (a.1 <=? b.1)%N).

(** The terminal rows of a user that the prune selects. *)
Definition prunable (user_id : pystr) (t : Z) (db : database) : list (uuid * ControlSession) :=
  order_by by_session_expiry
    (select_rows (λ _ s, of_user user_id s && negb (session_live t s)) (sessions db)).

Section sessions.
Context {P : Platform}.

(** ** [RateLimiter.check] *)

Definition rate_check (scope identity : pystr) (limit : Z) : tx unit :=
  let window_seconds := rate_limit_window_seconds settings in
  count ← store_increment ("rate:" +++ scope +++ ":" +++ identity) window_seconds;
  guard_exn (limit <? count) (RateLimitExceeded window_seconds).

(** ** The cache *)

Definition _cache_get (key : pystr) : tx (option pystr) :=
  try_catch (store_get key) (λ _, mret None).

Definition _cache_set (key value : pystr) (ttl_seconds : Z) : tx unit :=
  best_effort (store_set key value ttl_seconds).

Definition _cache_delete (key : pystr) : tx unit := best_effort (store_delete key).

Definition session_key (token_hash : pystr) : pystr := "session:" +++ token_hash.

Definition _upstream_marker_key (session_id : uuid) : pystr :=
  "session-upstream-ok:" +++ uuid_str session_id.

(** [max(1, int((expires_at - now).total_seconds()))]. *)
Definition remaining_seconds (s : ControlSession) (t : Z) : Z :=
  Z.max 1 (Z.quot (cs_expires_at s - t) 1000000).

Definition nul : pystr := PyStr [0%N].

Definition _upstream_marker_signature (id : uuid) (s : ControlSession) (verified_at : Z) : pystr :=
  digest "session-upstream-verification"
    (uuid_str id +++ nul +++ cs_token_hash s +++ nul +++ cs_user_id s +++ nul
     +++ default "" (cs_token_version s) +++ nul +++ PyStr (py_str_int verified_at)).

Definition _upstream_marker (id : uuid) (s : ControlSession) : tx pystr :=
  t ← now;
  let verified_at := Z.quot t 1000000 in
  mret ("v1." +++ PyStr (py_str_int verified_at) +++ "."
        +++ _upstream_marker_signature id s verified_at).

Definition is_digit (c : N) : bool := ((48 <=? c) && (c <=? 57))%N.

Definition is_lower_hex (c : N) : bool := is_digit c || ((97 <=? c) && (c <=? 102))%N.

(** The [try] of [_valid_upstream_marker]: the time and the signature; [int]
    refuses more than 4300 digits. *)
Definition read_marker (marker : pystr) : option (Z * pystr) :=
  match split_dot_2 (codepoints marker) with
  | [version; raw_verified_at; signature] =>
      if negb (bool_decide (version = codepoints "v1")) || bool_decide (raw_verified_at = [])
         || negb (forallb is_digit raw_verified_at) then None
      else if negb (length signature =? 64)%nat || negb (forallb is_lower_hex signature) then None
      else if 4300 <? Z.of_nat (length raw_verified_at) then None
      else Some (parse_dec raw_verified_at 0, PyStr signature)
  | _ => None
  end.

(** A float minus an integer that no float is near raises [OverflowError]. *)
Definition _valid_upstream_marker (id : uuid) (s : ControlSession) (marker : option pystr) :
    tx bool :=
  match marker ≫= read_marker with
  | None => mret false
  | Some (verified_at, signature) =>
      t ← now;
      guard_exn (2 ^ 1024 - 2 ^ 970 <=? verified_at) OverflowError;;
      let age := t - verified_at * 1000000 in
      if (age <? 0) || (session_upstream_recheck_seconds settings * 1000000 <=? age)
      then mret false
      else mret (bool_decide (signature = _upstream_marker_signature id s verified_at))
  end.

Definition _cache_upstream_verification (id : uuid) (s : ControlSession) : tx unit :=
  t ← now;
  let remaining := remaining_seconds s t in
  marker ← _upstream_marker id s;
  _cache_set (_upstream_marker_key id) marker
    (Z.min (session_upstream_recheck_seconds settings) remaining).

(** ** [create] *)

Definition prune_sessions (user_id : pystr) (t : Z) : tx unit :=
  total_count ← query (session_records user_id);
  if owner_max_session_records settings <=? total_count then
    let prune_count := total_count - owner_max_session_records settings + 1 in
    terminal_ids ← query (λ db, (take (Z.to_nat prune_count) (prunable user_id t db)).*1);
    modify (λ db, default db
      (model_delete sessions_model (λ id _, bool_decide (id ∈ terminal_ids)) db));;
    total_count ← query (session_records user_id);
    guard_exn (owner_max_session_records settings <=? total_count) SessionCapacityExceeded
  else mret tt.

Definition insert_session (id : uuid) (s : ControlSession) : tx unit :=
  clash ← query (λ db, bool_decide (is_Some (sessions db !! id))
    || exists_row (λ _ s', bool_decide (cs_token_hash s' = cs_token_hash s)) (sessions db)
    || (cs_expires_at s <=? cs_issued_at s));
  guard_exn clash IntegrityError;;
  modify (λ db, db <| sessions := <[id := s]> (sessions db) |>).

Definition new_session (user : Sub2APIUser) (token_hash csrf_token_hash : pystr) (t : Z)
    (metadata : RequestMetadata) : ControlSession :=
  {| cs_token_hash := token_hash; cs_csrf_token_hash := csrf_token_hash;
     cs_user_id := su_user_id user; cs_username := su_username user; cs_email := su_email user;
     cs_display_name := su_display_name user; cs_token_version := su_token_version user;
     cs_issued_at := t; cs_expires_at := t + session_ttl_seconds settings * 1000000;
     cs_last_seen_at := t; cs_revoked_at := None; cs_request_ip := rm_source_ip metadata;
     cs_user_agent := rm_user_agent metadata |}.

(** [create] under the user's lock is [_create_serialized]. *)
Definition create_session (user : Sub2APIUser) (metadata : RequestMetadata)
    (access_token : pystr) : tx CreatedSession :=
  t ← now;
  active_count ← query (active_sessions (su_user_id user) t);
  guard_exn (owner_max_active_sessions settings <=? active_count) SessionCapacityExceeded;;
  prune_sessions (su_user_id user) t;;
  session_id ← fresh_uuid;
  session_token ← seal session_id access_token;
  csrf_token ← random_token 32;
  let token_hash := digest CONTROL_SESSION_DIGEST_PURPOSE session_token in
  let record := new_session user token_hash (digest "csrf" csrf_token) t metadata in
  insert_session session_id record;;
  add_audit (Some (su_user_id user)) (Some session_id) None "session.exchange" AoSucceeded
    "control_session" (uuid_str session_id) metadata (JObj []);;
  commit;;
  _cache_set (session_key token_hash) (uuid_str session_id) (session_ttl_seconds settings);;
  _cache_upstream_verification session_id record;;
  mret {| cr_id := session_id; cr_record := record;
          cr_cookies := {| ct_session_token := session_token; ct_csrf_token := csrf_token |} |}.

(** ** Revocation *)

(** The ORM's [UPDATE] of a loaded row; a row that is gone is an error. *)
Definition update_session (id : uuid) (f : ControlSession → ControlSession) : tx unit :=
  present ← query (λ db, bool_decide (is_Some (sessions db !! id)));
  guard_exn (negb present) StaleDataError;;
  modify (λ db, db <| sessions := alter f id (sessions db) |>).

Definition set_revoked (t : Z) (s : ControlSession) : ControlSession :=
  s <| cs_revoked_at := Some t |>.

(** The three store calls run to their ends, whatever the others do. *)
Definition _invalidate_revoked_session (id : uuid) (s : ControlSession) : tx unit :=
  best_effort (publish (control_session_revocation_channel id) (JStr (uuid_str id)));;
  best_effort (store_delete (session_key (cs_token_hash s)));;
  best_effort (store_delete (_upstream_marker_key id)).

Definition _revoke_for_upstream_rejection (id : uuid) (s : ControlSession) (reason : pystr) :
    tx unit :=
  t ← now;
  stored ← query (λ db, sessions db !! id);
  (if bool_decide (cs_revoked_at <$> stored = Some None) then
     modify (λ db, db <| sessions := alter (set_revoked t) id (sessions db) |>);;
     add_audit (Some (cs_user_id s)) (Some id) None "session.upstream_revoke" AoDenied
       "control_session" (uuid_str id)
       {| rm_request_id := None; rm_source_ip := cs_request_ip s; rm_user_agent := cs_user_agent s |}
       (JObj [("reason", JStr reason)])
   else mret tt);;
  commit;;
  _invalidate_revoked_session id s.

Definition revoke_session (id : uuid) (s : ControlSession) (metadata : RequestMetadata) : tx unit :=
  (if bool_decide (cs_revoked_at s = None) then
     t ← now;
     update_session id (set_revoked t)
   else mret tt);;
  add_audit (Some (cs_user_id s)) (Some id) None "session.logout" AoSucceeded "control_session"
    (uuid_str id) metadata (JObj []);;
  commit;;
  _invalidate_revoked_session id s.

(** ** [resolve] *)

Section resolve.
Context {U : Upstream} (meanwhile : database → database).

Definition request_identity (s : ControlSession) : Sub2APIRequestIdentity :=
  {| ri_client_ip := match cs_request_ip s with
                     | Some ip => if py_truthy ip then ip else "unknown"
                     | None => "unknown"
                     end;
     ri_user_agent := default "" (cs_user_agent s) |}.

(** The upstream's verdict: a user, or a rejection of the token; its other
    failures pass. *)
Definition ask_upstream (s : ControlSession) (access_token : pystr) : tx (outcome Sub2APIUser) :=
  try_catch
    (user ← verify_access_token access_token (request_identity s); mret (Ok user))
    (λ e, match e with
          | DisabledSub2APIUser | RevokedSub2APIToken | InvalidSub2APIToken => mret (Raise e)
          | e => raise e
          end).

Definition settle_verdict (id : uuid) (s : ControlSession) (verdict : outcome Sub2APIUser) :
    tx bool :=
  let reject reason := _revoke_for_upstream_rejection id s reason;; mret false in
  match verdict with
  | Raise DisabledSub2APIUser => reject "USER_INACTIVE"
  | Raise RevokedSub2APIToken => reject "TOKEN_REVOKED"
  | Raise _ => reject "TOKEN_INVALID"
  | Ok user =>
      if negb (bool_decide (su_user_id user = cs_user_id s)) then reject "USER_MISMATCH"
      else
        same ← of_outcome (compare_digest (default "" (su_token_version user))
                                          (default "" (cs_token_version s)));
        if negb same then reject "TOKEN_VERSION_MISMATCH"
        else _cache_upstream_verification id s;; mret true
  end.

Definition verify_user (id : uuid) (s : ControlSession) (access_token : pystr) : tx bool :=
  other_transactions meanwhile;;
  verdict ← ask_upstream s access_token;
  settle_verdict id s verdict.

Definition _verify_upstream_identity (id : uuid) (s : ControlSession) (access_token : pystr)
    (force : bool) : tx bool :=
  let marker_key := _upstream_marker_key id in
  let marked : tx bool :=
    if force then mret false
    else
      cached_marker ← _cache_get marker_key;
      _valid_upstream_marker id s cached_marker in
  first ← marked;
  if first : bool then mret true
  else
    second ← marked;
    if second : bool then mret true
    else verify_user id s access_token.

(** The row the cache points to, when it has this token's hash. *)
Definition cached_session (token_hash : pystr) : tx (option (uuid * ControlSession)) :=
  cached_id ← _cache_get (session_key token_hash);
  match cached_id with
  | None => mret None
  | Some raw =>
      row ← query (λ db, id ← uuid_of_text raw; s ← sessions db !! id; Some (id, s));
      let cached_hash : pystr := match row with
                                 | Some (_, s) => cs_token_hash s
                                 | None => PyStr (repeat 48%N 64)
                                 end in
      if bool_decide (cached_hash = token_hash) then mret row
      else _cache_delete (session_key token_hash);; mret None
  end.

Definition find_session (token_hash : pystr) : tx (option (uuid * ControlSession)) :=
  cached ← cached_session token_hash;
  match cached with
  | Some r => mret (Some r)
  | None => query (λ db, head (select_rows (λ _ s, bool_decide (cs_token_hash s = token_hash))
                                 (sessions db)))
  end.

(** [db.refresh(record, ["revoked_at", "expires_at"])]. *)
Definition refresh_session (id : uuid) (s : ControlSession) : tx ControlSession :=
  stored ← query (λ db, sessions db !! id);
  match stored with
  | None => raise InvalidRequestError
  | Some s' => mret (s <| cs_revoked_at := cs_revoked_at s' |>
                       <| cs_expires_at := cs_expires_at s' |>)
  end.

(** Caching the row and touching it. *)
Definition keep_session (id : uuid) (s : ControlSession) (token_hash : pystr) (t : Z)
    (touch : bool) : tx (uuid * ControlSession) :=
  _cache_set (session_key token_hash) (uuid_str id) (remaining_seconds s t);;
  if touch && (30000000 <=? t - cs_last_seen_at s) then
    update_session id (λ r, r <| cs_last_seen_at := t |>);;
    commit;;
    mret (id, s <| cs_last_seen_at := t |>)
  else mret (id, s).

Definition resolve (raw_token : option pystr) (touch verify_upstream force_upstream : bool) :
    tx (option (uuid * ControlSession)) :=
  match raw_token with
  | None => mret None
  | Some raw_token =>
      if negb (py_truthy raw_token) then mret None
      else
        let token_hash := digest CONTROL_SESSION_DIGEST_PURPOSE raw_token in
        let none := _cache_delete (session_key token_hash);; mret None in
        record ← find_session token_hash;
        match record with
        | None => none
        | Some (id, s) =>
            if negb (bool_decide (cs_revoked_at s = None)) then none
            else
              t ← now;
              if cs_expires_at s <=? t then none
              else
                credential ← of_outcome (unseal raw_token);
                match credential with
                | None => none
                | Some c =>
                    if negb (sc_session_id c =? id)%N then none
                    else if verify_upstream then
                      verified ← _verify_upstream_identity id s (sc_access_token c) force_upstream;
                      if negb verified then mret None
                      else
                        s ← refresh_session id s;
                        t ← now;
                        if negb (bool_decide (cs_revoked_at s = None)) || (cs_expires_at s <=? t)
                        then none
                        else
                          r ← keep_session id s token_hash t touch;
                          mret (Some r)
                    else
                      r ← keep_session id s token_hash t touch;
                      mret (Some r)
                end
        end
  end.
End resolve.

Definition valid_csrf (s : ControlSession) (cookie_token header_token : pystr) : outcome bool :=
  match compare_digest cookie_token header_token with
  | Raise e => Raise e
  | Ok false => Ok false
  | Ok true => Ok (matches "csrf" header_token (cs_csrf_token_hash s))
  end.
End sessions.
