(* ===== verification/SessionSafety.v ===== *)
(** * What sessions promise

    Who is resolved, what the cache may and may not do, what the upstream's
    verdict does to a session, and the bounds on a user's sessions. *)

From stdpp Require Import base list gmap.
From Stdlib Require Import NArith ZArith Lia.
From S2P Require Import Prelude Config Base64 Json Models Storage World Testbed Security Capacity Events.
From S2P Require Import Retention Sub2api Sessions.
Open Scope Z_scope.

Section cache.
Context {P : Platform}.

Lemma silent_cache_get k : silent (_cache_get k).
Proof. unfold _cache_get. solve_silent. Qed.
Lemma silent_cache_set k v ttl : silent (_cache_set k v ttl).
Proof. unfold _cache_set. solve_silent. Qed.
Lemma silent_cache_delete k : silent (_cache_delete k).
Proof. unfold _cache_delete. solve_silent. Qed.
Hint Resolve silent_cache_get silent_cache_set silent_cache_delete : silent.

Lemma silent_valid_marker id s m : silent (_valid_upstream_marker id s m).
Proof. unfold _valid_upstream_marker. solve_silent. Qed.
Lemma silent_cache_upstream id s : silent (_cache_upstream_verification id s).
Proof. unfold _cache_upstream_verification, _upstream_marker. solve_silent. Qed.
Lemma silent_cached_session h : silent (cached_session h).
Proof. unfold cached_session. solve_silent. Qed.
Hint Resolve silent_cached_session : silent.
Lemma silent_find_session h : silent (find_session h).
Proof. unfold find_session. solve_silent. Qed.
Lemma silent_invalidate id s : silent (_invalidate_revoked_session id s).
Proof. unfold _invalidate_revoked_session. solve_silent. Qed.

Lemma silent_ok_inv {A} (m : tx A) w a w' :
  silent m → m w = (Ok a, w') → working w' = working w ∧ durable w' = durable w.
Proof. intros Hm E. destruct (Hm w) as [H1 H2]. by rewrite E in H1, H2. Qed.

(** A row with the given token hash. *)
Definition session_row (h : pystr) (db : database) (r : uuid * ControlSession) : Prop :=
  sessions db !! r.1 = Some r.2 ∧ cs_token_hash r.2 = h.

Lemma cached_session_ok h w r w' :
  cached_session h w = (Ok (Some r), w') → session_row h (working w) r.
Proof.
  unfold cached_session. intros (raw & w1 & E1 & E)%bind_ok_inv.
  destruct (silent_ok_inv _ _ _ _ (silent_cache_get _) E1) as [Hw _].
  destruct raw as [raw|]; [|done].
  apply bind_ok_inv in E as (row & w2 & [-> ->]%query_ok_inv & E). rewrite Hw in E.
  case_bool_decide as Hh; [|by apply bind_ok_inv in E as (? & ? & _ & E)].
  destruct (uuid_of_text raw) as [i|]; simpl in *; [|done].
  destruct (sessions (working w) !! i) as [s|] eqn:Hs; simpl in *; [|done].
  by injection E as <- _.
Qed.

Lemma select_session_ok h db r :
  head (select_rows (λ _ s, bool_decide (cs_token_hash s = h)) (sessions db)) = Some r →
  session_row h db r.
Proof.
  destruct (select_rows _ _) as [|x l] eqn:El; [done|]. intros [= <-]. destruct x as [id s].
  assert (Hin : (id, s) ∈ (id, s) :: l) by left. rewrite <- El in Hin.
  apply elem_of_select_rows in Hin as [? ?]. by reflect_bools.
Qed.

(** The store's word is checked against the row. *)
Lemma find_session_ok h w r w' :
  find_session h w = (Ok (Some r), w') → session_row h (working w) r.
Proof.
  unfold find_session. intros (c & w1 & E1 & E)%bind_ok_inv.
  destruct (silent_ok_inv _ _ _ _ (silent_cached_session _) E1) as [Hw _].
  destruct c as [x|]; [injection E as -> _; by eapply cached_session_ok|].
  apply query_ok_inv in E as [Hr _]. rewrite Hw in Hr. by apply select_session_ok.
Qed.
End cache.

#[export] Hint Resolve silent_cache_get silent_cache_set silent_cache_delete silent_cached_session
  silent_find_session silent_valid_marker silent_cache_upstream silent_invalidate : silent.

(** ** The upstream's verdict *)

(** [db'] is [db] after the session was revoked, unless it already was or is
    gone, with audit records. *)
Record revoked_in (id : uuid) (db db' : database) : Prop := {
  rv_row s : sessions db !! id = Some s →
    ∃ s', sessions db' !! id = Some s' ∧ cs_revoked_at s' ≠ None
      ∧ s' = s <| cs_revoked_at := cs_revoked_at s' |>;
  rv_gone : sessions db !! id = None → sessions db' !! id = None;
  rv_rest : ∃ m l, delete id m = delete id (sessions db)
    ∧ db' = db <| sessions := m |> <| audit := audit db ++ l |>;
}.

Section upstream.
Context {P : Platform} {U : Upstream}.

Lemma revoked_in_save id s t l db :
  sessions db !! id = Some s →
  let db' := db <| sessions := alter (set_revoked t) id (sessions db) |> in
  revoked_in id db (db' <| audit := audit db' ++ l |>).
Proof.
  intros Hs db'. split.
  - intros s0 Hs0. simpl. rewrite lookup_alter_eq, Hs0. by eexists.
  - congruence.
  - eexists _, l. split; [|done]. by rewrite delete_alter_eq.
Qed.

Lemma revoked_in_same id db :
  (∀ s, sessions db !! id = Some s → cs_revoked_at s ≠ None) → revoked_in id db db.
Proof.
  intros H. split.
  - intros s Hs. exists s. split_and!; [done|by apply H|by destruct s].
  - done.
  - exists (sessions db), []. split; [done|]. rewrite app_nil_r. by destruct db.
Qed.

Lemma wp_audit_append a b c d e f g h k (Q : outcome unit → world → Prop) w :
  (∀ l w', working w' = (working w) <| audit := audit (working w) ++ l |> →
     durable w' = durable w → Q (Ok tt) w') →
  wp (add_audit a b c d e f g h k) Q w.
Proof. intros HQ. by eapply HQ. Qed.

Lemma invalidate_ok id s w : ∃ u, (_invalidate_revoked_session id s w).1 = Ok u.
Proof.
  unfold _invalidate_revoked_session, mbind, tx_bind.
  repeat match goal with |- context [best_effort ?m ?x] =>
    destruct (best_effort_ok m x) as [[] ?]; destruct (best_effort m x) as [[]]; simplify_eq/= end.
  eauto.
Qed.

Lemma wp_revoke_rejected id s reason (Q : outcome unit → world → Prop) w :
  (∀ w', revoked_in id (working w) (durable w') → working w' = durable w' → Q (Ok tt) w') →
  wp (_revoke_for_upstream_rejection id s reason) Q w.
Proof.
  intros HQ. unfold _revoke_for_upstream_rejection. do 4 wp_step.
  assert (Hend : ∀ v, revoked_in id (working w) (working v) →
    wp (commit;; _invalidate_revoked_session id s) Q v).
  { intros v Hv. do 2 wp_step. apply wp_silent_ok; [apply silent_invalidate|..].
    - intros u. unfold _invalidate_revoked_session, mbind, tx_bind.
      repeat match goal with |- context [best_effort ?m ?x] =>
        destruct (best_effort_ok m x) as [[] ?]; destruct (best_effort m x) as [[]]; simplify_eq/= end.
      eauto.
    - intros [] v' Hw' Hd'. apply HQ; congruence. }
  case_bool_decide as Hs.
  - destruct (sessions (working w) !! id) as [s0|] eqn:Hs0; [|done].
    do 3 wp_step. apply wp_audit_append. intros l w2 Hw2 Hd2. apply Hend.
    rewrite Hw2, Hw0. by apply (revoked_in_save id s0).
  - do 2 wp_step. apply Hend. rewrite Hw. apply revoked_in_same. intros s0 Hs0 Hr.
    apply Hs. by rewrite Hs0, <- Hr.
Qed.

(** The upstream vouches for the session's user. *)
Definition vouches (s : ControlSession) (r : outcome Sub2APIUser) : Prop :=
  ∃ user, r = Ok user ∧ su_user_id user = cs_user_id s
    ∧ compare_digest (default "" (su_token_version user)) (default "" (cs_token_version s)) = Ok true.

(** The stored token version cannot be compared with the upstream's. *)
Definition incomparable (s : ControlSession) (r : outcome Sub2APIUser) : Prop :=
  ∃ user, r = Ok user ∧ su_user_id user = cs_user_id s
    ∧ compare_digest (default "" (su_token_version user)) (default "" (cs_token_version s))
      = Raise TypeError.

(** The upstream rejects the token, or vouches for someone else. *)
Definition rejects (s : ControlSession) (r : outcome Sub2APIUser) : Prop :=
  match r with
  | Ok _ => ¬ vouches s r ∧ ¬ incomparable s r
  | Raise e => e = DisabledSub2APIUser ∨ e = RevokedSub2APIToken ∨ e = InvalidSub2APIToken
  end.

Lemma cache_upstream_ok id s w : (_cache_upstream_verification id s w).1 = Ok tt.
Proof.
  unfold _cache_upstream_verification, _upstream_marker, mbind, tx_bind, now. cbn [fst snd mret tx_ret].
  unfold _cache_set. destruct (best_effort_ok (store_set (_upstream_marker_key id)
    ("v1." +++ PyStr (py_str_int (Z.quot (clock (S (ticks w))) 1000000)) +++ "."
     +++ _upstream_marker_signature id s (Z.quot (clock (S (ticks w))) 1000000))
    (Z.min (session_upstream_recheck_seconds settings) (remaining_seconds s (clock (ticks w)))))
    (w <| ticks := S (ticks w) |> <| ticks := S (S (ticks w)) |>)) as [[] E]. exact E.
Qed.

Lemma compare_digest_raise a b e : compare_digest a b = Raise e → e = TypeError.
Proof. unfold compare_digest. destruct (_ && _); congruence. Qed.

(** Settling a verdict in a session without writes. *)
Definition settled (id : uuid) (s : ControlSession) (r : outcome Sub2APIUser) (db : database)
    (o : outcome bool) (w' : world) : Prop :=
  (vouches s r ∧ o = Ok true ∧ working w' = db ∧ durable w' = db)
  ∨ (rejects s r ∧ o = Ok false ∧ working w' = durable w' ∧ revoked_in id db (durable w'))
  ∨ (incomparable s r ∧ o = Raise TypeError ∧ working w' = db ∧ durable w' = db).

Lemma settle_verdict_spec id s r w :
  working w = durable w →
  match r with Ok _ => True | Raise _ => rejects s r end →
  wp (settle_verdict id s r) (settled id s r (durable w)) w.
Proof.
  intros Hwd Hr.
  assert (Hreject : ∀ reason, rejects s r → wp (_revoke_for_upstream_rejection id s reason;; mret false)
    (settled id s r (durable w)) w).
  { intros reason Hrej. wp_step. apply wp_revoke_rejected. intros w' Hrv Hw'. wp_step.
    right. left. rewrite <- Hwd. done. }
  unfold settle_verdict. destruct r as [user|e]; [|by destruct e; apply Hreject].
  case_bool_decide as Hu; cbn [negb].
  2: { apply Hreject. by split; intros (? & [= <-] & ? & _). }
  wp_step. unfold wp at 1. cbn [of_outcome fst snd].
  destruct (compare_digest _ _) as [[]|e] eqn:Hc; cbn [negb].
  - wp_step. unfold wp at 1. rewrite cache_upstream_ok. destruct (silent_cache_upstream id s w) as [H1 H2].
    wp_step. left. split; [by exists user|]. by rewrite H1, H2, Hwd.
  - apply Hreject. split; intros (? & [= <-] & _ & ?); congruence.
  - apply compare_digest_raise in Hc as He. subst e.
    right. right. split_and!; [by exists user|congruence..].
Qed.

Lemma ask_upstream_spec s token w :
  let r := read_auth_me (auth_me (ticks w) token (request_identity s)) in
  (ask_upstream s token w).2 = w <| ticks := S (ticks w) |>
  ∧ (ask_upstream s token w).1
    = match r with
      | Ok user => Ok (Ok user)
      | Raise (DisabledSub2APIUser | RevokedSub2APIToken | InvalidSub2APIToken) as r => Ok r
      | Raise e => Raise e
      end.
Proof.
  unfold ask_upstream, try_catch, mbind, tx_bind, verify_access_token.
  by destruct (read_auth_me _) as [user|[]].
Qed.

(** [verify_user] answers by the verdict of the upstream. *)
Lemma verify_user_spec meanwhile id s token w :
  let r := read_auth_me (auth_me (ticks w) token (request_identity s)) in
  wp (verify_user meanwhile id s token) (λ o w',
    settled id s r (meanwhile (durable w)) o w'
    ∨ ∃ e, r = Raise e ∧ ¬ rejects s r ∧ o = Raise e
        ∧ working w' = meanwhile (durable w) ∧ durable w' = meanwhile (durable w)) w.
Proof.
  intros r. unfold verify_user. wp_step. unfold wp at 1. cbn [other_transactions fst snd].
  set (w1 := w <| durable := _ |> <| working := _ |>).
  wp_step. unfold wp at 1.
  pose proof (ask_upstream_spec s token w1) as [E2 E1]. rewrite E2, E1.
  assert (Hs : ∀ r', r' = r → match r' with Ok _ => True | Raise _ => rejects s r' end →
    wp (settle_verdict id s r') (λ o w', settled id s r (meanwhile (durable w)) o w'
      ∨ ∃ e, r = Raise e ∧ ¬ rejects s r ∧ o = Raise e
        ∧ working w' = meanwhile (durable w) ∧ durable w' = meanwhile (durable w))
      (w1 <| ticks := S (ticks w1) |>)).
  { intros r' -> Hr'. eapply wp_mono; [by apply settle_verdict_spec|]. intros o w' H. by left. }
  change (read_auth_me _) with r. destruct r as [user|e] eqn:Er; [by apply Hs|].
  destruct e; try (apply Hs; [done|unfold rejects; tauto]).
  all: right; eexists; split_and!; [done| |done..]; unfold rejects; naive_solver.
Qed.
End upstream.

(** ** Who is resolved *)

Section resolve.
Context {P : Platform} {U : Upstream}.

Lemma marker_key_not_session id h : _upstream_marker_key id ≠ session_key h.
Proof. intros E%(f_equal (λ s, codepoints s !! 7%nat)). discriminate. Qed.
Hint Resolve marker_key_not_session : leaves.

Lemma find_leaves_marker `{!MonotonicClock P} id h : leaves (_upstream_marker_key id) (find_session h).
Proof. solve_leaves. Qed.

Lemma valid_marker_ok id s m w w' :
  _valid_upstream_marker id s m w = (Ok true, w') →
  ticks w' = S (ticks w)
  ∧ ∃ marker verified_at, m = Some marker
      ∧ read_marker marker = Some (verified_at, _upstream_marker_signature id s verified_at)
      ∧ 0 ≤ clock (ticks w) - verified_at * 1000000
          < session_upstream_recheck_seconds settings * 1000000.
Proof.
  unfold _valid_upstream_marker. destruct (m ≫= read_marker) as [[v sg]|] eqn:Em; [|done].
  destruct m as [m|]; [|done]. simpl in Em.
  intros (t & w1 & [= <- <-] & E)%bind_ok_inv.
  apply bind_ok_inv in E as ([] & w2 & [_ ->]%guard_ok_inv & E).
  destruct (_ || _) eqn:Ha in E; [done|]. injection E as E <-. reflect_bools. subst sg.
  split; [done|]. exists m, v. split; [done|]. split; [done|lia].
Qed.

(** What the store answers to a read that succeeds. *)
Lemma cache_get_some k w m w' :
  _cache_get k w = (Ok (Some m), w') →
  kv_view (monotonic (ticks w)) (store w) !! k = Some m ∧ ticks w' = S (ticks w).
Proof.
  unfold _cache_get, try_catch, store_get, store_op. destruct (store_up _); [|done].
  rewrite <- (kv_get_spec (monotonic (ticks w)) k (store w)).
  destruct (kv_get _ _ _) as [a s]. by intros [= -> <-].
Qed.

Section identity.
Context (meanwhile : database → database) (id : uuid) (s : ControlSession) (token : pystr).

(** The [k]-th reading of the environment, after [w], finds a marker that this
    service signed for the row, and the clock shows it is younger than the
    recheck interval.  It is what the store held in [w]. *)
Definition marked (w : world) (k : nat) : Prop :=
  ∃ marker verified_at,
    (MonotonicClock P →
     kv_view (monotonic k) (store w) !! _upstream_marker_key id = Some marker)
    ∧ read_marker marker = Some (verified_at, _upstream_marker_signature id s verified_at)
    ∧ 0 ≤ clock (S k) - verified_at * 1000000
        < session_upstream_recheck_seconds settings * 1000000.

Lemma marked_earlier w w' k :
  (MonotonicClock P → left_alone (_upstream_marker_key id) w w') → (ticks w' ≤ k)%nat →
  marked w' k → marked w k.
Proof.
  intros Hl Hk (m & v & Hm & Hr & Ha). exists m, v. split; [|done].
  intros Hmono. destruct (Hl Hmono) as [_ Hv]. rewrite <- Hv; [by apply Hm|].
  by apply cl_monotonic.
Qed.

Notation marker_check :=
  (cached_marker ← _cache_get (_upstream_marker_key id); _valid_upstream_marker id s cached_marker).

Lemma marker_check_leaves `{!MonotonicClock P} : leaves (_upstream_marker_key id) marker_check.
Proof. solve_leaves. Qed.
Lemma marker_check_forward : forward marker_check.
Proof. solve_forward. Qed.

Lemma marker_check_ok w b w' :
  marker_check w = (Ok b, w') →
  working w' = working w ∧ durable w' = durable w ∧ (ticks w ≤ ticks w')%nat
  ∧ (MonotonicClock P → left_alone (_upstream_marker_key id) w w')
  ∧ (b = true → marked w (ticks w) ∧ ticks w' = S (S (ticks w))).
Proof.
  intros E. assert (Hs : silent marker_check) by solve_silent.
  destruct (silent_ok_inv _ _ _ _ Hs E) as [Hw Hd]. split; [done|]. split; [done|].
  pose proof (marker_check_forward w) as Hf. rewrite E in Hf. split; [done|]. split.
  { intros Hm. pose proof (marker_check_leaves w) as H. by rewrite E in H. }
  intros ->. apply bind_ok_inv in E as (m & w1 & E1 & E).
  apply valid_marker_ok in E as (Ht & m' & v & -> & Hr & Ha).
  apply cache_get_some in E1 as [Hv Ht1]. rewrite Ht1 in Ha, Ht. split; [|lia]. exists m', v.
  split; [done|]. split; [done|lia].
Qed.

Lemma verify_user_forward w : (S (ticks w) ≤ ticks (verify_user meanwhile id s token w).2)%nat.
Proof.
  unfold verify_user, mbind, tx_bind. cbn [other_transactions fst snd].
  set (v := w <| durable := _ |> <| working := _ |>).
  destruct (ask_upstream_spec s token v) as [E _].
  destruct (ask_upstream s token v) as [[r|e] v']; simpl in E; subst v'; [|done].
  assert (Hs : forward (settle_verdict id s r)) by solve_forward.
  exact (Hs (v <| ticks := S (ticks v) |>)).
Qed.

Lemma verify_user_ok w w' :
  verify_user meanwhile id s token w = (Ok true, w') →
  vouches s (read_auth_me (auth_me (ticks w) token (request_identity s)))
  ∧ working w' = meanwhile (durable w) ∧ durable w' = meanwhile (durable w).
Proof.
  intros E. pose proof (verify_user_spec meanwhile id s token w) as H. unfold wp in H.
  rewrite E in H. simpl in H.
  destruct H as [[(? & _ & ? & ?)|[(_ & ? & _)|(_ & ? & _)]]|(e & _ & _ & ? & _)]; by simplify_eq.
Qed.

(** The identity was verified between the [lo]-th and the [hi]-th reading: by a
    marker in the store, and nothing else ran; or by the upstream, while other
    transactions did.  [db] is what the session sees afterwards. *)
Definition verified (force : bool) (w : world) (lo hi : nat) (db : database) : Prop :=
  (force = false ∧ (∃ k, (lo ≤ k)%nat ∧ (S k < hi)%nat ∧ marked w k) ∧ db = working w)
  ∨ (∃ k, (lo ≤ k < hi)%nat ∧ vouches s (read_auth_me (auth_me k token (request_identity s))))
    ∧ db = meanwhile (durable w).

Lemma verified_earlier force w v lo hi db :
  working v = working w → durable v = durable w → (ticks v ≤ lo)%nat →
  (MonotonicClock P → left_alone (_upstream_marker_key id) w v) →
  verified force v lo hi db → verified force w lo hi db.
Proof.
  intros Hw Hd Ht Hl [(-> & (k & Hlo & Hhi & Hm) & ->)|(Hv & ->)]; [left|right]; [|by rewrite Hd].
  split_and!; [done| |done]. exists k. split_and!; [done..|]. apply (marked_earlier w v); auto.
  by etrans.
Qed.

Lemma verify_identity_ok force w w' :
  _verify_upstream_identity meanwhile id s token force w = (Ok true, w') →
  verified force w (ticks w) (ticks w') (working w').
Proof.
  intros E. unfold _verify_upstream_identity in E.
  assert (Hm : ∀ v b v', (if force then mret false else marker_check) v = (Ok b, v') →
    working v' = working v ∧ durable v' = durable v ∧ (ticks v ≤ ticks v')%nat
    ∧ (MonotonicClock P → left_alone (_upstream_marker_key id) v v')
    ∧ (b = true → force = false ∧ marked v (ticks v) ∧ ticks v' = S (S (ticks v)))).
  { intros v b v'. destruct force.
    - intros [= <- <-]. by split_and!.
    - intros (H1 & H2 & H3 & H4 & H5)%marker_check_ok. split_and!; [done..|]. intros Hb.
      split; [done|by apply H5]. }
  apply bind_ok_inv in E as (b1 & w1 & (Hw1 & Hd1 & Ht1 & Hl1 & Hb1)%Hm & E).
  destruct b1.
  { injection E as <-. destruct (Hb1 eq_refl) as (-> & Hmk & Ht).
    left. split; [done|]. split; [|done]. exists (ticks w). split; [done|]. split; [lia|done]. }
  apply bind_ok_inv in E as (b2 & w2 & (Hw2 & Hd2 & Ht2 & Hl2 & Hb2)%Hm & E).
  destruct b2.
  { injection E as <-. destruct (Hb2 eq_refl) as (-> & Hmk & Ht).
    left. split; [done|]. split; [|congruence]. exists (ticks w1). split; [done|]. split; [lia|].
    by eapply marked_earlier. }
  pose proof (verify_user_forward w2) as Hf. rewrite E in Hf. simpl in Hf.
  apply verify_user_ok in E as (Hv & Hw & Hd). right. split; [|congruence].
  exists (ticks w2). split; [lia|done].
Qed.
End identity.

(** A row that may be used at the [n]-th reading of the clock. *)
Definition usable (n : nat) (s : ControlSession) : Prop :=
  cs_revoked_at s = None ∧ clock n < cs_expires_at s.

Lemma refresh_session_ok id s w s' w' :
  refresh_session id s w = (Ok s', w') →
  w' = w ∧ ∃ s1, sessions (working w) !! id = Some s1
    ∧ s' = s <| cs_revoked_at := cs_revoked_at s1 |> <| cs_expires_at := cs_expires_at s1 |>.
Proof.
  unfold refresh_session. intros (o & w1 & [-> ->]%query_ok_inv & E)%bind_ok_inv.
  destruct (sessions (working w) !! id) as [s1|]; [|done]. injection E as <- <-. eauto.
Qed.

(** Caching and touching return the row, but for when it was last seen. *)
Lemma keep_session_ok id s h t touch w r w' :
  keep_session id s h t touch w = (Ok r, w') →
  r.1 = id ∧ r.2 = s <| cs_last_seen_at := cs_last_seen_at r.2 |>.
Proof.
  unfold keep_session. intros (? & w1 & _ & E)%bind_ok_inv. destruct (_ && _).
  - apply bind_ok_inv in E as (? & w2 & _ & E). apply bind_ok_inv in E as (? & w3 & _ & E).
    by injection E as <- _.
  - injection E as <- _. split; [done|]. by destruct s.
Qed.

(** What a resolved session is: [s0] the row found for the token, [s] what the
    caller gets.  Verification is followed by another look at the row, as it is
    in [db] then, and at the clock. *)
Record resolved (raw : pystr) (verify force : bool) (meanwhile : database → database)
    (w w' : world) (id : uuid) (s : ControlSession) : Prop := {
  rs_found : ∃ s0 c n,
    session_row (digest CONTROL_SESSION_DIGEST_PURPOSE raw) (working w) (id, s0)
    ∧ unseal raw = Ok (Some c) ∧ sc_session_id c = id
    ∧ (ticks w ≤ n ≤ ticks w + 2)%nat ∧ usable n s0
    ∧ cs_user_id s = cs_user_id s0 ∧ cs_csrf_token_hash s = cs_csrf_token_hash s0
    ∧ cs_issued_at s = cs_issued_at s0
    ∧ if verify
      then ∃ m db s1, verified meanwhile id s0 (sc_access_token c) force w (S n) m db
        ∧ (m < ticks w')%nat ∧ sessions db !! id = Some s1 ∧ usable m s1
        ∧ cs_revoked_at s = cs_revoked_at s1 ∧ cs_expires_at s = cs_expires_at s1
      else cs_revoked_at s = cs_revoked_at s0 ∧ cs_expires_at s = cs_expires_at s0;
}.

Lemma silent_none {A} h w w' (a : A) :
  (_cache_delete h;; mret (None : option A)) w = (Ok (Some a), w') → False.
Proof. intros (? & ? & _ & E)%bind_ok_inv. done. Qed.

(** Finding the row reads the environment at most twice. *)
Lemma find_ticks h w r w' :
  find_session h w = (Ok r, w') → (ticks w ≤ ticks w' ≤ ticks w + 2)%nat.
Proof.
  assert (Hg : ∀ k v, (ticks (_cache_get k v).2 = S (ticks v))%nat).
  { intros k v. unfold _cache_get, try_catch, store_get, store_op.
    by destruct (store_up _); [destruct (kv_get _ _ _)|]. }
  assert (Hd : ∀ v, (ticks (_cache_delete (session_key h) v).2 = S (ticks v))%nat).
  { intros v. unfold _cache_delete, best_effort, try_catch, store_delete, store_op.
    by destruct (store_up _). }
  assert (Hc : ∀ v o v', cached_session h v = (Ok o, v') → (ticks v ≤ ticks v' ≤ ticks v + 2)%nat).
  { intros v o v'. unfold cached_session. intros (raw & v1 & E1 & E)%bind_ok_inv.
    pose proof (Hg (session_key h) v) as Hv1. rewrite E1 in Hv1. simpl in Hv1.
    destruct raw as [raw|]; [|injection E as _ <-; lia].
    apply bind_ok_inv in E as (row & v2 & [_ ->]%query_ok_inv & E).
    case_bool_decide; [injection E as _ <-; lia|].
    apply bind_ok_inv in E as (u & v2 & E2 & E). injection E as _ <-.
    pose proof (Hd v1) as Hv. rewrite E2 in Hv. simpl in Hv. lia. }
  unfold find_session. intros (o & w1 & E1%Hc & E)%bind_ok_inv.
  destruct o; [by injection E as _ <-|]. by apply query_ok_inv in E as [_ ->].
Qed.

Lemma forward_find h w r w' : find_session h w = (Ok r, w') → (ticks w ≤ ticks w')%nat.
Proof. intros H%find_ticks. lia. Qed.

Lemma keep_session_forward id s h t touch : forward (keep_session id s h t touch).
Proof. solve_forward. Qed.

Lemma resolve_ok meanwhile raw touch verify force w id s w' :
  resolve meanwhile (Some raw) touch verify force w = (Ok (Some (id, s)), w') →
  resolved raw verify force meanwhile w w' id s.
Proof.
  intros E. unfold resolve in E. destruct (py_truthy raw); [|done]. cbn [negb] in E.
  apply bind_ok_inv in E as (o & w1 & Ef & E).
  destruct (silent_ok_inv _ _ _ _ (silent_find_session _) Ef) as [Hw1 Hd1].
  pose proof (find_ticks _ _ _ _ Ef) as Ht1.
  assert (Hl1 : MonotonicClock P → ∀ id, left_alone (_upstream_marker_key id) w w1).
  { intros Hm j. pose proof (find_leaves_marker j (digest CONTROL_SESSION_DIGEST_PURPOSE raw) w) as H.
    by rewrite Ef in H. }
  destruct o as [[i s0]|]; [|by apply silent_none in E].
  apply find_session_ok in Ef as Hrow.
  case_bool_decide as Hr0; cbn [negb] in E; [|by apply silent_none in E].
  apply bind_ok_inv in E as (t & w2 & [= <- <-] & E).
  destruct (Z.leb_spec (cs_expires_at s0) (clock (ticks w1))) as [|Hx0];
    [by apply silent_none in E|].
  apply bind_ok_inv in E as (o & w2 & [Hc ->]%of_outcome_ok_inv & E).
  destruct o as [c|]; [|by apply silent_none in E].
  destruct (N.eqb_spec (sc_session_id c) i) as [Hi|]; cbn [negb] in E; [|by apply silent_none in E].
  destruct verify.
  - apply bind_ok_inv in E as (b & w3 & Ev & E).
    destruct b; cbn [negb] in E; [|done].
    apply verify_identity_ok in Ev.
    apply bind_ok_inv in E as (s2 & w4 & [-> (s1 & Hs1 & ->)]%refresh_session_ok & E).
    apply bind_ok_inv in E as (t & w4 & [= <- <-] & E).
    destruct (_ || _) eqn:Hend in E; [by apply silent_none in E|].
    apply bind_ok_inv in E as (r & w4 & Ek & E). injection E as -> <-.
    pose proof (keep_session_forward i (s0 <| cs_revoked_at := cs_revoked_at s1 |>
      <| cs_expires_at := cs_expires_at s1 |>) (digest CONTROL_SESSION_DIGEST_PURPOSE raw)
      (clock (ticks w3)) touch (w3 <| ticks := S (ticks w3) |>)) as Hf.
    unfold update_field in *. rewrite Ek in Hf. simpl in Hf.
    apply keep_session_ok in Ek as [Hid Hs]. simpl in Hid, Hs. subst i. rewrite Hs.
    reflect_bools. simpl in *.
    split. exists s0, c, (ticks w1). split_and!; try done; try lia.
    exists (ticks w3), (working w3), s1. split_and!; try done; try lia.
    eapply verified_earlier; [..|exact Ev]; [done..| |]; [simpl; lia|].
    intros Hm. etrans; [by apply Hl1|]. apply left_alone_same; [done|simpl; lia].
  - apply bind_ok_inv in E as (r & w3 & Ek & E). injection E as -> _.
    apply keep_session_ok in Ek as [Hid Hs]. simpl in Hid, Hs. subst i. rewrite Hs.
    split. exists s0, c, (ticks w1). split_and!; try done; lia.
Qed.
End resolve.

(** ** The cache decides nothing *)

Section transparent.
Context {P : Platform} {U : Upstream}.

(** The reference: what the database alone says of a token at [t]. *)
Definition session_lookup (db : database) (raw : pystr) (t : Z) :
    outcome (option (uuid * ControlSession)) :=
  if negb (py_truthy raw) then Ok None
  else
    let token_hash := digest CONTROL_SESSION_DIGEST_PURPOSE raw in
    match head (select_rows (λ _ s, bool_decide (cs_token_hash s = token_hash)) (sessions db)) with
    | None => Ok None
    | Some (id, s) =>
        if session_live t s then
          match unseal raw with
          | Raise e => Raise e
          | Ok None => Ok None
          | Ok (Some c) => if (sc_session_id c =? id)%N then Ok (Some (id, s)) else Ok None
          end
        else Ok None
    end.

(** The unique constraint of [token_hash]. *)
Definition token_hashes_unique (db : database) : Prop :=
  ∀ i j s s', sessions db !! i = Some s → sessions db !! j = Some s' →
    cs_token_hash s = cs_token_hash s' → i = j.

Lemma select_session_unique h db r :
  token_hashes_unique db → session_row h db r →
  head (select_rows (λ _ s, bool_decide (cs_token_hash s = h)) (sessions db)) = Some r.
Proof.
  intros Hu [Hr Hh]. destruct r as [id s]. simpl in *.
  assert (Hin : (id, s) ∈ select_rows (λ _ s, bool_decide (cs_token_hash s = h)) (sessions db)).
  { apply elem_of_select_rows. split; [done|]. by apply bool_decide_true. }
  destruct (select_rows _ _) as [|[i s'] l] eqn:El; [by apply not_elem_of_nil in Hin|]. simpl.
  assert (Hin' : (i, s') ∈ (i, s') :: l) by left. rewrite <- El in Hin'.
  apply elem_of_select_rows in Hin' as [Hi Hh']. reflect_bools.
  assert (i = id) as -> by (eapply Hu; [exact Hi|exact Hr|congruence]). congruence.
Qed.

Lemma cache_get_ok k w : ∃ o, (_cache_get k w).1 = Ok o.
Proof. unfold _cache_get, try_catch. destruct (store_get k w) as [[o|e] v]; simpl; eauto. Qed.

Lemma cached_session_total h w : ∃ o, (cached_session h w).1 = Ok o.
Proof.
  unfold cached_session, mbind, tx_bind. destruct (cache_get_ok (session_key h) w) as [o Ho].
  destruct (_cache_get _ w) as [r v]. simpl in Ho. subst r. destruct o as [raw|]; [|eauto].
  cbn [query fst snd]. case_bool_decide; [by eexists|].
  destruct (best_effort_ok (store_delete (session_key h)) v) as [[] Hb]. unfold _cache_delete.
  destruct (best_effort _ v) as [r v']. simpl in Hb. subst r. by eexists.
Qed.

(** Looking through the cache finds what the table holds. *)
Lemma find_session_spec h w :
  token_hashes_unique (working w) →
  ∃ w', find_session h w = (Ok (head (select_rows (λ _ s, bool_decide (cs_token_hash s = h))
                                       (sessions (working w)))), w').
Proof.
  intros Hu. unfold find_session. destruct (cached_session_total h w) as [o Ho].
  destruct (cached_session h w) as [r w1] eqn:E. simpl in Ho. subst r.
  destruct (silent_ok_inv _ _ _ _ (silent_cached_session _) E) as [Hw _].
  rewrite (run_bind _ _ _ _ _ E). destruct o as [x|].
  - apply cached_session_ok in E. exists w1. by rewrite (select_session_unique h _ x).
  - exists w1. unfold query. by rewrite Hw.
Qed.

Lemma none_run h w : ∃ w', (_cache_delete h;; mret (None : option (uuid * ControlSession))) w
  = (Ok None, w').
Proof.
  unfold _cache_delete. destruct (best_effort_ok (store_delete h) w) as [[] Hb].
  destruct (best_effort _ w) as [r v] eqn:E. simpl in Hb. subst r. rewrite (run_bind _ _ _ _ _ E).
  by exists v.
Qed.

Lemma keep_untouched id s h t w : ∃ w', keep_session id s h t false w = (Ok (id, s), w').
Proof.
  unfold keep_session, _cache_set. cbn [andb].
  destruct (best_effort_ok (store_set (session_key h) (uuid_str id) (remaining_seconds s t)) w)
    as [[] Hb].
  destruct (best_effort _ w) as [r v] eqn:E. simpl in Hb. subst r.
  rewrite (run_bind _ _ _ _ _ E). by exists v.
Qed.

Lemma resolve_transparent meanwhile raw force w :
  token_hashes_unique (working w) →
  ∃ n, (ticks w ≤ n ≤ ticks w + 2)%nat
    ∧ (resolve meanwhile (Some raw) false false force w).1
      = session_lookup (working w) raw (clock n).
Proof.
  intros Hu. unfold resolve, session_lookup. destruct (py_truthy raw); cbn [negb].
  2: { exists (ticks w). split; [lia|done]. }
  set (h := digest CONTROL_SESSION_DIGEST_PURPOSE raw).
  destruct (find_session_spec h w Hu) as [w1 E]. pose proof (find_ticks _ _ _ _ E) as Ht.
  exists (ticks w1). split; [done|]. rewrite (run_bind _ _ _ _ _ E). clear E.
  destruct (head _) as [[id s]|].
  2: { by destruct (none_run (session_key h) w1) as [v ->]. }
  unfold session_live. case_bool_decide as Hr; cbn [negb andb].
  2: { by destruct (none_run (session_key h) w1) as [v ->]. }
  rewrite (run_bind now _ w1 (clock (ticks w1)) (w1 <| ticks := S (ticks w1) |>)) by done.
  rewrite Z.leb_antisym. destruct (_ <? _); cbn [negb].
  2: { by destruct (none_run (session_key h) (w1 <| ticks := S (ticks w1) |>)) as [v ->]. }
  destruct (unseal raw) as [[c|]|e]; [| |done].
  2: { rewrite (run_bind (of_outcome _) _ _ None (w1 <| ticks := S (ticks w1) |>)) by done.
       by destruct (none_run (session_key h) (w1 <| ticks := S (ticks w1) |>)) as [v ->]. }
  rewrite (run_bind (of_outcome _) _ _ (Some c) (w1 <| ticks := S (ticks w1) |>)) by done.
  destruct (_ =? id)%N; cbn [negb].
  - destruct (keep_untouched id s h (clock (ticks w1)) (w1 <| ticks := S (ticks w1) |>)) as [v E].
    by rewrite (run_bind _ _ _ _ _ E).
  - by destruct (none_run (session_key h) (w1 <| ticks := S (ticks w1) |>)) as [v ->].
Qed.
End transparent.

(** ** Creating a session *)

Section creation.
Context {P : Platform}.

(** [db'] is [db] without some terminal sessions of the user. *)
Record pruned (user_id : pystr) (t : Z) (db db' : database) : Prop := {
  pn_kept id s : sessions db !! id = Some s →
    session_live t s = true ∨ cs_user_id s ≠ user_id → sessions db' !! id = Some s;
  pn_old id s : sessions db' !! id = Some s → sessions db !! id = Some s;
}.

#[global] Instance pruned_refl user t : Reflexive (pruned user t).
Proof. intros db. split; auto. Qed.

Lemma pruned_active user t db db' :
  pruned user t db db' → active_sessions user t db' ≤ active_sessions user t db.
Proof.
  intros [_ Ho]. apply count_rows_mono. intros k s Hk Hf. exists s. split; [by apply Ho|done].
Qed.

Lemma pruned_delete user t (ids : list uuid) db :
  (∀ id, id ∈ ids → ∃ s, sessions db !! id = Some s ∧ cs_user_id s = user
     ∧ session_live t s = false) →
  pruned user t db
    (default db (model_delete sessions_model (λ id _, bool_decide (id ∈ ids)) db)).
Proof.
  intros Hids. split; intros id s Hs.
  - intros Hkeep. change (survivors (λ id _, bool_decide (id ∈ ids)) (sessions db) !! id = Some s).
    apply map_lookup_filter_Some. split; [done|]. apply bool_decide_false. intros Hin.
    destruct (Hids id Hin) as (s' & Hs' & Hu & Hl). destruct Hkeep; congruence.
  - change (survivors (λ id _, bool_decide (id ∈ ids)) (sessions db) !! id = Some s) in Hs.
    by apply map_lookup_filter_Some in Hs as [? _].
Qed.

Lemma prunable_terminal user t n db id :
  id ∈ (take n (prunable user t db)).*1 →
  ∃ s, sessions db !! id = Some s ∧ cs_user_id s = user ∧ session_live t s = false.
Proof.
  intros ([i s] & -> & (k & Hk & _)%elem_of_take)%list_elem_of_fmap. exists s.
  apply list_elem_of_lookup_2 in Hk. unfold prunable in Hk.
  apply elem_of_order_by, elem_of_select_rows in Hk as [? ?]. unfold of_user in *.
  by reflect_bools.
Qed.

Lemma wp_prune_sessions user t (Q : outcome unit → world → Prop) w :
  (∀ w', pruned user t (working w) (working w') → durable w' = durable w →
     session_records user (working w') < owner_max_session_records settings → Q (Ok tt) w') →
  (∀ e w', durable w' = durable w → Q (Raise e) w') →
  wp (prune_sessions user t) Q w.
Proof.
  intros HQ HR. unfold prune_sessions. do 2 wp_step.
  destruct (Z.leb_spec (owner_max_session_records settings) (session_records user (working w)))
    as [Hn|Hn].
  2: { wp_step. by apply HQ. }
  do 6 wp_step. wp_step; [by apply HR|]. reflect_bools. apply HQ; [|done|by rewrite Hw].
  rewrite Hw. apply pruned_delete. intros id. apply prunable_terminal.
Qed.

Lemma wp_ticks {A} (m : tx A) (Q : outcome A → world → Prop) w n :
  ticks (m w).2 = n → wp m (λ r w', ticks w' = n → Q r w') w → wp m Q w.
Proof. intros E H. by apply H. Qed.

Lemma prune_ticks user t w : ticks (prune_sessions user t w).2 = ticks w.
Proof.
  unfold prune_sessions, mbind, tx_bind, query, guard_exn, modify, raise, mret, tx_ret.
  by repeat (case_match; simplify_eq/=).
Qed.

(** What a created session is. *)
Record created (user : Sub2APIUser) (w : world) (c : CreatedSession) (db : database) : Prop := {
  ct_row : sessions db !! cr_id c = Some (cr_record c);
  ct_id : ∃ n, (ticks w ≤ n)%nat ∧ cr_id c = uuid4 n;
  ct_user : cs_user_id (cr_record c) = su_user_id user;
  ct_version : cs_token_version (cr_record c) = su_token_version user;
  ct_live : session_live (clock (ticks w)) (cr_record c) = true;
  ct_expires : cs_expires_at (cr_record c)
    = clock (ticks w) + session_ttl_seconds settings * 1000000;
  ct_token : cs_token_hash (cr_record c)
    = digest CONTROL_SESSION_DIGEST_PURPOSE (ct_session_token (cr_cookies c));
  ct_csrf : cs_csrf_token_hash (cr_record c) = digest "csrf" (ct_csrf_token (cr_cookies c));
  ct_kept id s : sessions (working w) !! id = Some s →
    session_live (clock (ticks w)) s = true ∨ cs_user_id s ≠ su_user_id user →
    sessions db !! id = Some s;
  ct_old id s : sessions db !! id = Some s → id = cr_id c ∨ sessions (working w) !! id = Some s;
  ct_unique id s : sessions db !! id = Some s → cs_token_hash s = cs_token_hash (cr_record c) →
    id = cr_id c;
  ct_active : active_sessions (su_user_id user) (clock (ticks w)) db
    ≤ owner_max_active_sessions settings;
  ct_records : session_records (su_user_id user) db ≤ owner_max_session_records settings;
}.

Lemma wp_insert_session id s (Q : outcome unit → world → Prop) w :
  (sessions (working w) !! id = None →
   (∀ i s', sessions (working w) !! i = Some s' → cs_token_hash s' ≠ cs_token_hash s) →
   cs_issued_at s < cs_expires_at s →
   ∀ w', working w' = (working w) <| sessions := <[id := s]> (sessions (working w)) |> →
     durable w' = durable w → Q (Ok tt) w') →
  (Q (Raise IntegrityError) w) →
  wp (insert_session id s) Q w.
Proof.
  intros HQ HR. unfold insert_session. do 3 wp_step. wp_step; [exact HR|]. reflect_bools.
  wp_step. apply HQ; [by apply eq_None_not_Some| |lia|done|done].
  intros i s' Hi He. match goal with H : exists_row _ _ = false |- _ =>
    pose proof (exists_row_false _ _ i s' H Hi) as Hf end.
  simpl in Hf. by reflect_bools.
Qed.

Lemma silent_seal id token : silent (seal id token).
Proof. unfold seal. solve_silent. Qed.
Lemma silent_random_token n : silent (random_token n).
Proof. unfold random_token. solve_silent. Qed.

(** Inserting the new row among what the prune kept. *)
Lemma created_insert user meta w db u cookie csrf l :
  let t := clock (ticks w) in
  let s := new_session user (digest CONTROL_SESSION_DIGEST_PURPOSE cookie) (digest "csrf" csrf) t meta in
  (∃ n, (ticks w ≤ n)%nat ∧ u = uuid4 n) →
  pruned (su_user_id user) t (working w) db →
  active_sessions (su_user_id user) t db < owner_max_active_sessions settings →
  session_records (su_user_id user) db < owner_max_session_records settings →
  sessions db !! u = None →
  (∀ i s', sessions db !! i = Some s' → cs_token_hash s' ≠ cs_token_hash s) →
  cs_issued_at s < cs_expires_at s →
  let db' := db <| sessions := <[u := s]> (sessions db) |> in
  created user w {| cr_id := u; cr_record := s;
      cr_cookies := {| ct_session_token := cookie; ct_csrf_token := csrf |} |}
    (db' <| audit := audit db' ++ l |>).
Proof.
  intros t s Hid [Hk Ho] Hact Hrec Hfree Huniq Hlife db'.
  assert (Hlive : session_live t s = true) by (unfold session_live; simpl in *; by apply Z.ltb_lt).
  assert (Hmine : of_user (su_user_id user) s = true) by by apply bool_decide_true.
  split; try done.
  - apply lookup_insert_eq.
  - intros i s' Hi Hl. simpl. rewrite lookup_insert_ne; [by apply Hk|].
    intros <-. rewrite (Hk u s' Hi Hl) in Hfree. done.
  - intros i s' Hi. simpl in Hi. apply lookup_insert_Some in Hi as [[<- _]|[_ Hi]]; [by left|].
    right. by apply Ho.
  - intros i s' Hi Hh. simpl in Hi. apply lookup_insert_Some in Hi as [[<- _]|[_ Hi]]; [done|].
    by destruct (Huniq i s' Hi).
  - unfold active_sessions in *. simpl. rewrite count_rows_insert by done.
    fold t. change (new_session _ _ _ _ _) with s. rewrite Hmine, Hlive. simpl. lia.
  - unfold session_records in *. simpl. rewrite count_rows_insert by done.
    change (new_session _ _ _ _ _) with s. rewrite Hmine. lia.
Qed.

Lemma random_token_ascii n w token w' : random_token n w = (Ok token, w') → is_ascii token = true.
Proof.
  unfold random_token. intros (b & w1 & _ & [= <- _])%bind_ok_inv.
  apply forallb_forall. intros c Hc%list_elem_of_In. apply N.ltb_lt. revert c Hc.
  apply Forall_forall, base64url_encode_ascii.
Qed.

(** [create_session] keeps the bounds, or commits nothing; a returned session's
    cookie was sealed for it, and its CSRF token is ASCII. *)
Lemma create_session_spec user meta token w :
  working w = durable w →
  wp (create_session user meta token) (λ r w', match r with
    | Ok c => created user w c (durable w')
        ∧ (∃ v v', seal (cr_id c) token v = (Ok (ct_session_token (cr_cookies c)), v'))
        ∧ is_ascii (ct_csrf_token (cr_cookies c)) = true
    | Raise _ => durable w' = durable w
    end) w.
Proof.
  intros Hwd. unfold create_session. wp_step. unfold wp at 1. cbn [now fst snd].
  set (t := clock (ticks w)). set (w0 := w <| ticks := S (ticks w) |>).
  do 4 wp_step; [done|]. reflect_bools. change (working w0) with (working w) in *.
  wp_step. apply (wp_ticks _ _ _ _ (prune_ticks _ _ _)), wp_prune_sessions; [|intros e w1 -> _; done].
  intros w1 Hp Hd1 Hrec Ht1. change (working w0) with (working w) in Hp.
  change (durable w0) with (durable w) in Hd1.
  pose proof (pruned_active _ _ _ _ Hp) as Hact.
  wp_step. unfold wp at 1. cbn [fresh_uuid fst snd].
  set (u := uuid4 (ticks w1)). set (w2 := w1 <| ticks := _ |>).
  assert (Hw : working w2 = working w1) by done. assert (Hd : durable w2 = durable w) by done.
  wp_step. unfold wp at 1. destruct (silent_seal u token w2) as [Hs1 Hs2].
  destruct (seal u token w2) as [[cookie|e] w3] eqn:Eseal; cbn [fst snd] in *; [|congruence].
  wp_step. unfold wp at 1. destruct (silent_random_token 32 w3) as [Hw4 Hd4].
  destruct (random_token 32 w3) as [[csrf|e] w4] eqn:Ecsrf; cbn [fst snd] in *; [|congruence].
  apply random_token_ascii in Ecsrf.
  wp_step. apply wp_insert_session; [|congruence].
  rewrite Hw4, Hs1, Hw. intros Hfree Huniq Hlife w5 Hw5 Hd5.
  wp_step. apply wp_audit_append. intros l w6 Hw6 Hd6. do 2 wp_step.
  wp_step. apply wp_silent_ok; [apply silent_cache_set|apply best_effort_ok|].
  intros [] w8 Hw8 Hd8. wp_step.
  apply wp_silent_ok; [apply silent_cache_upstream|by intros v; rewrite cache_upstream_ok; eauto|].
  intros [] w9 Hw9 Hd9. wp_step. split; [|by split; [exists w2, w3|]].
  rewrite Hd9, Hd8, Hd0. apply created_insert; try done; fold t;
    [exists (ticks w1); split; [rewrite Ht1; simpl; lia|done]|by rewrite Hwd|lia].
Qed.
End creation.
