(* ===== verification/SessionProtocol.v ===== *)
(** * The life of a session

    Every operation on sessions only ends rows or adds a fresh one: nothing
    brings a revoked session back, gives a row another user or another token, or
    prolongs it; and a session that was created is resolved by its cookie until
    it expires or is revoked. *)

From stdpp Require Import base list gmap.
From Stdlib Require Import NArith ZArith Lia.
From S2P Require Import Prelude Config Json Models Storage World Testbed Security Capacity Events.
From S2P Require Import Retention Sub2api Sessions SessionSafety.
Open Scope Z_scope.

(** What may become of a row: it is seen again, or revoked. *)
Definition evolved (s s' : ControlSession) : Prop :=
  s' = s <| cs_last_seen_at := cs_last_seen_at s' |> <| cs_revoked_at := cs_revoked_at s' |>
  ∧ (cs_revoked_at s ≠ None → cs_revoked_at s' ≠ None).

#[global] Instance evolved_preorder : PreOrder evolved.
Proof.
  split.
  - intros s. split; [by destruct s|done].
  - intros s1 s2 s3 [H1 R1] [H2 R2]. split; [|auto]. rewrite H2, H1. by destruct s1, s2, s3.
Qed.

(** Rows of [db] evolve or disappear. *)
Definition session_ends (db db' : database) : Prop :=
  ∀ id s', sessions db' !! id = Some s' → ∃ s, sessions db !! id = Some s ∧ evolved s s'.

#[global] Instance session_ends_preorder : PreOrder session_ends.
Proof.
  split; [by intros db id s; exists s|].
  intros d1 d2 d3 H12 H23 id s3 (s2 & (s1 & H1 & E12)%H12 & E23)%H23. exists s1. split; [done|].
  by etrans.
Qed.

Lemma session_ends_unique db db' :
  session_ends db db' → token_hashes_unique db → token_hashes_unique db'.
Proof.
  intros H Hu i j s s' (s0 & Hi & [E1 _])%H (s0' & Hj & [E2 _])%H Hh.
  apply (Hu i j s0 s0' Hi Hj). by rewrite E1, E2 in Hh.
Qed.

(** [f] may be applied to a row. *)
Lemma session_ends_alter db id f :
  (∀ s, sessions db !! id = Some s → evolved s (f s)) →
  session_ends db (db <| sessions := alter f id (sessions db) |>).
Proof.
  intros Hf i s' Hi. simpl in Hi. apply lookup_alter_Some in Hi as [(<- & s & Hs & ->)|(_ & Hi)].
  - exists s. split; [done|by apply Hf].
  - by exists s'.
Qed.

Lemma session_ends_audit db l : session_ends db (db <| audit := audit db ++ l |>).
Proof. by intros id s; exists s. Qed.

Lemma revoked_in_ends id db db' : revoked_in id db db' → session_ends db db'.
Proof.
  intros [Hrow Hgone (m & l & Hm & ->)] i s' Hi. simpl in Hi.
  destruct (base.decide (i = id)) as [->|Hne].
  - destruct (sessions db !! id) as [s|] eqn:Hs.
    + destruct (Hrow s eq_refl) as (s0 & Hs0 & Hr & E). simpl in Hs0. simplify_eq.
      exists s. split; [done|]. split; [|done]. rewrite E. by destruct s.
    + specialize (Hgone eq_refl). simpl in Hgone. congruence.
  - exists s'. split; [|done]. rewrite <- (lookup_delete_ne _ id i) by done.
    by rewrite <- Hm, lookup_delete_ne.
Qed.

Section operations.
Context {P : Platform} {U : Upstream}.

Lemma update_session_ends id f (Q : outcome unit → world → Prop) w :
  (∀ s, evolved s (f s)) →
  (∀ w', session_ends (working w) (working w') → durable w' = durable w → Q (Ok tt) w') →
  Q (Raise StaleDataError) w → wp (update_session id f) Q w.
Proof.
  intros Hf HQ HR. unfold update_session. do 3 wp_step. wp_step; [exact HR|]. wp_step.
  apply HQ; [|done]. rewrite Hw. apply session_ends_alter. auto.
Qed.

Lemma evolved_revoked t s : evolved s (set_revoked t s).
Proof. split; [by destruct s|done]. Qed.

Lemma evolved_seen t s : evolved s (s <| cs_last_seen_at := t |>).
Proof. split; [by destruct s|done]. Qed.

(** What an operation leaves: a committed state that only ended sessions of
    [db], with nothing pending. *)
Definition ended {A} (db : database) (r : outcome A) (w : world) : Prop :=
  working w = durable w ∧ session_ends db (durable w).

Lemma ended_same {A} db (r : outcome A) w : working w = db → durable w = db → ended db r w.
Proof. intros H1 H2. split; [congruence|by rewrite H2]. Qed.

Lemma keep_session_ends id s h t touch w :
  working w = durable w → wp (keep_session id s h t touch) (ended (durable w)) w.
Proof.
  intros Hwd. unfold keep_session. wp_step. apply wp_silent_ok;
    [apply silent_cache_set|apply best_effort_ok|]. intros [] w1 Hw1 Hd1.
  assert (Hsame : ∀ A (r : outcome A), ended (durable w) r w1)
    by (intros; apply ended_same; congruence).
  destruct (_ && _); wp_step; [|apply Hsame].
  apply update_session_ends; [intros; apply evolved_seen| |apply Hsame].
  intros w2 He Hd2. do 3 wp_step. split; [congruence|]. by rewrite Hd.
Qed.

Lemma revoke_session_ends id s meta w :
  working w = durable w → wp (revoke_session id s meta) (λ _ w', session_ends (durable w) (durable w')) w.
Proof.
  intros Hwd. unfold revoke_session.
  assert (Hend : ∀ v, session_ends (durable w) (working v) →
    wp (add_audit (Some (cs_user_id s)) (Some id) None "session.logout" AoSucceeded "control_session"
          (uuid_str id) meta (JObj []);; commit;; _invalidate_revoked_session id s)
      (λ _ w', session_ends (durable w) (durable w')) v).
  { intros v Hv. wp_step. apply wp_audit_append. intros l v1 Hv1 _. do 2 wp_step.
    apply wp_silent; [apply silent_invalidate|]. intros r v2 _ Hd2.
    rewrite Hd2, Hd. etrans; [exact Hv|apply session_ends_audit]. }
  wp_step. case_bool_decide.
  - wp_step. apply wp_silent; [apply silent_now|]. intros [t|e] w1 Hw1 Hd1; [|by rewrite Hd1].
    apply update_session_ends; [intros; apply evolved_revoked| |by rewrite Hd1].
    intros w2 He _. apply Hend. by rewrite Hw1, Hwd in He.
  - wp_step. apply Hend. by rewrite Hwd.
Qed.

Lemma verify_user_ends meanwhile id s token w :
  wp (verify_user meanwhile id s token) (ended (meanwhile (durable w))) w.
Proof.
  eapply wp_mono; [apply verify_user_spec|].
  intros r w' [[(_ & _ & H1 & H2)|[(_ & _ & H1 & H2)|(_ & _ & H1 & H2)]]|(e & _ & _ & _ & H1 & H2)];
    try by apply ended_same.
  split; [done|by eapply revoked_in_ends].
Qed.

(** An operation that starts in [db] or, after others ran, in [db1]. *)
Definition ended_either {A} (db db1 : database) (r : outcome A) (w : world) : Prop :=
  ended db r w ∨ ended db1 r w.

Lemma ended_either_settled {A} db db1 (r : outcome A) w :
  ended_either db db1 r w → working w = durable w.
Proof. by intros [[? _]|[? _]]. Qed.

Lemma verify_identity_ends meanwhile id s token force w :
  working w = durable w →
  wp (_verify_upstream_identity meanwhile id s token force)
    (ended_either (durable w) (meanwhile (durable w))) w.
Proof.
  intros Hwd. unfold _verify_upstream_identity.
  assert (Hm : silent (if force then mret false else
      cached_marker ← _cache_get (_upstream_marker_key id);
      _valid_upstream_marker id s cached_marker)) by (destruct force; solve_silent).
  assert (Hsame : ∀ A (r : outcome A) w', working w' = working w → durable w' = durable w →
    ended_either (durable w) (meanwhile (durable w)) r w').
  { intros A r w' H1 H2. left. apply ended_same; congruence. }
  wp_step. apply wp_silent; [exact Hm|]. intros [b|e] w1 H1 H2; [|by apply Hsame].
  destruct b; [wp_step; by apply Hsame|].
  wp_step. apply wp_silent; [exact Hm|]. intros [b|e] w2 H3 H4; [|apply Hsame; congruence].
  destruct b; [wp_step; apply Hsame; congruence|].
  eapply wp_mono; [apply verify_user_ends|]. intros r w' H5. right. by rewrite H4, H2 in H5.
Qed.

Lemma wp_none_ends {A} h (Q : outcome (option A) → world → Prop) w :
  (∀ r w', working w' = working w → durable w' = durable w → Q r w') →
  wp (_cache_delete h;; mret None) Q w.
Proof. intros HQ. apply wp_silent; [solve_silent|]. auto. Qed.

Lemma resolve_ends meanwhile raw touch verify force w :
  working w = durable w →
  wp (resolve meanwhile raw touch verify force)
    (ended_either (durable w) (meanwhile (durable w))) w.
Proof.
  intros Hwd. unfold resolve.
  assert (Hsame : ∀ A (r : outcome A) w', working w' = working w → durable w' = durable w →
    ended_either (durable w) (meanwhile (durable w)) r w').
  { intros A r w' H1 H2. left. apply ended_same; congruence. }
  destruct raw as [raw|]; [|wp_step; by apply Hsame].
  destruct (negb _); [wp_step; by apply Hsame|].
  wp_step. apply wp_silent; [apply silent_find_session|]. intros [o|e] w1 Hw1 Hd1; [|by apply Hsame].
  assert (Hnone : ∀ h v, working v = working w → durable v = durable w → wp (_cache_delete h;; mret None)
    (ended_either (A := option (uuid * ControlSession)) (durable w) (meanwhile (durable w))) v).
  { intros h v H1 H2. apply wp_none_ends. intros r w' H3 H4. apply Hsame; congruence. }
  destruct o as [[id s]|]; [|by apply Hnone].
  destruct (negb _); [by apply Hnone|].
  wp_step. unfold wp at 1. cbn [now fst snd]. set (v := w1 <| ticks := _ |>).
  assert (Hwv : working v = working w) by done. assert (Hdv : durable v = durable w) by done.
  destruct (_ <=? _); [by apply Hnone|].
  wp_step. unfold wp at 1. cbn [of_outcome fst snd].
  destruct (unseal raw) as [[c|]|e]; [|by apply Hnone|by apply Hsame].
  destruct (negb _); [by apply Hnone|]. destruct verify.
  - wp_step. eapply wp_mono; [apply verify_identity_ends; congruence|].
    intros [b|e] w2; rewrite Hdv; intros H2; [|exact H2].
    destruct b; cbn [negb]; [|wp_step; exact H2].
    assert (H1 : working w2 = durable w2) by by eapply ended_either_settled.
    wp_step. unfold refresh_session. do 2 wp_step.
    case_match; [|wp_step; exact H2].
    do 2 wp_step. unfold wp at 1. cbn [now fst snd]. set (v2 := w2 <| ticks := _ |>).
    destruct (_ || _).
    + apply wp_none_ends. intros r w3 Hw3 Hd3. unfold ended_either, ended in *. by rewrite Hw3, Hd3.
    + wp_step. eapply wp_mono; [by apply keep_session_ends|].
      intros [r|e] w3 [H3 H4]; [wp_step|]; simpl in H4;
        (destruct H2 as [[_ H2]|[_ H2]]; [left|right]; (split; [done|by etrans])).
  - wp_step. eapply wp_mono; [apply keep_session_ends; congruence|].
    intros [r|e] w3 H3; [wp_step|]; left; rewrite Hdv in H3; exact H3.
Qed.
End operations.

(** ** Runs *)

Section runs.
Context {P : Platform} {U : Upstream}.

(** [session_run (used, db) (used', db')]: sessions' operations lead from [db] to
    [db']; [used] are the ids given out so far, which [uuid4] does not give out
    again.  Other transactions, which only delete old sessions, run anywhere, and
    whole runs happen while a resolve waits for the upstream. *)
Inductive session_run : gset uuid * database → gset uuid * database → Prop :=
| run_refl a : session_run a a
| run_create a used w user meta token :
    session_run a (used, durable w) → working w = durable w →
    (∀ n, (ticks w ≤ n)%nat → uuid4 n ∉ used) →
    let w' := (create_session user meta token w).2 in
    session_run a (used ∪ dom (sessions (durable w')), durable w')
| run_resolve a used w used1 meanwhile raw touch verify force :
    session_run a (used, durable w) → working w = durable w →
    session_run (used, durable w) (used1, meanwhile (durable w)) →
    session_run a (used1, durable (resolve meanwhile raw touch verify force w).2)
| run_revoke a used w id s meta :
    session_run a (used, durable w) → working w = durable w →
    session_run a (used, durable (revoke_session id s meta w).2)
| run_elsewhere a used db db' :
    session_run a (used, db) → session_ends db db' → session_run a (used, db').

(** What a run preserves. *)
Record session_moves (a b : gset uuid * database) : Prop := {
  sm_used : a.1 ⊆ b.1;
  sm_dom : dom (sessions a.2) ⊆ a.1 → dom (sessions b.2) ⊆ b.1;
  sm_row id s' : dom (sessions a.2) ⊆ a.1 → id ∈ a.1 → sessions b.2 !! id = Some s' →
    ∃ s, sessions a.2 !! id = Some s ∧ evolved s s';
  sm_unique : token_hashes_unique a.2 → token_hashes_unique b.2;
}.

Lemma session_moves_ends used used' db db' :
  used ⊆ used' → session_ends db db' → session_moves (used, db) (used', db').
Proof.
  intros Hu H. split; simpl.
  - done.
  - intros Hd id (s' & (s & Hs & _)%H)%elem_of_dom. by apply Hu, Hd, elem_of_dom.
  - intros id s' _ _ Hs'. by apply H.
  - by apply session_ends_unique.
Qed.

#[local] Instance session_moves_preorder : PreOrder session_moves.
Proof.
  split; [by intros [used db]; apply session_moves_ends|].
  intros a b c [U1 D1 R1 Q1] [U2 D2 R2 Q2]. split; [by etrans|auto| |auto].
  intros id s' Hd Hid (s & Hs & E2)%R2; [|auto..]. destruct (R1 id s Hd Hid Hs) as (s0 & ? & ?).
  exists s0. split; [done|by etrans].
Qed.

Lemma created_unique user w c db' :
  created user w c db' → token_hashes_unique (working w) → token_hashes_unique db'.
Proof.
  intros Hc Hu i j s s' Hi Hj Hh.
  pose proof (ct_unique _ _ _ _ Hc) as Hq. pose proof (ct_row _ _ _ _ Hc) as Hrow.
  destruct (ct_old _ _ _ _ Hc _ _ Hi) as [->|Hi'].
  { symmetry. eapply Hq; [exact Hj|]. congruence. }
  destruct (ct_old _ _ _ _ Hc _ _ Hj) as [->|Hj']; [by eapply Hq; [exact Hi|]; congruence|].
  by eapply Hu.
Qed.

Lemma created_moves used w user c db' :
  working w = durable w → (∀ n, (ticks w ≤ n)%nat → uuid4 n ∉ used) → created user w c db' →
  session_moves (used, durable w) (used ∪ dom (sessions db'), db').
Proof.
  intros Hwd Hfresh Hc. destruct (ct_id _ _ _ _ Hc) as (n & Hn & Hid).
  assert (Hold : ∀ id s, sessions db' !! id = Some s → id ≠ cr_id c → sessions (durable w) !! id = Some s).
  { intros id s Hs Hne. rewrite <- Hwd. by destruct (ct_old _ _ _ _ Hc id s Hs). }
  split; simpl.
  - set_solver.
  - set_solver.
  - intros id s' Hd Hu Hs'. exists s'. split; [|done]. apply Hold; [done|]. rewrite Hid.
    intros ->. by eapply Hfresh.
  - intros Hu. eapply created_unique; [exact Hc|by rewrite Hwd].
Qed.

Lemma session_run_moves a b : session_run a b → session_moves a b.
Proof.
  induction 1 as [a|a used w user meta token Hr IH Hwd Hf w'|a used w used1 mw raw touch verify force
    Hr IH Hwd Hm IHm|a used w id s meta Hr IH Hwd|a used db db' Hr IH He].
  - done.
  - etrans; [exact IH|]. pose proof (create_session_spec user meta token w Hwd) as Hc.
    unfold wp in Hc. fold w' in Hc. destruct (create_session user meta token w).1 as [c|e].
    + by eapply created_moves; [..|apply Hc].
    + rewrite Hc. apply session_moves_ends; [set_solver|done].
  - etrans; [exact IH|]. pose proof (resolve_ends mw raw touch verify force w Hwd) as H.
    unfold wp, ended_either, ended in H. destruct H as [[_ H]|[_ H]].
    + apply session_moves_ends; [apply (sm_used _ _ IHm)|done].
    + etrans; [exact IHm|by apply session_moves_ends].
  - etrans; [exact IH|]. apply session_moves_ends; [done|].
    exact (revoke_session_ends id s meta w Hwd).
  - etrans; [exact IH|]. by apply session_moves_ends.
Qed.

(** C19: whatever operations run, in whatever order and interleaving, a session
    that is still in the table belongs to the same user with the same tokens and
    the same expiry, is revoked if it was, and no two sessions share a token. *)
Theorem sessions_only_end used db used' db' :
  session_run (used, db) (used', db') → dom (sessions db) ⊆ used → token_hashes_unique db →
  token_hashes_unique db'
  ∧ ∀ id s', id ∈ used → sessions db' !! id = Some s' →
      ∃ s, sessions db !! id = Some s
        ∧ s' = s <| cs_last_seen_at := cs_last_seen_at s' |> <| cs_revoked_at := cs_revoked_at s' |>
        ∧ (cs_revoked_at s ≠ None → cs_revoked_at s' ≠ None).
Proof.
  intros Hr%session_run_moves Hd Hu. split; [by apply (sm_unique _ _ Hr)|].
  intros id s' Hid Hs'. by apply (sm_row _ _ Hr).
Qed.
End runs.

(** ** What the operations promise *)

Section promises.
Context {P : Platform} {U : Upstream}.

(** C11: a session that [resolve] returns is the row of the token's digest; the
    token opens to that row's id; and the row was neither revoked nor expired
    when it was read.  With verification, the identity was verified after that,
    by the upstream's answer to the token, or, unless the caller forces it, by a
    marker that the store holds for the session, signed by this service and
    younger than the recheck interval; and the row that is then in the table,
    whatever other transactions did while the upstream was asked, is still
    neither revoked nor expired at a still later reading of the clock.  (That
    the marker is already in the store when the call starts is stated for a
    monotonic clock.) *)
Theorem resolve_sound meanwhile raw touch verify force w id s w' :
  resolve meanwhile (Some raw) touch verify force w = (Ok (Some (id, s)), w') →
  resolved raw verify force meanwhile w w' id s.
Proof. apply resolve_ok. Qed.

(** C27: the cache decides nothing: whatever the store holds, returns or fails to
    return, a resolve without verification answers what the database alone says
    of the token at a reading of the clock of this call. *)
Theorem cache_transparent meanwhile raw force w :
  token_hashes_unique (working w) →
  ∃ n, (ticks w ≤ n ≤ ticks w + 2)%nat
    ∧ (resolve meanwhile (Some raw) false false force w).1
      = session_lookup (working w) raw (clock n).
Proof. apply resolve_transparent. Qed.

(** [create] commits one new live session of the user, keeps every live
    session and every session of others, and leaves the user within both limits;
    or it raises and commits nothing. *)
Theorem session_bounds user meta token w :
  working w = durable w →
  match create_session user meta token w with
  | (Ok c, w') => created user w c (durable w')
  | (Raise _, w') => durable w' = durable w
  end.
Proof.
  intros Hwd. pose proof (create_session_spec user meta token w Hwd) as H. unfold wp in H.
  by destruct (create_session user meta token w) as [[c|e] w']; [destruct H|].
Qed.

(** How the upstream's answer on a session is ruled. *)
Inductive ruling := Vouched | Rejected | Failed (e : exn).

Definition rule (s : ControlSession) (answer : outcome Sub2APIUser) : ruling :=
  match answer with
  | Ok user =>
      if bool_decide (su_user_id user = cs_user_id s) then
        match compare_digest (default "" (su_token_version user)) (default "" (cs_token_version s)) with
        | Ok true => Vouched
        | Ok false => Rejected
        | Raise e => Failed e
        end
      else Rejected
  | Raise DisabledSub2APIUser | Raise RevokedSub2APIToken | Raise InvalidSub2APIToken => Rejected
  | Raise e => Failed e
  end.

Lemma rule_vouched s r : vouches s r → rule s r = Vouched.
Proof. intros (u & -> & Hu & Hc). simpl. by rewrite bool_decide_true, Hc. Qed.

Lemma rule_incomparable s r : incomparable s r → rule s r = Failed TypeError.
Proof. intros (u & -> & Hu & Hc). simpl. by rewrite bool_decide_true, Hc. Qed.

Lemma rule_rejected s r : rejects s r → rule s r = Rejected.
Proof.
  destruct r as [u|e]; simpl; [|by intros [->|[->| ->]]]. intros [Hv Hi].
  case_bool_decide as Hu; [|done]. destruct (compare_digest _ _) as [[]|e] eqn:E; [|done|].
  - destruct Hv. by exists u.
  - apply compare_digest_raise in E as He. subst e. destruct Hi. by exists u.
Qed.

Lemma rule_failed s e : ¬ rejects s (Raise e) → rule s (Raise e) = Failed e.
Proof. simpl. destruct e; tauto. Qed.

(** Asking the upstream ends in one of three ways: it vouches for the user and
    token version, and nothing is written; it rejects the token or names another
    user or version, and the session is revoked, with an audit record and nothing
    else, before [False] is returned; or it cannot be asked, the error passes and
    the session stays. *)
Theorem upstream_ruling meanwhile id s token w :
  let answer := read_auth_me (auth_me (ticks w) token (request_identity s)) in
  let db := meanwhile (durable w) in
  let (o, w') := verify_user meanwhile id s token w in
  match rule s answer with
  | Vouched => o = Ok true ∧ durable w' = db
  | Rejected => o = Ok false ∧ revoked_in id db (durable w')
  | Failed e => o = Raise e ∧ durable w' = db
  end.
Proof.
  pose proof (verify_user_spec meanwhile id s token w) as H. unfold wp in H.
  cbv zeta in *. revert H. generalize (read_auth_me (auth_me (ticks w) token (request_identity s))).
  intros r. destruct (verify_user meanwhile id s token w) as [o w']. simpl.
  unfold settled.
  intros [[(H & -> & _ & ->)|[(H & -> & _ & Hd)|(H & -> & _ & ->)]]|(e & -> & H & -> & _ & ->)].
  - by rewrite rule_vouched.
  - by rewrite rule_rejected.
  - by rewrite rule_incomparable.
  - by rewrite rule_failed.
Qed.
Lemma unseal_truthy raw c : unseal raw = Ok (Some c) → py_truthy raw = true.
Proof.
  unfold unseal, py_truthy. intros H. destruct raw as [[|x l]]; [|done].
  simpl in H. discriminate H.
Qed.

(** The row as it is after it was kept: seen again, perhaps. *)
Definition kept_row (id : uuid) (s s1 : ControlSession) (w : world) : Prop :=
  s1 = s <| cs_last_seen_at := cs_last_seen_at s1 |> ∧ sessions (working w) !! id = Some s1
  ∧ working w = durable w.

(** Updating a row that is there. *)
Lemma wp_update_live id f s (Q : outcome unit → world → Prop) w :
  sessions (working w) !! id = Some s →
  (∀ w', sessions (working w') !! id = Some (f s) → durable w' = durable w → Q (Ok tt) w') →
  wp (update_session id f) Q w.
Proof.
  intros Hs HQ. unfold update_session. do 3 wp_step. wp_step.
  { reflect_bools. by destruct Hguard. }
  wp_step. apply HQ; [|done]. rewrite Hw. simpl. by rewrite lookup_alter_eq, Hs.
Qed.

Lemma wp_keep_live id s h t touch w :
  working w = durable w → sessions (working w) !! id = Some s →
  wp (keep_session id s h t touch) (λ r w', ∃ s1, r = Ok (id, s1) ∧ kept_row id s s1 w') w.
Proof.
  intros Hwd Hs. unfold keep_session. wp_step.
  apply wp_silent_ok; [apply silent_cache_set|apply best_effort_ok|]. intros [] w1 Hw1 Hd1.
  destruct (_ && _).
  - wp_step. apply (wp_update_live id _ s); [by rewrite Hw1|]. intros w2 Hw2 _. do 3 wp_step.
    eexists. split; [done|]. split; [by destruct s|]. split; [|by rewrite_worlds].
    rewrite Hw. exact Hw2.
  - wp_step. exists s. split; [done|]. split; [by destruct s|]. split; [by rewrite Hw1|congruence].
Qed.

(** The upstream vouches for the session's user whenever [token] is presented. *)
Definition vouched_for (s : ControlSession) (token : pystr) (w : world) : Prop :=
  ∀ n, (ticks w ≤ n)%nat → vouches s (read_auth_me (auth_me n token (request_identity s))).

Lemma wp_verify_vouched mw id s token w :
  vouched_for s token w →
  wp (_verify_upstream_identity mw id s token true)
    (λ r w', r = Ok true ∧ working w' = mw (durable w) ∧ durable w' = mw (durable w)
       ∧ (ticks w ≤ ticks w')%nat) w.
Proof.
  intros Hv. unfold _verify_upstream_identity. do 4 wp_step.
  pose proof (verify_user_spec mw id s token w) as H. unfold wp in *. cbv zeta in H.
  pose proof (verify_user_forward mw id s token w) as Ht.
  pose proof (rule_vouched _ _ (Hv (ticks w) (le_n _))) as Hr.
  destruct (verify_user mw id s token w) as [o w']. simpl in *.
  destruct H as [[(_ & -> & ? & ?)|[(H & _)|(H & _)]]|(e & Ee & H & _)].
  - split_and!; [done..|lia].
  - apply rule_rejected in H. congruence.
  - apply rule_incomparable in H. congruence.
  - rewrite Ee in Hr, H. apply rule_failed in H. congruence.
Qed.

Lemma wp_forward {A} (m : tx A) w : forward m → wp m (λ _ w', (ticks w ≤ ticks w')%nat) w.
Proof. intros H. apply H. Qed.

(** The row had expired at one of the readings of the clock between [w] and [w']. *)
Definition expired_meanwhile (s : ControlSession) (w w' : world) : Prop :=
  ∃ n, (ticks w ≤ n < ticks w')%nat ∧ cs_expires_at s ≤ clock n.

Lemma wp_none_expired {A} h s n w w0 (Q : outcome (option A) → world → Prop) :
  (ticks w0 ≤ n < ticks w)%nat → cs_expires_at s ≤ clock n →
  (∀ w', expired_meanwhile s w0 w' → Q (Ok None) w') →
  wp (_cache_delete h;; mret None) Q w.
Proof.
  intros Hn Hx HQ. unfold _cache_delete. wp_step.
  pose proof (best_effort_ok (store_delete h) w) as [[] Hok].
  assert (Hf : forward (best_effort (store_delete h))) by solve_forward. specialize (Hf w).
  unfold wp. destruct (best_effort _ w) as [r w1]. simpl in *. subst r. apply HQ.
  exists n. split; [lia|done].
Qed.

Lemma wp_resolve_verified mw raw touch c id s w :
  token_hashes_unique (working w) → cs_revoked_at s = None →
  unseal raw = Ok (Some c) → sc_session_id c = id →
  session_row (digest CONTROL_SESSION_DIGEST_PURPOSE raw) (working w) (id, s) →
  sessions (mw (durable w)) !! id = Some s → vouched_for s (sc_access_token c) w →
  wp (resolve mw (Some raw) touch true true)
    (λ r w', (∃ s1, r = Ok (Some (id, s1)) ∧ kept_row id s s1 w')
       ∨ r = Ok None ∧ expired_meanwhile s w w') w.
Proof.
  intros Hu Hr Hun Hid Hrow Hmw Hvouch. unfold resolve. rewrite (unseal_truthy _ _ Hun).
  cbn [negb]. set (h := digest _ raw) in *. destruct (find_session_spec h w Hu) as [w1 E].
  rewrite (select_session_unique _ _ _ Hu Hrow) in E. pose proof (forward_find _ _ _ _ E) as Ht.
  destruct (silent_ok_inv _ _ _ _ (silent_find_session _) E) as [Hw1 Hd1].
  wp_step. unfold wp at 1. rewrite E. cbn [fst snd]. rewrite bool_decide_true by done. cbn [negb].
  wp_step. unfold wp at 1. cbn [now fst snd].
  destruct (Z.leb_spec (cs_expires_at s) (clock (ticks w1))) as [Hx|_].
  { apply (wp_none_expired _ s (ticks w1) _ w); [simpl; lia|done|]. intros w' Hw'. by right. }
  wp_step. unfold wp at 1. cbn [of_outcome fst snd]. rewrite Hun, Hid, N.eqb_refl. cbn [negb].
  wp_step. eapply wp_mono; [apply wp_verify_vouched; intros n Hn; apply Hvouch; simpl in Hn; lia|].
  intros r w2 (-> & Hw2 & Hd2 & Ht2). cbn [negb]. simpl in Hw2, Hd2, Ht2. rewrite Hd1 in Hw2, Hd2.
  unfold refresh_session. do 2 wp_step. wp_step. rewrite Hmw. wp_step.
  wp_step. unfold wp at 1. cbn [now fst snd].
  replace (s <| cs_revoked_at := cs_revoked_at s |> <| cs_expires_at := cs_expires_at s |>) with s
    by by destruct s.
  rewrite bool_decide_true by done. cbn [negb orb].
  destruct (Z.leb_spec (cs_expires_at s) (clock (ticks w2))) as [Hx|_].
  { apply (wp_none_expired _ s (ticks w2) _ w); [simpl; lia|done|]. intros w' Hw'. by right. }
  wp_step. eapply wp_mono; [apply wp_keep_live|].
  - simpl. congruence.
  - simpl. by rewrite Hw2.
  - intros r w3 (s1 & -> & Hk). wp_step. left. by exists s1.
Qed.

(** What the CSRF check answers for a row: the token of the row, in the cookie
    and in the header, and nothing else (of ASCII text, which is all that can be
    compared). *)
Definition csrf_checked (s : ControlSession) (csrf : pystr) : Prop :=
  valid_csrf s csrf csrf = Ok true
  ∧ (∀ other, is_ascii other = true → other ≠ csrf →
       valid_csrf s csrf other = Ok false ∧ valid_csrf s other csrf = Ok false)
  ∧ (∀ other, is_ascii other = true → digest "csrf" other ≠ digest "csrf" csrf →
       valid_csrf s other other = Ok false).

Lemma csrf_checked_ok s csrf :
  is_ascii csrf = true → cs_csrf_token_hash s = digest "csrf" csrf → csrf_checked s csrf.
Proof.
  intros Ha Hs. unfold csrf_checked, valid_csrf, compare_digest, matches. rewrite Hs, Ha.
  split_and!.
  - by rewrite !bool_decide_true.
  - intros other Ho Hne. rewrite Ho. simpl. by rewrite !bool_decide_false by done.
  - intros other Ho Hne. rewrite Ho. simpl. by rewrite bool_decide_true, bool_decide_false by done.
Qed.

(** C34: a session that was created is resolved by its cookie, in any later world
    whose table still holds the row.  Without asking the upstream it is resolved
    exactly until it expires, at a reading of the clock of this call; with the
    upstream it is resolved unless it expires during the call, when the upstream
    vouches for the access token it was created with and the other transactions
    of the meantime leave the row alone.  Its CSRF token is accepted in the cookie and the header
    together, and no other token is, in either. *)
Theorem created_session_resolves {L : SealingLaws P} user meta token w c w' mw touch force v :
  (cr_id c < 2 ^ 128)%N → 0 ≤ session_token_bytes settings →
  Forall (λ p, (p < 1114112)%N) (codepoints token) → codepoints token ≠ [] →
  working w = durable w → create_session user meta token w = (Ok c, w') →
  sessions (working v) !! cr_id c = Some (cr_record c) → token_hashes_unique (working v) →
  let cookie := ct_session_token (cr_cookies c) in
  (∃ n, (ticks v ≤ n ≤ ticks v + 2)%nat
     ∧ (resolve mw (Some cookie) false false force v).1
       = (if clock n <? cs_expires_at (cr_record c) then Ok (Some (cr_id c, cr_record c)) else Ok None))
  ∧ (vouched_for (cr_record c) token v →
     sessions (mw (durable v)) !! cr_id c = Some (cr_record c) →
     let '(r, v') := resolve mw (Some cookie) touch true true v in
     (∃ s, r = Ok (Some (cr_id c, s)) ∧ kept_row (cr_id c) (cr_record c) s v')
     ∨ r = Ok None ∧ expired_meanwhile (cr_record c) v v')
  ∧ csrf_checked (cr_record c) (ct_csrf_token (cr_cookies c)).
Proof.
  intros Hids Hbytes Htok Hne Hwd E Hrow Hu cookie.
  pose proof (create_session_spec user meta token w Hwd) as H. unfold wp in H. rewrite E in H.
  destruct H as (Hc & (v1 & v2 & Hseal) & Hascii). apply seal_opens in Hseal; [|done..].
  assert (Hr : session_row (digest CONTROL_SESSION_DIGEST_PURPOSE cookie) (working v)
    (cr_id c, cr_record c)) by (split; [exact Hrow|apply (ct_token _ _ _ _ Hc)]).
  split_and!.
  - destruct (resolve_transparent mw cookie force v Hu) as (n & Hn & ->).
    exists n. split; [done|].
    unfold session_lookup, cookie. rewrite (unseal_truthy _ _ Hseal), Hseal. cbn [negb].
    rewrite (select_session_unique _ _ (cr_id c, cr_record c)); [|exact Hu|exact Hr].
    pose proof (ct_live _ _ _ _ Hc) as Hl. unfold session_live in *. reflect_bools.
    rewrite bool_decide_true by done. cbn [andb sc_session_id]. by rewrite N.eqb_refl.
  - intros Hvouch Hmw.
    assert (Hlive : cs_revoked_at (cr_record c) = None).
    { pose proof (ct_live _ _ _ _ Hc) as Hl. unfold session_live in Hl. by reflect_bools. }
    pose proof (wp_resolve_verified mw cookie touch _ _ _ v Hu Hlive Hseal eq_refl Hr Hmw Hvouch) as H.
    unfold wp in H. by destruct (resolve _ _ _ _ _ v).
  - apply csrf_checked_ok; [done|apply (ct_csrf _ _ _ _ Hc)].
Qed.
End promises.

(** ** On the testbed *)

(** An upstream that knows one user. *)
#[local] Instance sample_upstream : Upstream := λ _ _ _,
  HttpResponse 200 (Some (JObj [("code", JInt 0); ("message", JStr "success");
    ("data", JObj [("id", JInt 7); ("status", JStr "active"); ("username", JStr " ann ")])])).

Definition sample_user : Sub2APIUser :=
  {| su_user_id := "7"; su_username := Some ("ann" : pystr); su_email := None;
     su_display_name := None; su_token_version := None |}.

Definition sample_meta : RequestMetadata :=
  {| rm_request_id := None; rm_source_ip := Some ("10.0.0.9" : pystr); rm_user_agent := None |}.

Lemma sample_upstream_user :
  read_auth_me (auth_me 0 "upstream-token-01" {| ri_client_ip := ""; ri_user_agent := "" |})
  = Ok sample_user.
Proof. vm_compute. reflexivity. Qed.

Definition sample_create : @tx testbed CreatedSession :=
  create_session sample_user sample_meta "upstream-token-01".

Definition empty_world : @world testbed := start_world empty_database.

Definition committed {A} (r : outcome A * @world testbed) : option (A * database) :=
  match r.1 with Ok a => Some (a, durable r.2) | Raise _ => None end.

Definition sample_created : option (CreatedSession * database) := committed (sample_create empty_world).

(** Resolving the cookie in a database, verified by the upstream. *)
Definition sample_resolve (cookie : pystr) (touch verify force : bool) (db : database) :=
  @resolve testbed sample_upstream (λ db, db) (Some cookie) touch verify force (start_world db).

(** Created; resolved with and without the upstream; refused under another's
    token; and the row is revoked when the upstream names another user. *)
Definition sample_session_flow : option (bool * bool * bool * bool) :=
  '(c, db) ← sample_created;
  let cookie := ct_session_token (cr_cookies c) in
  let ok r := match r with (Ok (Some (id, _)), _) => (id =? cr_id c)%N | _ => false end in
  let stranger s := s <| cs_user_id := ("8" : pystr) |> in
  let db' := db <| sessions := alter stranger (cr_id c) (sessions db) |> in
  let refused := sample_resolve cookie true true true db' in
  Some (ok (sample_resolve cookie true true true db), ok (sample_resolve cookie false false false db),
        ok (sample_resolve (cookie +++ "A") false false false db),
        match refused with
        | (Ok None, w) => bool_decide (cs_revoked_at <$> sessions (durable w) !! cr_id c = Some None)
        | _ => true
        end).

Lemma sample_session_flow_runs : sample_session_flow = Some (true, true, false, false).
Proof. vm_compute. reflexivity. Qed.

Definition sample_cookie : pystr :=
  default "" ((λ x, ct_session_token (cr_cookies x.1)) <$> sample_created).

Definition sample_db : database :=
  default empty_database (snd <$> sample_created).

Definition resolves_one (r : outcome (option (uuid * ControlSession)) * @world testbed) : bool :=
  match r with (Ok (Some _), _) => true | _ => false end.

Lemma sample_resolves : resolves_one (sample_resolve sample_cookie true true true sample_db) = true.
Proof. vm_compute. reflexivity. Qed.

Lemma resolve_sound_witness :
  match sample_resolve sample_cookie true true true sample_db with
  | (Ok (Some (id, s)), w') =>
      @resolved testbed sample_upstream sample_cookie true true (λ db, db) (start_world sample_db) w'
        id s
  | _ => False
  end.
Proof.
  pose proof sample_resolves as H.
  destruct (sample_resolve sample_cookie true true true sample_db) as [[[[id s]|]|e] w'] eqn:E;
    [clear H|discriminate H..].
  revert E. generalize sample_db sample_cookie. intros db cookie E.
  exact (resolve_sound (λ db, db) cookie true true true (start_world db) id s w' E).
Defined.

Lemma hashes_unique_empty : token_hashes_unique empty_database.
Proof. intros i j s s' Hi. simpl in Hi. by rewrite lookup_empty in Hi. Qed.

Lemma cache_transparent_witness :
  ∃ n, (@resolve testbed sample_upstream (λ db, db) (Some ("v1.a.b" : pystr)) false false true
          empty_world).1 = Ok None ∧ (0 ≤ n)%nat
    ∧ @session_lookup testbed empty_database "v1.a.b" (@clock testbed n) = Ok None.
Proof.
  destruct (cache_transparent (U := sample_upstream) (λ db, db) "v1.a.b" true empty_world
    hashes_unique_empty) as (n & Hn & H).
  exists n. split; [rewrite H; reflexivity|]. split; [exact (proj1 Hn)|]. reflexivity.
Defined.

Lemma session_bounds_witness :
  match sample_create empty_world with
  | (Ok c, w') => created sample_user empty_world c (durable w')
  | (Raise _, w') => durable w' = empty_database
  end.
Proof. exact (session_bounds sample_user sample_meta "upstream-token-01" empty_world eq_refl). Defined.

Lemma sample_create_succeeds :
  match sample_create empty_world with (Ok c, _) => (cr_id c <? 2 ^ 128)%N | _ => false end = true.
Proof. vm_compute. reflexivity. Qed.

(** The sample upstream vouches for the sample user, with any token. *)
Lemma sample_vouches (s : ControlSession) token w :
  cs_user_id s = "7" → cs_token_version s = None → @vouched_for testbed sample_upstream s token w.
Proof.
  intros Hu Hv n _. exists sample_user. split; [exact sample_upstream_user|].
  rewrite Hu, Hv. split; [reflexivity|]. vm_compute. reflexivity.
Qed.

(** The row is still there in a world with another audit log; the upstream is
    asked, too. *)
Lemma created_session_resolves_witness :
  match sample_create empty_world with
  | (Ok c, w') =>
      let v := start_world ((durable w') <| audit := [] |>) in
      let cookie := ct_session_token (cr_cookies c) in
      (∃ n, (0 ≤ n ≤ 2)%nat
         ∧ (@resolve testbed sample_upstream (λ db, db) (Some cookie) false false false v).1
           = (if @clock testbed n <? cs_expires_at (cr_record c)
              then Ok (Some (cr_id c, cr_record c)) else Ok None))
      ∧ (let '(r, v') := @resolve testbed sample_upstream (λ db, db) (Some cookie) true true true v in
         (∃ s, r = Ok (Some (cr_id c, s)) ∧ kept_row (cr_id c) (cr_record c) s v')
         ∨ r = Ok None ∧ expired_meanwhile (cr_record c) v v')
      ∧ @csrf_checked testbed (cr_record c) (ct_csrf_token (cr_cookies c))
  | _ => False
  end.
Proof.
  pose proof sample_create_succeeds as H.
  pose proof (create_session_spec sample_user sample_meta "upstream-token-01" empty_world eq_refl) as Hs.
  unfold wp in Hs. change (create_session _ _ _ empty_world) with (sample_create empty_world) in Hs.
  destruct (sample_create empty_world) as [[c|e] w'] eqn:E; [|discriminate H].
  destruct Hs as [Hc _]. cbn [fst snd] in Hc. intros v cookie.
  destruct (created_session_resolves (U := sample_upstream) sample_user sample_meta
    "upstream-token-01" empty_world c w' (λ db, db) true false v) as (H1 & H2 & H3).
  - apply N.ltb_lt, H.
  - vm_compute. congruence.
  - repeat constructor.
  - discriminate.
  - reflexivity.
  - exact E.
  - exact (ct_row _ _ _ _ Hc).
  - exact (created_unique _ _ _ _ Hc hashes_unique_empty).
  - split; [exact H1|]. split; [|exact H3]. apply H2; [|exact (ct_row _ _ _ _ Hc)].
    apply sample_vouches; [exact (ct_user _ _ _ _ Hc)|exact (ct_version _ _ _ _ Hc)].
Defined.

Lemma sample_ids : ∀ n, (0 ≤ n)%nat → @uuid4 testbed n ∉ (∅ : gset uuid).
Proof. set_solver. Qed.

Lemma sessions_only_end_witness :
  token_hashes_unique (durable (sample_create empty_world).2).
Proof.
  eapply (@sessions_only_end testbed sample_upstream ∅ empty_database).
  - apply (run_create _ ∅ empty_world sample_user sample_meta "upstream-token-01"
      (run_refl _) eq_refl sample_ids).
  - intros i [s Hs]%elem_of_dom. simpl in Hs. by rewrite lookup_empty in Hs.
  - exact hashes_unique_empty.
Defined.
