(* ===== verification/Access.v ===== *)
(** * Who may call ([control_api/dependencies.py], [security.validate_origin])

    The checks that every route declares.  A request is what the framework
    hands to a handler: its headers, its cookies, the peer's address and the
    request id that the middleware chose. *)

From stdpp Require Import base list gmap.
From Stdlib Require Import NArith ZArith Lia.
From S2P Require Import Prelude Config Json Paths Models Storage World Security.
From S2P Require Import Sub2api Sessions.
Open Scope Z_scope.

Record Request := {
  rq_header : pystr → option pystr;
  rq_cookie : pystr → option pystr;
  rq_client_host : option pystr;
  rq_state_request_id : option pystr;
}.

(** [urllib.parse.urlsplit]; it refuses some bracketed hosts. *)
Record SplitResult := {
  sr_scheme : pystr;
  sr_netloc : pystr;
  sr_path : pystr;
  sr_query : pystr;
  sr_fragment : pystr;
}.
Class UrlSplit := urlsplit : pystr → outcome SplitResult.

(** [.rstrip("/")]. *)
Fixpoint lstrip_slash (l : list N) : list N :=
  match l with
  | c :: l' => if (c =? slash)%N then lstrip_slash l' else l
  | [] => []
  end.
Definition rstrip_slash (s : pystr) : pystr :=
  PyStr (reverse (lstrip_slash (reverse (codepoints s)))).

(** [.lower()], on the characters an HTTP header can hold; only those below 128
    can make one of the two words it is compared with. *)
Definition py_lower (s : pystr) : pystr :=
  PyStr ((λ c, if (65 <=? c)%N && (c <=? 90)%N then (c + 32)%N else c) <$> codepoints s).

Definition nonempty (s : pystr) : bool := py_truthy s.

Section access.
Context {P : Platform}.

(** ** [client_ip], [request_id], [_metadata] *)

Definition py_slice (n : nat) (s : pystr) : pystr := PyStr (take n (codepoints s)).

(** [split(",", 1)[0]]. *)
Fixpoint before_comma (l : list N) : list N :=
  match l with
  | [] => []
  | c :: l => if (c =? 44)%N then [] else c :: before_comma l
  end.

Definition client_ip (request : Request) : pystr :=
  let peer := match rq_client_host request with
              | None => "unknown" : pystr
              | Some host => py_slice 64 host
              end in
  if trust_forwarded_for settings then
    let forwarded_for := default "" (rq_header request "x-forwarded-for") in
    match py_strip (before_comma (codepoints forwarded_for)) with
    | [] => peer
    | candidate => py_slice 64 (PyStr candidate)
    end
  else peer.

Definition request_id_char (c : N) : bool :=
  ((65 <=? c) && (c <=? 90))%N || ((97 <=? c) && (c <=? 122))%N || is_digit c
  || bool_decide (c ∈ [46%N; 95%N; 58%N; 45%N]).

Definition request_id (request : Request) : option pystr :=
  value ← rq_state_request_id request;
  let n := length (codepoints value) in
  if (1 <=? n)%nat && (n <=? 128)%nat && forallb request_id_char (codepoints value)
  then Some value else None.

Definition user_agent_512 (request : Request) : option pystr :=
  let ua := py_slice 512 (default "" (rq_header request "user-agent")) in
  if py_truthy ua then Some ua else None.

Definition _metadata (request : Request) : RequestMetadata :=
  {| rm_request_id := request_id request; rm_source_ip := Some (client_ip request);
     rm_user_agent := user_agent_512 request |}.

(** ** [validate_origin] *)

Context {Url : UrlSplit}.

Definition origin_is_allowed (origin : pystr) : outcome bool :=
  let normalized := rstrip_slash origin in
  match urlsplit normalized with
  | Raise e => Raise e
  | Ok parsed =>
      Ok (py_in (sr_scheme parsed) ["http"; "https"]
          && py_truthy (sr_netloc parsed)
          && py_in (sr_path parsed) [""; "/"]
          && negb (py_truthy (sr_query parsed))
          && negb (py_truthy (sr_fragment parsed))
          && py_in normalized (allowed_origins settings))
  end.

Definition forbidden {A} (detail : pystr) : tx A := raise (HTTPException 403 detail).
Definition unauthorized {A} (detail : pystr) : tx A := raise (HTTPException 401 detail).

Definition validate_origin (request : Request) : tx unit :=
  match rq_header request "origin" with
  | None => forbidden "origin_required"
  | Some origin =>
      allowed ← of_outcome (origin_is_allowed origin);
      if negb allowed then forbidden "origin_not_allowed"
      else
        match rq_header request "sec-fetch-site" with
        | Some site =>
            if py_in (py_lower site) ["same-origin"; "none"] then mret tt
            else forbidden "fetch_metadata_not_allowed"
        | None => mret tt
        end
  end.

(** ** Sessions *)

Section sessions.
Context {U : Upstream} (meanwhile : database → database).

Definition _resolve_session (raw_token : option pystr) (touch verify_upstream force_upstream : bool) :
    tx (option (uuid * ControlSession)) :=
  try_catch (resolve meanwhile raw_token touch verify_upstream force_upstream)
    (λ e, match e with
          | Sub2APIUnavailable => raise (HTTPException 503 "sub2api_auth_unavailable")
          | Sub2APIProtocolError => raise (HTTPException 502 "sub2api_auth_contract_error")
          | e => raise e
          end).

Definition required (r : option (uuid * ControlSession)) : tx (uuid * ControlSession) :=
  match r with
  | Some r => mret r
  | None => unauthorized "control_session_required"
  end.

Definition session_cookie (request : Request) : option pystr :=
  rq_cookie request (cookie_name settings).

Definition require_session (request : Request) : tx (uuid * ControlSession) :=
  record ← _resolve_session (session_cookie request) true true false;
  required record.

(** The double-submitted token, and the session's. *)
Definition check_csrf (request : Request) (s : ControlSession) : tx unit :=
  match rq_cookie request (csrf_cookie_name settings),
        rq_header request (csrf_header_name settings) with
  | Some csrf_cookie, Some csrf_header =>
      if negb (py_truthy csrf_cookie) || negb (py_truthy csrf_header)
      then forbidden "csrf_validation_failed"
      else
        valid ← of_outcome (valid_csrf s csrf_cookie csrf_header);
        if negb valid then forbidden "csrf_validation_failed" else mret tt
  | _, _ => forbidden "csrf_validation_failed"
  end.

Definition require_mutating_session (request : Request) : tx (uuid * ControlSession) :=
  validate_origin request;;
  record ← _resolve_session (session_cookie request) false false false;
  record ← required record;
  check_csrf request record.2;;
  verified_record ← _resolve_session (session_cookie request) true true true;
  verified ← required verified_record;
  if negb (verified.1 =? record.1)%N then unauthorized "control_session_required"
  else mret verified.

Definition require_logout_session (request : Request) : tx (uuid * ControlSession) :=
  validate_origin request;;
  record ← _resolve_session (session_cookie request) true false false;
  record ← required record;
  check_csrf request record.2;;
  mret record.

Definition require_recent_mutating_session (request : Request) : tx (uuid * ControlSession) :=
  record ← require_mutating_session request;
  t ← now;
  if cs_issued_at record.2 + recent_auth_max_age_seconds settings * 1000000 <=? t
  then unauthorized "reauth_required"
  else mret record.
End sessions.
End access.
