(* ===== verification/AccessSafety.v ===== *)
(** * What the access checks establish

    A request that changes anything comes from an allowed origin, carries the
    session's own CSRF token, and its session was vouched for by the upstream
    during the request. *)

From stdpp Require Import base list gmap.
From Stdlib Require Import NArith ZArith Lia.
From S2P Require Import Prelude Config Json Paths Models Storage World Testbed Security.
From S2P Require Import Sub2api Sessions SessionSafety SessionProtocol Access.
Open Scope Z_scope.

Section safety.
Context {P : Platform} {Url : UrlSplit} {U : Upstream}.

(** Without touching and verifying, resolving writes nothing. *)
Lemma silent_keep id s h t : silent (keep_session id s h t false).
Proof. unfold keep_session. cbn [andb]. solve_silent. Qed.
#[local] Hint Resolve silent_keep : silent.

Lemma silent_resolve mw raw force : silent (resolve mw raw false false force).
Proof. unfold resolve. destruct raw; solve_silent. Qed.
#[local] Hint Resolve silent_resolve : silent.

Lemma silent_resolve_session mw raw force : silent (_resolve_session mw raw false false force).
Proof. unfold _resolve_session. solve_silent. Qed.

Lemma forward_resolve_session mw raw touch verify force :
  forward (_resolve_session mw raw touch verify force).
Proof. solve_forward. Qed.

Lemma resolve_session_ok mw raw touch verify force w r w' :
  _resolve_session mw raw touch verify force w = (Ok r, w') →
  resolve mw raw touch verify force w = (Ok r, w').
Proof.
  unfold _resolve_session, try_catch.
  destruct (resolve mw raw touch verify force w) as [[a|e] v]; [done|]. by destruct e.
Qed.

Lemma required_ok r w x w' : required r w = (Ok x, w') → r = Some x ∧ w' = w.
Proof. destruct r; [|done]. by intros [= <- <-]. Qed.

(** The request's origin is one of the configured ones. *)
Definition same_origin (request : Request) : Prop :=
  ∃ origin, rq_header request "origin" = Some origin
    ∧ rstrip_slash origin ∈ allowed_origins settings
    ∧ ∀ site, rq_header request "sec-fetch-site" = Some site →
        py_lower site ∈ (["same-origin"; "none"] : list pystr).

Lemma py_in_iff (x : pystr) l : py_in x l = true ↔ x ∈ l.
Proof. unfold py_in. by rewrite bool_decide_eq_true. Qed.

Lemma validate_origin_ok request w u w' :
  validate_origin request w = (Ok u, w') → w' = w ∧ same_origin request.
Proof.
  unfold validate_origin. destruct (rq_header request "origin") as [origin|] eqn:Ho; [|done].
  intros (b & v & [Ha ->]%of_outcome_ok_inv & E)%bind_ok_inv.
  destruct b; [|done]. cbn [negb] in E. unfold origin_is_allowed in Ha.
  destruct (urlsplit _) as [p|]; [|done]. injection Ha as Ha. reflect_bools.
  assert (Hin : rstrip_slash origin ∈ allowed_origins settings) by (by apply py_in_iff).
  destruct (rq_header request "sec-fetch-site") as [site|] eqn:Hs.
  - destruct (py_in _ _) eqn:Hp in E; [|done]. injection E as _ <-. split; [done|].
    exists origin. split_and!; [done..|]. intros site' Hs'. apply py_in_iff. congruence.
  - injection E as _ <-. split; [done|]. exists origin. split_and!; [done..|congruence].
Qed.

(** The CSRF cookie and header agree and are the session's. *)
Definition csrf_proved (request : Request) (s : ControlSession) : Prop :=
  ∃ token, rq_cookie request (csrf_cookie_name settings) = Some token
    ∧ rq_header request (csrf_header_name settings) = Some token
    ∧ py_truthy token = true ∧ digest "csrf" token = cs_csrf_token_hash s.

Lemma check_csrf_ok request s w u w' :
  check_csrf request s w = (Ok u, w') → w' = w ∧ csrf_proved request s.
Proof.
  unfold check_csrf. destruct (rq_cookie _ _) as [c|] eqn:Hc; [|done].
  destruct (rq_header _ _) as [h|] eqn:Hh; [|done].
  destruct (_ || _) eqn:Hn; [done|]. reflect_bools.
  intros (b & v & [Hv ->]%of_outcome_ok_inv & E)%bind_ok_inv.
  destruct b; [|done]. injection E as _ <-. split; [done|].
  unfold valid_csrf, compare_digest in Hv. destruct (_ && _) in Hv; [|done].
  case_bool_decide as He; [|done]. subst h. unfold matches in Hv. simplify_eq. reflect_bools.
  by exists c.
Qed.

Lemma forward_require_mutating mw request : forward (require_mutating_session mw request).
Proof. pose proof (forward_resolve_session mw). solve_forward. Qed.

(** What [require_mutating_session] establishes; [v] is the world between its
    two resolutions. *)
Record authorized (request : Request) (mw : database → database) (w : world) (id : uuid)
    (s : ControlSession) : Prop := {
  au_origin : same_origin request;
  au_csrf : ∃ s0, session_row (cs_token_hash s0) (durable w) (id, s0) ∧ csrf_proved request s0;
  au_session : ∃ cookie v v', session_cookie request = Some cookie ∧ (ticks w ≤ ticks v)%nat
    ∧ working v = working w ∧ durable v = durable w ∧ resolved cookie true true mw v v' id s;
}.

Lemma require_mutating_ok request mw w id s w' :
  working w = durable w →
  require_mutating_session mw request w = (Ok (id, s), w') → authorized request mw w id s.
Proof.
  intros Hwd. unfold require_mutating_session.
  intros ([] & v & [-> Ho]%validate_origin_ok & E)%bind_ok_inv.
  apply bind_ok_inv in E as (o & w1 & E1 & E).
  destruct (silent_ok_inv _ _ _ _ (silent_resolve_session _ _ _) E1) as [Hw1 Hd1].
  apply bind_ok_inv in E as ([i s0] & v & [-> ->]%required_ok & E). simpl in E.
  apply bind_ok_inv in E as ([] & v & [-> Hcsrf]%check_csrf_ok & E).
  apply bind_ok_inv in E as (o & w2 & E2 & E).
  apply bind_ok_inv in E as ([i' s'] & v & [-> ->]%required_ok & E). simpl in E.
  destruct (_ =? _)%N eqn:Hi in E; [|done]. cbn [negb] in E. injection E as -> -> <-.
  apply N.eqb_eq in Hi. subst i.
  pose proof (forward_resolve_session mw (session_cookie request) false false false w) as Ht1.
  rewrite E1 in Ht1. simpl in Ht1. apply resolve_session_ok in E1, E2.
  destruct (session_cookie request) as [cookie|] eqn:Hcookie; [|by injection E1 as [=]].
  apply resolve_ok in E1 as [(s1 & c & n & [Hr Hh] & _ & _ & _ & _ & _ & Hcs & _)].
  simpl in Hr. split.
  - done.
  - exists s1. split; [split; [by rewrite <- Hwd|done]|].
    destruct Hcsrf as (t & ? & ? & ? & ?). exists t. split_and!; congruence.
  - exists cookie, w1, w2. split_and!; try done. by eapply resolve_ok.
Qed.

(** ** Nothing is left pending *)

Notation settled := (λ _ w, working w = durable w).

Lemma resolve_session_settled mw raw touch verify force w :
  working w = durable w → wp (_resolve_session mw raw touch verify force) settled w.
Proof.
  intros Hwd. unfold _resolve_session. apply wp_try_catch.
  eapply wp_mono; [by apply resolve_ends|]. intros r w1 H%ended_either_settled.
  destruct r as [x|e]; [done|]. by destruct e; wp_step.
Qed.

Lemma wp_settled_silent {A} (m : tx A) w :
  silent m → working w = durable w → wp m settled w.
Proof. intros Hm Hwd. apply wp_silent; [done|]. congruence. Qed.

Lemma silent_required r : silent (required r).
Proof. unfold required, unauthorized. solve_silent. Qed.

Lemma silent_check_csrf request s : silent (check_csrf request s).
Proof. unfold check_csrf, forbidden. solve_silent. Qed.

Lemma silent_check_origin request : silent (validate_origin request).
Proof. unfold validate_origin, forbidden. solve_silent. Qed.

Lemma wp_bind_settled {A B} (m : tx A) (f : A → tx B) w :
  wp m settled w → (∀ a w, working w = durable w → wp (f a) settled w) → wp (mbind f m) settled w.
Proof. intros Hm Hf. wp_step. eapply wp_mono; [exact Hm|]. intros [a|e] w1 H; [by apply Hf|done]. Qed.

Lemma require_recent_settled mw request w :
  working w = durable w → wp (require_recent_mutating_session mw request) settled w.
Proof.
  intros Hwd. unfold require_recent_mutating_session, require_mutating_session.
  repeat match goal with
  | |- ∀ _ _, working _ = durable _ → _ => intros ? ? ?
  | |- wp (mbind _ _) _ _ => apply wp_bind_settled
  | |- wp (_resolve_session _ _ _ _ _) _ _ => by apply resolve_session_settled
  | |- wp (if ?b then _ else _) _ _ => destruct b
  | |- wp _ _ _ => apply wp_settled_silent; [first [apply silent_required | apply silent_check_csrf
      | apply silent_check_origin | unfold unauthorized; solve_silent]|done]
  end.
Qed.
End safety.
