(* ===== verification/Routes.v ===== *)
(** * The session and pairing routes ([control_api/routes.py])

    Each handler with what it declares: its dependencies, its rate limits, the
    service it calls and the status each of the service's errors becomes.  The
    request models' validation and the response headers other than cookies are
    the framework's.  A handler's database session ends with it, and what it
    did not commit is rolled back. *)

From stdpp Require Import base list gmap.
From Stdlib Require Import NArith ZArith Lia.
From S2P Require Import Prelude Config Json Paths Models Storage World Security DeviceAuth.
From S2P Require Import Sub2api Sessions Access Pairing.
Open Scope Z_scope.

Record SetCookie := {
  ck_key : pystr;
  ck_value : pystr;
  ck_max_age : Z;
  ck_expires : Z;
  ck_secure : bool;
  ck_httponly : bool;
  ck_samesite : pystr;
}.

Record SessionView := {
  sv_id : uuid;
  sv_user : pystr * option pystr * option pystr * option pystr;
  sv_issued_at : Z;
  sv_expires_at : Z;
  sv_reauth_at : Z;
  sv_csrf_header_name : pystr;
}.

Record PairingStartRequest := {
  pst_pairing_id : uuid;
  pst_created_at : Z * bool;
  pst_audience : pystr;
  pst_public_key : pystr;
  pst_display_name : pystr;
  pst_connector_version : pystr;
  pst_codex_version : pystr;
  pst_workspace_roots : list pystr;
  pst_code_commitment : pystr;
  pst_poll_token_commitment : pystr;
  pst_refresh_credential_commitment : pystr;
  pst_signature : pystr;
}.

Record PairingStartResponse := {
  psr_pairing_id : uuid;
  psr_expires_at : Z;
  psr_poll_url : pystr;
}.

Record PairingClaimResponse := {
  pcr_pairing_id : uuid;
  pcr_device_id : uuid;
  pcr_device_name : pystr;
}.

Inductive PollResponse :=
| PairingPendingResponse (pairing_id : uuid) (expires_at : Z)
| PairingCompletedResponse (device_id : uuid).

Section routes.
Context {P : Platform} {Url : UrlSplit} {U : Upstream}.

(** A service error becomes the HTTP error that the handler names for it. *)
Definition http_errors {A} (table : exn → option (Z * pystr)) (m : tx A) : tx A :=
  try_catch m (λ e, match table e with
                    | Some (status, detail) => raise (HTTPException status detail)
                    | None => raise e
                    end).

(** The same, counting the outcome first. *)
Definition counted_errors {A} (count : pystr → tx unit)
    (table : exn → option (pystr * Z * pystr)) (m : tx A) : tx A :=
  try_catch m (λ e, match table e with
                    | Some (outcome, status, detail) =>
                        count outcome;; raise (HTTPException status detail)
                    | None => raise e
                    end).

Definition session_outcome (outcome : pystr) : tx unit := measure (MSessionExchange outcome).
Definition pairing_outcome (operation outcome : pystr) : tx unit :=
  measure (MPairing operation outcome).

Definition rate_limited (detail : pystr) (e : exn) : option (Z * pystr) :=
  match e with RateLimitExceeded _ => Some (429, detail) | _ => None end.

Definition counted_rate_limit (detail : pystr) (e : exn) : option (pystr * Z * pystr) :=
  match e with RateLimitExceeded _ => Some ("rate_limited" : pystr, 429, detail) | _ => None end.

Definition _session_view (id : uuid) (s : ControlSession) : SessionView :=
  {| sv_id := id;
     sv_user := (cs_user_id s, cs_username s, cs_email s, cs_display_name s);
     sv_issued_at := cs_issued_at s; sv_expires_at := cs_expires_at s;
     sv_reauth_at := Z.min (cs_expires_at s)
                       (cs_issued_at s + recent_auth_max_age_seconds settings * 1000000);
     sv_csrf_header_name := csrf_header_name settings |}.

Definition control_cookie (key value : pystr) (httponly : bool) (s : ControlSession) : SetCookie :=
  {| ck_key := key; ck_value := value; ck_max_age := session_ttl_seconds settings;
     ck_expires := cs_expires_at s; ck_secure := cookie_secure settings;
     ck_httponly := httponly; ck_samesite := cookie_samesite settings |}.

Definition _set_control_cookies (s : ControlSession) (tokens : CookieTokens) : list SetCookie :=
  [control_cookie (cookie_name settings) (ct_session_token tokens) true s;
   control_cookie (csrf_cookie_name settings) (ct_csrf_token tokens) false s].

(** The names of the cookies that a logout deletes. *)
Definition _clear_control_cookies : list pystr :=
  [cookie_name settings; csrf_cookie_name settings].

Definition _audit_exchange_failure (request : Request) (reason : pystr) : tx unit :=
  let metadata := _metadata request in
  t ← now;
  modify (λ db, db <| audit := audit db ++
    [{| au_actor_user_id := None; au_actor_session_id := None; au_actor_device_id := None;
        au_action := "session.exchange"; au_outcome := AoDenied; au_resource_type := None;
        au_resource_id := None; au_request_id := rm_request_id metadata;
        au_source_ip := rm_source_ip metadata; au_user_agent := rm_user_agent metadata;
        au_details := JObj [("reason", JStr reason)]; au_created_at := t |}] |>);;
  commit.

(** [authorization.removeprefix("Bearer ").strip() or None]. *)
Definition scheme_token (scheme : pystr) (authorization : option pystr) : option pystr :=
  a ← authorization;
  if starts_with (codepoints scheme) (codepoints a)
  then Some (PyStr (py_strip (drop (length (codepoints scheme)) (codepoints a))))
  else None.

Definition bearer_token (authorization : option pystr) : option pystr :=
  t ← scheme_token "Bearer " authorization;
  if py_truthy t then Some t else None.

Section handlers.
Context (meanwhile : database → database).

(** ** [/session] *)

(** The access token of the body, or of the header; both must agree. *)
Definition access_token_of (body_token header_token : option pystr) : tx pystr :=
  if opt_truthy body_token && opt_truthy header_token
     && negb (bool_decide (body_token = header_token)) then
    session_outcome "conflicting_token";;
    raise (HTTPException 400 "conflicting_access_tokens")
  else
    match (if opt_truthy body_token then body_token else header_token) with
    | Some access_token => mret access_token
    | None =>
        session_outcome "missing_token";;
        raise (HTTPException 401 "sub2api_access_token_required")
    end.

(** The upstream's user, or the error it is answered with; a rejection is
    audited first. *)
Definition exchange_user (request : Request) (access_token : pystr) : tx Sub2APIUser :=
  other_transactions meanwhile;;
  try_catch
    (verify_access_token access_token
       {| ri_client_ip := client_ip request;
          ri_user_agent := default "" (rq_header request "user-agent") |})
    (λ e, match e with
          | InvalidSub2APIToken | RevokedSub2APIToken =>
              session_outcome "invalid_token";;
              _audit_exchange_failure request "invalid_access_token";;
              raise (HTTPException 401 "invalid_sub2api_access_token")
          | DisabledSub2APIUser =>
              session_outcome "disabled_user";;
              _audit_exchange_failure request "disabled_user";;
              raise (HTTPException 403 "sub2api_user_disabled")
          | Sub2APIUnavailable =>
              session_outcome "upstream_unavailable";;
              raise (HTTPException 503 "sub2api_auth_unavailable")
          | Sub2APIProtocolError =>
              session_outcome "upstream_protocol_error";;
              raise (HTTPException 502 "sub2api_auth_contract_error")
          | e => raise e
          end).

Definition exchange_create (request : Request) (user : Sub2APIUser) (access_token : pystr) :
    tx CreatedSession :=
  try_catch (create_session user (_metadata request) access_token)
    (λ e, match e with
          | SessionCapacityExceeded =>
              session_outcome "capacity_exceeded";;
              rollback;;
              raise (HTTPException 429 "control_session_capacity_exceeded")
          | SessionCredentialTooLarge =>
              session_outcome "credential_too_large";;
              rollback;;
              _audit_exchange_failure request "access_token_too_large";;
              raise (HTTPException 422 "sub2api_access_token_too_large")
          | e => raise e
          end).

Definition exchange_session (request : Request) (body_token : option pystr) :
    tx (SessionView * list SetCookie) :=
  with_session (
    validate_origin request;;
    counted_errors session_outcome (counted_rate_limit "session_exchange_rate_limited")
      (rate_check "session-exchange-ip" (client_ip request) (session_exchange_limit settings));;
    access_token ← access_token_of body_token (bearer_token (rq_header request "authorization"));
    user ← exchange_user request access_token;
    created ← exchange_create request user access_token;
    session_outcome "succeeded";;
    mret (_session_view (cr_id created) (cr_record created),
          _set_control_cookies (cr_record created) (cr_cookies created))).

Definition current_session (request : Request) : tx SessionView :=
  with_session (
    record ← require_session meanwhile request;
    mret (_session_view record.1 record.2)).

Definition logout_session (request : Request) : tx (list pystr) :=
  with_session (
    record ← require_logout_session meanwhile request;
    revoke_session record.1 record.2 (_metadata request);;
    mret _clear_control_cookies).

(** ** Pairing *)

Definition pairing_start_error (e : exn) : option (pystr * Z * pystr) :=
  match e with
  | PairingProofRejected => Some ("unauthorized" : pystr, 401, "invalid_pairing_proof" : pystr)
  | PairingExpired => Some ("expired" : pystr, 410, "pairing_expired" : pystr)
  | PairingConflict => Some ("conflict" : pystr, 409, "pairing_not_startable" : pystr)
  | PairingCapacityExceeded =>
      Some ("capacity_exceeded" : pystr, 429, "pairing_capacity_exceeded" : pystr)
  | ValueError msg | ThreadSnapshotTooLarge msg | CommandPayloadTooLarge msg =>
      Some ("invalid_input" : pystr, 422, msg)
  | _ => None
  end.

Definition start_request (payload : PairingStartRequest) : StartRequest :=
  {| Pairing.sr_pairing_id := pst_pairing_id payload;
     sr_proof_created_at := pst_created_at payload;
     sr_audience := pst_audience payload;
     sr_public_key := pst_public_key payload;
     sr_device_name := pst_display_name payload;
     sr_device_metadata :=
       JObj [("connector_version", JStr (pst_connector_version payload));
             ("codex_version", JStr (pst_codex_version payload))];
     sr_workspace_roots := pst_workspace_roots payload;
     sr_code_commitment := pst_code_commitment payload;
     sr_poll_token_commitment := pst_poll_token_commitment payload;
     sr_refresh_credential_commitment := pst_refresh_credential_commitment payload;
     sr_signature := pst_signature payload |}.

Definition start_device_pairing (payload : PairingStartRequest) (request : Request) :
    tx PairingStartResponse :=
  with_session (
    counted_errors (pairing_outcome "start") (counted_rate_limit "pairing_start_rate_limited")
      (rate_check "pairing-start" (client_ip request) (pairing_start_limit settings));;
    '(id, p) ← counted_errors (pairing_outcome "start") pairing_start_error
                 (start meanwhile (start_request payload) (_metadata request));
    pairing_outcome "start" "succeeded";;
    mret {| psr_pairing_id := id; psr_expires_at := dp_expires_at p;
            psr_poll_url := pairing_poll_path_prefix settings +++ "/device-pairings/"
                            +++ uuid_str id +++ "/poll" |}).

Definition pairing_claim_error (e : exn) : option (pystr * Z * pystr) :=
  match e with
  | RateLimitExceeded _ => Some ("rate_limited" : pystr, 429, "pairing_claim_rate_limited" : pystr)
  | PairingNotFound => Some ("not_found" : pystr, 404, "pairing_not_found" : pystr)
  | PairingExpired => Some ("expired" : pystr, 410, "pairing_expired" : pystr)
  | PairingConflict => Some ("conflict" : pystr, 409, "pairing_not_claimable" : pystr)
  | PairingCapacityExceeded =>
      Some ("capacity_exceeded" : pystr, 409, "device_capacity_exceeded" : pystr)
  | _ => None
  end.

Definition claim_device_pairing (code : pystr) (request : Request) : tx PairingClaimResponse :=
  with_session (
    record ← require_recent_mutating_session meanwhile request;
    '(id, p) ← counted_errors (pairing_outcome "claim") pairing_claim_error (
      rate_check "pairing-claim" (cs_user_id record.2) (pairing_claim_limit settings);;
      claim code record.1 record.2 (_metadata request));
    pairing_outcome "claim" "succeeded";;
    mret {| pcr_pairing_id := id; pcr_device_id := id; pcr_device_name := dp_device_name p |}).

Definition pairing_poll_error (e : exn) : option (pystr * Z * pystr) :=
  match e with
  | RateLimitExceeded _ => Some ("rate_limited" : pystr, 429, "pairing_poll_rate_limited" : pystr)
  | PairingNotFound => Some ("not_found" : pystr, 404, "pairing_not_found" : pystr)
  | PairingUnauthorized => Some ("unauthorized" : pystr, 401, "invalid_pairing_poll_token" : pystr)
  | PairingExpired => Some ("expired" : pystr, 410, "pairing_expired" : pystr)
  | PairingConflict => Some ("conflict" : pystr, 409, "pairing_invalid_state" : pystr)
  | _ => None
  end.

Definition poll_device_pairing (pairing_id : uuid) (request : Request) : tx PollResponse :=
  with_session (
    match scheme_token "Pairing " (rq_header request "authorization") with
    | None =>
        pairing_outcome "poll" "unauthorized";;
        unauthorized "pairing_authorization_required"
    | Some poll_token =>
        if negb (py_truthy poll_token) then
          pairing_outcome "poll" "unauthorized";;
          unauthorized "invalid_pairing_poll_token"
        else
          '(p, device) ← counted_errors (pairing_outcome "poll") pairing_poll_error (
            rate_check "pairing-poll-ip" (client_ip request) (pairing_poll_ip_limit settings);;
            rate_check "pairing-poll" (uuid_str pairing_id +++ ":" +++ client_ip request)
              (pairing_poll_limit settings);;
            poll pairing_id poll_token (_metadata request));
          match device with
          | None =>
              pairing_outcome "poll" "pending";;
              mret (PairingPendingResponse pairing_id (dp_expires_at p))
          | Some _ =>
              pairing_outcome "poll" "succeeded";;
              mret (PairingCompletedResponse pairing_id)
          end
    end).
End handlers.
End routes.
