(* ===== verification/RouteSafety.v ===== *)
(** * What the session routes promise

    An exchange makes a session for exactly the user the upstream names, or
    leaves the sessions alone; a logout needs neither the upstream nor the
    store. *)

From stdpp Require Import base list gmap.
From Stdlib Require Import NArith ZArith Lia.
From S2P Require Import Prelude Config Json Paths Models Storage World Testbed Security.
From S2P Require Import Sub2api Sessions SessionSafety SessionProtocol Access AccessSafety Routes.
Open Scope Z_scope.

Section exchange.
Context {P : Platform} {Url : UrlSplit} {U : Upstream}.

Lemma silent_http_errors {A} table (m : tx A) : silent m → silent (http_errors table m).
Proof. unfold http_errors. intros H. solve_silent. Qed.

Lemma silent_exchange_errors {A} table (m : tx A) :
  silent m → silent (counted_errors session_outcome table m).
Proof. unfold counted_errors, session_outcome. intros H. solve_silent. Qed.

Lemma silent_rate_check scope identity limit : silent (rate_check scope identity limit).
Proof. unfold rate_check. solve_silent. Qed.

Lemma silent_access_token_of a b : silent (access_token_of a b).
Proof. unfold access_token_of, session_outcome. solve_silent. Qed.

(** A handler that has written nothing to the sessions. *)
Definition untouched (db : database) (w : world) : Prop :=
  sessions (durable w) = sessions db.

Lemma wp_audit_failure request reason (Q : outcome unit → world → Prop) w :
  (∀ w', sessions (durable w') = sessions (working w) → Q (Ok tt) w') →
  wp (_audit_exchange_failure request reason) Q w.
Proof.
  intros HQ. unfold _audit_exchange_failure. wp_step. wp_step. wp_step. wp_step. wp_step.
  apply HQ. by rewrite_worlds.
Qed.

Lemma exchange_user_spec mw request token w :
  let identity := {| ri_client_ip := client_ip request;
                     ri_user_agent := default "" (rq_header request "user-agent") |} in
  wp (exchange_user mw request token) (λ r w', match r with
    | Ok user => read_auth_me (auth_me (ticks w) token identity) = Ok user
        ∧ working w' = mw (durable w) ∧ durable w' = mw (durable w)
    | Raise _ => untouched (mw (durable w)) w'
    end) w.
Proof.
  intros identity. unfold exchange_user, session_outcome. wp_step. unfold wp at 1. cbn [other_transactions fst snd].
  set (w1 := w <| durable := _ |> <| working := _ |>).
  assert (H1 : working w1 = mw (durable w)) by done.
  assert (H2 : durable w1 = mw (durable w)) by done.
  apply wp_try_catch. unfold wp at 1, verify_access_token. cbn [fst snd].
  change (ticks w1) with (ticks w). fold identity.
  destruct (read_auth_me _) as [user|e]; [done|].
  destruct e; try done; do 2 wp_step; try (wp_step; simpl; congruence).
  all: wp_step; apply wp_audit_failure; intros w3 Hw3; wp_step; unfold untouched; congruence.
Qed.

Lemma exchange_create_spec request user token w :
  working w = durable w →
  wp (exchange_create request user token) (λ r w', match r with
    | Ok c => created user w c (durable w')
    | Raise _ => untouched (durable w) w'
    end) w.
Proof.
  intros Hwd. unfold exchange_create, session_outcome. apply wp_try_catch.
  eapply wp_mono; [by apply create_session_spec|]. intros [c|e] w1; [by intros [H _]|].
  intros Hd1. unfold untouched. destruct e; try (wp_step; by rewrite Hd1).
  - do 5 wp_step. by rewrite_worlds.
  - do 5 wp_step. apply wp_audit_failure. intros w4 Hw4. wp_step.
    unfold untouched. rewrite Hw4. by rewrite_worlds.
Qed.

(** A request that starts with nothing pending. *)
Lemma wp_request {A} (m : tx A) (Q : outcome A → world → Prop) w :
  working w = durable w → wp m (λ r w', Q r (w' <| working := durable w' |>)) w →
  wp (with_session m) Q w.
Proof.
  intros Hwd. unfold wp, with_session. replace (w <| working := durable w |>) with w.
  - by destruct (m w).
  - rewrite <- Hwd. by destruct w.
Qed.

Lemma access_token_ok a b w token w' :
  access_token_of a b w = (Ok token, w') → a = Some token ∨ b = Some token.
Proof.
  unfold access_token_of. destruct (_ && _); [done|].
  destruct (opt_truthy a); [destruct a|destruct b]; try done; intros [= -> _]; auto.
Qed.

(** The user that the upstream named for a token of the request, and the session
    it became. *)
Record exchanged (request : Request) (body_token : option pystr) (mw : database → database)
    (w : world) (r : SessionView * list SetCookie) (db : database) : Prop := {
  ex_origin : same_origin request;
  ex_session : ∃ token n user c v,
    (body_token = Some token ∨ bearer_token (rq_header request "authorization") = Some token)
    ∧ read_auth_me (auth_me n token {| ri_client_ip := client_ip request;
          ri_user_agent := default "" (rq_header request "user-agent") |}) = Ok user
    ∧ working v = mw (durable w) ∧ created user v c db
    ∧ r.1 = _session_view (cr_id c) (cr_record c)
    ∧ r.2 = _set_control_cookies (cr_record c) (cr_cookies c);
}.

(** C23: an exchange from an allowed origin makes one session, of the user the
    upstream named for the request's token and within that user's limits, and
    hands out its cookies; an exchange that fails changes no session. *)
Theorem exchange_session_sound mw request body_token w :
  working w = durable w →
  match exchange_session mw request body_token w with
  | (Ok r, w') => exchanged request body_token mw w r (durable w')
  | (Raise _, w') => untouched (durable w) w' ∨ untouched (mw (durable w)) w'
  end.
Proof.
  intros Hwd.
  enough (H : wp (exchange_session mw request body_token) (λ r w', match r with
    | Ok x => exchanged request body_token mw w x (durable w')
    | Raise _ => untouched (durable w) w' ∨ untouched (mw (durable w)) w' end) w).
  { unfold wp in H. by destruct (exchange_session mw request body_token w) as [[]]. }
  assert (Hsame : ∀ v, durable v = durable w → untouched (durable w) v)
    by (intros v Hv; unfold untouched; congruence).
  unfold exchange_session. apply wp_request; [done|]. wp_step.
  unfold wp at 1. destruct (validate_origin request w) as [o w1] eqn:Eo. cbn [fst snd].
  pose proof (silent_check_origin request w) as [_ Hd0]. rewrite Eo in Hd0. simpl in Hd0.
  destruct o as [u|e]; [|left; by apply Hsame].
  apply validate_origin_ok in Eo as [-> Horigin].
  wp_step. apply wp_silent; [apply silent_exchange_errors, silent_rate_check|].
  intros [[]|e] w2 Hw2 Hd2; [|left; by apply Hsame]. wp_step.
  set (bearer := bearer_token _). unfold wp at 1.
  destruct (access_token_of body_token bearer w2) as [o w3] eqn:Et. cbn [fst snd].
  destruct (silent_access_token_of body_token bearer w2) as [Hw3 Hd3]. rewrite Et in Hw3, Hd3. simpl in Hw3, Hd3.
  destruct o as [token|e]; [|left; apply Hsame; simpl; congruence].
  apply access_token_ok in Et. wp_step. eapply wp_mono; [apply exchange_user_spec|].
  rewrite Hd3, Hd2. intros [user|e] w4; [|by right]. intros (Hu & Hw4 & Hd4).
  wp_step. eapply wp_mono; [apply exchange_create_spec; congruence|].
  intros [c|e] w5; [|by rewrite Hd4; right]. intros Hc. unfold session_outcome. do 3 wp_step.
  split; [done|].
  exists token, (ticks w3), user, c, w4. split_and!; try done. simpl. by rewrite Hd.
Qed.
End exchange.

(** ** Logging out *)

Section logout.
Context {P : Platform} {Url : UrlSplit} {U : Upstream}.

(** The browser sends no [Sec-Fetch-Site], or one that the code accepts. *)
Definition same_site (request : Request) : Prop :=
  match rq_header request "sec-fetch-site" with
  | Some site => py_in (py_lower site) ["same-origin"; "none"] = true
  | None => True
  end.

(** A request with the cookie, the origin and the CSRF token of a live session. *)
Record may_log_out (request : Request) (w : world) (id : uuid) (s : ControlSession) : Prop := {
  lo_origin : ∃ origin, rq_header request "origin" = Some origin ∧ origin_is_allowed origin = Ok true
    ∧ same_site request;
  lo_cookie : ∃ raw c, session_cookie request = Some raw ∧ unseal raw = Ok (Some c)
    ∧ sc_session_id c = id ∧ session_row (digest CONTROL_SESSION_DIGEST_PURPOSE raw) (working w) (id, s);
  lo_csrf : csrf_proved request s
    ∧ ∀ token, rq_cookie request (csrf_cookie_name settings) = Some token → is_ascii token = true;
  lo_live n : (ticks w ≤ n ≤ ticks w + 2)%nat → usable n s;
}.

Lemma validate_origin_run request w origin :
  rq_header request "origin" = Some origin → origin_is_allowed origin = Ok true →
  same_site request → validate_origin request w = (Ok tt, w).
Proof.
  unfold validate_origin, same_site. intros -> Ha Hs. unfold mbind, tx_bind, of_outcome. rewrite Ha.
  cbn [negb]. destruct (rq_header request "sec-fetch-site") as [site|]; [|done]. by rewrite Hs.
Qed.

Lemma check_csrf_run request s w :
  csrf_proved request s →
  (∀ token, rq_cookie request (csrf_cookie_name settings) = Some token → is_ascii token = true) →
  check_csrf request s w = (Ok tt, w).
Proof.
  intros (t & Hc & Hh & Ht & Hd) Hascii. unfold check_csrf. rewrite Hc, Hh, Ht. simpl.
  unfold mbind, tx_bind, of_outcome, valid_csrf, compare_digest, matches.
  rewrite (Hascii t Hc). simpl. rewrite !bool_decide_true by done. done.
Qed.

Lemma wp_resolve_live mw raw c id s w :
  working w = durable w → token_hashes_unique (working w) →
  unseal raw = Ok (Some c) → sc_session_id c = id →
  session_row (digest CONTROL_SESSION_DIGEST_PURPOSE raw) (working w) (id, s) →
  (∀ n, (ticks w ≤ n ≤ ticks w + 2)%nat → usable n s) →
  wp (resolve mw (Some raw) true false false)
    (λ r w', ∃ s1, r = Ok (Some (id, s1)) ∧ kept_row id s s1 w') w.
Proof.
  intros Hwd Hu Hun Hid Hrow Hlive. unfold resolve. rewrite (unseal_truthy _ _ Hun). cbn [negb].
  set (h := digest _ raw) in *. destruct (find_session_spec h w Hu) as [w1 E].
  rewrite (select_session_unique _ _ _ Hu Hrow) in E.
  pose proof (find_ticks _ _ _ _ E) as Ht.
  destruct (silent_ok_inv _ _ _ _ (silent_find_session _) E) as [Hw1 Hd1].
  destruct (Hlive (ticks w1) Ht) as [Hr Hx].
  wp_step. unfold wp at 1. rewrite E. cbn [fst snd]. rewrite bool_decide_true by done. cbn [negb].
  wp_step. unfold wp at 1. cbn [now fst snd].
  destruct (Z.leb_spec (cs_expires_at s) (clock (ticks w1))) as [|_]; [lia|].
  wp_step. unfold wp at 1. cbn [of_outcome fst snd]. rewrite Hun, Hid, N.eqb_refl. cbn [negb].
  wp_step. eapply wp_mono; [apply wp_keep_live|].
  - simpl. congruence.
  - simpl. rewrite Hw1. apply Hrow.
  - intros r w2 (s1 & -> & Hk). wp_step. by exists s1.
Qed.

Lemma wp_revoke_live id s meta (w : world) :
  working w = durable w → sessions (working w) !! id = Some s → cs_revoked_at s = None →
  wp (revoke_session id s meta) (λ r w', r = Ok tt ∧ ∃ s', sessions (durable w') !! id = Some s'
    ∧ s' = s <| cs_revoked_at := cs_revoked_at s' |> ∧ cs_revoked_at s' ≠ None) w.
Proof.
  intros Hwd Hs Hr. unfold revoke_session. rewrite bool_decide_true by done.
  do 3 wp_step. apply (wp_update_live id _ s); [by rewrite Hw|]. intros w2 Hw2 _.
  wp_step. apply wp_audit_append. intros l w3 Hw3 _. do 2 wp_step.
  apply wp_silent_ok; [apply silent_invalidate|apply invalidate_ok|]. intros [] w5 _ Hd5.
  split; [done|]. exists (set_revoked t s). split; [|by destruct s].
  rewrite Hd5. rewrite_worlds. exact Hw2.
Qed.

(** C28: a logout needs neither the upstream nor the store: a request with a live
    session's cookie, CSRF token and origin, with [Sec-Fetch-Site] absent or one of
    [same-origin] and [none], succeeds and leaves the session revoked, whatever
    fails. *)
Theorem logout_needs_nothing mw request id s w :
  working w = durable w → token_hashes_unique (working w) → may_log_out request w id s →
  ∃ w', logout_session mw request w = (Ok _clear_control_cookies, w')
    ∧ ∃ s', sessions (durable w') !! id = Some s' ∧ cs_user_id s' = cs_user_id s
        ∧ cs_revoked_at s' ≠ None.
Proof.
  intros Hwd Hu [(origin & Ho1 & Ho2 & Ho3) (raw & c & Hraw & Hun & Hid & Hrow) [Hcsrf Hascii] Hlive].
  enough (H : wp (logout_session mw request) (λ r w', r = Ok _clear_control_cookies
    ∧ ∃ s', sessions (durable w') !! id = Some s' ∧ cs_user_id s' = cs_user_id s
        ∧ cs_revoked_at s' ≠ None) w).
  { destruct H as [H1 H2]. exists (logout_session mw request w).2. split; [|exact H2].
    rewrite <- H1. apply surjective_pairing. }
  unfold logout_session. apply wp_request; [done|]. wp_step. unfold require_logout_session.
  wp_step. unfold wp at 1. rewrite (validate_origin_run request w origin) by done. cbn [fst snd].
  wp_step. unfold _resolve_session. apply wp_try_catch. rewrite Hraw.
  eapply wp_mono; [by eapply wp_resolve_live|]. intros r w1 (s1 & -> & Hs1 & Hin & Hwd1).
  wp_step. cbn [required]. wp_step. wp_step. unfold wp at 1. cbn [snd].
  assert (E : check_csrf request s1 w1 = (Ok tt, w1)) by (apply check_csrf_run; [by rewrite Hs1|done]).
  rewrite E. cbn [fst snd]. do 2 wp_step.
  eapply wp_mono; [apply wp_revoke_live; [done|done|]|].
  { rewrite Hs1. simpl. destruct (Hlive (ticks w)) as [H _]; [lia|exact H]. }
  intros r w2 (-> & s2 & Hs2 & He & Hr). wp_step. split; [done|]. exists s2.
  split; [exact Hs2|]. split; [|done]. by rewrite He, Hs1.
Qed.
End logout.

(** ** The strongest check *)

Section recent.
Context {P : Platform} {Url : UrlSplit} {U : Upstream}.

(** C10: a handler behind the recent-authentication check runs only for a request
    from an allowed origin with the session's own CSRF token, whose session is
    live and was vouched for by the upstream during this very request, and was
    created less than the configured time before a reading of the clock. *)
Theorem mutation_authorized mw request w id s w' :
  working w = durable w →
  require_recent_mutating_session mw request w = (Ok (id, s), w') →
  authorized request mw w id s
  ∧ ∃ n, (ticks w ≤ n < ticks w')%nat ∧ clock n < cs_issued_at s + recent_auth_max_age_seconds settings * 1000000.
Proof.
  intros Hwd. unfold require_recent_mutating_session.
  intros ([i s1] & w1 & E1 & E)%bind_ok_inv. apply bind_ok_inv in E as (t & w2 & [= <- <-] & E).
  simpl in E. destruct (Z.leb_spec (cs_issued_at s1 + recent_auth_max_age_seconds settings * 1000000)
    (clock (ticks w1))); [done|]. injection E as -> -> <-.
  pose proof (forward_require_mutating mw request w) as Ht. rewrite E1 in Ht. simpl in Ht.
  split; [by eapply require_mutating_ok|]. exists (ticks w1). split; [simpl; lia|done].
Qed.
End recent.

(** ** On the testbed *)

#[local] Instance sample_urlsplit : UrlSplit := λ s,
  if bool_decide (s = "http://testserver")
  then Ok {| sr_scheme := "http"; sr_netloc := "testserver"; sr_path := ""; sr_query := "";
             sr_fragment := "" |}
  else Raise (ValueError "urlsplit").

Definition sample_csrf : pystr :=
  default "" ((λ x, ct_csrf_token (cr_cookies x.1)) <$> sample_created).

(** A request of a browser that holds the cookies [cookie] and [csrf]. *)
Definition browser_request (cookie csrf : pystr) : Request :=
  {| rq_header h := if bool_decide (h = "origin") then Some ("http://testserver/" : pystr)
                    else if bool_decide (h = "sec-fetch-site") then Some ("Same-Origin" : pystr)
                    else if bool_decide (h = "x-csrf-token") then Some csrf
                    else if bool_decide (h = "authorization") then Some ("Bearer upstream-token-01" : pystr)
                    else None;
     rq_cookie c := if bool_decide (c = "__Host-codex_control") then Some cookie
                    else if bool_decide (c = "codex_csrf") then Some csrf else None;
     rq_client_host := Some ("10.0.0.9" : pystr);
     rq_state_request_id := None |}.

Definition sample_recent (cookie csrf : pystr) (db : database) :=
  @require_recent_mutating_session testbed sample_urlsplit sample_upstream (λ db, db)
    (browser_request cookie csrf) (start_world db).

Definition succeeded {A} (r : outcome A * @world testbed) : bool :=
  match r.1 with Ok _ => true | Raise _ => false end.

Lemma sample_recent_succeeds :
  succeeded (sample_recent sample_cookie sample_csrf sample_db) = true
  ∧ (sample_recent sample_cookie "other" sample_db).1 = Raise (HTTPException 403 "csrf_validation_failed").
Proof. split; vm_compute; reflexivity. Qed.

Lemma mutation_authorized_witness :
  match sample_recent sample_cookie sample_csrf sample_db with
  | (Ok (id, s), w') =>
      @authorized testbed sample_upstream (browser_request sample_cookie sample_csrf)
        (λ db, db) (start_world sample_db) id s
      ∧ ∃ n, (0 ≤ n < ticks w')%nat ∧ @clock testbed n < cs_issued_at s + 300 * 1000000
  | _ => False
  end.
Proof.
  pose proof (proj1 sample_recent_succeeds) as H.
  destruct (sample_recent sample_cookie sample_csrf sample_db) as [[[id s]|e] w'] eqn:E;
    [clear H|discriminate H].
  revert E. generalize sample_db sample_cookie sample_csrf. intros db cookie csrf E.
  exact (mutation_authorized (λ db, db) (browser_request cookie csrf) (start_world db) id s w'
    eq_refl E).
Defined.

Definition sample_exchange (body : option pystr) :=
  @exchange_session testbed sample_urlsplit sample_upstream (λ db, db) (browser_request "" "") body
    empty_world.

Lemma sample_exchange_succeeds :
  succeeded (sample_exchange None) = true
  ∧ (sample_exchange (Some ("another-token-0001" : pystr))).1
    = Raise (HTTPException 400 "conflicting_access_tokens").
Proof. split; vm_compute; reflexivity. Qed.

Lemma exchange_session_sound_witness :
  match sample_exchange None with
  | (Ok r, w') => @exchanged testbed sample_upstream (browser_request "" "") None
                    (λ db, db) empty_world r (durable w')
  | _ => False
  end.
Proof.
  pose proof (proj1 sample_exchange_succeeds) as H.
  pose proof (exchange_session_sound (Url := sample_urlsplit) (U := sample_upstream) (λ db, db)
    (browser_request "" "") None empty_world eq_refl) as Hx.
  change (exchange_session _ _ _ empty_world) with (sample_exchange None) in Hx.
  destruct (sample_exchange None) as [[r|e] w']; [exact Hx|discriminate H].
Defined.

(** Logging out with the store down: a platform that differs from the testbed in
    that alone. *)
#[local] Instance storeless : Platform := {|
  settings := @settings testbed;
  clock := @clock testbed;
  monotonic := @monotonic testbed;
  uuid4 := @uuid4 testbed;
  store_up _ := false;
  send_up := @send_up testbed;
  instance_id := @instance_id testbed;
  sha256 := @sha256 testbed;
  session_hmac_hex := @session_hmac_hex testbed;
  model_dump_json_bytes := @model_dump_json_bytes testbed;
  json_loads := @json_loads testbed;
  pydantic_json := @pydantic_json testbed;
  pydantic_datetime := @pydantic_datetime testbed;
  py_repr := @py_repr testbed;
  uuid_of_text := @uuid_of_text testbed;
  float_timestamp := @float_timestamp testbed;
  fromisoformat := @fromisoformat testbed;
  int_of_json := @int_of_json testbed;
  token_bytes := @token_bytes testbed;
  ed25519_verify := @ed25519_verify testbed;
  aead_encrypt := @aead_encrypt testbed;
  aead_decrypt := @aead_decrypt testbed;
  kvs := @kvs testbed;
  kvs_store := @kvs_store testbed;
|}.

(** An upstream that never answers. *)
#[local] Instance outage : Upstream := λ _ _ _, HttpTimeout.

Definition dark_world (db : database) : @world storeless :=
  {| working := db; durable := db; store := (kv_empty : @kvs storeless); ticks := 0; effects := [];
     hub := ∅ |}.

Lemma sample_tokens :
  match (sample_create empty_world).1 with
  | Ok c => py_truthy (ct_csrf_token (cr_cookies c)) && is_ascii (ct_csrf_token (cr_cookies c))
            && (cr_id c <? 2 ^ 128)%N
  | Raise _ => false
  end = true.
Proof. vm_compute. reflexivity. Qed.

Lemma logout_needs_nothing_witness :
  match sample_create empty_world with
  | (Ok c, w) => ∃ w', @logout_session storeless sample_urlsplit outage (λ db, db)
      (browser_request (ct_session_token (cr_cookies c)) (ct_csrf_token (cr_cookies c)))
      (dark_world (durable w)) = (Ok ["__Host-codex_control"; "codex_csrf"], w')
      ∧ ∃ s', sessions (durable w') !! cr_id c = Some s' ∧ cs_user_id s' = cs_user_id (cr_record c)
          ∧ cs_revoked_at s' ≠ None
  | _ => False
  end.
Proof.
  pose proof sample_tokens as Ht.
  pose proof (create_session_spec sample_user sample_meta "upstream-token-01" empty_world eq_refl) as H.
  unfold wp in H. change (create_session _ _ _ empty_world) with (sample_create empty_world) in H.
  destruct (sample_create empty_world) as [[c|e] w]; [|discriminate Ht]. cbn [fst snd] in *.
  destruct H as (Hc & (v1 & v2 & Hseal) & _).
  apply andb_true_iff in Ht as [Ht Hid]. apply andb_true_iff in Ht as [Ht1 Ht2].
  apply (seal_opens (P := testbed)) in Hseal;
    [|vm_compute; congruence|by apply N.ltb_lt|repeat constructor|discriminate].
  refine (logout_needs_nothing (P := storeless) (Url := sample_urlsplit) (U := outage) (λ db, db)
    (browser_request _ _) (cr_id c) (cr_record c) (dark_world (durable w)) eq_refl _ _).
  { exact (created_unique _ _ _ _ Hc hashes_unique_empty). }
  split.
  - exists "http://testserver/". split_and!; [reflexivity|vm_compute; reflexivity|reflexivity].
  - eexists _, _. split_and!; [reflexivity|exact Hseal|reflexivity|].
    split; [exact (ct_row _ _ _ _ Hc)|exact (ct_token _ _ _ _ Hc)].
  - split; [|by intros token [= <-]].
    exists (ct_csrf_token (cr_cookies c)). split_and!; [reflexivity..|exact Ht1|].
    symmetry. exact (ct_csrf _ _ _ _ Hc).
  - intros n Hn. pose proof (ct_live _ _ _ _ Hc) as Hl. unfold session_live in Hl.
    apply andb_true_iff in Hl as [Hl _]. apply bool_decide_eq_true in Hl. split; [exact Hl|].
    rewrite (ct_expires _ _ _ _ Hc). change (start_micros + 1000 * Z.of_nat n
      < start_micros + 1000 * Z.of_nat 0 + 600 * 1000000). simpl in Hn. lia.
Defined.
