(* ===== verification/ControlRoutes.v ===== *)
(** * The control routes ([control_api/control_routes.py])

    Each handler with its dependencies, the locks it takes and the service it
    calls.  [meanwhile] is what other transactions commit while the session is
    verified; [between] what they commit while the handler waits for the locks
    of the thread and the device, which it takes with nothing pending.  Query
    parameters, headers that must be present and bodies are validated by the
    framework.  Serialized answers are JSON values. *)

From stdpp Require Import base list gmap.
From Stdlib Require Import NArith ZArith Lia.
From S2P Require Import Prelude Config Json Paths Models Storage World Budget Security DeviceAuth.
From S2P Require Import Snapshot Events Capacity Commands Approvals Outbox Handshake Sub2api.
From S2P Require Import Sessions Access Routes.
Open Scope Z_scope.

(** [ThreadMessage.model_validate] of a stored message, dumped again; the
    coercions are pydantic's. *)
Class ThreadMessages := thread_message : json → option json.

(** [len(model_dump_json().encode())] of the bootstrap answer. *)
Class ResponseSize := response_bytes : json → Z.

(** [datetime.isoformat()] of an aware UTC time. *)
Definition isoformat (t : Z) : pystr :=
  let l := codepoints (iso t) in
  PyStr (take (length l - 1) l ++ codepoints "+00:00").

Section routes.
Context {P : Platform} {Url : UrlSplit} {U : Upstream}.
Context (meanwhile between : database → database).

Definition not_found_error {A} (detail : pystr) : tx A := raise (HTTPException 404 detail).
Definition conflict_error {A} (detail : pystr) : tx A := raise (HTTPException 409 detail).

Definition _idempotency (value : pystr) : tx pystr :=
  let normalized := PyStr (py_strip (codepoints value)) in
  guard_exn (negb (py_truthy normalized) || (128 <? py_len normalized))
    (HTTPException 400 "invalid_idempotency_key");;
  mret normalized.

Definition _owned_thread (owner_user_id : pystr) (thread_id : uuid) : tx ThreadBinding :=
  binding ← query (λ db, threads db !! thread_id);
  match binding with
  | Some b => if bool_decide (tb_owner_user_id b = owner_user_id) then mret b
              else not_found_error "thread_not_found"
  | None => not_found_error "thread_not_found"
  end.

(** [_command_error] on the errors that the handlers catch; [TurnStartInProgress]
    is caught by [start_turn] alone. *)
Definition _command_error (e : exn) : option (Z * pystr) :=
  match e with
  | CommandObjectNotFound => Some (404, "device_not_found" : pystr)
  | DeviceOffline => Some (409, "device_offline" : pystr)
  | CommandIdempotencyConflict => Some (409, "idempotency_conflict" : pystr)
  | CommandCapacityExceeded _ => Some (429, "too_many_outstanding_commands" : pystr)
  | _ => None
  end.

Definition _turn_error (e : exn) : option (Z * pystr) :=
  match e with
  | TurnStartInProgress => Some (409, "turn_start_in_progress" : pystr)
  | e => _command_error e
  end.

(** The same after a rollback. *)
Definition http_errors_rollback {A} (table : exn → option (Z * pystr)) (m : tx A) : tx A :=
  try_catch m (λ e, match table e with
                    | Some (status, detail) => rollback;; raise (HTTPException status detail)
                    | None => raise e
                    end).

Definition _model_catalog (d : Device) : list json := omap _validated_model (d_model_catalog d).

Definition newest_devices (owner : pystr) (db : database) : list (uuid * Device) :=
  order_by (λ a b, d_created_at b.2 <=? d_created_at a.2)
    (select_rows (λ _ d, bool_decide (d_owner_user_id d = owner) && negb (is_revoked d))
       (devices db)).

Definition newest_threads (shown : ThreadBinding → bool) (db : database) :
    list (uuid * ThreadBinding) :=
  order_by (λ a b, tb_updated_at b.2 <=? tb_updated_at a.2)
    (select_rows (λ _ b, shown b && negb (hidden (tb_status b))) (threads db)).

(** ** Devices *)

Definition connect_token_error (e : exn) : option (Z * pystr) :=
  match e with
  | DeviceCredentialRejected => Some (401, "invalid_device_credential" : pystr)
  | DeviceProofReplay => Some (409, "device_proof_replayed" : pystr)
  | DeviceProofRejected => Some (401, "invalid_device_proof" : pystr)
  | _ => None
  end.

Definition issue_device_connect_token (payload : DeviceConnectTokenRequest) (request : Request) :
    tx IssuedDeviceToken :=
  with_session (
    http_errors (rate_limited "device_connect_token_rate_limited")
      (rate_check "device-connect-token-ip" (client_ip request) (device_token_issue_limit settings));;
    http_errors connect_token_error
      (issue (rq_header request "authorization") payload (_metadata request))).

Fixpoint device_summaries (rows : list (uuid * Device)) : tx (list json) :=
  match rows with
  | [] => mret []
  | (id, d) :: rows =>
      view ← device_summary id d;
      views ← device_summaries rows;
      mret (view :: views)
  end.

Definition list_devices (request : Request) : tx (list json) :=
  with_session (
    session ← require_session meanwhile request;
    rows ← query (λ db, take (Z.to_nat (bootstrap_max_devices settings))
                          (newest_devices (cs_user_id session.2) db));
    device_summaries rows).

Fixpoint thread_summaries (rows : list (uuid * ThreadBinding)) : tx (list json) :=
  match rows with
  | [] => mret []
  | (id, b) :: rows =>
      view ← thread_summary id b;
      views ← thread_summaries rows;
      mret (view :: views)
  end.

Definition too_large {A} (detail : pystr) : tx A := raise (HTTPException 413 detail).

(** Every item of the answer fits its bound, and every pending approval's device
    is among the devices shown. *)
Definition bootstrap_fits (owner : pystr) (rows : list (uuid * Device))
    (bindings : list (uuid * ThreadBinding)) : tx unit :=
  for_each (λ '(id, d), ensure_device_projection_fits id d;; ensure_model_catalog_fits d) rows;;
  for_each (λ '(id, b), ensure_thread_projection_fits id b) bindings;;
  t ← now;
  pending ← query (λ db, select_rows (pending_approval db owner t) (approvals db));
  for_each (λ '(id, a),
    match (list_to_map rows : gmap uuid Device) !! ap_device_id a with
    | None => raise (OwnerCapacityExceeded "approval_device_not_bootstrap_visible")
    | Some d => ensure_approval_projection_fits id a d
    end) pending.

(** Everything [bootstrap_control] does for the owner of its session. *)
Definition bootstrap_snapshot {Size : ResponseSize} (connector_release : json) (owner : pystr) :
    tx json :=
  event_cursor ← lock_owner_cursor owner;
  rows ← query (λ db, take (Z.to_nat (bootstrap_max_devices settings + 1))
                        (newest_devices owner db));
  if bootstrap_max_devices settings <? Z.of_nat (length rows)
  then too_large "bootstrap_device_limit_exceeded" else
  bindings ← query (λ db, take (Z.to_nat (bootstrap_max_threads settings + 1))
    (newest_threads (λ b, bool_decide (tb_owner_user_id b = owner)
                          && device_not_revoked db (tb_device_id b)) db));
  if bootstrap_max_threads settings <? Z.of_nat (length bindings)
  then too_large "bootstrap_thread_limit_exceeded" else
  t ← now;
  pending_approval_count ← query (active_pending_approval_count owner t);
  if bootstrap_max_pending_approvals settings <? pending_approval_count
  then too_large "bootstrap_approval_limit_exceeded" else
  thread_views ← thread_summaries bindings;
  approval_views ← list_pending owner;
  try_catch (bootstrap_fits owner rows bindings)
    (λ e, match e with OwnerCapacityExceeded code => too_large code | e => raise e end);;
  commit;;
  device_views ← device_summaries rows;
  let snapshot := JObj [
    ("event_cursor", JStr (PyStr (py_str_int event_cursor)));
    ("devices", JArr device_views); ("threads", JArr thread_views);
    ("approvals", JArr approval_views);
    ("models_by_device",
      JObj ((λ r, (uuid_str r.1, JArr (_model_catalog r.2))) <$> rows));
    ("connector_release", connector_release)] in
  if bootstrap_max_response_bytes settings <? response_bytes snapshot
  then too_large "bootstrap_response_limit_exceeded"
  else mret snapshot.

Definition bootstrap_control {Size : ResponseSize} (connector_release : json) (request : Request) :
    tx json :=
  with_session (
    session ← require_session meanwhile request;
    bootstrap_snapshot connector_release (cs_user_id session.2)).

(** ** [revoke_device] *)

Definition revoked_device (t : Z) (d : Device) : Device :=
  d <| d_status := DsRevoked |> <| d_revoked_at := Some t |>
    <| d_refresh_credential_hash := None |> <| d_credential_version := d_credential_version d + 1 |>
    <| d_active_epoch := None |> <| d_active_connection_nonce := None |>.

Definition revoked_connection (device_id : uuid) (t : Z) (r : DeviceConnection) : DeviceConnection :=
  if connected_to device_id r
  then r <| dc_status := CnDisconnected |> <| dc_disconnected_at := Some t |>
         <| dc_closed_reason := Some "device_revoked" |>
  else r.

Definition closed_binding (t : Z) (b : ThreadBinding) : ThreadBinding :=
  b <| tb_status := TsClosed |> <| tb_active_turn_id := None |>
    <| tb_last_error := Some "device revoked" |> <| tb_updated_at := t |>.

(** [sorted({...})]. *)
Definition sorted_nonces (l : list pystr) : list pystr :=
  order_by (λ a b, lex_le (codepoints a) (codepoints b)) (remove_dups l).

(** Closing one thread of the device, with its event. *)
Definition close_thread (owner : pystr) (device_id : uuid) (t : Z) (row : uuid * ThreadBinding) :
    tx BrowserEvent :=
  let '(id, b) := row in
  let b' := closed_binding t b in
  modify (λ db, db <| threads := <[id := b']> (threads db) |>);;
  data ← thread_event_data id b';
  append owner device_id ThreadUpdated data (Some id) None.

(** The transaction: what was connected, and the events to publish. *)
Definition revoke_transaction (owner : pystr) (session_id device_id : uuid) (device : Device)
    (metadata : RequestMetadata) : tx (list pystr * list BrowserEvent) :=
  t ← now;
  lock_owner_cursor owner;;
  connected ← query (λ db, select_rows (λ _ r, connected_to device_id r) (connections db));
  let nonces := sorted_nonces (option_list (d_active_connection_nonce device)
                               ++ ((λ kr, dc_connection_nonce kr.2) <$> connected)) in
  update_device device_id (revoked_device t);;
  modify (λ db, db <| connections := revoked_connection device_id t <$> connections db |>);;
  denied ← deny_revoked device_id device;
  bindings ← query (λ db, select_rows (λ _ b, bool_decide (tb_device_id b = device_id)
                            && negb (bool_decide (tb_status b = TsClosed))) (threads db));
  closed ← fold_tx (λ events row, e ← close_thread owner device_id t row; mret (events ++ [e]))
             [] bindings;
  add_audit (Some owner) (Some session_id) None "device.revoke" AoSucceeded "device"
    (uuid_str device_id) metadata (JObj []);;
  revoked_view ← new_device_summary device_id device "revoked" (opt_time (d_last_seen_at device));
  e ← append owner device_id DeviceUpdated revoked_view None None;
  commit;;
  mret (nonces, denied ++ closed ++ [e]).

Definition revoke_device (device_id : uuid) (request : Request) : tx unit :=
  with_session (
    session ← require_recent_mutating_session meanwhile request;
    let owner := cs_user_id session.2 in
    device ← query (λ db, devices db !! device_id);
    match device with
    | None => not_found_error "device_not_found"
    | Some d =>
        if negb (bool_decide (d_owner_user_id d = owner)) then not_found_error "device_not_found"
        else
          '(nonces, events) ←
            (if negb (is_revoked d) then
               revoke_transaction owner session.1 device_id d (_metadata request)
             else mret ([], []));
          best_effort (revoke_access_token device_id);;
          best_effort (store_delete (connection_key device_id));;
          (if bool_decide (nonces = []) then mret tt
           else best_effort (publish ("device-dispatch:" +++ uuid_str device_id)
                               (kick_message nonces)));;
          for_each (λ e, best_effort (publish_event owner e)) events
    end).

(** ** Models and threads *)

Definition device_of_owner (owner : pystr) (device_id : uuid) (usable : Device → bool) : tx Device :=
  device ← query (λ db, devices db !! device_id);
  match device with
  | Some d => if bool_decide (d_owner_user_id d = owner) && usable d then mret d
              else not_found_error "device_not_found"
  | None => not_found_error "device_not_found"
  end.

Definition list_models (device_id : uuid) (request : Request) : tx (list json) :=
  with_session (
    session ← require_session meanwhile request;
    d ← device_of_owner (cs_user_id session.2) device_id
          (λ d, bool_decide (d_status d = DsActive));
    mret (_model_catalog d)).

(** [sync_models] and [sync_threads]: a list command for the whole device. *)
Definition sync_device (method : pystr) (device_id : uuid) (idempotency_key : pystr)
    (request : Request) : tx json :=
  with_session (
    session ← require_mutating_session meanwhile request;
    let owner := cs_user_id session.2 in
    '(id, c) ← http_errors _command_error (
      device ← require_owned_online_device owner device_id;
      key ← _idempotency idempotency_key;
      create owner device_id device method [("limit", JInt 100)] key (_metadata request)
        None None None);
    mret (command_view id c)).

Definition sync_models : uuid → pystr → Request → tx json := sync_device "model/list".
Definition sync_threads : uuid → pystr → Request → tx json := sync_device "thread/list".

Definition list_threads (device_id : uuid) (request : Request) : tx (list json) :=
  with_session (
    session ← require_session meanwhile request;
    let owner := cs_user_id session.2 in
    device_of_owner owner device_id (λ d, negb (is_revoked d));;
    rows ← query (λ db, take (Z.to_nat (bootstrap_max_threads settings))
      (newest_threads (λ b, bool_decide (tb_device_id b = device_id)
                            && bool_decide (tb_owner_user_id b = owner)) db));
    thread_summaries rows).
End routes.
