(* ===== verification/ThreadRoutes.v ===== *)
(** * The thread, turn and approval routes ([control_api/control_routes.py])

    The second half of the control routes: what a browser does with a thread.
    [meanwhile] and [between] are those of the other control routes. *)

From stdpp Require Import base list gmap.
From Stdlib Require Import NArith ZArith Lia.
From S2P Require Import Prelude Config Json Paths Models Storage World Budget Security.
From S2P Require Import Snapshot Events Capacity Commands Approvals Outbox Handshake Sub2api.
From S2P Require Import Sessions Access Routes ControlRoutes.
Open Scope Z_scope.

Section routes.
Context {P : Platform} {Url : UrlSplit} {U : Upstream}.
Context (meanwhile between : database → database).

(** ** [start_thread] *)

Definition start_params (cwd : pystr) (model : option pystr) : list (pystr * json) :=
  ("cwd", JStr cwd) :: match model with
                       | Some m => if py_truthy m then [("model", JStr m)] else []
                       | None => []
                       end.

Definition start_scope (device_id : uuid) : pystr :=
  command_scope device_id "thread/start" None [("threadId", JStr "threads")].

Definition start_state_invalid {A} : tx A := conflict_error "thread_start_state_invalid".

(** [existing_binding]: the thread of an earlier request with the same key. *)
Definition existing_binding (owner : pystr) (device_id : uuid) (scope key request_hash : pystr) :
    tx (option (uuid * ThreadBinding)) :=
  existing_command ← query (find_existing owner device_id scope key);
  match existing_command with
  | None => mret None
  | Some (_, c) =>
      if negb (bool_decide (cmd_request_hash c = request_hash))
      then conflict_error "idempotency_conflict"
      else
        found ← query (λ db, t ← cmd_thread_binding_id c; b ← threads db !! t; Some (t, b));
        match found with
        | Some r => mret (Some r)
        | None => start_state_invalid
        end
  end.

Definition new_binding (owner : pystr) (device_id : uuid) (d : Device) (cwd : pystr)
    (model : option pystr) (t : Z) : ThreadBinding :=
  {| tb_owner_user_id := owner; tb_device_id := device_id; tb_remote_thread_id := None;
     tb_status := TsRunning; tb_cwd := Some cwd; tb_title := "New thread";
     tb_model := default "" model; tb_active_turn_id := None;
     tb_snapshot := JObj [("messages", JArr [])]; tb_last_error := None;
     tb_appserver_epoch := default "" (d_active_epoch d); tb_created_at := t; tb_updated_at := t |}.

Definition add_binding (id : uuid) (b : ThreadBinding) : tx unit :=
  taken ← query (λ db, bool_decide (is_Some (threads db !! id)));
  guard_exn taken IntegrityError;;
  modify (λ db, db <| threads := <[id := b]> (threads db) |>).

Definition capacity_rollback {A} (answer : pystr → Z * pystr) (m : tx A) : tx A :=
  try_catch m (λ e, match e with
                    | OwnerCapacityExceeded code =>
                        rollback;; raise (HTTPException (answer code).1 (answer code).2)
                    | e => raise e
                    end).

(** [except (CommandIdempotencyConflict, CommandCapacityExceeded)]. *)
Definition _start_error (e : exn) : option (Z * pystr) :=
  match e with
  | CommandIdempotencyConflict | CommandCapacityExceeded _ => _command_error e
  | _ => None
  end.

Definition create_thread (owner : pystr) (device_id : uuid) (d : Device) (cwd : pystr)
    (model : option pystr) (key : pystr) (metadata : RequestMetadata) : tx json :=
  capacity_rollback (λ _, (409, "thread_capacity_exceeded" : pystr))
    (ensure_thread_creation_capacity_locked owner);;
  t ← now;
  id ← fresh_uuid;
  let b := new_binding owner device_id d cwd model t in
  add_binding id b;;
  capacity_rollback (λ code, (413, code)) (ensure_thread_projection_fits id b);;
  '(_, c) ← http_errors_rollback _start_error
    (create owner device_id d "thread/start" (start_params cwd model) key metadata (Some id) None
       (Some (start_scope device_id)));
  if bool_decide (cmd_thread_binding_id c = Some id) then thread_summary id b
  else
    modify (λ db, db <| threads := delete id (threads db) |>);;
    commit;;
    found ← query (λ db, t ← cmd_thread_binding_id c; b ← threads db !! t; Some (t, b));
    match found with
    | Some (id', b') => thread_summary id' b'
    | None => start_state_invalid
    end.

(** [except (CommandObjectNotFound, DeviceOffline)]. *)
Definition _device_error (e : exn) : option (Z * pystr) :=
  match e with CommandObjectNotFound | DeviceOffline => _command_error e | _ => None end.

(** Under the device's lock. *)
Definition start_locked (owner : pystr) (device_id : uuid) (cwd : pystr) (model : option pystr)
    (key : pystr) (metadata : RequestMetadata) : tx json :=
  let scope := start_scope device_id in
  let request_hash := canonical_request_hash "thread/start" (start_params cwd model) (Some scope) in
  d ← http_errors _device_error (require_owned_online_device owner device_id);
  let replayed : tx (option (uuid * ThreadBinding)) :=
    existing_binding owner device_id scope key request_hash in
  first ← replayed;
  match first with
  | Some (id, b) => commit;; thread_summary id b
  | None =>
      lock_owner_cursor owner;;
      second ← replayed;
      match second with
      | Some (id, b) => commit;; thread_summary id b
      | None => create_thread owner device_id d cwd model key metadata
      end
  end.

Definition start_thread (device_id : uuid) (cwd : pystr) (model : option pystr)
    (idempotency_key : pystr) (request : Request) : tx json :=
  with_session (
    session ← require_mutating_session meanwhile request;
    key ← _idempotency idempotency_key;
    other_transactions between;;
    start_locked (cs_user_id session.2) device_id cwd model key (_metadata request)).

(** ** Reading and archiving *)

(** [binding.snapshot or {}]. *)
Definition snapshot_of (b : ThreadBinding) : json :=
  if json_truthy (tb_snapshot b) then tb_snapshot b else JObj [].

(** [thread_detail]: the summary and the messages that are valid. *)
Definition detail_messages {M : ThreadMessages} (snapshot : json) : outcome (list json) :=
  match snapshot with
  | JObj l =>
      match assoc_get "messages" l with
      | None => Ok []
      | Some (JArr raw) => Ok (omap thread_message raw)
      | Some (JStr raw) => Ok (omap (λ c, thread_message (JStr (PyStr [c]))) (codepoints raw))
      | Some (JObj raw) => Ok (omap (λ kv, thread_message (JStr kv.1)) raw)
      | Some _ => Raise TypeError
      end
  | _ => Raise AttributeError
  end.

Definition thread_detail {M : ThreadMessages} (id : uuid) (b : ThreadBinding) : tx json :=
  messages ← of_outcome (detail_messages (snapshot_of b));
  summary ← thread_summary id b;
  mret (match summary with
        | JObj l => JObj (assoc_set "messages" (JArr messages) l)
        | j => j
        end).

Definition read_thread {M : ThreadMessages} (thread_id : uuid) (request : Request) : tx json :=
  with_session (
    session ← require_session meanwhile request;
    let owner := cs_user_id session.2 in
    event_cursor ← lock_owner_cursor owner;
    b ← _owned_thread owner thread_id;
    size ← of_outcome (compact_ensure_ascii_size (snapshot_of b));
    if device_max_result_bytes settings <? size
    then raise (HTTPException 413 "thread_snapshot_too_large") else
    detail ← thread_detail thread_id b;
    commit;;
    mret (JObj [("event_cursor", JStr (PyStr (py_str_int event_cursor))); ("thread", detail)])).

(** The device a thread is on, read before the locks are taken. *)
Definition thread_device (owner : pystr) (thread_id : uuid) : tx uuid :=
  found ← query (λ db,
    b ← threads db !! thread_id;
    if bool_decide (tb_owner_user_id b = owner) then Some (tb_device_id b) else None);
  match found with
  | Some device_id => mret device_id
  | None => not_found_error "thread_not_found"
  end.

(** The thread again, under the locks. *)
Definition locked_thread (owner : pystr) (device_id thread_id : uuid) : tx ThreadBinding :=
  binding ← query (λ db,
    b ← threads db !! thread_id;
    if bool_decide (tb_owner_user_id b = owner) && bool_decide (tb_device_id b = device_id)
    then Some b else None);
  match binding with
  | Some b => mret b
  | None => not_found_error "thread_not_found"
  end.

Definition archive_row (t : Z) (b : ThreadBinding) : ThreadBinding :=
  b <| tb_status := TsStale |> <| tb_updated_at := t |>.

Definition archived_event_data (id : uuid) (b : ThreadBinding) : tx json :=
  data ← thread_event_data id b;
  mret (match data with JObj l => JObj (assoc_set "archived" (JBool true) l) | j => j end).

(** Under the locks; [None] when the thread was hidden already. *)
Definition archive_locked (owner : pystr) (session_id device_id thread_id : uuid)
    (metadata : RequestMetadata) : tx (option BrowserEvent) :=
  device ← query (λ db, devices db !! device_id);
  match device with
  | Some d =>
      if bool_decide (d_owner_user_id d = owner) && bool_decide (d_status d = DsActive) then
        lock_owner_cursor owner;;
        b ← locked_thread owner device_id thread_id;
        if hidden (tb_status b) then commit;; mret None
        else
          archivable ← query (thread_is_safely_archivable thread_id b);
          if negb archivable then rollback;; conflict_error "thread_not_archivable"
          else
            t ← now;
            let b' := archive_row t b in
            modify (λ db, db <| threads := <[thread_id := b']> (threads db) |>);;
            add_audit (Some owner) (Some session_id) None "thread.archive" AoSucceeded
              "thread_binding" (uuid_str thread_id) metadata
              (JObj [("device_id", JStr (uuid_str device_id))]);;
            data ← archived_event_data thread_id b';
            event ← append owner device_id ThreadUpdated data (Some thread_id) None;
            commit;;
            mret (Some event)
      else not_found_error "thread_not_found"
  | None => not_found_error "thread_not_found"
  end.

Definition archive_thread (thread_id : uuid) (request : Request) : tx unit :=
  with_session (
    session ← require_mutating_session meanwhile request;
    let owner := cs_user_id session.2 in
    device_id ← thread_device owner thread_id;
    rollback;;
    other_transactions between;;
    event ← archive_locked owner session.1 device_id thread_id (_metadata request);
    match event with
    | Some e => best_effort (publish_event owner e)
    | None => mret tt
    end).

(** ** Commands on a thread *)

Definition remote_thread (b : ThreadBinding) : tx pystr :=
  match tb_remote_thread_id b with
  | Some id => if py_truthy id then mret id else conflict_error "thread_not_started"
  | None => conflict_error "thread_not_started"
  end.

Definition sync_thread (thread_id : uuid) (idempotency_key : pystr) (request : Request) : tx json :=
  with_session (
    session ← require_mutating_session meanwhile request;
    let owner := cs_user_id session.2 in
    b ← _owned_thread owner thread_id;
    remote ← remote_thread b;
    '(id, c) ← http_errors _command_error (
      device ← require_owned_online_device owner (tb_device_id b);
      key ← _idempotency idempotency_key;
      create owner (tb_device_id b) device "thread/read"
        [("threadId", JStr remote); ("includeTurns", JBool true)] key (_metadata request)
        (Some thread_id) None None);
    mret (command_view id c)).

Definition resume_locked (owner : pystr) (device_id thread_id : uuid) (key : pystr)
    (metadata : RequestMetadata) : tx (uuid * Command) :=
  device ← require_owned_online_device owner device_id;
  lock_owner_cursor owner;;
  b ← locked_thread owner device_id thread_id;
  remote ← remote_thread b;
  let params := [("threadId" : pystr, JStr remote)] in
  let scope := command_scope device_id "thread/resume" (Some thread_id) params in
  reserved ← query (λ db, resume_reservation db thread_id);
  (if hidden (tb_status b) && negb reserved
   then ensure_thread_visibility_capacity_locked owner else mret tt);;
  create owner device_id device "thread/resume" params key metadata (Some thread_id) None
    (Some scope).

Definition resume_thread (thread_id : uuid) (idempotency_key : pystr) (request : Request) : tx json :=
  with_session (
    session ← require_mutating_session meanwhile request;
    let owner := cs_user_id session.2 in
    key ← _idempotency idempotency_key;
    device_id ← thread_device owner thread_id;
    rollback;;
    other_transactions between;;
    '(id, c) ← capacity_rollback (λ _, (409, "thread_capacity_exceeded" : pystr))
      (http_errors_rollback _command_error
         (resume_locked owner device_id thread_id key (_metadata request)));
    mret (command_view id c)).

(** ** Turns *)

(** [any(isinstance(item, dict) and item.get("id") == key ...)]. *)
Definition message_known (key : pystr) (messages : list json) : bool :=
  existsb (λ j, match j with JObj m => has_id key m | _ => false end) messages.

Definition user_message (key text : pystr) (t : Z) : json :=
  JObj [("id", JStr key); ("role", JStr "user"); ("text", JStr text);
        ("created_at", JStr (isoformat t)); ("pending", JBool false)].

(** [list(snapshot.get("messages", []))]. *)
Definition messages_of (snapshot : dict) : outcome (list json) :=
  match assoc_get "messages" snapshot with
  | None => Ok []
  | Some (JArr l) => Ok l
  | Some (JStr s) => Ok ((λ c, JStr (PyStr [c])) <$> codepoints s)
  | Some (JObj l) => Ok ((λ kv, JStr kv.1) <$> l)
  | Some _ => Raise TypeError
  end.

(** [dict(...)] of the stored snapshot. *)
Definition snapshot_dict (b : ThreadBinding) : outcome dict :=
  match snapshot_of b with
  | JObj l => Ok l
  | JArr [] => Ok []
  | JStr _ | JArr _ => Raise (ValueError "dictionary update sequence")
  | _ => Raise TypeError
  end.

(** The snapshot with the user's message, compacted. *)
Definition snapshot_with_message (b : ThreadBinding) (key text : pystr) : tx dict :=
  snapshot ← of_outcome (snapshot_dict b);
  messages ← of_outcome (messages_of snapshot);
  snapshot ← (if message_known key messages then mret snapshot
              else
                t ← now;
                mret (assoc_set "messages" (JArr (messages ++ [user_message key text t])) snapshot));
  of_outcome (compact_thread_snapshot snapshot (device_max_result_bytes settings) (Some key)
                MAX_THREAD_SNAPSHOT_MESSAGES).

Definition turn_input (text : pystr) : json :=
  JArr [JObj [("type", JStr "text"); ("text", JStr text)]].

Definition start_turn_locked (owner : pystr) (device_id thread_id : uuid) (text key : pystr)
    (metadata : RequestMetadata) : tx (uuid * Command) :=
  device ← require_owned_online_device owner device_id;
  b ← locked_thread owner device_id thread_id;
  remote ← remote_thread b;
  snapshot ← snapshot_with_message b key text;
  save_binding thread_id (b <| tb_snapshot := JObj snapshot |> <| tb_status := TsRunning |>);;
  create owner device_id device "turn/start"
    [("threadId", JStr remote); ("input", turn_input text)] key metadata (Some thread_id) None None.

(** What the three turn routes share: the locks of the thread and its device,
    and a rollback before an error is answered. *)
Definition turn_route (table : exn → option (Z * pystr)) (thread_id : uuid)
    (idempotency_key : pystr) (request : Request)
    (body : pystr → uuid → pystr → tx (uuid * Command)) : tx json :=
  with_session (
    session ← require_mutating_session meanwhile request;
    let owner := cs_user_id session.2 in
    key ← _idempotency idempotency_key;
    device_id ← thread_device owner thread_id;
    other_transactions between;;
    '(id, c) ← http_errors_rollback table (body owner device_id key);
    mret (command_view id c)).

Definition start_turn (thread_id : uuid) (text idempotency_key : pystr) (request : Request) :
    tx json :=
  turn_route _turn_error thread_id idempotency_key request (λ owner device_id key,
    start_turn_locked owner device_id thread_id text key (_metadata request)).

(** A started thread with an active turn. *)
Definition active_turn (b : ThreadBinding) : tx (pystr * pystr) :=
  match tb_remote_thread_id b, tb_active_turn_id b with
  | Some remote, Some turn =>
      if py_truthy remote && py_truthy turn then mret (remote, turn)
      else conflict_error "turn_not_active"
  | _, _ => conflict_error "turn_not_active"
  end.

Definition on_active_turn (method : pystr) (params : pystr → pystr → list (pystr * json))
    (owner : pystr) (device_id thread_id : uuid) (key : pystr) (metadata : RequestMetadata) :
    tx (uuid * Command) :=
  device ← require_owned_online_device owner device_id;
  b ← locked_thread owner device_id thread_id;
  '(remote, turn) ← active_turn b;
  create owner device_id device method (params remote turn) key metadata (Some thread_id) None None.

Definition steer_turn (thread_id : uuid) (text idempotency_key : pystr) (request : Request) :
    tx json :=
  turn_route _command_error thread_id idempotency_key request (λ owner device_id key,
    on_active_turn "turn/steer" (λ remote turn,
      [("threadId", JStr remote); ("expectedTurnId", JStr turn); ("input", turn_input text)])
      owner device_id thread_id key (_metadata request)).

Definition interrupt_turn (thread_id : uuid) (idempotency_key : pystr) (request : Request) : tx json :=
  turn_route _command_error thread_id idempotency_key request (λ owner device_id key,
    on_active_turn "turn/interrupt" (λ remote turn,
      [("threadId", JStr remote); ("turnId", JStr turn)])
      owner device_id thread_id key (_metadata request)).

(** ** Approvals *)

Definition list_approvals (request : Request) : tx (list json) :=
  with_session (
    session ← require_session meanwhile request;
    list_pending (cs_user_id session.2)).

Definition approval_error (e : exn) : option (Z * pystr) :=
  match e with
  | ApprovalNotFound => Some (404, "approval_not_found" : pystr)
  | ApprovalExpired => Some (410, "approval_expired" : pystr)
  | ApprovalStaleEpoch => Some (409, "approval_stale_epoch" : pystr)
  | ApprovalDeviceOffline => Some (409, "device_offline" : pystr)
  | ApprovalDecisionConflict => Some (409, "approval_already_decided" : pystr)
  | _ => None
  end.

Definition decide_approval (approval_id : uuid) (decision : pystr) (request : Request) : tx unit :=
  with_session (
    session ← require_recent_mutating_session meanwhile request;
    http_errors approval_error
      (decide (cs_user_id session.2) approval_id decision session.1 (_metadata request));;
    mret tt).
End routes.
