(* ===== verification/BrowserSocket.v ===== *)
(** * A browser's WebSocket ([RealtimeService.handle_browser])

    Admission (origin, session, cursor, connection lease), then the tasks of the
    open socket: the session monitor, the drain of the event stream, the renewal
    of the lease and the receive loop.  Their wake-ups are the inputs of [serve];
    what a wake-up does is [BrowserStream]'s drain, [Sessions.resolve] and the
    store's lease operations.  Whatever ends the socket, its leases are released. *)

From stdpp Require Import base list gmap.
From Stdlib Require Import NArith ZArith Lia.
From S2P Require Import Prelude Config Json Models Storage World Events BrowserStream Frames.
From S2P Require Import Security Sub2api Sessions Access.
Open Scope Z_scope.

(** What the handler reads of the handshake request. *)
Record BrowserWebSocket := {
  bw_id : uuid;
  bw_origin : option pystr;
  bw_cookie : option pystr;
  bw_cursor : option pystr;
}.

(** An admitted socket: its session, the cursor it resumes from, its lease. *)
Record BrowserAdmission := {
  ba_session_id : uuid;
  ba_session : ControlSession;
  ba_cursor : Z;
  ba_lease : BrowserConnectionLease;
}.

(** What wakes a task of the socket, and what other transactions commit
    meanwhile. *)
Inductive BrowserInput :=
| SessionSignal (signal : pystr)
| SessionRecheck
| StreamWakeUp
| RenewalDue
| SubscriptionLost
| ClientText (text : pystr)
| ClientGone (code : option Z)
| OtherTransactions (f : database → database).

Section socket.
Context {P : Platform} {Url : UrlSplit} {U : Upstream}.
Context (meanwhile : database → database).

(** [int(text)]: decimal digits are read here, any other text by the platform. *)
Definition int_of_text (s : pystr) : option Z :=
  if negb (bool_decide (codepoints s = [])) && forallb is_digit (codepoints s)
  then Some (py_int s) else int_of_json (JStr s).

Definition socket_label (ws : BrowserWebSocket) : pystr := uuid_str (bw_id ws).

(** [websocket_rejected] and [close], before the socket was accepted. *)
Definition reject (ws : BrowserWebSocket) (reason : pystr) (code : Z) : tx (option BrowserAdmission) :=
  measure (MWebsocketRejected "browser" reason);;
  close_socket (socket_label ws) code;;
  mret None.

Definition browser_cursor (ws : BrowserWebSocket) : option Z :=
  cursor ← int_of_text (default "0" (bw_cursor ws));
  if (cursor <? 0) || (MAX_EVENT_CURSOR <? cursor) then None else Some cursor.

(** Everything [handle_browser] does before [websocket.accept()]. *)
Definition admit_browser (ws : BrowserWebSocket) : tx (option BrowserAdmission) :=
  allowed ← match bw_origin ws with
            | None => mret false
            | Some origin => of_outcome (origin_is_allowed origin)
            end;
  if negb allowed then reject ws "origin_denied" 4403
  else
    found ← try_catch
      (r ← with_session (resolve meanwhile (bw_cookie ws) false true false); mret (Some r))
      (λ _, mret None);
    match found with
    | None => reject ws "dependency_unavailable" 1013
    | Some None => reject ws "invalid_auth" 4401
    | Some (Some (id, s)) =>
        match browser_cursor ws with
        | None => reject ws "invalid_cursor" 4400
        | Some cursor =>
            lease ← try_catch
              (l ← _acquire_browser_connection_lease id (cs_user_id s); mret (Ok l))
              (λ e, mret (Raise e));
            match lease with
            | Ok lease => mret (Some {| ba_session_id := id; ba_session := s;
                                        ba_cursor := cursor; ba_lease := lease |})
            | Raise BrowserConnectionLimitExceeded => reject ws "capacity_exceeded" 4429
            | Raise _ => reject ws "dependency_unavailable" 1013
            end
        end
    end.

(** ** The session monitor *)

Definition _active_browser_session_expiry (session_id : uuid) (raw_token : option pystr) :
    tx (option Z) :=
  session ← with_session (resolve meanwhile raw_token false true true);
  mret (match session with
        | Some (id, s) => if (id =? session_id)%N then Some (cs_expires_at s) else None
        | None => None
        end).

(** A failure of the monitor other than its own close is unavailability. *)
Definition monitor_failure {A} (e : exn) : tx A :=
  match e with
  | BrowserSocketClose code reason => raise (BrowserSocketClose code reason)
  | _ => raise (BrowserSocketClose 1013 "control session verification unavailable")
  end.

(** One verification under the gate, and the expiry check of the monitor's loop. *)
Definition monitor_session (a : BrowserAdmission) (raw_token : option pystr)
    (signal : option pystr) : tx unit :=
  try_catch
    (guard_exn (match signal with
                | Some signal => negb (bool_decide (signal = uuid_str (ba_session_id a)))
                | None => false
                end) RuntimeError;;
     expires_at ← _active_browser_session_expiry (ba_session_id a) raw_token;
     match expires_at with
     | None => raise (BrowserSocketClose 4401 "control session expired")
     | Some expires_at =>
         t ← now;
         guard_exn (expires_at <=? t) (BrowserSocketClose 4401 "control session expired")
     end)
    monitor_failure.

(** ** The other tasks *)

Definition renew_slot (slot : BrowserLeaseSlot) : tx unit :=
  refreshed ← store_compare_refresh (ls_key slot) (ls_value slot)
                (browser_connection_lease_ttl_seconds settings);
  guard_exn (negb refreshed) RuntimeError.

Definition slots (lease : BrowserConnectionLease) : list BrowserLeaseSlot :=
  [session_slot lease; user_slot lease].

(** One round of [_renew_browser_connection_lease]. *)
Definition renew_lease (lease : BrowserConnectionLease) : tx unit :=
  try_catch (for_each renew_slot (slots lease))
    (λ _, raise (BrowserSocketClose 1013 "browser connection lease unavailable")).

(** Reading pages to the head of the stream: no page is empty while there is
    more, so the events left bound the number of pages. *)
Definition drain (ws : BrowserWebSocket) (owner : pystr) (latest_cursor : Z) : tx Z :=
  last ← with_session (query (λ db, stream_last db owner));
  cursor ← forward_pages (S (Z.to_nat (last - latest_cursor))) (bw_id ws) owner latest_cursor;
  mret (default latest_cursor cursor).

Definition _browser_receive_loop (text : pystr) : tx unit :=
  if bool_decide (text = "close") then raise (BrowserSocketClose 1000 "client requested close")
  else raise (BrowserSocketClose 1008 "browser event channel is server-only").

Fixpoint serve_browser (ws : BrowserWebSocket) (a : BrowserAdmission) (latest_cursor : Z)
    (inputs : list BrowserInput) : tx unit :=
  match inputs with
  | [] => mret tt
  | SessionSignal signal :: inputs =>
      monitor_session a (bw_cookie ws) (Some signal);;
      serve_browser ws a latest_cursor inputs
  | SessionRecheck :: inputs =>
      monitor_session a (bw_cookie ws) None;;
      serve_browser ws a latest_cursor inputs
  | StreamWakeUp :: inputs =>
      latest_cursor ← drain ws (cs_user_id (ba_session a)) latest_cursor;
      serve_browser ws a latest_cursor inputs
  | RenewalDue :: inputs => renew_lease (ba_lease a);; serve_browser ws a latest_cursor inputs
  | SubscriptionLost :: _ => raise RuntimeError
  | ClientText text :: _ => _browser_receive_loop text
  | ClientGone code :: _ => raise (WebSocketDisconnect code)
  | OtherTransactions f :: inputs =>
      other_transactions f;; serve_browser ws a latest_cursor inputs
  end.

(** ** The whole handler *)

(** The open socket: the first verification and catch-up precede the tasks. *)
Definition open_browser (ws : BrowserWebSocket) (a : BrowserAdmission) (inputs : list BrowserInput) :
    tx unit :=
  measure (MWebsocketOpened "browser");;
  monitor_session a (bw_cookie ws) None;;
  latest_cursor ← drain ws (cs_user_id (ba_session a)) (ba_cursor a);
  serve_browser ws a latest_cursor inputs.

(** The close the handler asks for, and the reason it records. *)
Definition browser_ending (failure : option exn) : option Z * pystr :=
  match failure with
  | None => (None, "unknown" : pystr)
  | Some (WebSocketDisconnect code) => (None, _websocket_close_reason code)
  | Some (BrowserSocketClose code _) => (Some code, _websocket_close_reason (Some code))
  | Some _ => (Some 1013, "dependency_unavailable" : pystr)
  end.

Definition run_browser (ws : BrowserWebSocket) (a : BrowserAdmission) (inputs : list BrowserInput) :
    tx unit :=
  failure ← try_catch (open_browser ws a inputs;; mret None) (λ e, mret (Some e));
  _release_browser_connection_lease (ba_lease a);;
  measure (MWebsocketClosed "browser" (browser_ending failure).2);;
  match (browser_ending failure).1 with
  | Some code => best_effort (close_socket (socket_label ws) code)
  | None => mret tt
  end.

Definition handle_browser (ws : BrowserWebSocket) (inputs : list BrowserInput) : tx unit :=
  admission ← admit_browser ws;
  match admission with
  | None => mret tt
  | Some a => run_browser ws a inputs
  end.
End socket.
