(* ===== verification/BrowserSafety.v ===== *)
(** * What a browser's socket promises

    A socket is admitted only for an allowed origin and a live session, within
    the limits of its session and user; its leases are released however it
    ends; and it sends nothing after a verification of a dead session. *)

From stdpp Require Import base list gmap.
From Stdlib Require Import NArith ZArith Lia.
From S2P Require Import Prelude Config Json Models Storage World Testbed Events BrowserStream Frames.
From S2P Require Import Security Sub2api Sessions SessionSafety SessionProtocol Access AccessSafety.
From S2P Require Import RouteSafety BrowserSocket DeviceAuth.
Open Scope Z_scope.

Section safety.
Context {P : Platform} {Url : UrlSplit} {U : Upstream}.

Lemma try_some_inv {A} (m : tx A) w r w' :
  try_catch (r ← m; mret (Some r)) (λ _, mret None) w = (Ok (Some r), w') → m w = (Ok r, w').
Proof.
  unfold try_catch, mbind, tx_bind. destruct (m w) as [[a|e] v]; simpl; [|done]. by intros [= -> ->].
Qed.

Lemma with_session_inv {A} (m : tx A) w a w' :
  working w = durable w → with_session m w = (Ok a, w') →
  ∃ v, m w = (Ok a, v) ∧ durable w' = durable v ∧ ticks w' = ticks v.
Proof.
  intros Hwd. unfold with_session. replace (w <| working := durable w |>) with w
    by (rewrite <- Hwd; by destruct w). destruct (m w) as [r v]. intros [= -> <-]. by exists v.
Qed.

(** ** Leases *)

(** The slot was free when it was taken, at the [k]-th reading of the
    environment, and the store in [w'] holds the lease under its key until the
    lease runs out. *)
Definition granted (slot : BrowserLeaseSlot) (w w' : world) : Prop :=
  ∃ k, (ticks w ≤ k < ticks w')%nat
    ∧ kv_view (monotonic k) (store w) !! ls_key slot = None
    ∧ ∀ t, monotonic (ticks w') ≤ t → kv_view t (store w') !! ls_key slot =
        if t <? monotonic k + browser_connection_lease_ttl_seconds settings
        then Some (ls_value slot) else None.

Lemma acquire_slot_fits key_prefix v slot n w s w' :
  acquire_slot_from key_prefix v slot n w = (Ok s, w') →
  ∃ i, slot ≤ i < slot + Z.of_nat n ∧ s = {| ls_key := lease_key key_prefix i; ls_value := v |}.
Proof.
  revert slot w. induction n as [|n IH]; intros slot w; [done|]. cbn [acquire_slot_from].
  intros (b & w1 & _ & E)%bind_ok_inv. destruct b.
  - injection E as <- _. exists slot. split; [lia|done].
  - destruct (IH _ _ E) as (i & Hi & ->). exists i. split; [lia|done].
Qed.

Section leases.
Context `{!MonotonicClock P}.

Lemma granted_earlier slot w v w' :
  left_alone (ls_key slot) w v → granted slot v w' → granted slot w w'.
Proof.
  intros [Ht Hv] (k & Hk & Hfree & Hheld). exists k. split; [lia|]. split; [|done].
  rewrite <- Hv; [done|]. apply cl_monotonic. lia.
Qed.

Lemma granted_later slot w v w' :
  granted slot w v → left_alone (ls_key slot) v w' → granted slot w w'.
Proof.
  intros (k & Hk & Hfree & Hheld) [Ht Hv]. exists k. split; [lia|]. split; [done|].
  intros t Hlate. rewrite Hv by done. apply Hheld. etrans; [|exact Hlate]. by apply cl_monotonic.
Qed.

Lemma set_if_absent_granted key v w b w' :
  store_set_if_absent key v (browser_connection_lease_ttl_seconds settings) w = (Ok b, w') →
  if b then granted {| ls_key := key; ls_value := v |} w w' else ∀ k, left_alone k w w'.
Proof.
  unfold store_set_if_absent, store_op. destruct (store_up _); [|done].
  set (t0 := monotonic (ticks w)). set (ttl := browser_connection_lease_ttl_seconds settings).
  assert (Hlate : t0 ≤ monotonic (S (ticks w))) by (apply cl_monotonic; lia).
  destruct (kv_view t0 (store w) !! key) as [v0|] eqn:Hview.
  - destruct (kv_set_if_absent_taken t0 key v ttl (store w)) as [Hb Hv]; [by eexists|].
    destruct (kv_set_if_absent _ _ _ _ _) as [b0 s]. simpl in *. subst b0. intros [= <- <-] k.
    split; simpl; [lia|]. intros t Ht. rewrite Hv by lia. done.
  - destruct (kv_set_if_absent_free t0 key v ttl (store w) Hview) as [Hb Hv].
    destruct (kv_set_if_absent _ _ _ _ _) as [b0 s]. simpl in *. subst b0. intros [= <- <-].
    exists (ticks w). split; [simpl; lia|]. split; [done|]. simpl. intros t Ht.
    rewrite Hv by lia. unfold view_set. fold t0 ttl.
    destruct (_ <? _); [by rewrite lookup_insert_eq|by rewrite lookup_delete_eq].
Qed.

Lemma acquire_slot_granted key_prefix v slot n w s w' :
  acquire_slot_from key_prefix v slot n w = (Ok s, w') → granted s w w'.
Proof.
  revert slot w. induction n as [|n IH]; intros slot w; [done|]. cbn [acquire_slot_from].
  intros (b & w1 & Eb & E)%bind_ok_inv. apply set_if_absent_granted in Eb. destruct b.
  - by injection E as <- <-.
  - eapply granted_earlier; [apply Eb|]. by eapply IH.
Qed.

Lemma acquire_slot_leaves k key_prefix v slot n :
  (∀ i, k ≠ lease_key key_prefix i) → leaves k (acquire_slot_from key_prefix v slot n).
Proof.
  intros Hk. revert slot. induction n as [|n IH]; intros slot; cbn [acquire_slot_from].
  { apply leaves_raise. }
  apply leaves_bind; [by apply leaves_store_set_if_absent|]. intros []; [apply leaves_ret|apply IH].
Qed.
End leases.

(** A lease of one slot of the session and one slot of the user, both granted. *)
Record lease_of (session_id : uuid) (owner : pystr) (l : BrowserConnectionLease) (w w' : world) :
    Prop := {
  lo_value : ls_value (session_slot l) = ls_value (user_slot l);
  lo_session : ∃ i, 0 ≤ i < browser_max_connections_per_session settings
    ∧ ls_key (session_slot l) = lease_key ("browser-lease:session:" +++ uuid_str session_id) i;
  lo_user : ∃ i, 0 ≤ i < browser_max_connections_per_user settings
    ∧ ls_key (user_slot l) = lease_key
        ("browser-lease:user:" +++ session_hmac_hex ("browser-lease-owner:" +++ owner)) i;
  lo_granted : MonotonicClock P → Forall (λ slot, granted slot w w') (slots l);
}.

Lemma user_key_not_session p q i j :
  lease_key ("browser-lease:user:" +++ p) i ≠ lease_key ("browser-lease:session:" +++ q) j.
Proof. intros E%(f_equal (λ s, codepoints s !! 14%nat)). discriminate. Qed.

Lemma acquire_lease_ok id owner w l w' :
  _acquire_browser_connection_lease id owner w = (Ok l, w') → lease_of id owner l w w'.
Proof.
  unfold _acquire_browser_connection_lease, _acquire_browser_lease_slot.
  intros (u & w1 & [= <- <-] & E)%bind_ok_inv. apply bind_ok_inv in E as (s1 & w2 & E1 & E).
  apply bind_ok_inv in E as (s2 & w3 & E2 & E). injection E as <- <-.
  unfold try_catch in E2. destruct (acquire_slot_from _ _ _ _ w2) as [[s|e] v] eqn:Ea;
    [|by apply bind_ok_inv in E2 as (x & w4 & _ & E2)].
  injection E2 as -> ->.
  assert (Hg : MonotonicClock P → granted s1 w w3 ∧ granted s2 w w3).
  { intros Hm. pose proof (acquire_slot_granted _ _ _ _ _ _ _ E1) as H1.
    pose proof (acquire_slot_granted _ _ _ _ _ _ _ Ea) as H2.
    destruct (acquire_slot_fits _ _ _ _ _ _ _ E1) as (i & _ & ->).
    destruct (acquire_slot_fits _ _ _ _ _ _ _ Ea) as (j & _ & ->).
    set (w0 := w <| ticks := S (ticks w) |>) in *.
    assert (H0 : ∀ k, left_alone k w w0) by (intros k; apply left_alone_same; simpl; [done|lia]).
    split.
    - eapply granted_earlier; [apply H0|]. eapply granted_later; [exact H1|].
      eapply leaves_run; [|exact Ea]. apply acquire_slot_leaves. intros j' E.
      symmetry in E. revert E. apply user_key_not_session.
    - eapply granted_earlier; [apply H0|]. eapply granted_earlier; [|exact H2].
      eapply leaves_run; [|exact E1]. apply acquire_slot_leaves. intros i'.
      apply user_key_not_session. }
  apply acquire_slot_fits in E1 as (i & Hi & ->). apply acquire_slot_fits in Ea as (j & Hj & ->).
  split; [done|exists i|exists j|]; [split; [lia|done]..|].
  intros Hm. destruct (Hg Hm). by repeat constructor.
Qed.

(** ** Admission *)

Record admitted_browser (meanwhile : database → database) (ws : BrowserWebSocket) (w w' : world)
    (a : BrowserAdmission) : Prop := {
  ab_origin : ∃ origin, bw_origin ws = Some origin
    ∧ rstrip_slash origin ∈ allowed_origins settings;
  ab_session : ∃ raw, bw_cookie ws = Some raw
    ∧ resolved raw true false meanwhile w w' (ba_session_id a) (ba_session a);
  ab_cursor : int_of_text (default "0" (bw_cursor ws)) = Some (ba_cursor a)
    ∧ 0 ≤ ba_cursor a ≤ MAX_EVENT_CURSOR;
  ab_lease : lease_of (ba_session_id a) (cs_user_id (ba_session a)) (ba_lease a) w w';
}.

Lemma reject_none ws reason code w a w' : reject ws reason code w = (Ok (Some a), w') → False.
Proof. done. Qed.

Lemma browser_cursor_ok ws c :
  browser_cursor ws = Some c →
  int_of_text (default "0" (bw_cursor ws)) = Some c ∧ 0 ≤ c ≤ MAX_EVENT_CURSOR.
Proof.
  unfold browser_cursor. destruct (int_of_text _) as [z|]; [|done]. simpl.
  destruct (_ || _) eqn:E; [done|]. intros [= <-]. reflect_bools. split; [done|lia].
Qed.

Lemma acquire_slot_forward key_prefix v slot n : forward (acquire_slot_from key_prefix v slot n).
Proof.
  revert slot. induction n as [|n IH]; intros slot; cbn [acquire_slot_from]; [apply forward_raise|].
  apply forward_bind; [apply forward_store_op|]. intros []; [apply forward_ret|apply IH].
Qed.
#[local] Hint Resolve acquire_slot_forward : forward.

Lemma acquire_connection_forward id owner : forward (_acquire_browser_connection_lease id owner).
Proof. solve_forward. Qed.

Lemma resolved_later raw verify force mw w v w' id s :
  (ticks v ≤ ticks w')%nat →
  resolved raw verify force mw w v id s → resolved raw verify force mw w w' id s.
Proof.
  intros Ht [(s0 & c & n & ? & ? & ? & ? & ? & ? & ? & ? & H)]. split. exists s0, c, n.
  do 8 (split; [done|]). destruct verify; [|done]. destruct H as (m & db & s1 & ? & ? & H).
  exists m, db, s1. split; [done|]. split; [lia|done].
Qed.

Lemma lease_of_earlier id owner l w v w' :
  (∀ k q i, MonotonicClock P → left_alone (lease_key ("browser-lease:" +++ k +++ q) i) w v) →
  lease_of id owner l v w' → lease_of id owner l w w'.
Proof.
  intros Hleft [Hv Hs Hu Hg]. split; [done..|]. intros Hm. specialize (Hg Hm).
  destruct Hs as (i & _ & Hs), Hu as (j & _ & Hu). unfold slots in *.
  apply Forall_cons in Hg as [Hg1 Hg]. apply Forall_cons in Hg as [Hg2 _].
  repeat constructor; eapply granted_earlier; [|exact Hg1| |exact Hg2].
  - rewrite Hs. apply (Hleft "session:" _ _ Hm).
  - rewrite Hu. apply (Hleft "user:" _ _ Hm).
Qed.

Lemma lease_key_not_session q i h : lease_key ("browser-lease:" +++ q) i ≠ session_key h.
Proof. intros E%(f_equal (λ s, codepoints s !! 0%nat)). discriminate. Qed.
Lemma lease_key_not_marker q i id : lease_key ("browser-lease:" +++ q) i ≠ _upstream_marker_key id.
Proof. intros E%(f_equal (λ s, codepoints s !! 0%nat)). discriminate. Qed.
#[local] Hint Resolve lease_key_not_session lease_key_not_marker : leaves.

Lemma resolve_leaves_leases `{!MonotonicClock P} q i mw raw touch verify force :
  leaves (lease_key ("browser-lease:" +++ q) i) (resolve mw raw touch verify force).
Proof. solve_leaves. Qed.

Lemma find_browser_session mw cookie w id s w' :
  working w = durable w →
  try_catch (r ← with_session (resolve mw cookie false true false); mret (Some r))
    (λ _, mret None) w = (Ok (Some (Some (id, s))), w') →
  (∃ raw, cookie = Some raw ∧ resolved raw true false mw w w' id s)
  ∧ ∀ q i, MonotonicClock P → left_alone (lease_key ("browser-lease:" +++ q) i) w w'.
Proof.
  intros Hwd E%try_some_inv. split.
  - apply with_session_inv in E as (v & E & _ & Ht); [|done].
    destruct cookie as [raw|]; [|done]. exists raw. split; [done|].
    apply resolve_ok in E. eapply resolved_later; [|exact E]. lia.
  - intros q i Hm. eapply leaves_run; [|exact E].
    apply leaves_with_session, resolve_leaves_leases.
Qed.

Lemma admit_browser_ok mw ws w a w' :
  working w = durable w → admit_browser mw ws w = (Ok (Some a), w') → admitted_browser mw ws w w' a.
Proof.
  intros Hwd. unfold admit_browser. intros (allowed & w1 & Eo & E)%bind_ok_inv.
  assert (Ho : w1 = w ∧ (allowed = true → ∃ origin, bw_origin ws = Some origin
    ∧ rstrip_slash origin ∈ allowed_origins settings)).
  { destruct (bw_origin ws) as [origin|].
    - apply of_outcome_ok_inv in Eo as [Ha ->]. split; [done|]. intros ->. exists origin.
      split; [done|]. unfold origin_is_allowed in Ha. destruct (urlsplit _); [|done].
      injection Ha as Ha. reflect_bools. by apply py_in_iff.
    - injection Eo as <- <-. done. }
  destruct Ho as [-> Ho]. destruct allowed; [|done]. cbn [negb] in E.
  apply bind_ok_inv in E as (found & w2 & Ef & E).
  destruct found as [[[id s]|]|]; [|done..].
  apply find_browser_session in Ef as [(raw & Hraw & Hr) Hleft]; [|done].
  destruct (browser_cursor ws) as [cursor|] eqn:Hc; [|done].
  apply bind_ok_inv in E as (lease & w3 & El & E).
  destruct lease as [lease|e]; [|by destruct e]. injection E as <- <-.
  unfold try_catch, mbind, tx_bind in El.
  pose proof (acquire_connection_forward id (cs_user_id s) w2) as Hf.
  destruct (_acquire_browser_connection_lease _ _ w2) as [[l|e] u] eqn:Ea; [|done].
  injection El as <- <-. simpl in Hf. split; simpl.
  - by apply Ho.
  - exists raw. split; [done|]. by eapply resolved_later.
  - by apply browser_cursor_ok.
  - eapply lease_of_earlier; [|by eapply acquire_lease_ok]. intros k q i. apply Hleft.
Qed.

(** C15: a browser socket is admitted only from an allowed origin, for the session
    its cookie resolves to, with a cursor in range, and with a lease on one slot
    of the session and one of the user, each below its limit.  When the clock of
    the store does not run backwards, each slot was free when this call took it,
    and the store holds its lease from then on until it runs out. *)
Theorem browser_admission mw ws w a w' :
  working w = durable w → admit_browser mw ws w = (Ok (Some a), w') →
  admitted_browser mw ws w w' a.
Proof. apply admit_browser_ok. Qed.

(** ** The end of a socket *)

(** No key of the lease holds its value any more. *)
Definition released (slot : BrowserLeaseSlot) (w : world) : Prop :=
  ∀ t, monotonic (ticks w) ≤ t → kv_view t (store w) !! ls_key slot ≠ Some (ls_value slot).

Lemma compare_delete_run slot w :
  (∀ n, store_up n = true) → (∀ i j, (i ≤ j)%nat → monotonic i ≤ monotonic j) →
  wp (store_compare_delete (ls_key slot) (ls_value slot);; mret tt)
    (λ r w', r = Ok tt ∧ released slot w' ∧ ∀ other, released other w → released other w') w.
Proof.
  intros Hup Hmono. unfold wp, mbind, tx_bind, store_compare_delete, store_op.
  rewrite Hup. set (t0 := monotonic (ticks w)). set (k := ls_key slot). set (v := ls_value slot).
  assert (Hlate : t0 ≤ monotonic (S (ticks w))) by (apply Hmono; lia).
  assert (H : ∀ t, t0 ≤ t → kv_view t (kv_compare_delete t0 k v (store w)).2 !! k ≠ Some v
    ∧ ∀ k' v', kv_view t (kv_compare_delete t0 k v (store w)).2 !! k' = Some v' →
        kv_view t (store w) !! k' = Some v').
  { intros t Ht. destruct (decide (kv_view t0 (store w) !! k = Some v)) as [Hk|Hk].
    - destruct (kv_compare_delete_owned t0 k v (store w) Hk) as [_ Hv]. rewrite (Hv t Ht).
      split; [by rewrite lookup_delete_eq|]. by intros k' v' [_ ?]%lookup_delete_Some.
    - destruct (kv_compare_delete_lost t0 k v (store w) Hk) as [_ Hv]. rewrite (Hv t Ht).
      split; [|done]. intros Hx. apply Hk. by eapply kv_view_expires. }
  destruct (kv_compare_delete t0 k v (store w)) as [b s]. simpl in *. split_and!; [done| |].
  - intros t Ht. simpl in Ht. apply H. lia.
  - intros other Hother t Ht Hx. simpl in Ht. apply H in Hx; [|lia]. by apply (Hother t); [lia|].
Qed.

Lemma release_slot slot w :
  (∀ n, store_up n = true) → (∀ i j, (i ≤ j)%nat → monotonic i ≤ monotonic j) →
  wp (best_effort (store_compare_delete (ls_key slot) (ls_value slot);; mret tt))
    (λ r w', r = Ok tt ∧ released slot w' ∧ ∀ other, released other w → released other w') w.
Proof.
  intros Hup Hmono. pose proof (compare_delete_run slot w Hup Hmono) as H.
  revert H. generalize (store_compare_delete (ls_key slot) (ls_value slot);; mret tt). intros m H.
  unfold wp, best_effort, try_catch in *. destruct (m w) as [r w']. simpl in H. by destruct H as [-> ?].
Qed.

Lemma release_lease lease w :
  (∀ n, store_up n = true) → (∀ i j, (i ≤ j)%nat → monotonic i ≤ monotonic j) →
  wp (_release_browser_connection_lease lease)
    (λ r w', r = Ok tt ∧ Forall (λ slot, released slot w') (slots lease)) w.
Proof.
  intros Hup Hmono. unfold _release_browser_connection_lease, _release_browser_lease_slots.
  cbn [for_each]. apply wp_bind. eapply wp_mono; [by apply release_slot|].
  intros r w1 (-> & H1 & _). apply wp_bind. eapply wp_mono; [by apply release_slot|].
  intros r w2 (-> & H2 & H12). split; [done|]. repeat constructor; [done|by apply H12].
Qed.

(** C14: however a socket comes to its end, whatever woke its tasks and whichever
    of them failed, neither slot holds its lease afterwards, as long as the store
    can be reached; and ending it never raises. *)
Theorem browser_lease_released mw ws a inputs w :
  (∀ n, store_up n = true) → (∀ i j, (i ≤ j)%nat → monotonic i ≤ monotonic j) →
  let r := run_browser mw ws a inputs w in
  r.1 = Ok tt ∧ Forall (λ slot, released slot r.2) (slots (ba_lease a)).
Proof.
  intros Hup Hmono r. enough (H : wp (run_browser mw ws a inputs)
    (λ r w', r = Ok tt ∧ Forall (λ slot, released slot w') (slots (ba_lease a))) w) by exact H.
  unfold run_browser. apply wp_bind, wp_try_catch. unfold wp at 1, mbind, tx_bind.
  assert (Hend : ∀ failure w1, wp (_release_browser_connection_lease (ba_lease a);;
      measure (MWebsocketClosed "browser" (browser_ending failure).2);;
      match (browser_ending failure).1 with
      | Some code => best_effort (close_socket (socket_label ws) code)
      | None => mret tt
      end) (λ r w', r = Ok tt ∧ Forall (λ slot, released slot w') (slots (ba_lease a))) w1).
  { intros failure w1. apply wp_bind. eapply wp_mono; [by apply release_lease|].
    intros r' w2 [-> H]. by destruct (browser_ending failure) as [[code|] reason]. }
  destruct (open_browser mw ws a inputs w) as [[u|e] w1]; apply Hend.
Qed.

(** ** Operations that send no event *)

Definition events_sent (l : list effect) : list (uuid * BrowserEvent) :=
  omap (λ e, match e with EEvent ws event => Some (ws, event) | _ => None end) l.

Definition mute {A} (m : tx A) : Prop :=
  ∀ w, events_sent (effects (m w).2) = events_sent (effects w).

Lemma mute_ret {A} (a : A) : mute (mret a).
Proof. done. Qed.
Lemma mute_raise {A} e : mute (raise e : tx A).
Proof. done. Qed.
Lemma mute_query {A} (f : database → A) : mute (query f).
Proof. done. Qed.
Lemma mute_modify f : mute (modify f).
Proof. done. Qed.
Lemma mute_commit : mute commit.
Proof. done. Qed.
Lemma mute_now : mute now.
Proof. done. Qed.
Lemma mute_of_outcome {A} (r : outcome A) : mute (of_outcome r).
Proof. done. Qed.
Lemma mute_guard b e : mute (guard_exn b e).
Proof. by destruct b. Qed.
Lemma mute_others f : mute (other_transactions f).
Proof. done. Qed.
Lemma mute_store_op {A} (f : Z → kvs → A * kvs) : mute (store_op f).
Proof. intros w. unfold store_op. destruct (store_up _); [by destruct (f _ _)|done]. Qed.
Lemma mute_publish c m : mute (publish c m).
Proof.
  intros w. unfold publish. destruct (store_up _); [|done]. simpl. unfold events_sent.
  by rewrite omap_app, app_nil_r.
Qed.
Lemma mute_verify token identity : mute (Sub2api.verify_access_token token identity).
Proof. done. Qed.
Lemma mute_bind {A B} (m : tx A) (k : A → tx B) : mute m → (∀ a, mute (k a)) → mute (m ≫= k).
Proof.
  intros Hm Hk w. unfold mbind, tx_bind. specialize (Hm w).
  destruct (m w) as [[a|e] w']; [|done]. by rewrite Hk.
Qed.
Lemma mute_try_catch {A} (m : tx A) h : mute m → (∀ e, mute (h e)) → mute (try_catch m h).
Proof.
  intros Hm Hh w. unfold try_catch. specialize (Hm w).
  destruct (m w) as [[a|e] w']; [done|]. by rewrite Hh.
Qed.
Lemma mute_with_session {A} (m : tx A) : mute m → mute (with_session m).
Proof.
  intros Hm w. unfold with_session. specialize (Hm (w <| working := durable w |>)).
  by destruct (m _) as [r v].
Qed.

Create HintDb mute.
#[local] Hint Resolve mute_ret mute_raise mute_query mute_modify mute_commit mute_now mute_of_outcome
  mute_guard mute_others mute_publish mute_verify : mute.

Ltac mute_step :=
  match goal with
  | |- mute (match ?x with _ => _ end) => destruct x eqn:?
  | |- mute (mbind _ _) => apply mute_bind; [|intros ?]
  | |- mute (try_catch _ _) => apply mute_try_catch; [|intros ?]
  | |- mute (best_effort _) => apply mute_try_catch; [|intros ?]
  | |- mute (with_session _) => apply mute_with_session
  | |- mute (store_get _) => apply mute_store_op
  | |- mute (store_set _ _ _) => apply mute_store_op
  | |- mute (store_delete _) => apply mute_store_op
  | |- mute _ => solve [auto with mute]
  end.
Ltac solve_mute := repeat mute_step.

Lemma mute_find_session h : mute (find_session h).
Proof. unfold find_session, cached_session, _cache_get, _cache_delete. solve_mute. Qed.

Lemma mute_revoke id s reason : mute (_revoke_for_upstream_rejection id s reason).
Proof.
  unfold _revoke_for_upstream_rejection, _invalidate_revoked_session, add_audit. solve_mute.
Qed.

Lemma mute_marker id s : mute (_cache_upstream_verification id s).
Proof.
  unfold _cache_upstream_verification, _upstream_marker, _cache_set. solve_mute.
Qed.
#[local] Hint Resolve mute_find_session mute_revoke mute_marker : mute.

Lemma mute_verify_identity mw id s token force : mute (_verify_upstream_identity mw id s token force).
Proof.
  unfold _verify_upstream_identity, verify_user, ask_upstream, settle_verdict, _cache_get,
    _valid_upstream_marker. solve_mute.
Qed.
#[local] Hint Resolve mute_verify_identity : mute.

Lemma mute_resolve mw raw touch verify force : mute (resolve mw raw touch verify force).
Proof.
  unfold resolve, keep_session, refresh_session, update_session, _cache_delete, _cache_set.
  solve_mute.
Qed.
#[local] Hint Resolve mute_resolve : mute.

Lemma mute_monitor mw a raw signal : mute (monitor_session mw a raw signal).
Proof. unfold monitor_session, _active_browser_session_expiry, monitor_failure. solve_mute. Qed.

(** ** A dead session *)

(** From now on the session's row is revoked, expired or gone. *)
Definition dead_session (id : uuid) (w : world) : Prop :=
  ∀ s n, sessions (durable w) !! id = Some s → (ticks w ≤ n)%nat → ¬ usable n s.

(** The check closes the socket. *)
Definition closes (r : outcome unit) : Prop := ∃ code reason, r = Raise (BrowserSocketClose code reason).

Lemma monitor_failure_closes e w : closes ((monitor_failure e w : outcome unit * world)).1.
Proof. destruct e; by eexists _, _. Qed.

Lemma dead_expiry mw a raw w :
  dead_session (ba_session_id a) w →
  match (_active_browser_session_expiry mw (ba_session_id a) raw w).1 with
  | Ok (Some _) => False | _ => True end.
Proof.
  intros Hdead. destruct (_active_browser_session_expiry _ _ _ w) as [[[t|]|e] w'] eqn:E; try done.
  unfold _active_browser_session_expiry in E. apply bind_ok_inv in E as (r & w1 & E1 & E).
  destruct r as [[id s]|]; [|done]. destruct (N.eqb_spec id (ba_session_id a)) as [->|]; [|done].
  unfold with_session in E1. destruct (resolve _ _ _ _ _ _) as [r v] eqn:Er in E1.
  injection E1 as -> _. destruct raw as [raw|]; [|done].
  apply resolve_ok in Er as [(s0 & c & n & [Hrow _] & _ & _ & [Hn _] & Hu & _)].
  by apply (Hdead s0 n).
Qed.

Lemma monitor_dead mw a raw signal w :
  dead_session (ba_session_id a) w → closes (monitor_session mw a raw signal w).1.
Proof.
  intros Hdead. pose proof (dead_expiry mw a raw w Hdead) as He.
  unfold monitor_session, try_catch, mbind, tx_bind.
  destruct (guard_exn _ RuntimeError w) as [[u|e] w1] eqn:Eg; [|apply monitor_failure_closes].
  apply guard_ok_inv in Eg as [_ ->].
  destruct (_active_browser_session_expiry mw _ raw w) as [[[t|]|e] w1]; simpl in He; [done|..];
    apply monitor_failure_closes.
Qed.

(** [m] closes the socket and sends no event. *)
Definition silenced (m : tx unit) (w : world) : Prop :=
  closes (m w).1 ∧ events_sent (effects (m w).2) = events_sent (effects w).

Lemma silenced_check mw a raw signal (k : tx unit) w :
  dead_session (ba_session_id a) w → silenced (monitor_session mw a raw signal;; k) w.
Proof.
  intros Hdead. destruct (monitor_dead mw a raw signal w Hdead) as (code & reason & Hm).
  pose proof (mute_monitor mw a raw signal w) as Hmute. unfold silenced, mbind, tx_bind.
  destruct (monitor_session _ _ _ _ w) as [o w1]. simpl in Hm, Hmute. subst o.
  split; [by eexists _, _|done].
Qed.

(** C13: nothing is sent to a socket of a dead session after its session is
    verified: when the session is revoked, expired or deleted, neither opening the
    socket nor the next check of an open one (on the clock or on a revocation
    signal) sends an event, whatever would wake its tasks afterwards, and both
    close the socket. *)
Theorem dead_session_silenced mw ws a latest signal inputs w :
  dead_session (ba_session_id a) w →
  silenced (open_browser mw ws a inputs) w
  ∧ silenced (serve_browser mw ws a latest (SessionRecheck :: inputs)) w
  ∧ silenced (serve_browser mw ws a latest (SessionSignal signal :: inputs)) w.
Proof.
  intros Hdead. split_and!; [|by apply silenced_check..].
  set (w0 := w <| effects := effects w ++ [EMetric (MWebsocketOpened "browser")] |>).
  pose proof (silenced_check mw a (bw_cookie ws) None
    (latest_cursor ← drain ws (cs_user_id (ba_session a)) (ba_cursor a);
     serve_browser mw ws a latest_cursor inputs) w0 Hdead) as [H1 H2].
  split; [exact H1|]. etrans; [exact H2|]. unfold w0, events_sent. simpl.
  by rewrite omap_app, app_nil_r.
Qed.

(** ** The drain of the stream *)

(** C40: one wake-up delivers every event after the socket's cursor up to the head
    of the stream, each once and in order, when no send fails and every event
    fits in a page; the loop ends within its bound and writes nothing. *)
Theorem drain_delivers ws owner cursor w c :
  events_ok (durable w) → cursors (durable w) !! owner = Some c →
  oc_minimum_resume_cursor c ≤ cursor ≤ oc_last_cursor c →
  0 < browser_event_catchup_limit settings → 0 < browser_event_catchup_max_bytes settings →
  (∀ e, e ∈ event_log (durable w) →
     0 < model_dump_json_bytes (event_of_row e) ≤ browser_event_catchup_max_bytes settings) →
  (∀ n, send_up n = true) →
  ∃ w', drain ws owner cursor w = (Ok (oc_last_cursor c), w') ∧ durable w' = durable w
    ∧ effects w' = effects w ++ (EEvent (bw_id ws) ∘ event_of_row <$> rows_after owner cursor (durable w))
    ∧ ev_owner_cursor <$> rows_after owner cursor (durable w)
        = seqZ (cursor + 1) (oc_last_cursor c - cursor).
Proof.
  intros Hok Hc Hcur Hrl Hbl Hfit Hup. set (w0 := w <| working := durable w |>).
  destruct (forward_pages_run (S (Z.to_nat (oc_last_cursor c - cursor))) (bw_id ws) owner cursor w0 c)
    as (w' & Hrun & Hd & He); try done; [lia|].
  exists w'. split_and!; [|done|done|by apply rows_after_run].
  assert (with_session (query (λ db, stream_last db owner)) w = (Ok (oc_last_cursor c), w0)) as Hlast.
  { unfold with_session, query, stream_last. simpl. by rewrite Hc. }
  unfold drain. rewrite (run_bind _ _ _ _ _ Hlast), (run_bind _ _ _ _ _ Hrun). done.
Qed.
End safety.

(** ** On the testbed *)

Definition sample_socket (cookie : pystr) : BrowserWebSocket :=
  {| bw_id := 9%N; bw_origin := Some ("http://testserver/" : pystr); bw_cookie := Some cookie;
     bw_cursor := Some ("0" : pystr) |}.

Definition sample_admit (cookie : pystr) (db : database) :=
  @admit_browser testbed sample_urlsplit sample_upstream (λ db, db) (sample_socket cookie)
    (start_world db).

Definition admits {A} (r : outcome (option A) * @world testbed) : bool :=
  match r.1 with Ok (Some _) => true | _ => false end.

Lemma sample_admits : admits (sample_admit sample_cookie sample_db) = true.
Proof. vm_compute. reflexivity. Qed.

Lemma browser_admission_witness :
  match sample_admit sample_cookie sample_db with
  | (Ok (Some a), w') => @admitted_browser testbed sample_upstream (λ db, db)
        (sample_socket sample_cookie) (start_world sample_db) w' a
      ∧ Forall (λ slot, @granted testbed slot (start_world sample_db) w') (slots (ba_lease a))
  | _ => False
  end.
Proof.
  pose proof sample_admits as H.
  destruct (sample_admit sample_cookie sample_db) as [[[a|]|e] w'] eqn:E; [clear H|discriminate H..].
  revert E. generalize sample_db sample_cookie. intros db cookie E.
  pose proof (browser_admission (λ db, db) (sample_socket cookie) (start_world db) a w' eq_refl E)
    as H.
  split; [exact H|]. exact (lo_granted _ _ _ _ _ (ab_lease _ _ _ _ _ H) testbed_monotonic).
Defined.

Definition sample_slot (k : pystr) : BrowserLeaseSlot := {| ls_key := k; ls_value := "v" |}.

Definition sample_admission : BrowserAdmission :=
  {| ba_session_id := 1%N; ba_session := new_session (P := testbed) sample_user "h" "c" 0 sample_meta;
     ba_cursor := 0;
     ba_lease := {| session_slot := sample_slot "s"; user_slot := sample_slot "u" |} |}.

(** The socket is told to close while it holds its lease. *)
Lemma browser_lease_released_witness :
  let r := @run_browser testbed sample_upstream (λ db, db) (sample_socket "cookie") sample_admission
    [RenewalDue; ClientText "close"] empty_world in
  r.1 = Ok tt ∧ Forall (λ slot, @released testbed slot r.2) (slots (ba_lease sample_admission)).
Proof.
  apply (browser_lease_released (P := testbed) (U := sample_upstream)); [reflexivity|].
  intros i j Hij. change (Z.of_nat i / 1000 ≤ Z.of_nat j / 1000). apply Z.div_le_mono; lia.
Defined.

(** The session was revoked by another request. *)
Definition revoked_db : database :=
  empty_database <| sessions := {[ 1%N := set_revoked 0 (ba_session sample_admission) ]} |>.

Lemma dead_session_silenced_witness :
  @dead_session testbed 1%N (start_world revoked_db)
  ∧ @silenced testbed (@serve_browser testbed sample_upstream (λ db, db) (sample_socket "cookie")
      sample_admission 0 [SessionRecheck; StreamWakeUp]) (start_world revoked_db).
Proof.
  assert (Hdead : @dead_session testbed 1%N (start_world revoked_db)).
  { intros s n Hs _ [Hu _].
    change (({[ 1%N := set_revoked 0 (ba_session sample_admission) ]} : gmap uuid ControlSession)
      !! 1%N = Some s) in Hs. apply lookup_singleton_Some in Hs as [_ <-]. discriminate Hu. }
  split; [exact Hdead|].
  exact (proj1 (proj2 (dead_session_silenced (P := testbed) (U := sample_upstream) (λ db, db)
    (sample_socket "cookie") sample_admission 0 "" [StreamWakeUp] (start_world revoked_db) Hdead))).
Defined.

Lemma drain_delivers_witness :
  ∃ w', drain (P := testbed) (sample_socket "cookie") "alice" 0 (after commit sample_stream) = (Ok 2, w')
    ∧ length (effects w') = 2%nat.
Proof.
  destruct (drain_delivers (P := testbed) (sample_socket "cookie") "alice" 0
    (after commit sample_stream) sample_cursor) as (w' & Hr & _ & He & _);
    [exact sample_stream_ok|by vm_compute|done..| |done|].
  - intros e He%list_elem_of_In.
    assert (Hall : forallb (λ e, (0 <? model_dump_json_bytes (event_of_row e))
      && (model_dump_json_bytes (event_of_row e) <=? browser_event_catchup_max_bytes settings))
      (event_log (working sample_stream)) = true) by (vm_compute; reflexivity).
    pose proof (proj1 (forallb_forall _ _) Hall e He) as Hb. cbv beta in Hb.
    apply andb_prop in Hb as [H1%Z.ltb_lt H2%Z.leb_le]. split; [exact H1|exact H2].
  - exists w'. split; [exact Hr|]. rewrite He. vm_compute. reflexivity.
Defined.
