(* ===== verification/BootstrapSafety.v ===== *)
(** * What the bootstrap answer is promised to fit

    [bootstrap_control] answers in one bounded response because every writer
    keeps the rows within quotas: the budget of [config.py]
    ([bootstrap_worst_case_bytes]) bounds the encoded answer of any owner whose
    rows are within them. *)

From stdpp Require Import base list gmap.
From Stdlib Require Import NArith ZArith Lia.
From S2P Require Import Prelude Config Json Models Storage World Testbed Wire Budget Events.
From S2P Require Import Capacity Commands Approvals Access Routes.
From S2P Require Import FrameFaults ControlRoutes ThreadRoutes.
Open Scope Z_scope.

(** ** Sizes *)

Definition total_size (l : list json) : Z := foldr (λ j n, size j + n) 0 l.

Lemma size_nonneg v : 0 ≤ size v.
Proof. unfold size. lia. Qed.

Lemma size_arr l : size (JArr l) = 2 + total_size l + Z.max 0 (Z.of_nat (length l) - 1).
Proof.
  unfold size at 1. change (dumps escape_ascii (JArr l))
    with (91%N :: join_comma (map (dumps escape_ascii) l) ++ [93%N]).
  rewrite length_cons, length_app, Nat2Z.inj_succ, Nat2Z.inj_add.
  rewrite join_comma_length, length_map. change (length [93%N]) with 1%nat.
  assert (foldr (λ (p : list N) n, Z.of_nat (length p) + n) 0 (map (dumps escape_ascii) l) = total_size l)
    as ->; [|lia].
  unfold total_size. induction l as [|v l IH]; [done|]. cbn [map foldr]. rewrite IH. done.
Qed.

Lemma size_arr_bound l B :
  0 ≤ B → Forall (λ v, size v ≤ B) l → size (JArr l) ≤ 2 + Z.of_nat (length l) * (B + 1).
Proof.
  intros HB H. rewrite size_arr.
  assert (total_size l ≤ Z.of_nat (length l) * B).
  { unfold total_size. induction H as [|v l Hv _ IH]; [done|]. cbn [foldr length]. lia. }
  lia.
Qed.

Lemma size_obj_bound (l : list (pystr * json)) B :
  0 ≤ B → Forall (λ kv, size (JStr kv.1) + 1 + size kv.2 ≤ B) l →
  size (JObj l) ≤ 2 + Z.of_nat (length l) * (B + 1).
Proof.
  intros HB H. rewrite size_obj.
  assert (members l ≤ Z.of_nat (length l) * B).
  { unfold members. induction H as [|v l Hv _ IH]; [done|]. cbn [foldr length]. lia. }
  lia.
Qed.

Lemma size_cursor z : 0 ≤ z ≤ MAX_EVENT_CURSOR → size (JStr (PyStr (py_str_int z))) ≤ 21.
Proof.
  intros Hz. unfold py_str_int. cbv zeta. destruct (z <? 0) eqn:E; reflect_bools; [lia|].
  rewrite Z.abs_eq by lia. rewrite size_copied.
  - unfold py_len. cbn [codepoints].
    pose proof (dec_digits_length (S (Z.to_nat (Z.log2 z))) z [] 19) as H.
    change (10 ^ Z.of_nat 19) with 10000000000000000000 in H. unfold MAX_EVENT_CURSOR in Hz.
    specialize (H ltac:(lia) ltac:(lia)). change (length (@nil N)) with 0%nat in H. lia.
  - cbn [codepoints]. generalize (S (Z.to_nat (Z.log2 z))). clear. intros fuel.
    assert (H : ∀ acc, forallb copied acc = true → forallb copied (dec_digits fuel z acc) = true);
      [|by apply H].
    revert z. induction fuel as [|fuel IH]; intros z acc Ha; cbn [dec_digits]; [done|].
    assert (Hd : forallb copied (digit (z mod 10) :: acc) = true)
      by (cbn [forallb]; by rewrite digit_copied).
    destruct (_ =? 0); [done|by apply IH].
Qed.

Definition item_fits (limit : Z) (v : json) : Prop := all_finite v = true ∧ size v ≤ limit.

Lemma all_finite_arr l : Forall (λ v, all_finite v = true) l → all_finite (JArr l) = true.
Proof. intros H. simpl. apply forallb_forall. intros v Hv. rewrite Forall_forall in H.
  by apply H, list_elem_of_In. Qed.

Lemma item_fits_forall limit l :
  Forall (item_fits limit) l → Forall (λ v, all_finite v = true) l ∧ Forall (λ v, size v ≤ limit) l.
Proof. intros H. split; (eapply Forall_impl; [exact H|]); by intros v []. Qed.

(** What the four lists of an answer add up to. *)
Definition bootstrap_answer (cursor : Z) (devices threads approvals : list json)
    (models : list (pystr * json)) (connector_release : json) : json :=
  JObj [("event_cursor", JStr (PyStr (py_str_int cursor))); ("devices", JArr devices);
        ("threads", JArr threads); ("approvals", JArr approvals);
        ("models_by_device", JObj models); ("connector_release", connector_release)].

Lemma worst_case_bounds (s : Settings) cursor ds ts aps ms rel :
  0 ≤ cursor ≤ MAX_EVENT_CURSOR → item_fits BOOTSTRAP_CONNECTOR_RELEASE_MAX_BYTES rel →
  Forall (item_fits BOOTSTRAP_DEVICE_SUMMARY_MAX_BYTES) ds →
  Forall (item_fits BOOTSTRAP_THREAD_SUMMARY_MAX_BYTES) ts →
  Forall (item_fits BOOTSTRAP_APPROVAL_ITEM_MAX_BYTES) aps →
  Forall (λ kv, size (JStr kv.1) = 38 ∧ item_fits BOOTSTRAP_MODEL_CATALOG_MAX_BYTES kv.2) ms →
  length ms = length ds →
  Z.of_nat (length ds) ≤ bootstrap_max_devices s →
  Z.of_nat (length ts) ≤ bootstrap_max_threads s →
  Z.of_nat (length aps) ≤ bootstrap_max_pending_approvals s →
  item_fits (bootstrap_worst_case_bytes s) (bootstrap_answer cursor ds ts aps ms rel).
Proof.
  intros Hc [Fr Sr] [Fd Sd]%item_fits_forall [Ft St]%item_fits_forall [Fa Sa]%item_fits_forall
    Hm Hlen Hld Hlt Hla. split.
  - apply (proj2 (forallb_forall (λ kv, all_finite kv.2) _)).
    intros kv [<-|[<-|[<-|[<-|[<-|[<-|[]]]]]]]; [done|by apply all_finite_arr..| |done].
    apply (proj2 (forallb_forall (λ kv, all_finite kv.2) _)). intros kv Hkv%list_elem_of_In.
    rewrite Forall_forall in Hm. by destruct (Hm kv Hkv) as [_ []].
  - apply size_arr_bound in Sd, St, Sa; try done. pose proof (size_cursor _ Hc).
    assert (Sm : size (JObj ms) ≤ 2 + Z.of_nat (length ms) * (BOOTSTRAP_MODEL_CATALOG_MAX_BYTES + 40)).
    { etrans; [apply (size_obj_bound ms (BOOTSTRAP_MODEL_CATALOG_MAX_BYTES + 39)); [done|]|lia].
      eapply Forall_impl; [exact Hm|]. intros kv [H1 [_ H2]]. lia. }
    rewrite Hlen in Sm. unfold bootstrap_answer. rewrite size_obj. unfold members.
    cbn [foldr fst snd length]. change (size (JStr "event_cursor")) with 14.
    change (size (JStr "devices")) with 9. change (size (JStr "threads")) with 9.
    change (size (JStr "approvals")) with 11. change (size (JStr "models_by_device")) with 18.
    change (size (JStr "connector_release")) with 19. unfold bootstrap_worst_case_bytes.
    unfold BOOTSTRAP_BASE_OVERHEAD_BYTES, BOOTSTRAP_CONNECTOR_RELEASE_MAX_BYTES,
      BOOTSTRAP_DEVICE_SUMMARY_MAX_BYTES, BOOTSTRAP_THREAD_SUMMARY_MAX_BYTES,
      BOOTSTRAP_APPROVAL_ITEM_MAX_BYTES, BOOTSTRAP_MODEL_CATALOG_MAX_BYTES,
      BOOTSTRAP_MODEL_MAP_ENTRY_OVERHEAD_BYTES in *. lia.
Qed.

Section bootstrap.
Context {P : Platform}.

(** ** Operations that answer and write nothing *)

Definition answers {A} (db : database) (m : tx A) (R : A → Prop) : Prop :=
  ∀ w, working w = db → wp m (λ r w', ∃ a, r = Ok a ∧ R a ∧ working w' = working w
    ∧ durable w' = durable w) w.

Lemma wp_answers {A} (m : tx A) R (Q : outcome A → world → Prop) w :
  answers (working w) m R →
  (∀ a w', R a → working w' = working w → durable w' = durable w → Q (Ok a) w') → wp m Q w.
Proof.
  intros Hm HQ. eapply wp_mono; [by apply Hm|]. intros r w' (a & -> & Ha & H1 & H2). by apply HQ.
Qed.

Lemma answers_ret {A} db (a : A) (R : A → Prop) : R a → answers db (mret a) R.
Proof. intros Ha w Hw. apply wp_ret. by exists a. Qed.

Lemma answers_bind {A B} db (m : tx A) (k : A → tx B) R S' :
  answers db m R → (∀ a, R a → answers db (k a) S') → answers db (m ≫= k) S'.
Proof.
  intros Hm Hk w Hw. apply wp_bind. eapply wp_answers; [by rewrite Hw|]. intros a w1 Ha H1 H2.
  eapply wp_mono; [apply (Hk a Ha); congruence|].
  intros r w2 (b & -> & Hb & H3 & H4). exists b. split_and!; (done || congruence).
Qed.

Lemma answers_for_each {A} db (f : A → tx unit) l :
  Forall (λ x, answers db (f x) (λ _, True)) l → answers db (for_each f l) (λ _, True).
Proof.
  induction 1 as [|x l Hx _ IH]; [by apply answers_ret|].
  cbn [for_each]. eapply answers_bind; [exact Hx|]. by intros.
Qed.

Lemma answers_ensure_fits db v limit code :
  item_fits limit v → answers db (ensure_fits v limit code) (λ _, True).
Proof.
  intros [Hf Hs] w Hw. unfold ensure_fits, compact_ensure_ascii_size, ensure_ascii_json_byte_length.
  rewrite Hf. fold (size v). unfold guard_exn. rewrite (proj2 (Z.ltb_ge _ _)) by done.
  apply wp_ret. by exists tt.
Qed.

(** ** The rows of an owner within quotas *)

Definition device_row_fits (id : uuid) (d : Device) : Prop :=
  device_summary_valid d = true
  ∧ size (device_summary_json id d "offline" (JStr datetime_max)) ≤ BOOTSTRAP_DEVICE_SUMMARY_MAX_BYTES
  ∧ Forall model_entry (d_model_catalog d)
  ∧ Z.of_nat (length (d_model_catalog d)) ≤ bootstrap_max_models_per_device settings
  ∧ item_fits BOOTSTRAP_MODEL_CATALOG_MAX_BYTES (JArr (d_model_catalog d)).

Definition thread_row_fits (id : uuid) (b : ThreadBinding) : Prop :=
  thread_summary_valid b = true
  ∧ size (thread_summary_json id b "waiting_for_approval") ≤ BOOTSTRAP_THREAD_SUMMARY_MAX_BYTES.

(** What the writers keep: the counts below the limits ([threads_fit] for the
    threads), and every row valid for its view and within the bound of its
    projection.  Approvals count
    until they expire, so their limit holds from some time [since] on. *)
Record within_quotas (since : Z) (owner : pystr) (db : database) : Prop := {
  wq_devices : active_device_count owner db ≤ bootstrap_max_devices settings;
  wq_threads : visible_thread_count owner db ≤ bootstrap_max_threads settings;
  wq_approvals t : since ≤ t →
    active_pending_approval_count owner t db ≤ bootstrap_max_pending_approvals settings;
  wq_device id d : devices db !! id = Some d → d_owner_user_id d = owner → device_row_fits id d;
  wq_thread id b : threads db !! id = Some b → tb_owner_user_id b = owner → thread_row_fits id b;
  wq_approval id a d : approvals db !! id = Some a → ap_owner_user_id a = owner →
    devices db !! ap_device_id a = Some d →
    d_owner_user_id d = owner ∧ approval_item_valid a = true
    ∧ item_fits BOOTSTRAP_APPROVAL_ITEM_MAX_BYTES (approval_item_json id a d);
}.

(** ** Devices *)

Lemma device_summary_fits id d status seen :
  device_row_fits id d → size (JStr status) ≤ 9 → size seen ≤ 29 → all_finite seen = true →
  item_fits BOOTSTRAP_DEVICE_SUMMARY_MAX_BYTES (device_summary_json id d status seen).
Proof.
  intros (_ & H & _) Hs Ht Hf. split.
  - unfold device_summary_json. simpl. rewrite Hf. simpl. rewrite andb_true_r.
    by induction (d_workspace_roots d).
  - etrans; [|exact H]. unfold device_summary_json. rewrite !size_obj. unfold members.
    cbn [foldr fst snd length]. change (size (JStr "offline")) with 9.
    change (size (JStr datetime_max)) with 29. lia.
Qed.

Lemma answers_new_summary db id d status seen :
  device_row_fits id d → size (JStr status) ≤ 9 → size seen ≤ 29 → all_finite seen = true →
  answers db (new_device_summary id d status seen) (item_fits BOOTSTRAP_DEVICE_SUMMARY_MAX_BYTES).
Proof.
  intros Hd Hs Ht Hf. unfold new_device_summary. rewrite (proj1 Hd).
  eapply answers_bind; [apply (answers_ret _ tt (λ _, True)); done|]. intros _ _.
  by apply answers_ret, device_summary_fits.
Qed.

Lemma answers_approval_item db id a d (R : json → Prop) :
  approval_item_valid a = true → R (approval_item_json id a d) → answers db (approval_item id a d) R.
Proof.
  intros Hv HR. unfold approval_item. rewrite Hv.
  eapply answers_bind; [apply (answers_ret _ tt (λ _, True)); done|]. intros _ _.
  by apply answers_ret.
Qed.

Lemma size_opt_time t : size (opt_time t) ≤ 29 ∧ all_finite (opt_time t) = true.
Proof. destruct t; split; try done. apply size_iso. Qed.

Lemma answers_device_summary db id d :
  (∀ n, store_up n = true) → device_row_fits id d →
  answers db (device_summary id d) (item_fits BOOTSTRAP_DEVICE_SUMMARY_MAX_BYTES).
Proof.
  intros Hup Hd. unfold device_summary. destruct (size_opt_time (d_last_seen_at d)).
  apply (answers_bind _ _ _ (λ _, True)).
  - intros w Hw. unfold store_get, store_op, wp. rewrite Hup.
    destruct (kv_get _ _ _) as [r s]. simpl. by exists r.
  - intros raw _. apply answers_new_summary; [done| |done..].
    destruct (d_status d); [|done]. by destruct (registry_nonce_matches _ _).
Qed.

Lemma answers_device_summaries db rows :
  (∀ n, store_up n = true) → Forall (λ r, device_row_fits r.1 r.2) rows →
  answers db (device_summaries rows) (λ views,
    Forall (item_fits BOOTSTRAP_DEVICE_SUMMARY_MAX_BYTES) views ∧ length views = length rows).
Proof.
  intros Hup. induction 1 as [|[id d] rows Hd _ IH]; [by apply answers_ret|].
  cbn [device_summaries]. eapply answers_bind; [by apply answers_device_summary|].
  intros view Hv. eapply answers_bind; [exact IH|]. intros views [Hvs Hl].
  apply answers_ret. split; [by constructor|simpl; congruence].
Qed.

Lemma model_catalog_id d : Forall model_entry (d_model_catalog d) → _model_catalog d = d_model_catalog d.
Proof. apply omap_id_entries. Qed.

Lemma answers_device_fits db id d :
  device_row_fits id d →
  answers db (ensure_device_projection_fits id d;; ensure_model_catalog_fits d) (λ _, True).
Proof.
  intros Hd. eapply answers_bind.
  - eapply answers_bind; [by apply answers_new_summary|]. intros v Hv. by apply answers_ensure_fits.
  - intros _ _. destruct Hd as (_ & _ & Hm & Hl & Hc). unfold ensure_model_catalog_fits.
    rewrite take_ge by lia. rewrite omap_id_entries by done.
    unfold guard_exn. rewrite (proj2 (Z.ltb_ge _ _)) by done.
    eapply answers_bind; [apply (answers_ret _ tt (λ _, True)); done|]. intros _ _.
    by apply answers_ensure_fits.
Qed.

(** ** Threads *)

Lemma thread_summary_fits id b status :
  thread_row_fits id b → size (JStr status) ≤ 22 →
  item_fits BOOTSTRAP_THREAD_SUMMARY_MAX_BYTES (thread_summary_json id b status).
Proof.
  intros [_ H] Hs. split; [done|]. etrans; [|exact H]. unfold thread_summary_json.
  rewrite !size_obj. unfold members. cbn [foldr fst snd length].
  change (size (JStr "waiting_for_approval")) with 22. lia.
Qed.

Lemma answers_thread_summaries db rows :
  Forall (λ r, thread_row_fits r.1 r.2) rows →
  answers db (thread_summaries rows) (λ views,
    Forall (item_fits BOOTSTRAP_THREAD_SUMMARY_MAX_BYTES) views ∧ length views = length rows).
Proof.
  induction 1 as [|[id b] rows Hb _ IH]; [by apply answers_ret|]. cbn [thread_summaries].
  apply (answers_bind _ _ _ (item_fits BOOTSTRAP_THREAD_SUMMARY_MAX_BYTES)).
  - simpl in Hb. unfold thread_summary. rewrite (proj1 Hb).
    eapply answers_bind; [apply (answers_ret _ tt (λ _, True)); done|]. intros _ _.
    apply answers_ret, thread_summary_fits; [done|]. by destruct (tb_status b).
  - intros view Hv. eapply answers_bind; [exact IH|]. intros views [Hvs Hl].
    apply answers_ret. split; [by constructor|simpl; congruence].
Qed.

Lemma answers_thread_fits db id b :
  thread_row_fits id b → answers db (ensure_thread_projection_fits id b) (λ _, True).
Proof.
  intros Hb. unfold ensure_thread_projection_fits. destruct (Hb) as [Hv _]. rewrite Hv.
  eapply answers_bind; [apply (answers_ret _ tt (λ _, True)); done|]. intros _ _.
  by apply answers_ensure_fits, thread_summary_fits.
Qed.

(** ** The lists of the answer *)

Lemma newest_devices_spec owner db id d :
  (id, d) ∈ newest_devices owner db ↔
    devices db !! id = Some d ∧ d_owner_user_id d = owner ∧ is_revoked d = false.
Proof.
  unfold newest_devices. rewrite elem_of_order_by, elem_of_select_rows, andb_true_iff.
  rewrite bool_decide_eq_true, negb_true_iff. tauto.
Qed.

Lemma newest_devices_all owner db :
  active_device_count owner db ≤ bootstrap_max_devices settings →
  take (Z.to_nat (bootstrap_max_devices settings + 1)) (newest_devices owner db)
  = newest_devices owner db
  ∧ Z.of_nat (length (newest_devices owner db)) ≤ bootstrap_max_devices settings.
Proof.
  intros H. assert (Hl : Z.of_nat (length (newest_devices owner db)) = active_device_count owner db).
  { unfold newest_devices. rewrite order_by_perm, length_select_rows. done. }
  split; [apply take_ge|]; lia.
Qed.

Lemma newest_devices_map owner db id d :
  devices db !! id = Some d → d_owner_user_id d = owner → is_revoked d = false →
  (list_to_map (newest_devices owner db) : gmap uuid Device) !! id = Some d.
Proof.
  intros Hd Ho Hr. apply elem_of_list_to_map.
  - unfold newest_devices. rewrite order_by_perm. apply NoDup_select_keys.
  - by apply newest_devices_spec.
Qed.

(** The threads shown are visible ones. *)
Definition shown_threads (owner : pystr) (db : database) : list (uuid * ThreadBinding) :=
  newest_threads (λ b, bool_decide (tb_owner_user_id b = owner)
                       && device_not_revoked db (tb_device_id b)) db.

Lemma shown_threads_spec owner db id b :
  (id, b) ∈ shown_threads owner db → threads db !! id = Some b ∧ tb_owner_user_id b = owner.
Proof.
  unfold shown_threads, newest_threads. rewrite elem_of_order_by, elem_of_select_rows.
  intros [Hb Hs]. reflect_bools. done.
Qed.

Lemma shown_threads_all owner db :
  visible_thread_count owner db ≤ bootstrap_max_threads settings →
  take (Z.to_nat (bootstrap_max_threads settings + 1)) (shown_threads owner db)
  = shown_threads owner db
  ∧ Z.of_nat (length (shown_threads owner db)) ≤ bootstrap_max_threads settings.
Proof.
  intros H. assert (Hl : Z.of_nat (length (shown_threads owner db)) ≤ visible_thread_count owner db).
  { unfold shown_threads, newest_threads. rewrite order_by_perm, length_select_rows.
    unfold visible_thread_count. apply count_rows_imply.
    intros id b _ Hs. unfold visible_thread. reflect_bools. rewrite bool_decide_true by done.
    destruct (device_not_revoked _ _), (hidden _); done. }
  split; [apply take_ge|]; lia.
Qed.

(** ** Approvals *)

Definition approval_row_fits (r : uuid * Approval * Device) : Prop :=
  approval_item_valid r.1.2 = true
  ∧ item_fits BOOTSTRAP_APPROVAL_ITEM_MAX_BYTES (approval_item_json r.1.1 r.1.2 r.2).

Lemma answers_approval_items db rows :
  Forall approval_row_fits rows →
  answers db (approval_items rows) (λ views,
    Forall (item_fits BOOTSTRAP_APPROVAL_ITEM_MAX_BYTES) views ∧ length views = length rows).
Proof.
  induction 1 as [|[[id a] d] rows [Hv Hf] _ IH]; [by apply answers_ret|]. cbn [approval_items].
  eapply answers_bind; [by apply (answers_approval_item _ _ _ _ (item_fits BOOTSTRAP_APPROVAL_ITEM_MAX_BYTES))|].
  intros view Hview. eapply answers_bind; [exact IH|]. intros views [Hvs Hl].
  apply answers_ret. split; [by constructor|simpl; congruence].
Qed.

Lemma answers_list_pending since owner db :
  (∀ n, since ≤ clock n) → within_quotas since owner db →
  answers db (list_pending owner) (λ views,
    Forall (item_fits BOOTSTRAP_APPROVAL_ITEM_MAX_BYTES) views
    ∧ Z.of_nat (length views) ≤ bootstrap_max_pending_approvals settings).
Proof.
  intros Hclock Hq w Hw. unfold list_pending. wp_step. apply wp_now_at. intros w0 Hw0 Hd. do 2 wp_step.
  set (t := clock (ticks w)).
  set (rows := omap _ _). eapply wp_mono; [apply (answers_approval_items db); [|congruence]|].
  - apply Forall_forall. intros y (x & Hx & Hv)%list_elem_of_omap. destruct x as [id a].
    apply elem_of_order_by, elem_of_select_rows in Hx as [Ha Hp].
    destruct (devices db !! ap_device_id a) as [d|] eqn:Hdev; [|done]. simpl in Hv. injection Hv as <-.
    unfold pending_approval in Hp. reflect_bools. by eapply wq_approval.
  - cbv beta. intros r w1 (views & -> & [Hv Hl] & Hw1 & Hd1). exists views.
    split_and!; [done..| |congruence|congruence].
    rewrite Hl. etrans; [|apply (wq_approvals _ _ _ Hq t), Hclock]. unfold active_pending_approval_count.
    rewrite <- length_select_rows. apply inj_le. etrans; [apply length_omap|].
    by rewrite order_by_perm.
Qed.

Lemma answers_bootstrap_fits since owner db :
  within_quotas since owner db →
  answers db (bootstrap_fits owner (newest_devices owner db) (shown_threads owner db)) (λ _, True).
Proof.
  intros Hq. unfold bootstrap_fits.
  eapply answers_bind; [apply answers_for_each, Forall_forall|intros _ _].
  { intros [id d] (Hdev & Ho & _)%newest_devices_spec. apply answers_device_fits. by eapply wq_device. }
  eapply answers_bind; [apply answers_for_each, Forall_forall|intros _ _].
  { intros [id b] (Hb & Ho)%shown_threads_spec. apply answers_thread_fits. by eapply wq_thread. }
  intros w Hw. do 2 wp_step. do 2 wp_step.
  eapply wp_mono; [apply (answers_for_each db); [|congruence]|].
  - apply Forall_forall. intros [id a] [Ha Hp]%elem_of_select_rows.
    unfold pending_approval in Hp. reflect_bools. unfold device_not_revoked in *.
    destruct (devices db !! ap_device_id a) as [d|] eqn:Hdev; [|done]. reflect_bools.
    destruct (wq_approval _ _ _ Hq id a d) as (Ho & Hv & Hf); [done..|].
    rewrite (newest_devices_map owner db _ d) by done. unfold ensure_approval_projection_fits.
    eapply answers_bind; [by apply (answers_approval_item _ _ _ _ (item_fits BOOTSTRAP_APPROVAL_ITEM_MAX_BYTES))|].
    intros v Hv'. by apply answers_ensure_fits.
  - intros r w' (x & -> & _ & H1 & H2). exists x. split_and!; (done || congruence).
Qed.

(** ** The answer *)

Definition last_cursor (owner : pystr) (db : database) : Z :=
  match cursors db !! owner with Some c => oc_last_cursor c | None => 0 end.

Lemma wp_lock_cursor_exact owner (Q : outcome Z → world → Prop) w :
  (∀ C w', working w' = (working w) <| cursors := C |> → durable w' = durable w →
     Q (Ok (last_cursor owner (working w))) w') →
  wp (lock_owner_cursor owner) Q w.
Proof.
  intros HQ. unfold lock_owner_cursor. do 3 wp_step. unfold last_cursor in HQ.
  destruct (cursors (working w) !! owner) as [c|] eqn:Hc.
  - rewrite Hc. apply (HQ (cursors (working w))); [|done]. rewrite Hw. by destruct (working w).
  - simpl. rewrite lookup_insert_eq. by eapply HQ.
Qed.

Lemma rows_fit since owner db :
  within_quotas since owner db → Forall (λ r, device_row_fits r.1 r.2) (newest_devices owner db).
Proof.
  intros Hq. apply Forall_forall. intros [id d] (Hd & Ho & _)%newest_devices_spec.
  by eapply wq_device.
Qed.

Lemma shown_fit since owner db :
  within_quotas since owner db → Forall (λ r, thread_row_fits r.1 r.2) (shown_threads owner db).
Proof.
  intros Hq. apply Forall_forall. intros [id b] (Hb & Ho)%shown_threads_spec. by eapply wq_thread.
Qed.

Lemma models_fit since owner db :
  within_quotas since owner db →
  Forall (λ kv, size (JStr kv.1) = 38 ∧ item_fits BOOTSTRAP_MODEL_CATALOG_MAX_BYTES kv.2)
    ((λ r, (uuid_str r.1, JArr (_model_catalog r.2))) <$> newest_devices owner db).
Proof.
  intros Hq. apply Forall_fmap, Forall_forall. intros [id d] (Hd & Ho & _)%newest_devices_spec.
  destruct (wq_device _ _ _ Hq id d Hd Ho) as (_ & _ & Hm & _ & Hf). split; [apply size_uuid|].
  simpl. by rewrite model_catalog_id.
Qed.

(** The encoder pydantic uses never writes more than the one that escapes
    everything outside ASCII. *)
Definition encoder_law (Size : ResponseSize) : Prop :=
  ∀ v, all_finite v = true → response_bytes v ≤ size v.

(** C22: an owner whose rows are within the quotas the writers keep, and pass the
    field constraints of their views, is answered as long as the store can be
    reached: no count, validation, projection or size check of the bootstrap
    refuses, and the encoded answer is within the configured response limit. *)
Theorem bootstrap_answers (Size : ResponseSize) connector_release since owner w :
  settings_valid settings = true → (∀ n, store_up n = true) → (∀ n, since ≤ clock n) →
  encoder_law Size → item_fits BOOTSTRAP_CONNECTOR_RELEASE_MAX_BYTES connector_release →
  within_quotas since owner (working w) → 0 ≤ last_cursor owner (working w) ≤ MAX_EVENT_CURSOR →
  ∃ answer w', bootstrap_snapshot connector_release owner w = (Ok answer, w')
    ∧ response_bytes answer ≤ bootstrap_max_response_bytes settings.
Proof.
  intros Hset Hup Hclock Hlaw Hrel Hq Hcur.
  enough (H : wp (bootstrap_snapshot connector_release owner) (λ r _, ∃ answer, r = Ok answer
    ∧ response_bytes answer ≤ bootstrap_max_response_bytes settings) w).
  { destruct H as (answer & H1 & H2). exists answer, (bootstrap_snapshot connector_release owner w).2.
    split; [|done]. rewrite <- H1. apply surjective_pairing. }
  unfold bootstrap_snapshot. wp_step. apply wp_lock_cursor_exact. intros C w1 Hw1 Hd1.
  set (db := (working w) <| cursors := C |>) in *.
  assert (Hq1 : within_quotas since owner db) by (destruct Hq; by split). clear Hq.
  do 2 wp_step. destruct (newest_devices_all owner db (wq_devices _ _ _ Hq1)) as [-> Hld].
  rewrite (proj2 (Z.ltb_ge _ _)) by done.
  do 2 wp_step. fold (shown_threads owner db).
  destruct (shown_threads_all owner db (wq_threads _ _ _ Hq1)) as [-> Hlt].
  rewrite (proj2 (Z.ltb_ge _ _)) by done.
  wp_step. apply wp_now_at. intros w0 Hw Hd. rewrite Hw1 in Hw. do 2 wp_step.
  rewrite (proj2 (Z.ltb_ge _ _)) by apply (wq_approvals _ _ _ Hq1), Hclock.
  wp_step. apply (wp_answers _ _ _ _ (answers_thread_summaries _ _ (shown_fit _ _ _ Hq1))).
  intros threads w2 [Ht Hlt'] Hw2 Hd2. rewrite Hw in Hw2.
  wp_step. eapply wp_answers; [rewrite Hw2; by eapply answers_list_pending|].
  intros pending w3 [Ha Hla] Hw3 Hd3. rewrite Hw2 in Hw3.
  wp_step. apply wp_try_catch. eapply wp_answers; [rewrite Hw3; by eapply answers_bootstrap_fits|].
  intros [] w4 _ Hw4 Hd4. rewrite Hw3 in Hw4. do 2 wp_step. wp_step.
  eapply wp_answers; [apply answers_device_summaries; [done|by eapply rows_fit]|].
  intros ds w6 [Hds Hlds] Hw6 Hd6.
  match goal with |- context [response_bytes ?v] => change v with (bootstrap_answer
    (last_cursor owner (working w)) ds threads pending ((λ r, (uuid_str r.1, JArr (_model_catalog r.2)))
      <$> newest_devices owner db) connector_release) end.
  destruct (worst_case_bounds settings (last_cursor owner (working w)) ds threads pending
    ((λ r, (uuid_str r.1, JArr (_model_catalog r.2))) <$> newest_devices owner db) connector_release)
    as [Hfin Hsize]; try done; try lia.
  { by eapply models_fit. } { by rewrite length_fmap. }
  apply Hlaw in Hfin. unfold settings_valid in Hset. apply andb_true_iff in Hset as [_ Hmax].
  reflect_bools. rewrite (proj2 (Z.ltb_ge _ _)) by lia. wp_step. eexists. split; [done|lia].
Qed.
End bootstrap.

(** ** On the testbed *)

Definition sample_size : ResponseSize := size.

Definition sample_thread : ThreadBinding :=
  new_binding "alice" 1%N sample_device "/srv/app" None start_micros.

(** A device with one running thread. *)
Definition busy_database : database :=
  sample_database <| threads := {[ 5%N := sample_thread ]} |>.

Lemma busy_within_quotas : within_quotas (P := testbed) start_micros "alice" busy_database.
Proof.
  split.
  - vm_compute. discriminate.
  - vm_compute. discriminate.
  - intros t _. change (0 ≤ 32). lia.
  - intros id d Hd _. change (({[1%N := sample_device]} : gmap uuid Device) !! id = Some d) in Hd.
    apply lookup_singleton_Some in Hd as [<- <-].
    split_and!; [vm_compute; reflexivity|vm_compute; discriminate|constructor|
      vm_compute; discriminate|split; [reflexivity|vm_compute; discriminate]].
  - intros id b Hb _. change (({[5%N := sample_thread]} : gmap uuid ThreadBinding) !! id = Some b) in Hb.
    apply lookup_singleton_Some in Hb as [<- <-]. split; [reflexivity|vm_compute; discriminate].
  - intros id a d Ha. change ((∅ : gmap uuid Approval) !! id = Some a) in Ha. by rewrite lookup_empty in Ha.
Qed.

Lemma bootstrap_answers_witness :
  ∃ answer w', bootstrap_snapshot (P := testbed) (Size := sample_size) JNull "alice"
      (start_world busy_database) = (Ok answer, w')
    ∧ sample_size answer ≤ 8388608.
Proof.
  refine (bootstrap_answers (P := testbed) sample_size JNull start_micros "alice"
    (start_world busy_database) eq_refl (λ n, eq_refl) _ _ _ busy_within_quotas _).
  - intros n. change (start_micros ≤ start_micros + 1000 * Z.of_nat n). lia.
  - intros v _. reflexivity.
  - split; [reflexivity|vm_compute; discriminate].
  - split; vm_compute; discriminate.
Defined.
