(* ===== verification/ControlSafety.v ===== *)
(** * What the control routes promise

    Revoking a device cuts it off in one transaction. *)

From stdpp Require Import base list gmap.
From Stdlib Require Import NArith ZArith Lia.
From S2P Require Import Prelude Config Json Paths Models Storage World Testbed Security DeviceAuth.
From S2P Require Import Events Capacity Commands Approvals Outbox Handshake Sub2api.
From S2P Require Import Sessions SessionProtocol Access AccessSafety Routes RouteSafety.
From S2P Require Import DispatchSafety ControlRoutes.
Open Scope Z_scope.

(** ** Revocation *)

(** Nothing of a device works any more. *)
Record cut_off (dev : uuid) (db : database) : Prop := {
  co_device : ∃ d, devices db !! dev = Some d ∧ d_status d = DsRevoked
    ∧ d_refresh_credential_hash d = None ∧ d_active_epoch d = None
    ∧ d_active_connection_nonce d = None;
  co_connections id r : connections db !! id = Some r → connected_to dev r = false;
  co_threads id b : threads db !! id = Some b → tb_device_id b = dev → tb_status b = TsClosed;
  co_approvals id a : approvals db !! id = Some a → ap_device_id a = dev →
    ap_decision_dispatched_at a = None → ap_status a ≠ AsPending ∧ ap_status a ≠ AsApproved;
}.

Lemma event_update_threads db db' T :
  event_update db db' → event_update (db <| threads := T |>) (db' <| threads := T |>).
Proof. intros [D ? ? ? ? ? ? ?]. by split. Qed.

Lemma cut_off_event_update dev db db' : event_update db db' → cut_off dev db → cut_off dev db'.
Proof.
  intros Hup [(d & Hd & Hs & Hc & He & Hn) H2 H3 H4].
  destruct (event_update_device _ _ _ _ Hup Hd) as (d' & Hd' & Hcu).
  destruct Hup as [_ E1 _ E3 _ E5 _ _]. split; rewrite ?E1, ?E3, ?E5; try done.
  exists d'. split; [done|]. rewrite Hcu. by split_and!.
Qed.

Lemma denied_all_settles dev t reason m id a :
  denied_all dev None t reason m !! id = Some a → ap_device_id a = dev →
  ap_decision_dispatched_at a = None → ap_status a ≠ AsPending ∧ ap_status a ≠ AsApproved.
Proof.
  unfold denied_all. rewrite lookup_fmap, fmap_Some. intros (a0 & _ & ->) Hdev Hdis.
  destruct (deniable dev None a0) eqn:E; [done|]. unfold deniable in E.
  rewrite !bool_decide_true in E by done. simpl in E. rewrite andb_true_r in E.
  unfold not_already_reconciled in E. by destruct (ap_status a0).
Qed.

(** The threads after closing [rows]. *)
Definition closing (t : Z) (rows : list (uuid * ThreadBinding)) (m : gmap uuid ThreadBinding) :
    gmap uuid ThreadBinding :=
  foldl (λ m row, <[row.1 := closed_binding t row.2]> m) m rows.

Lemma closing_lookup t rows m id b :
  closing t rows m !! id = Some b →
  (∃ b0, (id, b0) ∈ rows ∧ b = closed_binding t b0) ∨ (id ∉ rows.*1 ∧ m !! id = Some b).
Proof.
  revert m. induction rows as [|[i b0] rows IH]; intros m; simpl.
  { intros H. right. split; [apply not_elem_of_nil|done]. }
  intros [(b1 & Hin & ->)|[Hn Hb]]%IH.
  - left. exists b1. split; [by right|done].
  - apply lookup_insert_Some in Hb as [[<- <-]|[Hne Hb]].
    + left. exists b0. split; [by left|done].
    + right. split; [|done]. intros [->|Hin]%elem_of_cons; [done|]. done.
Qed.

Definition open_thread (dev : uuid) (_ : uuid) (b : ThreadBinding) : bool :=
  bool_decide (tb_device_id b = dev) && negb (bool_decide (tb_status b = TsClosed)).

(** The two halves of the transaction, put together. *)
Lemma revoked_state dev t t5 reason db T d db5 db' :
  devices db !! dev = Some d →
  event_update (db <| devices := alter (revoked_device t) dev (devices db) |>
    <| connections := revoked_connection dev t <$> connections db |>
    <| approvals := denied_all dev None t5 reason (approvals db) |> <| threads := T |>) db5 →
  event_update (db5 <| threads := closing t (select_rows (open_thread dev) (threads db5))
    (threads db5) |>) db' →
  cut_off dev db' ∧ ∃ d', devices db' !! dev = Some d'
    ∧ d_credential_version d' = d_credential_version d + 1 ∧ d_owner_user_id d' = d_owner_user_id d.
Proof.
  intros Hd H5 H'. assert (Hd0 : devices (db <| devices := alter (revoked_device t) dev (devices db) |>
    <| connections := revoked_connection dev t <$> connections db |>
    <| approvals := denied_all dev None t5 reason (approvals db) |> <| threads := T |>) !! dev
    = Some (revoked_device t d)) by (simpl; by rewrite lookup_alter_eq, Hd).
  destruct (event_update_device _ _ _ _ H5 Hd0) as (d5 & Hd5 & Hc5).
  destruct (event_update_device _ _ _ _ H' Hd5) as (d' & Hd' & Hc').
  pose proof (eu_connections _ _ H5) as E1. pose proof (eu_approvals _ _ H5) as E2. simpl in E1, E2.
  split; [|exists d'; split; [done|]; rewrite Hc', Hc5; by split].
  split.
  - exists d'. split; [done|]. rewrite Hc', Hc5. by split_and!.
  - intros id r. rewrite (eu_connections _ _ H'). simpl. rewrite E1, lookup_fmap, fmap_Some.
    intros (r0 & _ & ->). unfold revoked_connection. destruct (connected_to dev r0) eqn:Hc; [|done].
    unfold connected_to. simpl. by rewrite andb_false_r.
  - intros id b. rewrite (eu_threads _ _ H'). simpl. intros [(b0 & _ & ->)|[Hn Hb]]%closing_lookup; [done|].
    intros Hdev. destruct (base.decide (tb_status b = TsClosed)) as [|Hs]; [done|]. destruct Hn.
    apply list_elem_of_fmap. exists (id, b). split; [done|]. apply elem_of_select_rows. split; [done|].
    unfold open_thread. by rewrite bool_decide_true, bool_decide_false.
  - intros id a. rewrite (eu_approvals _ _ H'). simpl. rewrite E2. apply denied_all_settles.
Qed.

Section revocation.
Context {P : Platform} {Url : UrlSplit} {U : Upstream}.

Lemma wp_close_threads owner dev t rows events (Q : outcome (list BrowserEvent) → world → Prop) w :
  (∀ es w', event_update ((working w) <| threads := closing t rows (threads (working w)) |>)
     (working w') → durable w' = durable w → Q (Ok es) w') →
  (∀ e w', durable w' = durable w → Q (Raise e) w') →
  wp (fold_tx (λ events row, e ← close_thread owner dev t row; mret (events ++ [e])) events rows) Q w.
Proof.
  revert events Q w. induction rows as [|[id b] rows IH]; intros events Q w HQ HR; simpl.
  { wp_step. apply HQ; [|done]. by destruct (working w). }
  wp_step. unfold close_thread at 1. wp_step. do 2 wp_step. wp_step.
  apply wp_silent; [apply silent_thread_event_data|]. intros [data|e] w2 Hw2 Hd2; [|apply HR; congruence].
  apply wp_append. intros [e|e] w3 Hw3 Hd3; [|apply HR; congruence]. wp_step.
  apply IH; [|intros; apply HR; congruence]. intros es w4 Hw4 Hd4. apply HQ; [|congruence].
  etrans; [|exact Hw4]. rewrite Hw2, Hw in Hw3. rewrite (eu_threads _ _ Hw3).
  apply (event_update_threads _ _ (closing t rows (<[id:=closed_binding t b]> (threads (working w))))) in Hw3.
  exact Hw3.
Qed.

(** What the committed revocation leaves. *)
Definition revoked_from (dev : uuid) (d : Device) (db : database) : Prop :=
  cut_off dev db ∧ ∃ d', devices db !! dev = Some d'
    ∧ d_credential_version d' = d_credential_version d + 1 ∧ d_owner_user_id d' = d_owner_user_id d.

Lemma wp_revoke_transaction owner session dev d meta w :
  devices (working w) !! dev = Some d →
  wp (revoke_transaction owner session dev d meta) (λ r w', match r with
    | Ok _ => revoked_from dev d (durable w')
    | Raise _ => durable w' = durable w
    end) w.
Proof.
  intros Hdev.
  unfold revoke_transaction. wp_step. apply wp_silent; [apply silent_now|].
  intros [t|e] w1 Hw1 Hd1; [|done].
  wp_step. apply wp_lock_owner_cursor. intros n w2 Hw2 Hd2. rewrite Hw1 in Hw2.
  destruct (event_update_device _ _ _ _ Hw2 Hdev) as (d2 & Hdev2 & Hcu).
  do 2 wp_step. unfold update_device. do 2 wp_step. do 2 wp_step. wp_step.
  eapply wp_mono; [apply deny_undispatched_world|].
  intros [denied|e] w5 (t5 & T & Hw5 & Hd5); [|congruence].
  do 2 wp_step. wp_step. apply wp_close_threads; [|intros; congruence].
  intros es w6 Hw6 Hd6. wp_step. apply wp_add_audit. intros w7 Hw7 Hd7.
  wp_step. apply wp_silent; [apply silent_new_device_summary|].
  intros [view|e] v Hwv Hdv; [|congruence].
  wp_step. apply wp_append. intros [e|e] w8 Hw8 Hd8; [|congruence]. rewrite Hwv in Hw8.
  do 2 wp_step. wp_step. rewrite Hd3.
  destruct (revoked_state dev t t5 _ _ T d2 _ _ Hdev2 Hw5 Hw6) as (H1 & d' & Hd' & Hv & Ho).
  assert (Hup : event_update (working w6) (working w8)) by by etrans.
  split; [by eapply cut_off_event_update|].
  destruct (event_update_device _ _ _ _ Hup Hd') as (d8 & Hd8' & Hcu8).
  exists d8. split; [done|]. rewrite Hcu8, Hcu in *. by split.
Qed.

Lemma for_each_best_effort {A} (f : A → tx unit) l w :
  ∃ u, (for_each (λ e, best_effort (f e)) l w).1 = Ok u.
Proof. apply for_each_ok. intros. apply best_effort_ok. Qed.

(** What follows the commit of a revocation cannot fail. *)
Lemma wp_revocation_notices owner dev nonces events w1 :
  wp (best_effort (revoke_access_token dev);; best_effort (store_delete (connection_key dev));;
      (if bool_decide (nonces = []) then mret tt
       else best_effort (publish ("device-dispatch:" +++ uuid_str dev) (kick_message nonces)));;
      for_each (λ e, best_effort (publish_event owner e)) events)
    (λ r w', (∃ u, r = Ok u) ∧ durable w' = durable w1) w1.
Proof.
  wp_step. apply wp_silent_ok; [unfold revoke_access_token; solve_silent|apply best_effort_ok|].
  intros u2 w2 _ Hd2. wp_step. apply wp_silent_ok; [solve_silent|apply best_effort_ok|].
  intros u3 w3 _ Hd3. wp_step. apply wp_silent_ok; [case_bool_decide; solve_silent| |].
  { intros w'. case_bool_decide; [by eexists|apply best_effort_ok]. }
  intros u4 w4 _ Hd4. apply wp_silent_ok; [unfold publish_event; solve_silent|apply for_each_best_effort|].
  intros u5 w5 _ Hd5. split; [eauto|congruence].
Qed.

(** C12: a device is revoked only by its owner, in a request that passed the
    strongest check.  The revocation is one transaction, after which the device
    has no credential, epoch or connection, carries the next credential version,
    its threads are closed and no approval of it is pending or waits to be
    dispatched; the store's failures after it are no errors, and when it fails
    nothing of it is committed. *)
Theorem revoke_device_cuts_off mw dev request w :
  working w = durable w →
  let checked := require_recent_mutating_session mw request w in
  match revoke_device mw dev request w with
  | (Ok _, w') => ∃ session s d, checked.1 = Ok (session, s) ∧ authorized request mw w session s
      ∧ devices (durable checked.2) !! dev = Some d ∧ d_owner_user_id d = cs_user_id s
      ∧ (if is_revoked d then durable w' = durable checked.2 else revoked_from dev d (durable w'))
  | (Raise _, w') => durable w' = durable checked.2
  end.
Proof.
  intros Hwd checked.
  enough (H : wp (revoke_device mw dev request) (λ r w', match r with
    | Ok _ => ∃ session s d, checked.1 = Ok (session, s) ∧ authorized request mw w session s
        ∧ devices (durable checked.2) !! dev = Some d ∧ d_owner_user_id d = cs_user_id s
        ∧ (if is_revoked d then durable w' = durable checked.2 else revoked_from dev d (durable w'))
    | Raise _ => durable w' = durable checked.2 end) w).
  { unfold wp in H. by destruct (revoke_device mw dev request w) as [[]]. }
  unfold revoke_device. apply wp_request; [done|]. wp_step. unfold wp at 1. fold checked.
  pose proof (require_recent_settled mw request w Hwd) as Hv. unfold wp in Hv. fold checked in Hv.
  destruct checked as [[[session s]|e] v] eqn:Ec; cbn [fst snd] in *; [|done].
  assert (Ha : authorized request mw w session s).
  { unfold checked, require_recent_mutating_session in Ec.
    apply bind_ok_inv in Ec as ([i s1] & w1 & E1 & E). apply bind_ok_inv in E as (t & w2 & _ & E).
    simpl in E. destruct (_ <=? _) in E; [done|]. injection E as -> -> _.
    by eapply require_mutating_ok. }
  do 2 wp_step. destruct (devices (durable v) !! dev) as [d|] eqn:Hd; [|done].
  case_bool_decide as Ho; cbn [negb]; [|done].
  wp_step. destruct (is_revoked d) eqn:Hr; cbn [negb].
  - wp_step. eapply wp_mono; [apply wp_revocation_notices|]. intros r w' [(u & ->) Hw']. simpl.
    exists session, s, d. rewrite Hr. by split_and!.
  - eapply wp_mono; [apply wp_revoke_transaction; by rewrite Hv|].
    intros [[nonces events]|e] w1; [|done]. intros Hcut.
    eapply wp_mono; [apply wp_revocation_notices|]. intros r w' [(u & ->) Hw']. simpl.
    exists session, s, d. rewrite Hr. split_and!; try done. by rewrite Hw'.
Qed.
End revocation.

(** ** On the testbed *)

(** The session's user has a connected device. *)
Definition sample_devices_db : database :=
  sample_db <| devices := {[ 1%N := sample_device <| d_owner_user_id := "7" |> ]} |>.

Definition sample_revocation (cookie csrf : pystr) (db : database) :=
  @revoke_device testbed sample_urlsplit sample_upstream (λ db, db) 1%N
    (browser_request cookie csrf) (start_world db).

Definition sample_checked (cookie csrf : pystr) (db : database) :=
  @require_recent_mutating_session testbed sample_urlsplit sample_upstream (λ db, db)
    (browser_request cookie csrf) (start_world db).

Lemma sample_revocation_succeeds :
  succeeded (sample_revocation sample_cookie sample_csrf sample_devices_db) = true
  ∧ is_revoked <$> (devices (durable (sample_checked sample_cookie sample_csrf sample_devices_db).2)
      !! 1%N) = Some false.
Proof. split; vm_compute; reflexivity. Qed.

Lemma revoke_device_cuts_off_witness :
  match sample_revocation sample_cookie sample_csrf sample_devices_db with
  | (Ok _, w') => ∃ d, revoked_from 1%N d (durable w')
  | _ => False
  end.
Proof.
  destruct sample_revocation_succeeds as [H Hr].
  destruct (sample_revocation sample_cookie sample_csrf sample_devices_db) as [[u|e] w'] eqn:E;
    [clear H|discriminate H].
  revert E Hr. generalize sample_devices_db sample_cookie sample_csrf. intros db cookie csrf E Hr.
  pose proof (revoke_device_cuts_off (P := testbed) (Url := sample_urlsplit) (U := sample_upstream)
    (λ db, db) 1%N (browser_request cookie csrf) (start_world db) eq_refl) as T.
  fold (sample_revocation cookie csrf db) in T. rewrite E in T.
  destruct T as (session & s & d & _ & _ & Hd & _ & Hc). exists d.
  pose proof (eq_trans (eq_sym (f_equal (fmap is_revoked) Hd)) Hr) as Hr'. injection Hr' as Hr'.
  by rewrite Hr' in Hc.
Defined.
