(* ===== verification/ThreadSafety.v ===== *)
(** * What the thread routes promise

    Starting a thread is idempotent; starting, resuming and archiving keep an
    owner's visible threads within the bound that the bootstrap answer relies
    on; starting a turn does not. *)

From stdpp Require Import base list gmap.
From Stdlib Require Import NArith ZArith Lia.
From S2P Require Import Prelude Config Json Paths Models Storage World Testbed Budget Security.
From S2P Require Import Events Capacity Commands Sub2api Sessions Access Routes RouteSafety.
From S2P Require Import ControlRoutes.
From S2P Require Import ThreadRoutes.
Open Scope Z_scope.

(** ** The visible threads of an owner *)

Lemma device_not_revoked_update db db' dev :
  event_update db db' → device_not_revoked db' dev = device_not_revoked db dev.
Proof.
  intros H. unfold device_not_revoked. pose proof (eu_devices _ _ H dev) as D.
  destruct D as [d d' Hc|]; [|done]. unfold is_revoked. by rewrite Hc.
Qed.

Lemma visible_update owner db db' :
  event_update db db' → visible_thread_count owner db' = visible_thread_count owner db.
Proof.
  intros H. unfold visible_thread_count. rewrite (eu_threads _ _ H). apply count_rows_ext.
  intros id b _. unfold visible_thread, resume_reservation.
  by rewrite (device_not_revoked_update _ _ _ H), (eu_commands _ _ H).
Qed.

(** A new command reserves no thread that it does not resume. *)
Lemma reservation_insert db cid c id :
  commands db !! cid = None →
  cmd_thread_binding_id c ≠ Some id ∨ cmd_method c ≠ "thread/resume" →
  resume_reservation (db <| commands := <[cid := c]> (commands db) |>) id = resume_reservation db id.
Proof.
  intros Hfree Hc. unfold resume_reservation. simpl. rewrite exists_row_insert by done.
  destruct Hc; [rewrite bool_decide_false by done|rewrite (bool_decide_false (cmd_method c = _)) by done];
    by rewrite ?andb_false_r.
Qed.

Section safety.
Context {P : Platform}.

(** [create] either stops at its argument checks or is [_create_serialized]. *)
Definition effective_scope (dev : uuid) (method : pystr) (t : option uuid)
    (params : list (pystr * json)) (scope : option pystr) : pystr :=
  match scope with
  | Some s => if py_truthy s then s else command_scope dev method t params
  | None => command_scope dev method t params
  end.

Lemma create_run owner dev d method params key meta t deadline scope w :
  wp (create owner dev d method params key meta t deadline scope) (λ r w',
    (∃ e, r = Raise e) ∧ working w' = working w ∧ durable w' = durable w
    ∨ let scope := effective_scope dev method t params scope in
      create_result owner dev method params key t deadline scope
        (canonical_request_hash method params (Some scope)) w r w') w.
Proof.
  unfold create. destruct (negb _).
  { do 3 wp_step. left. split; [eauto|done]. }
  destruct (validate_command_budget _ _ _ _ _ _ _); [|wp_step; left; split; [eauto|done]].
  do 2 wp_step; [left; split; [eauto|done]|].
  eapply wp_mono; [apply create_serialized_run|]. intros r w' H. by right.
Qed.

Lemma silent_require_online owner dev : silent (require_owned_online_device owner dev).
Proof. unfold require_owned_online_device, is_online. solve_silent. Qed.

Lemma silent_existing_binding owner dev scope key h : silent (existing_binding owner dev scope key h).
Proof. unfold existing_binding, conflict_error, start_state_invalid. solve_silent. Qed.

Lemma silent_thread_summary id b : silent (thread_summary id b).
Proof. unfold thread_summary. solve_silent. Qed.

Lemma thread_summary_run id b w :
  thread_summary_valid b = true →
  thread_summary id b w
  = (Ok (thread_summary_json id b (thread_status_value (visible_status (tb_status b)))), w).
Proof. intros H. unfold thread_summary, mbind, tx_bind, guard_exn. by rewrite H. Qed.

(** The two reads of [existing_binding] as a function of the database. *)
Definition earlier_start (owner : pystr) (dev : uuid) (cwd : pystr) (model : option pystr)
    (key : pystr) (db : database) : outcome (option (uuid * ThreadBinding)) :=
  let scope := start_scope dev in
  match find_existing owner dev scope key db with
  | None => Ok None
  | Some (_, c) =>
      if bool_decide (cmd_request_hash c
           = canonical_request_hash "thread/start" (start_params cwd model) (Some scope))
      then match (t ← cmd_thread_binding_id c; b ← threads db !! t; Some (t, b)) with
           | Some r => Ok (Some r)
           | None => Raise (HTTPException 409 "thread_start_state_invalid")
           end
      else Raise (HTTPException 409 "idempotency_conflict")
  end.

Lemma existing_binding_run owner dev cwd model key w :
  existing_binding owner dev (start_scope dev) key
    (canonical_request_hash "thread/start" (start_params cwd model) (Some (start_scope dev))) w
  = (earlier_start owner dev cwd model key (working w), w).
Proof.
  unfold existing_binding, earlier_start, mbind, tx_bind, query.
  destruct (find_existing owner dev (start_scope dev) key (working w)) as [[cid c]|]; [|done].
  case_bool_decide; simpl; [|done].
  destruct (cmd_thread_binding_id c) as [t|]; simpl; [|done].
  by destruct (threads (working w) !! t).
Qed.

Lemma earlier_start_update owner dev cwd model key db db' :
  event_update db db' →
  earlier_start owner dev cwd model key db' = earlier_start owner dev cwd model key db.
Proof.
  intros H. unfold earlier_start. rewrite (find_existing_commands _ _ _ _ _ _ (eu_commands _ _ H)).
  by rewrite (eu_threads _ _ H).
Qed.

(** ** How a start ends *)

Inductive start_result (owner : pystr) (dev : uuid) (cwd : pystr) (model : option pystr) (key : pystr)
    (w : world) : outcome json → world → Prop :=
| sr_replayed id b r w' :
    earlier_start owner dev cwd model key (working w) = Ok (Some (id, b)) →
    r = (thread_summary id b w').1 → durable w' = durable w →
    start_result owner dev cwd model key w r w'
| sr_refused e w' : durable w' = durable w → start_result owner dev cwd model key w (Raise e) w'
| sr_started id b cid c db w' :
    event_update (working w) db → threads db !! id = None → tb_owner_user_id b = owner →
    thread_summary_valid b = true →
    visible_thread_count owner db < bootstrap_max_threads settings →
    total_thread_count owner db < owner_max_thread_records settings →
    admitted owner dev "thread/start" (start_params cwd model) key (Some id) None (start_scope dev)
      (canonical_request_hash "thread/start" (start_params cwd model) (Some (start_scope dev)))
      (db <| threads := <[id := b]> (threads db) |>) cid c →
    event_update (db <| threads := <[id := b]> (threads db) |>
      <| commands := <[cid := c]> (commands db) |>) (durable w') →
    start_result owner dev cwd model key w
      (Ok (thread_summary_json id b (thread_status_value (visible_status (tb_status b))))) w'.

Lemma start_scope_truthy dev : py_truthy (start_scope dev) = true.
Proof. reflexivity. Qed.

Lemma wp_capacity_rollback (answer : pystr → Z * pystr) (m : tx unit) (Q : outcome unit → world → Prop) w :
  wp m (λ r w', (r = Ok tt ∧ Q (Ok tt) w') ∨ (∃ e, r = Raise e) ∧ durable w' = durable w) w →
  (∀ e w', durable w' = durable w → Q (Raise e) w') →
  wp (capacity_rollback answer m) Q w.
Proof.
  intros Hm HR. unfold capacity_rollback. apply wp_try_catch.
  eapply wp_mono; [exact Hm|]. intros r w' [[-> HQ]|[[e ->] Hd]]; [done|].
  destruct e; wp_step; by apply HR.
Qed.

Lemma wp_http_rollback {A} table (m : tx A) (Q : outcome A → world → Prop) w :
  wp m (λ r w', (∃ a, r = Ok a ∧ Q (Ok a) w') ∨ (∃ e, r = Raise e) ∧ durable w' = durable w) w →
  (∀ e w', durable w' = durable w → Q (Raise e) w') →
  wp (http_errors_rollback table m) Q w.
Proof.
  intros Hm HR. unfold http_errors_rollback. apply wp_try_catch.
  eapply wp_mono; [exact Hm|]. intros r w' [(a & -> & HQ)|[[e ->] Hd]]; [done|].
  destruct (table e) as [[status detail]|]; wp_step; by apply HR.
Qed.

Lemma wp_silent_result {A} (m : tx A) (Q : outcome A → world → Prop) w :
  silent m → (∀ w', working w' = working w → durable w' = durable w → Q (m w).1 w') → wp m Q w.
Proof. intros Hm HQ. destruct (Hm w). by apply HQ. Qed.

Lemma wp_visibility owner (Q : outcome unit → world → Prop) w :
  (visible_thread_count owner (working w) < bootstrap_max_threads settings → Q (Ok tt) w) →
  (∀ e, Q (Raise e) w) → wp (ensure_thread_visibility_capacity_locked owner) Q w.
Proof.
  intros HQ HR. unfold ensure_thread_visibility_capacity_locked. do 2 wp_step. wp_step; [by apply HR|].
  apply HQ. lia.
Qed.

Lemma wp_creation_capacity owner (Q : outcome unit → world → Prop) w :
  (visible_thread_count owner (working w) < bootstrap_max_threads settings →
   total_thread_count owner (working w) < owner_max_thread_records settings → Q (Ok tt) w) →
  (∀ e, Q (Raise e) w) → wp (ensure_thread_creation_capacity_locked owner) Q w.
Proof.
  intros HQ HR. unfold ensure_thread_creation_capacity_locked. wp_step. apply wp_visibility; [|done].
  intros Hv. do 2 wp_step. wp_step; [by apply HR|]. apply HQ; [done|lia].
Qed.

Lemma wp_fits_projection id b (Q : outcome unit → world → Prop) w :
  (thread_summary_valid b = true → Q (Ok tt) w) → (∀ e, Q (Raise e) w) →
  wp (ensure_thread_projection_fits id b) Q w.
Proof.
  intros HQ HR. unfold ensure_thread_projection_fits, ensure_fits. wp_step. wp_step; [by apply HR|].
  destruct (compact_ensure_ascii_size _); [|wp_step; by apply HR].
  wp_step; [by apply HR|]. apply HQ. by reflect_bools.
Qed.

Lemma create_thread_run owner dev d cwd model key meta w w0 :
  event_update (working w0) (working w) → durable w = durable w0 →
  find_existing owner dev (start_scope dev) key (working w) = None →
  wp (create_thread owner dev d cwd model key meta) (start_result owner dev cwd model key w0) w.
Proof.
  intros Hup Hdw Hnone. unfold create_thread.
  assert (HR : ∀ e v, durable v = durable w → start_result owner dev cwd model key w0 (Raise e) v).
  { intros e v Hv. apply sr_refused. congruence. }
  wp_step. apply wp_capacity_rollback; [|intros; by apply HR].
  apply wp_creation_capacity; [|intros e; right; eauto]. intros Hv Ht. left. split; [done|].
  wp_step. apply wp_silent; [apply silent_now|]. intros [t|e] w1 Hw1 Hd1; [|by apply HR].
  wp_step. apply wp_silent; [apply silent_uuid|]. intros [id|e] w2 Hw2 Hd2; [|apply HR; congruence].
  set (b := new_binding owner dev d cwd model t).
  wp_step. unfold add_binding. do 3 wp_step. wp_step; [apply HR; congruence|]. reflect_bools. wp_step.
  wp_step. apply wp_capacity_rollback; [|intros; apply HR; congruence].
  apply wp_fits_projection; [|intros e; right; split; [eauto|congruence]]. intros Hvalid. left. split; [done|].
  wp_step. apply wp_http_rollback; [|intros; apply HR; congruence].
  eapply wp_mono; [apply create_run|].
  assert (Hnone3 : find_existing owner dev (start_scope dev) key (working w3) = None).
  { rewrite <- Hnone. by apply find_existing_commands; rewrite Hw. }
  intros r w4 [(Hr & _ & Hd4)|Hr]; [by right|]. cbv zeta in Hr.
  change (effective_scope _ _ _ _ _) with (start_scope dev) in Hr.
  destruct Hr as [cid c w4 Hx|e w4 _ _ Hd4|cid c r w4 Had Hup4 [[-> Hd4]|[He Hd4]]];
    [congruence|right; eauto| |by right].
  left. eexists. split; [done|]. destruct (ad_request _ _ _ _ _ _ _ _ _ _ _ _ Had)
    as (_ & _ & _ & _ & _ & _ & _ & Htb & _).
  rewrite Htb, bool_decide_true by done. unfold wp. rewrite thread_summary_run by done. cbn [fst snd].
  rewrite Hw in Had, Hup4. apply (sr_started _ _ _ _ _ _ id b cid c (working w)); try done.
  - by apply eq_None_not_Some.
  - by rewrite Hd4.
Qed.

(** The whole of [start_locked], from a world with nothing pending. *)
Lemma start_locked_run owner dev cwd model key meta w :
  working w = durable w →
  wp (start_locked owner dev cwd model key meta) (start_result owner dev cwd model key w) w.
Proof.
  intros Hwd. unfold start_locked.
  assert (HR : ∀ e v, durable v = durable w → start_result owner dev cwd model key w (Raise e) v)
    by (intros; by apply sr_refused).
  wp_step. apply wp_silent; [apply silent_http_errors, silent_require_online|].
  intros [d|e] w1 Hw1 Hd1; [|by apply HR].
  wp_step. unfold wp at 1. rewrite existing_binding_run. cbn [fst snd].
  destruct (earlier_start _ _ _ _ _ _) as [[[id b]|]|e] eqn:E1; [| |by apply HR].
  - do 2 wp_step. apply wp_silent_result; [apply silent_thread_summary|]. intros w3 Hw3 Hd3.
    apply (sr_replayed _ _ _ _ _ _ id b); [by rewrite Hwd| |congruence].
    unfold thread_summary, mbind, tx_bind, guard_exn. by destruct (negb _).
  - wp_step. apply wp_lock_owner_cursor. intros n w2 Hw2 Hd2.
    wp_step. unfold wp at 1. rewrite existing_binding_run, (earlier_start_update _ _ _ _ _ _ _ Hw2), E1.
    cbn [fst snd]. apply create_thread_run; [by rewrite <- Hw1|congruence|].
    rewrite (find_existing_commands _ _ _ _ (working w1)) by apply Hw2.
    unfold earlier_start in E1. destruct (find_existing _ _ _ _ (working w1)) as [[cid c]|]; [|done].
    revert E1. case_bool_decide; [|done]. by case_match.
Qed.

(** ** Idempotence *)

(** The command of an earlier request to start this very thread. *)
Definition starts (owner : pystr) (dev : uuid) (cwd : pystr) (model : option pystr) (key : pystr)
    (id : uuid) (c : Command) : Prop :=
  same_request owner dev (start_scope dev) key c = true
  ∧ cmd_request_hash c
    = canonical_request_hash "thread/start" (start_params cwd model) (Some (start_scope dev))
  ∧ cmd_thread_binding_id c = Some id.

(** Its answer. *)
Definition started_answer (id : uuid) (b : ThreadBinding) : json :=
  thread_summary_json id b (thread_status_value (visible_status (tb_status b))).

Lemma find_existing_unique db cid c owner dev scope key :
  commands_ok db → commands db !! cid = Some c → same_request owner dev scope key c = true →
  find_existing owner dev scope key db = Some (cid, c).
Proof.
  intros Hok Hc Hs. unfold find_existing.
  assert (Hin : (cid, c) ∈ select_rows (λ _ c, same_request owner dev scope key c) (commands db))
    by by apply elem_of_select_rows.
  destruct (select_rows _ _) as [|[cid' c'] l] eqn:E; [by apply not_elem_of_nil in Hin|].
  assert (Hin' : (cid', c') ∈ select_rows (λ _ c, same_request owner dev scope key c) (commands db))
    by (rewrite E; apply list_elem_of_here).
  apply elem_of_select_rows in Hin' as [Hc' Hs']. simpl in Hs'.
  assert (cid = cid') as <-; [|by simplify_eq].
  eapply (co_unique _ Hok); [exact Hc|exact Hc'|]. apply same_request_spec in Hs, Hs'.
  apply same_request_spec. destruct Hs as (-> & -> & -> & ->). done.
Qed.

Lemma earlier_start_spec owner dev cwd model key db id b :
  earlier_start owner dev cwd model key db = Ok (Some (id, b)) →
  threads db !! id = Some b ∧ ∃ cid c, commands db !! cid = Some c
    ∧ starts owner dev cwd model key id c.
Proof.
  unfold earlier_start. destruct (find_existing _ _ _ _ db) as [[cid c]|] eqn:E; [|done].
  case_bool_decide as Hh; [|done]. destruct (cmd_thread_binding_id c) as [t|] eqn:Ht; simpl; [|done].
  destruct (threads db !! t) as [b'|] eqn:Hb; simpl; [|done]. intros [= <- <-]. split; [done|].
  unfold find_existing in E. apply head_Some_elem_of, elem_of_select_rows in E as [Hc Hs].
  exists cid, c. by split_and!.
Qed.

Lemma starts_found owner dev cwd model key db cid c id b :
  commands_ok db → commands db !! cid = Some c → starts owner dev cwd model key id c →
  threads db !! id = Some b → earlier_start owner dev cwd model key db = Ok (Some (id, b)).
Proof.
  intros Hok Hc (Hs & Hh & Ht) Hb. unfold earlier_start.
  rewrite (find_existing_unique _ _ _ _ _ _ _ Hok Hc Hs), bool_decide_true by done.
  rewrite Ht. simpl. by rewrite Hb.
Qed.

(** A start whose command exists is answered from the tables alone. *)
Lemma start_locked_repeat owner dev cwd model key meta w d id b :
  working w = durable w → (require_owned_online_device owner dev w).1 = Ok d →
  earlier_start owner dev cwd model key (working w) = Ok (Some (id, b)) →
  thread_summary_valid b = true →
  wp (start_locked owner dev cwd model key meta)
    (λ r w', r = Ok (started_answer id b) ∧ durable w' = durable w) w.
Proof.
  intros Hwd Hd He Hb. unfold start_locked. wp_step. unfold wp at 1, http_errors, try_catch.
  destruct (silent_require_online owner dev w) as [Hw1 Hd1].
  destruct (require_owned_online_device owner dev w) as [[d'|e] w1]; cbn [fst snd] in *; [|done].
  wp_step. unfold wp at 1. rewrite existing_binding_run, Hw1, He. cbn [fst snd].
  do 2 wp_step. unfold wp. rewrite thread_summary_run by done. cbn [fst snd]. split; [done|congruence].
Qed.

(** C20: starting a thread is idempotent.  When it answers, the thread it
    answers with and its command are committed; while the command table keeps
    its invariant and still has that command, every further request with the
    same key and parameters answers with that very thread as it is then and
    commits nothing.  When it fails, it has committed nothing. *)
Theorem start_thread_idempotent owner dev cwd model key meta w :
  working w = durable w →
  match start_locked owner dev cwd model key meta w with
  | (Ok answer, w') => ∃ id b cid c,
      answer = started_answer id b ∧ threads (durable w') !! id = Some b
      ∧ commands (durable w') !! cid = Some c ∧ starts owner dev cwd model key id c
      ∧ ∀ meta' w2 d c' b', working w2 = durable w2 → commands_ok (durable w2) →
          commands (durable w2) !! cid = Some c' → starts owner dev cwd model key id c' →
          threads (durable w2) !! id = Some b' → thread_summary_valid b' = true →
          (require_owned_online_device owner dev w2).1 = Ok d →
          let again := start_locked owner dev cwd model key meta' w2 in
          again.1 = Ok (started_answer id b') ∧ durable again.2 = durable w2
  | (Raise _, w') => durable w' = durable w
  end.
Proof.
  intros Hwd. pose proof (start_locked_run owner dev cwd model key meta w Hwd) as H. unfold wp in H.
  assert (Hagain : ∀ id cid meta' w2 d c' b', working w2 = durable w2 → commands_ok (durable w2) →
    commands (durable w2) !! cid = Some c' → starts owner dev cwd model key id c' →
    threads (durable w2) !! id = Some b' → thread_summary_valid b' = true →
    (require_owned_online_device owner dev w2).1 = Ok d →
    let again := start_locked owner dev cwd model key meta' w2 in
    again.1 = Ok (started_answer id b') ∧ durable again.2 = durable w2).
  { intros id cid meta' w2 d c' b' Hwd2 Hok Hc Hs Hb Hv Hd.
    eapply start_locked_repeat; [done|exact Hd| |done]. rewrite Hwd2. by eapply starts_found. }
  destruct (start_locked owner dev cwd model key meta w) as [r w']. cbn [fst snd] in H.
  destruct H as [id b r w' He -> Hd|e w' Hd|id b cid c db w' _ Hnew _ _ _ _ Had Hup].
  - apply earlier_start_spec in He as (Hb & cid & c & Hc & Hs). rewrite Hwd in Hb, Hc.
    destruct (thread_summary_valid b) eqn:Hv.
    + rewrite thread_summary_run by done. cbn [fst]. rewrite Hd. by exists id, b, cid, c; eauto 8.
    + unfold thread_summary, mbind, tx_bind, guard_exn. by rewrite Hv.
  - done.
  - destruct (ad_request _ _ _ _ _ _ _ _ _ _ _ _ Had)
      as (Ho & Hdv & _ & _ & Hk & Hsc & Hh & Ht & _).
    exists id, b, cid, c. rewrite (eu_threads _ _ Hup), (eu_commands _ _ Hup). simpl.
    rewrite !lookup_insert_eq. split_and!; [done..| |apply Hagain].
    split_and!; [|done..]. by apply same_request_spec.
Qed.

(** ** The bound on visible threads *)

(** What [bootstrap_control] needs of the tables: it refuses an owner who sees
    more threads than this. *)
Definition threads_fit (db : database) : Prop :=
  ∀ owner, visible_thread_count owner db ≤ bootstrap_max_threads settings.

Lemma threads_fit_update db db' : event_update db db' → threads_fit db → threads_fit db'.
Proof. intros Hu H o. rewrite (visible_update _ _ _ Hu). apply H. Qed.

Lemma visible_insert_command db cid c owner :
  commands db !! cid = None → cmd_method c ≠ "thread/resume" →
  visible_thread_count owner (db <| commands := <[cid := c]> (commands db) |>)
  = visible_thread_count owner db.
Proof.
  intros Hfree Hm. unfold visible_thread_count. apply count_rows_ext. intros id b _.
  unfold visible_thread. rewrite reservation_insert by auto. done.
Qed.

Lemma visible_insert_thread db id b owner :
  threads db !! id = None →
  visible_thread_count owner (db <| threads := <[id := b]> (threads db) |>)
  ≤ visible_thread_count owner db + (if bool_decide (tb_owner_user_id b = owner) then 1 else 0).
Proof.
  intros Hfree. unfold visible_thread_count. simpl. rewrite count_rows_insert by done.
  change (count_rows (visible_thread _ owner) (threads db))
    with (count_rows (visible_thread db owner) (threads db)).
  unfold visible_thread at 1. case_bool_decide; simpl; [|lia]. destruct (_ && _); lia.
Qed.

Lemma visible_insert_resume db cid c id owner :
  commands db !! cid = None → cmd_thread_binding_id c = Some id →
  visible_thread_count owner (db <| commands := <[cid := c]> (commands db) |>)
  ≤ visible_thread_count owner db + 1.
Proof.
  intros Hfree Ht. unfold visible_thread_count. apply (count_rows_one _ _ _ id). intros k b _ Hk.
  unfold visible_thread. rewrite reservation_insert; [done..|left]. rewrite Ht. congruence.
Qed.

(** A thread that is visible already, or another owner's. *)
Lemma visible_insert_resume_same db cid c id b owner :
  commands db !! cid = None → cmd_thread_binding_id c = Some id → threads db !! id = Some b →
  tb_owner_user_id b ≠ owner ∨ hidden (tb_status b) && negb (resume_reservation db id) = false →
  visible_thread_count owner (db <| commands := <[cid := c]> (commands db) |>)
  = visible_thread_count owner db.
Proof.
  intros Hfree Ht Hb Hsame. unfold visible_thread_count. apply count_rows_ext. intros k b' Hk.
  unfold visible_thread. destruct (base.decide (k = id)) as [->|Hne].
  - simpl in Hk. simplify_eq. destruct Hsame as [Ho|Hv]; [by rewrite !(bool_decide_false (_ = owner))|].
    destruct (hidden (tb_status b)); [|done]. simpl in Hv. apply negb_false_iff in Hv.
    assert (Hr : resume_reservation (db <| commands := <[cid := c]> (commands db) |>) id = true).
    { unfold resume_reservation in *. simpl. rewrite exists_row_insert by done. by rewrite Hv, orb_true_r. }
    by rewrite Hr, Hv.
  - rewrite reservation_insert; [done..|left]. rewrite Ht. congruence.
Qed.

Lemma visible_hide db id b b' owner :
  threads db !! id = Some b → tb_owner_user_id b' = tb_owner_user_id b →
  tb_device_id b' = tb_device_id b → hidden (tb_status b') = true →
  visible_thread_count owner (db <| threads := <[id := b']> (threads db) |>)
  ≤ visible_thread_count owner db.
Proof.
  intros Hb Ho Hd Hh. unfold visible_thread_count. apply count_rows_mono. simpl.
  intros k x Hk Hv. apply lookup_insert_Some in Hk as [[<- <-]|[_ Hk]]; [|by exists x].
  exists b. split; [done|]. unfold visible_thread in *. rewrite Ho, Hd, Hh in Hv. simpl in Hv.
  apply andb_true_iff in Hv as [-> Hr]. change (resume_reservation db id = true) in Hr.
  by rewrite Hr, orb_true_r.
Qed.

Lemma start_locked_fits owner dev cwd model key meta w :
  working w = durable w → threads_fit (durable w) →
  wp (start_locked owner dev cwd model key meta) (λ _ w', threads_fit (durable w')) w.
Proof.
  intros Hwd Hfit. eapply wp_mono; [by apply start_locked_run|]. intros r w' H.
  destruct H as [id b r w' _ _ Hd|e w' Hd|id b cid c db w' Hu Hnew Hown _ Hv _ Had Hup];
    [by rewrite Hd..|].
  apply (threads_fit_update _ _ Hup). intros o. destruct (ad_request _ _ _ _ _ _ _ _ _ _ _ _ Had)
    as (_ & _ & Hm & _). apply ad_fresh in Had.
  etrans; [apply Z.eq_le_incl, (visible_insert_command _ cid c o Had); by rewrite Hm|].
  pose proof (visible_insert_thread db id b o Hnew). case_bool_decide; [subst; lia|].
  specialize (Hfit o). rewrite <- Hwd, <- (visible_update _ _ _ Hu) in Hfit. lia.
Qed.

Lemma silent_locked_thread owner dev id : silent (locked_thread owner dev id).
Proof. unfold locked_thread, not_found_error. solve_silent. Qed.

Lemma silent_remote_thread b : silent (remote_thread b).
Proof. unfold remote_thread, conflict_error. solve_silent. Qed.

Lemma wp_locked_thread owner dev id (Q : outcome ThreadBinding → world → Prop) w :
  (∀ b, threads (working w) !! id = Some b → tb_owner_user_id b = owner → tb_device_id b = dev →
     Q (Ok b) w) →
  (∀ e, Q (Raise e) w) → wp (locked_thread owner dev id) Q w.
Proof.
  intros HQ HR. unfold locked_thread. do 2 wp_step.
  destruct (threads (working w) !! id) as [b|] eqn:Hb; simpl; [|apply HR].
  destruct (_ && _) eqn:Hc; [|apply HR]. reflect_bools. by apply HQ.
Qed.

(** Creating a command that resumes a thread the capacity check let through. *)
Lemma create_resume_fits owner dev d params key meta id b scope w w0 :
  event_update (durable w0) (working w) → durable w = durable w0 → threads_fit (durable w0) →
  threads (working w) !! id = Some b → tb_owner_user_id b = owner →
  hidden (tb_status b) && negb (resume_reservation (working w) id) = false
  ∨ visible_thread_count owner (working w) < bootstrap_max_threads settings →
  wp (create owner dev d "thread/resume" params key meta (Some id) None scope)
    (λ _ w', threads_fit (durable w')) w.
Proof.
  intros Hu Hd Hfit Hb Ho Hcap.
  assert (Hsame : ∀ w' : world, durable w' = durable w → threads_fit (durable w'))
    by (intros w' Hw'; by rewrite Hw', Hd).
  eapply wp_mono; [apply create_run|]. intros r w' [(_ & _ & Hw')|Hr]; [by apply Hsame|].
  destruct Hr as [cid c w' _ _ Hw'|e w' _ _ Hw'|cid c r w' Had Hup [[-> Hw']|[_ Hw']]];
    [by apply Hsame..| |by apply Hsame].
  rewrite Hw'. apply (threads_fit_update _ _ Hup). intros o.
  destruct (ad_request _ _ _ _ _ _ _ _ _ _ _ _ Had) as (_ & _ & _ & _ & _ & _ & _ & Ht & _).
  apply ad_fresh in Had. specialize (Hfit o). rewrite <- (visible_update _ _ _ Hu) in Hfit.
  destruct (base.decide (tb_owner_user_id b = o ∧
    hidden (tb_status b) && negb (resume_reservation (working w) id) = true)) as [[<- Hx]|Hx].
  - pose proof (visible_insert_resume _ cid c id (tb_owner_user_id b) Had Ht). rewrite Ho in *.
    destruct Hcap as [Hf|Hlt]; [congruence|lia].
  - rewrite (visible_insert_resume_same _ cid c id b o Had Ht Hb); [done|].
    destruct (base.decide (tb_owner_user_id b = o)); [right|by left].
    apply not_true_iff_false. tauto.
Qed.

Lemma resume_locked_fits owner dev id key meta w :
  working w = durable w → threads_fit (durable w) →
  wp (resume_locked owner dev id key meta) (λ _ w', threads_fit (durable w')) w.
Proof.
  intros Hwd Hfit. unfold resume_locked.
  assert (HR : ∀ w' : world, durable w' = durable w → threads_fit (durable w'))
    by (intros w' Hw'; by rewrite Hw').
  wp_step. apply wp_silent; [apply silent_require_online|]. intros [d|e] w1 Hw1 Hd1; [|by apply HR].
  wp_step. apply wp_lock_owner_cursor. intros n w2 Hw2 Hd2. wp_step.
  apply wp_locked_thread; [intros b Hb Ho Hdv|intros e; apply HR; congruence].
  wp_step. apply wp_silent; [apply silent_remote_thread|].
  intros [remote|e] w3 Hw3 Hd3; [|apply HR; congruence]. do 2 wp_step. wp_step.
  assert (Hgo : hidden (tb_status b) && negb (resume_reservation (working w2) id) = false
      ∨ visible_thread_count owner (working w2) < bootstrap_max_threads settings →
    wp (create owner dev d "thread/resume" [("threadId", JStr remote)] key meta (Some id) None
      (Some (command_scope dev "thread/resume" (Some id) [("threadId", JStr remote)])))
      (λ _ w', threads_fit (durable w')) w3).
  { rewrite <- Hw3. apply (create_resume_fits owner dev d _ key meta id b _ w3 w); rewrite ?Hw3; congruence || by rewrite <- Hwd, <- Hw1. }
  destruct (hidden _ && _) eqn:Hx.
  - apply wp_visibility; [|intros; apply HR; congruence]. intros Hlt. apply Hgo. rewrite <- Hw3. by right.
  - wp_step. apply Hgo. by left.
Qed.

Lemma silent_archived_event id b : silent (archived_event_data id b).
Proof. unfold archived_event_data, thread_event_data, thread_summary. solve_silent. Qed.

Lemma archive_locked_fits owner session dev id meta w :
  working w = durable w → threads_fit (durable w) →
  wp (archive_locked owner session dev id meta) (λ _ w', threads_fit (durable w')) w.
Proof.
  intros Hwd Hfit. unfold archive_locked.
  assert (HR : ∀ w' : world, durable w' = durable w → threads_fit (durable w'))
    by (intros w' Hw'; by rewrite Hw').
  do 2 wp_step. destruct (devices _ !! dev) as [d|]; [|by apply HR].
  destruct (_ && _); [|by apply HR].
  wp_step. apply wp_lock_owner_cursor. intros n w1 Hw1 Hd1. wp_step.
  apply wp_locked_thread; [intros b Hb Ho Hdv|intros e; apply HR; congruence].
  destruct (hidden (tb_status b)) eqn:Hh.
  { do 2 wp_step. apply (threads_fit_update (durable w)); [|done]. simpl. by rewrite_worlds. }
  do 2 wp_step. destruct (negb _). { do 2 wp_step. apply HR. simpl. congruence. }
  wp_step. apply wp_silent; [apply silent_now|]. intros [t|e] w2 Hw2 Hd2; [|apply HR; congruence].
  set (b' := archive_row t b). do 3 wp_step.
  apply wp_add_audit. intros w4 Hw4 Hd4.
  wp_step. apply wp_silent; [apply silent_archived_event|]. intros [data|e] w5 Hw5 Hd5; [|apply HR; congruence].
  wp_step. apply wp_append. intros [event|e] w6 Hw6 Hd6; [|apply HR; congruence].
  do 3 wp_step. rewrite Hd0. apply (threads_fit_update _ _ Hw6), (threads_fit_update _ _ Hw4).
  intros o. etrans; [by apply (visible_hide (working w1) id b b' o)|].
  rewrite (visible_update _ _ _ Hw1). apply Hfit.
Qed.

(** C21: starting, resuming and archiving threads, whatever the outcome, keep
    every owner's visible threads within the bound above which
    [bootstrap_control] refuses to answer. *)
Theorem thread_quota_kept owner session dev cwd model id key meta w :
  working w = durable w → threads_fit (durable w) →
  threads_fit (durable (start_locked owner dev cwd model key meta w).2)
  ∧ threads_fit (durable (resume_locked owner dev id key meta w).2)
  ∧ threads_fit (durable (archive_locked owner session dev id meta w).2).
Proof.
  intros Hwd Hfit. split_and!.
  - by apply start_locked_fits.
  - by apply resume_locked_fits.
  - by apply archive_locked_fits.
Qed.

(** ** A turn on an archived thread *)

Lemma silent_snapshot_with_message b key text : silent (snapshot_with_message b key text).
Proof. unfold snapshot_with_message. solve_silent. Qed.

Lemma wp_save_binding_exact id old new (Q : outcome unit → world → Prop) w :
  threads (working w) !! id = Some old →
  (∀ u w', working w' = (working w) <| threads :=
       <[id := new <| tb_updated_at := u |>]> (threads (working w)) |> →
     durable w' = durable w → Q (Ok tt) w') →
  wp (save_binding id new) Q w.
Proof.
  intros Hold HQ. unfold save_binding. do 2 wp_step. rewrite Hold. case_bool_decide as Hn.
  - wp_step. apply (HQ (tb_updated_at new)); [|done].
    replace (new <| tb_updated_at := _ |>) with old by (subst; by destruct old).
    rewrite insert_id by done. by destruct (working w).
  - destruct (_ =? _); [do 3 wp_step; by eapply HQ|wp_step].
    apply (HQ (tb_updated_at new)); [|done]. rewrite Hw. do 2 f_equal. by destruct new.
Qed.

(** Showing one hidden thread. *)
Lemma visible_show db id b b' :
  threads db !! id = Some b → hidden (tb_status b) = true → resume_reservation db id = false →
  tb_device_id b' = tb_device_id b → tb_owner_user_id b' = tb_owner_user_id b →
  device_not_revoked db (tb_device_id b) = true → hidden (tb_status b') = false →
  visible_thread_count (tb_owner_user_id b) (db <| threads := <[id := b']> (threads db) |>)
  = visible_thread_count (tb_owner_user_id b) db + 1.
Proof.
  intros Hb Hh Hr Hd Ho Hrev Hh'. unfold visible_thread_count. simpl.
  rewrite (count_rows_update _ _ _ b) by done.
  change (visible_thread (db <| threads := _ |>)) with (visible_thread db).
  unfold visible_thread at 2 3. rewrite Hh, Hh', Hr, Hd, Ho, Hrev, bool_decide_true by done. simpl. lia.
Qed.

(** A turn started on a thread that was archived makes it visible again
    whatever the number of visible threads: the route has no capacity check, so
    the bound that starting and resuming keep can be exceeded. *)
Theorem turn_revives_archived owner dev id b text key meta w cid c w' :
  working w = durable w → threads (durable w) !! id = Some b →
  hidden (tb_status b) = true → resume_reservation (durable w) id = false →
  find_existing owner dev (command_scope dev "turn/start" (Some id) []) key (durable w) = None →
  start_turn_locked owner dev id text key meta w = (Ok (cid, c), w') →
  visible_thread_count owner (durable w') = visible_thread_count owner (durable w) + 1.
Proof.
  intros Hwd Hb Hh Hr Hnew Hrun.
  enough (H : wp (start_turn_locked owner dev id text key meta) (λ r w', match r with
    | Ok _ => visible_thread_count owner (durable w') = visible_thread_count owner (durable w) + 1
    | Raise _ => True end) w) by (unfold wp in H; by rewrite Hrun in H).
  unfold start_turn_locked. wp_step. apply wp_silent; [apply silent_require_online|].
  intros [d|e] w1 Hw1 Hd1; [|done]. wp_step. apply wp_locked_thread; [|done].
  intros b0 Hb0 Ho Hdv. wp_step. apply wp_silent; [apply silent_remote_thread|].
  intros [remote|e] w2 Hw2 Hd2; [|done]. wp_step.
  apply wp_silent; [apply silent_snapshot_with_message|]. intros [snapshot|e] w3 Hw3 Hd3; [|done].
  assert (Hw : working w3 = durable w) by congruence.
  rewrite Hw1, Hwd, Hb in Hb0. injection Hb0 as <-.
  wp_step. eapply wp_save_binding_exact; [by rewrite Hw|]. intros u w4 Hw4 Hd4. rewrite Hw in Hw4.
  eapply wp_mono; [apply create_run|]. intros r w5 [([e ->] & _)|Hres]; [done|].
  destruct Hres as [cid' c' w5 Hx|e w5 _ _ _|cid' c' r w5 Had Hup [[-> Hd5]|[[e ->] _]]]; try done.
  { rewrite Hw4 in Hx. enough (Some (cid', c') = None) by done. rewrite <- Hx. exact Hnew. }
  destruct (ad_request _ _ _ _ _ _ _ _ _ _ _ _ Had) as (_ & _ & Hm & _).
  destruct (ad_device _ _ _ _ _ _ _ _ _ _ _ _ Had) as (dd & Hdd & _ & Hact & _).
  apply ad_fresh in Had. rewrite Hd5, (visible_update _ _ _ Hup).
  rewrite visible_insert_command; [|done|by rewrite Hm]. rewrite Hw4, <- Ho. apply visible_show; try done.
  unfold device_not_revoked, is_revoked. rewrite Hw4 in Hdd. simpl in Hdd. rewrite Hdv, Hdd, Hact. done.
Qed.
End safety.

(** ** On the testbed *)

(** A database whose device 1 is connected, as the registry says. *)
Definition online_world (db : database) : @world testbed :=
  (start_world db) <| store := kv_set 0 (connection_key 1%N)
    (PyStr (dumps escape_ascii (JObj [("connection_nonce", JStr "nonce-1")]))) 3600
    (kv_empty : @kvs testbed) |>.

Definition sample_start (w : @world testbed) :=
  start_locked (P := testbed) "alice" 1%N "/srv/app" None "key-1" no_metadata w.

(** The first start creates a thread; the second answers with it. *)
Lemma sample_thread_start_succeeds :
  succeeded (sample_start (online_world sample_database)) = true
  ∧ (let w := (sample_start (online_world sample_database)).2 in
     succeeded (sample_start w) = true ∧ visible_thread_count "alice" (durable w) = 1
     ∧ visible_thread_count "alice" (durable (sample_start w).2) = 1).
Proof. vm_compute. done. Qed.

Lemma start_thread_idempotent_witness :
  match sample_start (online_world sample_database) with
  | (Ok answer, w') => ∃ id b cid c, answer = started_answer id b
      ∧ threads (durable w') !! id = Some b ∧ commands (durable w') !! cid = Some c
      ∧ starts (P := testbed) "alice" 1%N "/srv/app" None "key-1" id c
  | _ => False
  end.
Proof.
  pose proof (proj1 sample_thread_start_succeeds) as H.
  pose proof (start_thread_idempotent (P := testbed) "alice" 1%N "/srv/app" None "key-1" no_metadata
    (online_world sample_database) eq_refl) as T.
  fold (sample_start (online_world sample_database)) in T.
  destruct (sample_start (online_world sample_database)) as [[answer|e] w']; [|discriminate H].
  destruct T as (id & b & cid & c & H1 & H2 & H3 & H4 & _). by exists id, b, cid, c.
Defined.

Lemma sample_fits : threads_fit (P := testbed) sample_database.
Proof. intros owner. change (0 ≤ 100). lia. Qed.

Lemma thread_quota_kept_witness :
  threads_fit (P := testbed) (durable (sample_start (online_world sample_database)).2).
Proof.
  exact (proj1 (thread_quota_kept (P := testbed) "alice" 0%N 1%N "/srv/app" None 2%N "key-1" no_metadata
    (online_world sample_database) eq_refl sample_fits)).
Defined.

(** An archived thread of the device. *)
Definition archived_thread : ThreadBinding :=
  archive_row 0 ((new_binding "alice" 1%N sample_device "/srv/app" None 0)
    <| tb_remote_thread_id := Some ("remote-1" : pystr) |>).

Definition archived_database : database :=
  sample_database <| threads := {[ 5%N := archived_thread ]} |>.

Definition sample_turn : outcome (uuid * Command) * @world testbed :=
  start_turn_locked (P := testbed) "alice" 1%N 5%N "hello" "key-2" no_metadata
    (online_world archived_database).

Lemma sample_turn_succeeds : succeeded sample_turn = true.
Proof. vm_compute. reflexivity. Qed.

Lemma turn_revives_archived_witness :
  visible_thread_count "alice" (durable sample_turn.2)
  = visible_thread_count "alice" archived_database + 1.
Proof.
  pose proof sample_turn_succeeds as H. destruct sample_turn as [[[cid c]|e] w'] eqn:E; [|discriminate H].
  refine (turn_revives_archived (P := testbed) "alice" 1%N 5%N archived_thread "hello" "key-2"
    no_metadata (online_world archived_database) cid c w' eq_refl _ _ _ _ E);
    vm_compute; reflexivity.
Defined.
