(* ===== verification/OperationalMetrics.v ===== *)
(** * Process-local metrics ([operational_metrics.py])

    [OperationalMetrics]: counters, gauges and histograms keyed by a name and
    its labels.  Labels come from fixed sets; anything else is refused with
    [ValueError].  Values are the binary64 numbers of the language
    ([SpecFloat]).  What the text exposition prints is left out. *)

From stdpp Require Import base list gmap.
From Stdlib Require Import ZArith Lia SpecFloat.
From S2P Require Import Prelude Json World.
Open Scope Z_scope.

(** ** Labels *)

Definition SESSION_EXCHANGE_OUTCOMES : list pystr :=
  ["succeeded"; "rate_limited"; "conflicting_token"; "missing_token"; "invalid_token";
   "disabled_user"; "upstream_unavailable"; "upstream_protocol_error"; "capacity_exceeded";
   "credential_too_large"].
Definition PAIRING_OPERATIONS : list pystr := ["start"; "claim"; "poll"].
Definition PAIRING_OUTCOMES : list pystr :=
  ["succeeded"; "pending"; "rate_limited"; "unauthorized"; "not_found"; "expired"; "conflict";
   "capacity_exceeded"; "invalid_input"].
Definition WEBSOCKET_KINDS : list pystr := ["browser"; "device"].
Definition WEBSOCKET_EVENTS : list pystr := ["accepted"; "closed"; "rejected"; "replaced"].
Definition WEBSOCKET_REASONS : list pystr :=
  ["accepted"; "peer_disconnect"; "missing_auth"; "invalid_auth"; "origin_denied";
   "invalid_cursor"; "capacity_exceeded"; "dependency_unavailable"; "protocol_error";
   "heartbeat_timeout"; "connection_replaced"; "stale_connection"; "server_shutdown"; "unknown"].
Definition COMMAND_STATUSES : list pystr :=
  ["none"; "queued"; "dispatched"; "acknowledged"; "succeeded"; "failed"; "denied"; "cancelled";
   "expired"].
Definition COMMAND_TERMINAL_STATUSES : list pystr :=
  ["succeeded"; "failed"; "denied"; "cancelled"; "expired"].
Definition COMMAND_IDEMPOTENCY_OUTCOMES : list pystr := ["replayed"; "conflict"].
Definition APPROVAL_OUTCOMES : list pystr := ["requested"; "approved"; "denied"].
Definition APPROVAL_REASONS : list pystr :=
  ["device_request"; "user_approved"; "user_denied"; "device_offline_default_deny";
   "disconnect_default_deny"; "device_revoked_default_deny"; "stale_epoch_default_deny";
   "timeout_default_deny"; "expired_on_arrival_default_deny"; "approval_limit_default_deny";
   "owner_approval_limit_default_deny"; "approval_size_default_deny"; "not_found_or_not_owned";
   "decision_conflict"].
Definition RPC_POLICY_CLASSES : list pystr := ["allowlisted"; "prohibited"].
Definition RPC_POLICY_OUTCOMES : list pystr := ["accepted"; "denied"].
Definition RECONCILIATION_PHASES : list pystr :=
  ["command_stale_epoch"; "thread_stale_epoch"; "approval_stale_epoch"].
Definition MAINTENANCE_PHASES : list pystr :=
  ["pairing_expiry"; "command_expiry"; "approval_expiry"; "approval_reconcile"; "event_prune";
   "outbox_prune"; "retention_sweep"; "retention_control_sessions"; "retention_device_pairings";
   "retention_approvals"; "retention_commands"; "retention_device_connections";
   "retention_thread_bindings"; "retention_devices"; "retention_audit_events"].
Definition RUN_OUTCOMES : list pystr := ["succeeded"; "failed"].
Definition DEPENDENCIES : list pystr := ["database"; "database_migrations"; "redis"].
Definition DEPENDENCY_OUTCOMES : list pystr := ["ok"; "failed"].
Definition HTTP_METHODS : list pystr := ["GET"; "POST"; "PUT"; "PATCH"; "DELETE"; "OPTIONS"; "HEAD"].
Definition HTTP_STATUS_CLASSES : list pystr := ["1xx"; "2xx"; "3xx"; "4xx"; "5xx"].

Definition _bounded (value : pystr) (allowed : list pystr) (field : pystr) : outcome pystr :=
  if py_in value allowed then Ok value
  else Raise (ValueError ("unsupported " +++ field +++ ": " +++ value)).

(** ** Floating point *)

Definition float : Type := spec_float.
Definition zero : float := S754_zero false.
Definition add (a b : float) : float := SFadd 53 1024 a b.

(** [float(n)] of an integer; beyond the range it raises. *)
Definition float_of_int (n : Z) : outcome float :=
  match binary_normalize 53 1024 n 0 false with
  | S754_infinity _ => Raise OverflowError
  | f => Ok f
  end.

Definition is_finite (f : float) : bool :=
  match f with S754_zero _ | S754_finite _ _ _ => true | _ => false end.

(** [max(a, b)] keeps [a] unless [b > a]. *)
Definition py_max (a b : float) : float := if SFltb a b then b else a.

(** The literal [n / d]. *)
Definition literal (n d : Z) : float :=
  SFdiv 53 1024 (binary_normalize 53 1024 n 0 false) (binary_normalize 53 1024 d 0 false).

Definition _HTTP_BUCKETS : list float :=
  [literal 5 1000; literal 1 100; literal 25 1000; literal 5 100; literal 1 10; literal 25 100;
   literal 5 10; literal 1 1; literal 25 10; literal 5 1; literal 10 1].
Definition _COMMAND_BUCKETS : list float :=
  [literal 1 10; literal 25 100; literal 5 10; literal 1 1; literal 25 10; literal 5 1;
   literal 10 1; literal 30 1; literal 60 1; literal 120 1].
Definition _MAINTENANCE_BUCKETS : list float :=
  [literal 5 1000; literal 1 100; literal 25 1000; literal 5 100; literal 1 10; literal 25 100;
   literal 5 10; literal 1 1; literal 25 10; literal 5 1; literal 10 1; literal 30 1].
Definition _DEPENDENCY_BUCKETS : list float :=
  [literal 1 1000; literal 5 1000; literal 1 100; literal 25 1000; literal 5 100; literal 1 10;
   literal 25 100; literal 5 10; literal 1 1; literal 25 10; literal 5 1].

(** ** State *)

Fixpoint lex_le (a b : list N) : bool :=
  match a, b with
  | [], _ => true
  | _ :: _, [] => false
  | x :: a, y :: b => (x <? y)%N || ((x =? y)%N && lex_le a b)
  end.

Definition label : Type := pystr * pystr.
Definition series : Type := pystr * list label.

(** [(name, tuple(sorted(labels.items())))]. *)
Definition key (name : pystr) (labels : list label) : series :=
  (name, order_by (λ a b, lex_le (codepoints a.1) (codepoints b.1)) labels).

Record histogram := { h_counts : list Z; h_total : float; h_count : Z }.

Record OperationalMetrics := {
  _http_routes : gset pystr;
  _counters : gmap series float;
  _gauges : gmap series float;
  _histograms : gmap series histogram;
}.

#[global] Instance metrics_eta : Eta OperationalMetrics := λ m,
  Build_OperationalMetrics (_http_routes m) (_counters m) (_gauges m) (_histograms m).

(** A method: it may raise, and what it did before stays. *)
Definition recorder : Type := OperationalMetrics → outcome unit * OperationalMetrics.

Definition done : recorder := λ m, (Ok tt, m).
Definition fails (e : exn) : recorder := λ m, (Raise e, m).
Definition andThen (a b : recorder) : recorder := λ m,
  match a m with (Ok _, m) => b m | r => r end.
Definition checked {A} (r : outcome A) (k : A → recorder) : recorder :=
  match r with Ok v => k v | Raise e => fails e end.

Declare Scope recorder_scope.
Delimit Scope recorder_scope with recorder.
Notation "a ;; b" := (andThen a b) (at level 100, b at level 200, right associativity) : recorder_scope.
Notation "'let!' x := r 'in' k" := (checked r (λ x, k))
  (at level 200, x name, r at level 100, k at level 200, right associativity) : recorder_scope.
#[local] Open Scope recorder_scope.

(** ** Primitives *)

Definition _increment (name : pystr) (amount : Z) (labels : list label) : recorder :=
  if amount <? 0 then fails (ValueError "counter increments must be finite and non-negative")
  else
    let! value := float_of_int amount in
    λ m, (Ok tt, m <| _counters :=
      <[key name labels := add (default zero (_counters m !! key name labels)) value]>
        (_counters m) |>).

Definition _set_gauge (name : pystr) (value : float) (labels : list label) : recorder :=
  if negb (is_finite value) then fails (ValueError "gauge values must be finite")
  else λ m, (Ok tt, m <| _gauges := <[key name labels := value]> (_gauges m) |>).

Definition _add_gauge (name : pystr) (amount : float) (floor : option float) (labels : list label) :
    recorder := λ m,
  let value := add (default zero (_gauges m !! key name labels)) amount in
  (Ok tt, m <| _gauges :=
     <[key name labels := match floor with Some floor => py_max floor value | None => value end]>
       (_gauges m) |>).

Fixpoint count_buckets (value : float) (buckets : list float) (counts : list Z) : list Z :=
  match buckets, counts with
  | bound :: buckets, n :: counts =>
      (if SFleb value bound then n + 1 else n) :: count_buckets value buckets counts
  | _, counts => counts
  end.

Definition _observe_histogram (name : pystr) (value : float) (buckets : list float)
    (labels : list label) : recorder :=
  if SFltb value zero || negb (is_finite value)
  then fails (ValueError "histogram observations must be finite and non-negative")
  else λ m,
    let h := default {| h_counts := replicate (length buckets) 0; h_total := zero; h_count := 0 |}
               (_histograms m !! key name labels) in
    (Ok tt, m <| _histograms := <[key name labels :=
        {| h_counts := count_buckets value buckets (h_counts h);
           h_total := add (h_total h) value; h_count := h_count h + 1 |}]> (_histograms m) |>).

(** ** Methods *)

Definition one : float := literal 1 1.
Definition minus_one : float := literal (-1) 1.
Definition float_of_bool (b : bool) : float := if b then one else zero.

Definition session_exchange (outcome : pystr) : recorder :=
  let! outcome := _bounded outcome SESSION_EXCHANGE_OUTCOMES "session outcome" in
  _increment "codex_control_session_exchange_total" 1 [("outcome" : pystr, outcome)].

Definition pairing (operation outcome : pystr) : recorder :=
  let! operation := _bounded operation PAIRING_OPERATIONS "pairing operation" in
  let! outcome := _bounded outcome PAIRING_OUTCOMES "pairing outcome" in
  _increment "codex_control_pairing_operations_total" 1
    [("operation" : pystr, operation); ("outcome" : pystr, outcome)].

Definition _websocket_event (kind event reason : pystr) : recorder :=
  let! kind := _bounded kind WEBSOCKET_KINDS "websocket kind" in
  let! event := _bounded event WEBSOCKET_EVENTS "websocket event" in
  let! reason := _bounded reason WEBSOCKET_REASONS "websocket reason" in
  _increment "codex_control_websocket_events_total" 1
    [("kind" : pystr, kind); ("event" : pystr, event); ("reason" : pystr, reason)].

Definition websocket_rejected (kind reason : pystr) : recorder :=
  _websocket_event kind "rejected" reason.

Definition websocket_opened (kind : pystr) : recorder :=
  let! kind := _bounded kind WEBSOCKET_KINDS "websocket kind" in
  _websocket_event kind "accepted" "accepted";;
  _add_gauge "codex_control_websocket_connections_active" one None [("kind" : pystr, kind)].

Definition websocket_closed (kind reason : pystr) : recorder :=
  let! kind := _bounded kind WEBSOCKET_KINDS "websocket kind" in
  _websocket_event kind "closed" reason;;
  _add_gauge "codex_control_websocket_connections_active" minus_one (Some zero)
    [("kind" : pystr, kind)].

Definition websocket_replaced (kind : pystr) : recorder :=
  _websocket_event kind "replaced" "connection_replaced".

Definition command_transition (from_status to_status : pystr) (duration_seconds : option float) :
    recorder :=
  let! from_status := _bounded from_status COMMAND_STATUSES "command source status" in
  let! to_status := _bounded to_status COMMAND_STATUSES "command target status" in
  _increment "codex_control_command_transitions_total" 1
    [("from_status" : pystr, from_status); ("to_status" : pystr, to_status)];;
  match duration_seconds with
  | Some duration =>
      if py_in to_status COMMAND_TERMINAL_STATUSES then
        _observe_histogram "codex_control_command_duration_seconds" (py_max zero duration)
          _COMMAND_BUCKETS [("outcome" : pystr, to_status)]
      else done
  | None => done
  end.

Definition command_idempotency (outcome : pystr) : recorder :=
  let! outcome := _bounded outcome COMMAND_IDEMPOTENCY_OUTCOMES "idempotency outcome" in
  _increment "codex_control_command_idempotency_total" 1 [("outcome" : pystr, outcome)].

Definition approval_outcome (outcome reason : pystr) : recorder :=
  let! outcome := _bounded outcome APPROVAL_OUTCOMES "approval outcome" in
  let! reason := _bounded reason APPROVAL_REASONS "approval reason" in
  _increment "codex_control_approval_outcomes_total" 1
    [("outcome" : pystr, outcome); ("reason" : pystr, reason)].

Definition rpc_policy (method_class outcome : pystr) : recorder :=
  let! method_class := _bounded method_class RPC_POLICY_CLASSES "RPC method class" in
  let! outcome := _bounded outcome RPC_POLICY_OUTCOMES "RPC policy outcome" in
  _increment "codex_control_rpc_policy_total" 1
    [("method_class" : pystr, method_class); ("outcome" : pystr, outcome)].

Definition reconciliation (phase outcome : pystr) (items : Z) (duration : float) : recorder :=
  let! phase := _bounded phase RECONCILIATION_PHASES "reconciliation phase" in
  let! outcome := _bounded outcome RUN_OUTCOMES "reconciliation outcome" in
  _increment "codex_control_reconciliation_runs_total" 1
    [("phase" : pystr, phase); ("outcome" : pystr, outcome)];;
  (if items =? 0 then done
   else _increment "codex_control_reconciliation_items_total" items
          [("phase" : pystr, phase); ("outcome" : pystr, outcome)]);;
  _observe_histogram "codex_control_reconciliation_duration_seconds" (py_max zero duration)
    _MAINTENANCE_BUCKETS [("phase" : pystr, phase)].

(** [now] is the time stamp of the call. *)
Definition maintenance (now : float) (phase outcome : pystr) (items : Z) (duration : float)
    (limit : Z) : recorder :=
  let! phase := _bounded phase MAINTENANCE_PHASES "maintenance phase" in
  let! outcome := _bounded outcome RUN_OUTCOMES "maintenance outcome" in
  _increment "codex_control_maintenance_runs_total" 1
    [("phase" : pystr, phase); ("outcome" : pystr, outcome)];;
  (if items =? 0 then done
   else _increment "codex_control_maintenance_items_total" items [("phase" : pystr, phase)]);;
  _observe_histogram "codex_control_maintenance_duration_seconds" (py_max zero duration)
    _MAINTENANCE_BUCKETS [("phase" : pystr, phase)];;
  _set_gauge "codex_control_maintenance_batch_saturated"
    (float_of_bool (bool_decide (outcome = "succeeded") && (0 <? limit) && (limit <=? items)))
    [("phase" : pystr, phase)];;
  if bool_decide (outcome = "succeeded") then
    _set_gauge "codex_control_maintenance_last_success_timestamp_seconds" now
      [("phase" : pystr, phase)]
  else done.

Definition dependency_check (dependency outcome : pystr) (duration : float) : recorder :=
  let! dependency := _bounded dependency DEPENDENCIES "dependency" in
  let! outcome := _bounded outcome DEPENDENCY_OUTCOMES "dependency outcome" in
  _increment "codex_control_dependency_checks_total" 1
    [("dependency" : pystr, dependency); ("outcome" : pystr, outcome)];;
  _set_gauge "codex_control_dependency_ready" (float_of_bool (bool_decide (outcome = "ok")))
    [("dependency" : pystr, dependency)];;
  _observe_histogram "codex_control_dependency_check_duration_seconds" (py_max zero duration)
    _DEPENDENCY_BUCKETS [("dependency" : pystr, dependency)].

Definition http_request (method route : pystr) (status_code : Z) (duration : float) : recorder := λ m,
  let method := if py_in method HTTP_METHODS then method else "OTHER" in
  let route := if bool_decide (route ∈ _http_routes m) then route else "_unmatched" in
  let class := PyStr (py_str_int (Z.max 1 (Z.min 5 (status_code / 100)))) +++ "xx" in
  (let! status_class := _bounded class HTTP_STATUS_CLASSES "HTTP status class" in
   _increment "codex_control_http_requests_total" 1
     [("method" : pystr, method); ("route" : pystr, route); ("status_class" : pystr, status_class)];;
   _observe_histogram "codex_control_http_request_duration_seconds" (py_max zero duration)
     _HTTP_BUCKETS [("method" : pystr, method); ("route" : pystr, route)]) m.

Definition pool_states : list pystr := ["size"; "checked_in"; "checked_out"; "overflow"; "capacity"].

Fixpoint each {A} (f : A → recorder) (l : list A) : recorder :=
  match l with [] => done | x :: l => f x;; each f l end.

Definition database_pool (values : gmap pystr float) : recorder :=
  each (λ state, _set_gauge "codex_control_database_pool_connections"
    (default zero (values !! state)) [("state" : pystr, state)]) pool_states.

(** [OperationalMetrics(http_routes)]. *)
Definition no_series (http_routes : gset pystr) : OperationalMetrics :=
  {| _http_routes := http_routes ∪ {["_unmatched" : pystr]}; _counters := ∅; _gauges := ∅;
     _histograms := ∅ |}.

Definition initial_gauges : recorder :=
  each (λ kind, _set_gauge "codex_control_websocket_connections_active" zero
    [("kind" : pystr, kind)]) WEBSOCKET_KINDS;;
  each (λ dependency, _set_gauge "codex_control_dependency_ready" zero
    [("dependency" : pystr, dependency)]) DEPENDENCIES;;
  each (λ phase,
      _set_gauge "codex_control_maintenance_batch_saturated" zero [("phase" : pystr, phase)];;
      _set_gauge "codex_control_maintenance_last_success_timestamp_seconds" zero
        [("phase" : pystr, phase)]) MAINTENANCE_PHASES.

Definition new_metrics (http_routes : gset pystr) : OperationalMetrics :=
  (initial_gauges (no_series http_routes)).2.
