(* ===== verification/Maintenance.v ===== *)
(** * The sweep of expired state ([app.py])

    One process at a time, under a lease in the store, expires what is due,
    tells devices again about undelivered decisions, and once a minute prunes
    the event and outbox tables and applies the retention limits.  Each phase
    has its own session.  What the rest of the system commits between phases,
    what other processes do to the shared store there, which rows they hold, and
    when the lease's renewal timer fires are the [SweepEnvironment]; a renewal
    that fails cancels the sweep. *)

From stdpp Require Import base list gmap.
From Stdlib Require Import ZArith Lia.
From S2P Require Import Prelude Config Json Models Storage World Events Commands Approvals Outbox.
From S2P Require Import Pairing Retention.
Open Scope Z_scope.

Section maintenance.
Context {P : Platform}.

Record SweepEnvironment := {
  se_meanwhile : nat → database → database;
  se_store : nat → kvs → kvs;
  se_locked : uuid → bool;
  se_retention : nat → database → database;
  se_renewal_due : nat → bool;
}.

(** ** Observing a phase *)

Definition _record_maintenance (phase outcome : pystr) (items limit : Z) : tx unit :=
  measure (MMaintenance phase outcome items limit).

Definition _observe_maintenance_phase (phase : pystr) (operation : tx Z) (limit : option Z) : tx Z :=
  let batch_limit := default (retention_sweep_batch_size settings) limit in
  items ← try_catch operation
            (λ e, _record_maintenance phase "failed" 0 batch_limit;; raise e);
  _record_maintenance phase "succeeded" items batch_limit;;
  mret items.

Definition retention_phases (result : RetentionSweepResult) : list (pystr * Z) :=
  [("retention_control_sessions" : pystr, rs_control_sessions result);
   ("retention_device_pairings" : pystr, rs_device_pairings result);
   ("retention_approvals" : pystr, rs_approvals result);
   ("retention_commands" : pystr, rs_commands result);
   ("retention_device_connections" : pystr, rs_device_connections result);
   ("retention_thread_bindings" : pystr, rs_thread_bindings result);
   ("retention_devices" : pystr, rs_devices result);
   ("retention_audit_events" : pystr, rs_audit_events result)].

Definition retention_phase (meanwhile : nat → database → database) : tx unit :=
  result ← try_catch (sweep meanwhile None)
             (λ e, _record_maintenance "retention_sweep" "failed" 0 0;; raise e);
  _record_maintenance "retention_sweep" "succeeded" (total result) 0;;
  for_each (λ '(phase, items),
      _record_maintenance phase "succeeded" items (retention_sweep_batch_size settings))
    (retention_phases result).

(** ** The lease *)

Definition sweep_lease_key : pystr := "state-sweep-lease".
Definition sweep_lease_ttl_seconds : Z := 30.

(** One firing of the timer of [_renew_sweep_lease]. *)
Definition _renew_sweep_lease (lease_value : pystr) : tx unit :=
  refreshed ← store_compare_refresh sweep_lease_key lease_value sweep_lease_ttl_seconds;
  guard_exn (negb refreshed) RuntimeError.

(** Between two phases, the [i]-th time. *)
Definition between_phases (env : SweepEnvironment) (lease_value : pystr) (i : nat) : tx unit :=
  other_transactions (se_meanwhile env i);;
  other_processes (se_store env i);;
  if se_renewal_due env i then _renew_sweep_lease lease_value else mret tt.

(** ** The sweep *)

Definition _perform_sweep (env : SweepEnvironment) (lease_value : pystr) (last_retention_sweep : Z) :
    tx Z :=
  with_session (_observe_maintenance_phase "pairing_expiry"
    (expire_due_pairings (se_locked env) None None) None);;
  between_phases env lease_value 0;;
  with_session (_observe_maintenance_phase "command_expiry" (expire_due None) None);;
  between_phases env lease_value 1;;
  with_session (_observe_maintenance_phase "approval_expiry" (expire_due_approvals None)
    (Some 500));;
  between_phases env lease_value 2;;
  with_session (_observe_maintenance_phase "approval_reconcile"
    (reconcile_undispatched (retention_sweep_batch_size settings)) None);;
  between_phases env lease_value 3;;
  t ← monotonic_now;
  if 60 <=? t - last_retention_sweep then
    with_session (_observe_maintenance_phase "event_prune" (prune None) (Some 0));;
    between_phases env lease_value 4;;
    with_session (_observe_maintenance_phase "outbox_prune" (prune_outbox None) (Some 0));;
    between_phases env lease_value 5;;
    with_session (retention_phase (se_retention env));;
    monotonic_now
  else mret last_retention_sweep.

(** [try: m finally: cleanup]: what the cleanup raises hides the result. *)
Definition finally {A} (m : tx A) (cleanup : tx unit) : tx A :=
  r ← try_catch (a ← m; mret (Ok a)) (λ e, mret (Raise e));
  cleanup;;
  of_outcome r.

Definition _run_sweep_cycle (env : SweepEnvironment) (last_retention_sweep : Z) : tx (bool * Z) :=
  value ← fresh_uuid;
  let lease_value := uuid_str value in
  acquired ← store_set_if_absent sweep_lease_key lease_value sweep_lease_ttl_seconds;
  if negb acquired then mret (false, last_retention_sweep)
  else
    finally (last ← _perform_sweep env lease_value last_retention_sweep; mret (true, last))
      (store_compare_delete sweep_lease_key lease_value;; mret tt).

(** The loop, for the wake-ups that have an environment. *)
Fixpoint _sweep_expired_state (rounds : list SweepEnvironment) (last_retention_sweep : Z) : tx Z :=
  match rounds with
  | [] => mret last_retention_sweep
  | env :: rounds =>
      last ← try_catch
        (cycle ← _run_sweep_cycle env last_retention_sweep; mret cycle.2)
        (λ _, mret last_retention_sweep);
      _sweep_expired_state rounds last
  end.
End maintenance.
