(* ===== verification/MaintenanceSafety.v ===== *)
(** * What the sweep of expired state keeps

    Every phase of a sweep keeps every invariant of the tables: the phases of
    one service also those of the others. *)

From stdpp Require Import base list gmap.
From Stdlib Require Import ZArith Lia.
From S2P Require Import Prelude Config Json Models Storage World Testbed Events Commands Approvals Outbox.
From S2P Require Import Capacity Pairing PairingSafety Retention BrowserStream BrowserSafety Maintenance.
Open Scope Z_scope.

(** ** Which tables an invariant reads *)

Section closures.
Context {P : Platform}.

#[export] Instance commands_ok_event_free : EventFree commands_ok.
Proof. split; intros; by eapply commands_ok_step, commands_step_same. Qed.

#[export] Instance pairing_ok_event_free : EventFree pairing_ok.
Proof.
  split; intros; (eapply elsewhere_ok; [|done]).
  - apply event_update_elsewhere. by eapply event_update_counter.
  - by apply elsewhere_same.
  - by apply elsewhere_same.
  - by apply elsewhere_same.
Qed.

(** Appending events and audit records keeps the invariant. *)
Class KeepsEvents (I : database → Prop) := {
  ke_append owner dev ty data tb occ : stable I (append owner dev ty data tb occ);
  ke_lock owner : stable I (lock_owner_cursor owner);
  ke_audit a b c d e f g h i : stable I (add_audit a b c d e f g h i);
}.

Lemma event_free_keeps I : EventFree I → KeepsEvents I.
Proof. intros H. split; intros; auto with stable. Qed.

#[export] Instance commands_ok_keeps : KeepsEvents commands_ok := event_free_keeps _ _.
#[export] Instance outbox_ok_keeps : KeepsEvents outbox_ok := event_free_keeps _ _.
#[export] Instance pairing_ok_keeps : KeepsEvents pairing_ok := event_free_keeps _ _.

#[export] Instance events_ok_keeps : KeepsEvents events_ok.
Proof.
  split; intros; [auto with stable..|]. unfold add_audit. solve_stable. by destruct H; split.
Qed.

(** The invariant does not read the tables a service writes besides events. *)
Class Ignores {T} (I : database → Prop) (set : T → database → database) :=
  ignores t db : I db → I (set t db).

Definition set_threads (t : gmap uuid ThreadBinding) (db : database) := db <| threads := t |>.
Definition set_commands (t : gmap uuid Command) (db : database) := db <| commands := t |>.
Definition set_approvals (t : gmap uuid Approval) (db : database) := db <| approvals := t |>.
Definition set_pairings (t : gmap uuid DevicePairing) (db : database) := db <| pairings := t |>.

#[export] Typeclasses Opaque set_threads set_commands set_approvals set_pairings.

#[local] Ltac ignore := intros t db H; first [exact H | destruct H; by split].
#[export] Instance commands_ok_threads : Ignores commands_ok set_threads. Proof. ignore. Qed.
#[export] Instance commands_ok_approvals : Ignores commands_ok set_approvals. Proof. ignore. Qed.
#[export] Instance commands_ok_pairings : Ignores commands_ok set_pairings. Proof. ignore. Qed.
#[export] Instance events_ok_threads : Ignores events_ok set_threads. Proof. ignore. Qed.
#[export] Instance events_ok_commands : Ignores events_ok set_commands. Proof. ignore. Qed.
#[export] Instance events_ok_approvals : Ignores events_ok set_approvals. Proof. ignore. Qed.
#[export] Instance events_ok_pairings : Ignores events_ok set_pairings. Proof. ignore. Qed.
#[export] Instance outbox_ok_threads : Ignores outbox_ok set_threads. Proof. ignore. Qed.
#[export] Instance outbox_ok_commands : Ignores outbox_ok set_commands. Proof. ignore. Qed.
#[export] Instance outbox_ok_approvals : Ignores outbox_ok set_approvals. Proof. ignore. Qed.
#[export] Instance outbox_ok_pairings : Ignores outbox_ok set_pairings. Proof. ignore. Qed.
#[export] Instance pairing_ok_threads : Ignores pairing_ok set_threads. Proof. ignore. Qed.
#[export] Instance pairing_ok_commands : Ignores pairing_ok set_commands. Proof. ignore. Qed.
#[export] Instance pairing_ok_approvals : Ignores pairing_ok set_approvals. Proof. ignore. Qed.
End closures.

(** Expiring the pairings that are due, for an invariant that an expiry keeps. *)
Lemma expire_pairings_stable {P : Platform} (I : database → Prop) locked now_arg limit :
  (∀ a b c d e f g h i, stable I (add_audit a b c d e f g h i)) →
  (∀ db id p, pairings db !! id = Some p → I db → I (save_pairing id (expire_pairing p) db)) →
  stable I (expire_due_pairings locked now_arg limit).
Proof.
  intros Haudit Hexpire. assert (∀ t id, stable I (expire_pairing_candidate locked t id)).
  { intros t id. unfold expire_pairing_candidate, _expire_unactivated, pairing_audit.
    apply (hoare_stable _ (λ _, True) _ (λ _ _, True)); [done|].
    eapply hoare_bind; [apply hoare_query|]. intros [p|]; [|apply hoare_of_stable; solve_stable].
    destruct (_ && _); [|apply hoare_of_stable; solve_stable].
    apply (hoare_bind _ _ _ (λ _ _, True)).
    - eapply hoare_bind; [apply hoare_quiet; auto with quiet|intros ?].
      apply (hoare_bind _ _ _ (λ _ _, True)); [|intros ?; by apply hoare_of_stable].
      intros w H1 H2 [_ Hp]. split_and!; [by apply Hexpire|done..].
    - intros ?. apply hoare_of_stable. solve_stable. }
  unfold expire_due_pairings. solve_stable.
Qed.

(** ** The phases *)

Section phases.
Context {P : Platform} (I : database → Prop) `{!KeepsEvents I}.

#[local] Hint Resolve ke_append ke_lock ke_audit : stable.
#[local] Hint Extern 1 (I (_ <| threads := ?t |>)) => apply (ignores (set := set_threads) t) : stable.

Lemma thread_event_data_stable id b : stable I (thread_event_data id b).
Proof. unfold thread_event_data, thread_summary. solve_stable. Qed.
#[local] Hint Resolve thread_event_data_stable : stable.

Lemma pairing_expiry_stable locked now_arg limit :
  Ignores I set_pairings → stable I (expire_due_pairings locked now_arg limit).
Proof.
  intros Hp. apply expire_pairings_stable; [apply ke_audit|]. intros db id p _ H.
  exact (Hp (<[id := expire_pairing p]> (pairings db)) db H).
Qed.

Lemma command_expiry_stable now_arg :
  Ignores I set_threads → Ignores I set_commands → stable I (expire_due now_arg).
Proof.
  intros Ht Hc. unfold expire_due, expire_one, update_command, save_binding,
    _publish_event_best_effort. solve_stable.
Qed.

Lemma approval_expiry_stable now_arg :
  Ignores I set_threads → Ignores I set_approvals → stable I (expire_due_approvals now_arg).
Proof.
  intros Ht Ha. unfold expire_due_approvals, expire_approval, _expired_denial, _default_deny_tx,
    _append_default_deny_effects, update_approval, save_binding,
    _best_effort_notify, approval_wake, publish_event. solve_stable.
Qed.

Lemma approval_reconcile_stable limit : stable I (reconcile_undispatched limit).
Proof. unfold reconcile_undispatched, approval_wake. solve_stable. Qed.

Lemma event_prune_stable now_arg : EventFree I → stable I (prune now_arg).
Proof.
  intros HE. unfold prune, prune_owner. solve_stable; first [by apply ef_log|by apply ef_cursors].
Qed.

Lemma outbox_prune_stable now_arg :
  (∀ frames db, I db → I (db <| outbox := frames |>)) →
  (∀ db, I db → I (db <| devices := reconcile_revoked <$> devices db |>)) →
  stable I (prune_outbox now_arg).
Proof. intros Ho Hd. unfold prune_outbox. solve_stable; first [by apply Ho|by apply Hd]. Qed.

(** A sweep of old rows takes the committed state by [retained] steps through
    states with valid references. *)
Section retention.
Hypothesis Hrefs : ∀ db, I db → refs_ok db.
Hypothesis Hretained : ∀ t db db', I db → retained t db db' → refs_ok db' → I db'.

Lemma batch_keeps {A R} t meanwhile (model : Model A R) predicate column db n db' :
  I db → I (meanwhile db) → refs_ok db' →
  batch_done t meanwhile model predicate column db n db' → I db'.
Proof. intros H1 H2 H3 [(_ & -> & _)|(_ & H & _)]; [done|by eapply Hretained]. Qed.

#[local] Ltac run_batch lem :=
  wp_step; eapply wp_delete_batch; [apply lem|done|by apply Hrefs|by auto|];
  let n := fresh "n" in let w := fresh "v" in let H := fresh "Hbatch" in
  intros n w ? ? _ H; apply batch_keeps in H; [|by auto..]; cbv beta iota.

Lemma sweep_keeps meanwhile now_arg w :
  (∀ i db, I db → I (meanwhile i db)) → working w = durable w → I (durable w) →
  wp (sweep meanwhile now_arg) (λ _ w', I (working w') ∧ I (durable w')) w.
Proof.
  intros Hmw Hwd Hok. unfold sweep. wp_step. apply wp_silent; [by destruct now_arg|].
  intros [t|e] w0 Hw Hd; [|by rewrite Hw, Hd, Hwd].
  assert (Hwd0 : working w0 = durable w0) by congruence. assert (Hok0 : I (durable w0)) by congruence.
  unfold _delete_control_sessions. run_batch (deletes_sessions t).
  unfold _delete_device_pairings. run_batch (deletes_pairings t).
  unfold _delete_approvals. run_batch (deletes_approvals t).
  unfold _delete_commands. run_batch (deletes_commands t).
  unfold _delete_device_connections. run_batch (deletes_connections t).
  unfold _delete_thread_bindings. run_batch (deletes_threads t).
  unfold _delete_devices. run_batch (deletes_devices t).
  unfold _delete_audit_events. run_batch (deletes_audit t).
  wp_step. split; congruence.
Qed.
End retention.
End phases.

(** ** Each invariant under what the other services do *)

Section kept_invariants.
Context {P : Platform}.

Lemma kept_counts {V} E same (m m' : gmap uuid V) f :
  kept E same m m' → (∀ k v v', same v v' → f k v' = true → f k v = true) →
  count_rows f m' ≤ count_rows f m.
Proof.
  intros Hk Hf. apply count_rows_mono. intros k v' Hv' Hfv.
  destruct (kept_inv _ _ _ _ _ _ Hk Hv') as (v & Hv & Hs). exists v. eauto.
Qed.

Lemma kept_unique {V X} E same (m m' : gmap uuid V) (key : V → option X) :
  kept E same m m' → (∀ v v', same v v' → key v' = key v) → unique_rows m key → unique_rows m' key.
Proof.
  intros Hk Hs Hu i j p q x Hp Hq. destruct (kept_inv _ _ _ _ _ _ Hk Hp) as (p0 & Hp0 & H1).
  destruct (kept_inv _ _ _ _ _ _ Hk Hq) as (q0 & Hq0 & H2). rewrite (Hs _ _ H1), (Hs _ _ H2).
  by eapply Hu.
Qed.

Lemma retained_commands t db db' : commands_ok db → retained t db db' → commands_ok db'.
Proof.
  intros [Hu Ht Ho Hd Hw] Hr. pose proof (rt_commands _ _ _ Hr) as Hk.
  assert (Hsub : ∀ id c, commands db' !! id = Some c → commands db !! id = Some c).
  { intros id c (c0 & Hc & <-)%(kept_inv _ _ _ _ _ _ Hk). done. }
  split; [by eauto|by eauto|..].
  - intros dev. etrans; [|apply (Ho dev)]. eapply kept_counts; [exact Hk|]. by intros k v ? <-.
  - intros dev. etrans; [|apply (Hd dev)]. eapply kept_counts; [exact Hk|]. by intros k v ? <-.
  - intros owner. etrans; [|apply (Hw owner)]. eapply kept_counts; [exact Hk|]. by intros k v ? <-.
Qed.

Lemma retained_device t db db' id d :
  retained t db db' → devices db' !! id = Some d → devices db !! id = Some d.
Proof. intros Hr (d0 & Hd & <-)%(kept_inv _ _ _ _ _ _ (rt_devices _ _ _ Hr)). done. Qed.

Lemma retained_outbox t db db' : outbox_ok db → retained t db db' → outbox_ok db'.
Proof.
  intros Hok Hr id d Hd Ha. rewrite (rt_outbox _ _ _ Hr).
  eapply Hok; [by eapply retained_device|done].
Qed.

Lemma retained_events t db db' : events_ok db → retained t db db' → refs_ok db' → events_ok db'.
Proof.
  intros [H1 H2 H3 H4 H5 H6 H7] Hr Hrefs.
  pose proof (rt_events _ _ _ Hr) as He. pose proof (rt_cursors _ _ _ Hr) as Hc.
  split; rewrite ?He, ?Hc; [done| |done|done| |done|].
  - intros e Hin. unfold stream_last. rewrite Hc. by apply H2.
  - intros e Hin. destruct (H5 e Hin) as (d & Hd & Ho & Hs).
    destruct (rf_event _ Hrefs e) as [[d' Hd'] _]; [by rewrite He|].
    pose proof (retained_device _ _ _ _ _ Hr Hd') as Hd''. simplify_eq. eauto.
  - intros id d Hd. eapply H7. by eapply retained_device.
Qed.

Lemma retained_pairing t db db' : pairing_ok db → retained t db db' → pairing_ok db'.
Proof.
  intros [H1 H2 H3 H4 H5 H6 H7] Hr.
  pose proof (rt_pairings _ _ _ Hr) as Hp. pose proof (rt_devices _ _ _ Hr) as Hd.
  assert (Hres : ∀ owner, reservations owner db' ≤ reservations owner db).
  { intros owner. eapply kept_counts; [exact Hp|]. by intros k v v' [s ->]. }
  split.
  - eapply kept_unique; [exact Hp| |done]. by intros v v' [s ->].
  - eapply kept_unique; [exact Hp| |done]. by intros v v' [s ->].
  - eapply kept_unique; [exact Hp| |done]. by intros v v' [s ->].
  - eapply kept_unique; [exact Hd| |done]. by intros v ? <-.
  - eapply kept_unique; [exact Hd| |done]. by intros v ? <-.
  - intros owner. specialize (Hres owner). specialize (H6 owner).
    enough (active_device_count owner db' ≤ active_device_count owner db) by lia.
    eapply kept_counts; [exact Hd|]. by intros k v ? <-.
  - intros owner. specialize (Hres owner). specialize (H7 owner).
    enough (total_device_count owner db' ≤ total_device_count owner db) by lia.
    eapply kept_counts; [exact Hd|]. by intros k v ? <-.
Qed.

(** Acknowledging the frames of revoked devices. *)
Lemma reconcile_elsewhere db : elsewhere db (db <| devices := reconcile_revoked <$> devices db |>).
Proof.
  split; [done|]. intros id. simpl. rewrite lookup_fmap. destruct (devices db !! id) as [d|]; constructor.
  unfold reconcile_revoked. destruct (_ && _); split; simpl; auto.
Qed.

Lemma reconcile_events db :
  events_ok db → events_ok (db <| devices := reconcile_revoked <$> devices db |>).
Proof.
  intros [H1 H2 H3 H4 H5 H6 H7].
  assert (Hf : ∀ d, d_owner_user_id (reconcile_revoked d) = d_owner_user_id d
    ∧ d_last_event_sequence (reconcile_revoked d) = d_last_event_sequence d).
  { intros d. unfold reconcile_revoked. by destruct (_ && _). }
  split; try done; simpl.
  - intros e He. destruct (H5 e He) as (d & Hd & Ho & Hs). exists (reconcile_revoked d).
    destruct (Hf d) as [-> ->]. by rewrite lookup_fmap, Hd.
  - intros id d. rewrite lookup_fmap_Some. intros (d0 & <- & Hd). destruct (Hf d0) as [_ ->]. eauto.
Qed.
End kept_invariants.

(** ** References *)

Section references.
Context {P : Platform}.

(** The thread an operation refers to is there. *)
Definition has_thread (tb : option uuid) (db : database) : Prop := resolves (threads db) tb.

Lemma refs_counter db dev d n :
  refs_ok db → devices db !! dev = Some d →
  refs_ok (db <| devices := <[dev := d <| d_last_event_sequence := n |>]> (devices db) |>).
Proof.
  intros [H1 H2 H3 H4 H5 H6 H7] Hd.
  assert (Hdev : ∀ id, is_Some (devices db !! id) →
    is_Some (<[dev := d <| d_last_event_sequence := n |>]> (devices db) !! id)).
  { intros id Hid. rewrite lookup_insert. by case_decide. }
  split; simpl; eauto.
  - intros id x Hx. destruct (H4 _ _ Hx). eauto.
  - intros id x Hx. destruct (H5 _ _ Hx) as (? & ? & ?). eauto.
  - intros x Hx. destruct (H6 _ Hx). eauto.
  - intros id p Hp. destruct (H7 _ _ Hp) as [Hr ?]. split; [|done]. intros i Hi. by apply Hdev, Hr.
Qed.

Lemma refs_cursors db c : refs_ok db → refs_ok (db <| cursors := c |>).
Proof. intros []. by split. Qed.

Lemma refs_audit db l : refs_ok db → refs_ok (db <| audit := l |>).
Proof. intros []. by split. Qed.

Lemma refs_event db e :
  refs_ok db → is_Some (devices db !! ev_device_id e) → has_thread (ev_thread_binding_id e) db →
  refs_ok (db <| event_log := event_log db ++ [e] |>).
Proof.
  intros [H1 H2 H3 H4 H5 H6 H7] Hd Ht. split; try done. simpl.
  by intros x [Hx|Hx%list_elem_of_singleton]%elem_of_app; [apply H6|subst x].
Qed.

Lemma refs_log db l :
  refs_ok db → (∀ e, e ∈ l → e ∈ event_log db) → refs_ok (db <| event_log := l |>).
Proof. intros [] Hl. split; try done. simpl. auto. Qed.

(** Appending an event of a thread that is there. *)
Lemma append_refs S owner dev ty data tb occ :
  (∀ db, S db → has_thread tb db) → (∀ db db', threads db' = threads db → S db → S db') →
  hoare refs_ok S (append owner dev ty data tb occ) (λ _, S).
Proof.
  intros HS HST. unfold append, _allocate_owner_cursor. intros w H1 H2 H3.
  unfold mbind, tx_bind, query, modify, raise, mret, tx_ret.
  destruct (devices (working w) !! dev) as [d|] eqn:Hd; simpl; [|done].
  case_bool_decide; [|done]. destruct (d_last_event_sequence d <? _); simpl; [|done].
  pose proof (refs_counter _ dev d (d_last_event_sequence d + 1) H1 Hd) as H4.
  assert (H5 : ∀ c e, ev_device_id e = dev → ev_thread_binding_id e = tb → refs_ok
    ((working w) <| devices := <[dev := d <| d_last_event_sequence := d_last_event_sequence d + 1 |>]>
       (devices (working w)) |> <| cursors := c |> <| event_log := event_log (working w) ++ [e] |>)).
  { intros c e He Ht. eapply (refs_event _ e (refs_cursors _ c H4)); simpl.
    - rewrite He, lookup_insert_eq. by eexists.
    - rewrite Ht. exact (HS _ H3). }
  destruct (cursors (working w) !! owner) as [c|]; simpl.
  - destruct (oc_last_cursor c <? _); simpl; [|done].
    destruct occ; simpl; (split_and!; [by apply H5|done|by intros ? _; apply (HST (working w))]).
  - destruct occ; simpl; (split_and!; [by apply H5|done|by intros ? _; apply (HST (working w))]).
Qed.

Lemma audit_refs S a b c d e f g h i :
  (∀ db db', threads db' = threads db → S db → S db') →
  hoare refs_ok S (add_audit a b c d e f g h i) (λ _, S).
Proof.
  intros HST w H1 H2 H3. unfold add_audit, mbind, tx_bind, now, modify. simpl.
  split_and!; [by apply refs_audit|done|]. intros ? _. by apply (HST (working w)).
Qed.

Lemma lock_refs S owner :
  (∀ db db', threads db' = threads db → S db → S db') →
  hoare refs_ok S (lock_owner_cursor owner) (λ _, S).
Proof.
  intros HST w H1 H2 H3. unfold lock_owner_cursor, mbind, tx_bind, modify, query. simpl.
  destruct (cursors (working w) !! owner); [by split_and!|].
  split_and!; [by apply refs_cursors|done|]. intros ? _. by apply (HST (working w)).
Qed.

(** Rewriting the fields of a thread that is there. *)
Lemma refs_thread db id b b' :
  refs_ok db → threads db !! id = Some b → tb_device_id b' = tb_device_id b →
  refs_ok (db <| threads := <[id := b']> (threads db) |>).
Proof.
  intros [H1 H2 H3 H4 H5 H6 H7] Hb Hd.
  assert (Hth : ∀ r, resolves (threads db) r → resolves (<[id := b']> (threads db)) r).
  { intros r Hr i Hi. rewrite lookup_insert. case_decide; [done|by apply Hr]. }
  split; simpl; try done.
  - intros i x. rewrite lookup_insert. case_decide; [|apply H3]. intros [= <-]. rewrite Hd. by eapply H3.
  - intros i x Hx. destruct (H4 _ _ Hx). auto.
  - intros x Hx. destruct (H6 _ Hx). auto.
Qed.

Lemma save_binding_refs id b :
  hoare refs_ok (λ db, ∃ b0, threads db !! id = Some b0 ∧ tb_device_id b = tb_device_id b0)
    (save_binding id b) (λ _ db, is_Some (threads db !! id)).
Proof.
  intros w H1 H2 (b0 & Hb0 & Hd). unfold save_binding, mbind, tx_bind, query. rewrite Hb0.
  case_bool_decide; [split_and!; [done..|]; by eexists|].
  destruct (_ =? _); simpl; (split_and!; [by eapply refs_thread|done|];
    intros ? _; simpl; rewrite lookup_insert_eq; by eexists).
Qed.

Lemma hoare_drop {A} (pre : database → Prop) (m : tx A) :
  stable refs_ok m → hoare refs_ok pre m (λ _ _, True).
Proof. apply hoare_of_stable. Qed.

(** What happens to the thread of something that failed. *)
Lemma thread_update_refs {A} (k : json → tx A) tid b S post :
  (∀ db, S db → ∃ b0, threads db !! tid = Some b0 ∧ tb_device_id b = tb_device_id b0) →
  (∀ data, hoare refs_ok (λ db, is_Some (threads db !! tid)) (k data) post) →
  hoare refs_ok S (save_binding tid b;; data ← thread_event_data tid b; k data) post.
Proof.
  intros HS Hk. eapply hoare_weaken; [intros db _; apply HS|].
  eapply hoare_bind; [apply save_binding_refs|intros []]. 
  eapply hoare_bind; [|exact Hk]. intros w H1 H2 H3. unfold thread_event_data, thread_summary.
  unfold mbind, tx_bind, guard_exn. by destruct (negb _).
Qed.

Lemma has_thread_same tb db db' : threads db' = threads db → has_thread tb db → has_thread tb db'.
Proof. unfold has_thread. by intros ->. Qed.

Lemma some_thread tid db : is_Some (threads db !! tid) → has_thread (Some tid) db.
Proof. by intros H ? [= <-]. Qed.

(** A command's event, then that of its thread. *)
Lemma append_thread_refs {A} tid owner dev ty data (k : BrowserEvent → A) :
  hoare refs_ok (λ db, is_Some (threads db !! tid))
    (e ← append owner dev ty data (Some tid) None; mret (k e)) (λ _ _, True).
Proof.
  eapply hoare_bind; [apply append_refs; [apply some_thread|by intros ? ? ->]|].
  intros e. apply hoare_of_stable, stable_ret.
Qed.

Lemma refs_command_update db id f :
  (∀ c, cmd_device_id (f c) = cmd_device_id c) →
  (∀ c, cmd_thread_binding_id (f c) = cmd_thread_binding_id c) →
  refs_ok db → refs_ok (db <| commands := alter f id (commands db) |>).
Proof.
  intros Hd Ht [H1 H2 H3 H4 H5 H6 H7]. split; simpl; try done.
  - intros i c. rewrite lookup_alter_Some. intros [(-> & c0 & Hc & ->)|[_ Hc]].
    + rewrite Hd, Ht. by eapply H4.
    + by eapply H4.
  - intros i a Ha. destruct (H5 _ _ Ha) as (? & Hr & ?). split_and!; [done| |done].
    intros j Hj. rewrite lookup_alter_is_Some. by apply Hr.
Qed.

Lemma command_binding_thread c db tid b :
  command_binding c db = Some (tid, b) → threads db !! tid = Some b.
Proof.
  unfold command_binding. destruct (cmd_thread_binding_id c) as [t|]; [|done]. simpl.
  destruct (threads db !! t) as [b0|] eqn:Hb; [|done]. simpl. case_match; [|done]. by intros [= <- <-].
Qed.

Lemma approval_binding_thread a db tid b :
  approval_binding a db = Some (tid, b) → threads db !! tid = Some b.
Proof.
  unfold approval_binding. destruct (approval_command a db) as [c|]; [|done]. simpl.
  destruct (cmd_thread_binding_id c) as [t|]; [|done]. simpl.
  destruct (threads db !! t) as [b0|] eqn:Hb; [|done]. simpl. case_match; [|done]. by intros [= <- <-].
Qed.

Lemma expire_one_refs t cand : stable refs_ok (expire_one t cand).
Proof.
  destruct cand as [[id dev] owner]. unfold expire_one, _publish_event_best_effort.
  apply stable_bind; [apply stable_query|intros [d|]]; [|solve_stable].
  case_bool_decide; [|solve_stable].
  apply stable_bind.
  { apply (hoare_stable _ (λ _, True) _ (λ _ _, True)); [done|]. by apply lock_refs. }
  intros _. apply (hoare_stable _ (λ _, True) _ (λ _ _, True)); [done|].
  eapply hoare_bind; [apply hoare_query|]. intros [c|]; [|apply hoare_of_stable; solve_stable].
  destruct (_ && overdue t c); [|apply hoare_of_stable; solve_stable].
  set (tb := cmd_thread_binding_id c).
  apply (hoare_bind _ _ _ (λ _, has_thread tb)).
  { intros w H1 H2 [_ Hc]. unfold update_command, modify. simpl. split_and!; [|done|].
    - by apply refs_command_update.
    - intros ? _. by apply (rf_command _ H1 id c). }
  intros _. eapply hoare_bind; [apply audit_refs; apply has_thread_same|intros ?].
  eapply hoare_bind; [apply append_refs; [done|apply has_thread_same]|intros event].
  eapply hoare_bind; [apply hoare_query|]. intros binding.
  apply (hoare_bind _ _ _ (λ _ _, True)).
  - destruct binding as [[tid b]|]; [|apply hoare_of_stable; solve_stable].
    destruct (repair_binding_for_terminal_command b (expire_command t c) t) as [[] b'] eqn:Hb;
      [|apply hoare_of_stable; solve_stable].
    apply thread_update_refs; [|intros data; apply append_thread_refs].
    intros db [_ Hq]. exists b. split; [by eapply command_binding_thread|].
    unfold repair_binding_for_terminal_command in Hb. destruct (hidden _); [done|]. by injection Hb as <-.
  - intros events. apply hoare_of_stable. solve_stable.
Qed.

Lemma refs_approval_update db id f :
  (∀ a, ap_device_id (f a) = ap_device_id a ∧ ap_command_id (f a) = ap_command_id a
        ∧ (ap_decided_by_session_id (f a) = ap_decided_by_session_id a
           ∨ ap_decided_by_session_id (f a) = None)) →
  refs_ok db → refs_ok (db <| approvals := alter f id (approvals db) |>).
Proof.
  intros Hf [H1 H2 H3 H4 H5 H6 H7]. split; simpl; try done.
  intros i a. rewrite lookup_alter_Some. intros [(-> & a0 & Ha & ->)|[_ Ha]]; [|by eapply H5].
  destruct (Hf a0) as (-> & -> & Hs). destruct (H5 _ _ Ha) as (? & ? & ?).
  split_and!; [done..|]. by destruct Hs as [-> | ->].
Qed.

Lemma default_deny_refs id a dev d t reason : stable refs_ok (_default_deny_tx id a dev d t reason).
Proof.
  unfold _default_deny_tx, update_approval. apply stable_bind.
  { apply stable_modify. intros db. apply refs_approval_update. intros. simpl. auto. }
  intros _. unfold _append_default_deny_effects.
  apply (hoare_stable _ (λ _, True) _ (λ _ _, True)); [done|].
  eapply hoare_bind; [by apply audit_refs|intros ?].
  eapply hoare_bind; [by apply (append_refs (λ _, True))|intros e].
  eapply hoare_bind; [apply hoare_query|]. intros [[tid b]|]; [|apply hoare_of_stable; solve_stable].
  destruct (_ && _); [|apply hoare_of_stable; solve_stable].
  apply thread_update_refs; [|intros data; apply (append_thread_refs _ _ _ _ _ (λ e', [e; e']))].
  intros db [_ Hq]. exists b. split; [by eapply approval_binding_thread|done].
Qed.

Lemma expire_approval_refs t cand : stable refs_ok (expire_approval t cand).
Proof.
  destruct cand as [[id dev] owner]. unfold expire_approval, _expired_denial, _best_effort_notify,
    approval_wake, publish_event. pose proof default_deny_refs.
  assert (stable refs_ok (lock_owner_cursor owner)).
  { apply (hoare_stable _ (λ _, True) _ (λ _ _, True)); [done|]. by apply lock_refs. }
  solve_stable.
Qed.

Lemma refs_pairing_expired db id p :
  pairings db !! id = Some p → refs_ok db → refs_ok (save_pairing id (expire_pairing p) db).
Proof.
  intros Hp [H1 H2 H3 H4 H5 H6 H7]. split; simpl; try done.
  intros i q. rewrite lookup_insert. case_decide; [|apply H7]. intros [= <-]. by apply (H7 id p).
Qed.

Lemma refs_frames db Q : refs_ok db → refs_ok (delete_frames Q db).
Proof. intros []. split; try done. simpl. intros k f [Hf _]%map_lookup_filter_Some. eauto. Qed.

Lemma refs_reconcile db : refs_ok db → refs_ok (db <| devices := reconcile_revoked <$> devices db |>).
Proof.
  intros [H1 H2 H3 H4 H5 H6 H7].
  assert (Hdev : ∀ id, is_Some (devices db !! id) → is_Some ((reconcile_revoked <$> devices db) !! id)).
  { intros id. by rewrite lookup_fmap, fmap_is_Some. }
  split; simpl; eauto.
  - intros i x Hx. destruct (H4 _ _ Hx). eauto.
  - intros i x Hx. destruct (H5 _ _ Hx) as (? & ? & ?). eauto.
  - intros x Hx. destruct (H6 _ Hx). eauto.
  - intros i p Hp. destruct (H7 _ _ Hp) as [Hr ?]. split; [|done]. intros j Hj. by apply Hdev, Hr.
Qed.

#[local] Hint Resolve expire_one_refs expire_approval_refs : stable.

Lemma refs_pairing_expiry locked now_arg limit :
  stable refs_ok (expire_due_pairings locked now_arg limit).
Proof.
  apply expire_pairings_stable; [|by intros; apply refs_pairing_expired].
  intros. apply (hoare_stable _ (λ _, True) _ (λ _ _, True)); [done|]. by apply audit_refs.
Qed.

Lemma refs_command_expiry now_arg : stable refs_ok (expire_due now_arg).
Proof. unfold expire_due. solve_stable. Qed.

Lemma refs_approval_expiry now_arg : stable refs_ok (expire_due_approvals now_arg).
Proof. unfold expire_due_approvals. solve_stable. Qed.

Lemma refs_event_prune now_arg : stable refs_ok (prune now_arg).
Proof.
  unfold prune, prune_owner. solve_stable; try by apply refs_cursors.
  all: apply refs_log; [done|]; intros ev; rewrite list_elem_of_filter; tauto.
Qed.

Lemma refs_outbox_prune now_arg : stable refs_ok (prune_outbox now_arg).
Proof. unfold prune_outbox. solve_stable; first [by apply refs_frames|by apply refs_reconcile]. Qed.
End references.

(** ** The whole sweep *)

Section sweep.
Context {P : Platform}.

(** The invariants of the tables, together. *)
Record service_ok (db : database) : Prop := {
  sv_commands : commands_ok db;
  sv_events : events_ok db;
  sv_outbox : outbox_ok db;
  sv_pairing : pairing_ok db;
  sv_refs : refs_ok db;
}.

Lemma service_stable {A} (m : tx A) :
  stable commands_ok m → stable events_ok m → stable outbox_ok m → stable pairing_ok m →
  stable refs_ok m → stable service_ok m.
Proof.
  intros H1 H2 H3 H4 H5 w [] []. unfold stable, wp in *.
  destruct (H1 w), (H2 w), (H3 w), (H4 w), (H5 w); [done..|]. by split; split.
Qed.

Lemma service_retained t db db' :
  service_ok db → retained t db db' → refs_ok db' → service_ok db'.
Proof.
  intros [] Hr Hok. split; [by eapply retained_commands|by eapply retained_events
    |by eapply retained_outbox|by eapply retained_pairing|done].
Qed.

(** Everyone else keeps the invariants too. *)
Record keeps_service (env : SweepEnvironment) : Prop := {
  ks_meanwhile i db : service_ok db → service_ok (se_meanwhile env i db);
  ks_retention i db : service_ok db → service_ok (se_retention env i db);
}.

Lemma pairing_phase_ok locked now_arg limit : stable service_ok (expire_due_pairings locked now_arg limit).
Proof.
  apply service_stable; [apply pairing_expiry_stable; apply _..| |apply refs_pairing_expiry].
  apply expire_pairings_stable; [apply ke_audit|]. intros. by apply expire_pairing_ok.
Qed.

Lemma command_phase_ok : stable service_ok (expire_due None).
Proof.
  apply service_stable; [|apply command_expiry_stable; apply _..|apply refs_command_expiry].
  apply (stable_bind _ now); [apply stable_now|]. intros t. apply (expire_due_stable t).
  intros db db' Hok Hs. by eapply commands_ok_step, expiry_step_commands.
Qed.

Lemma approval_phase_ok : stable service_ok (expire_due_approvals None).
Proof.
  apply service_stable; [apply approval_expiry_stable; apply _..|apply refs_approval_expiry].
Qed.

Lemma reconcile_phase_ok limit : stable service_ok (reconcile_undispatched limit).
Proof. apply approval_reconcile_stable. Qed.

Lemma event_prune_ok : stable service_ok (prune None).
Proof.
  apply service_stable; [apply event_prune_stable; apply _|auto with stable|apply event_prune_stable; apply _..
    |apply refs_event_prune].
Qed.

Lemma outbox_prune_ok : stable service_ok (prune_outbox None).
Proof.
  apply service_stable; [|apply outbox_prune_stable|auto with stable|apply outbox_prune_stable
    |apply refs_outbox_prune].
  - unfold prune_outbox. solve_stable; by eapply commands_ok_step, commands_step_same.
  - intros frames db []. by split.
  - apply reconcile_events.
  - intros frames db H. apply (elsewhere_ok db); [by apply elsewhere_same|done].
  - intros db H. eapply elsewhere_ok; [apply reconcile_elsewhere|done].
Qed.

Lemma retention_phase_ok meanwhile :
  (∀ i db, service_ok db → service_ok (meanwhile i db)) →
  stable service_ok (with_session (retention_phase meanwhile)).
Proof.
  intros Hmw w H1 H2.
  pose proof (sweep_keeps service_ok sv_refs service_retained meanwhile None
    (w <| working := durable w |>) Hmw eq_refl H2) as H.
  assert (Hrest : ∀ {A} (m : tx A) w1, silent m → service_ok (durable w1) →
    wp m (λ _ w', service_ok (durable w')) w1).
  { intros A m w1 Hm Hok. apply wp_silent; [done|]. by intros r w' _ ->. }
  enough (Hwp : wp (retention_phase meanwhile) (λ _ w', service_ok (durable w'))
    (w <| working := durable w |>)).
  { unfold wp, with_session in *. by destruct (retention_phase _ _). }
  unfold retention_phase. apply wp_bind, wp_try_catch. eapply wp_mono; [exact H|].
  intros [r|e] w1 [_ Hok].
  - apply Hrest; [|done]. unfold _record_maintenance. solve_silent.
  - exact Hok.
Qed.

Lemma observe_ok phase (m : tx Z) limit :
  stable service_ok m → stable service_ok (with_session (_observe_maintenance_phase phase m limit)).
Proof. intros Hm. unfold _observe_maintenance_phase, _record_maintenance. solve_stable. Qed.

Lemma others_ok f : (∀ db, service_ok db → service_ok (f db)) → stable service_ok (other_transactions f).
Proof. intros Hf w H1 H2. split; by apply Hf. Qed.

Lemma between_ok env value i : keeps_service env → stable service_ok (between_phases env value i).
Proof.
  intros []. unfold between_phases, _renew_sweep_lease. apply stable_bind; [apply others_ok; auto|].
  intros ?. apply stable_bind; [apply stable_other_processes|]. intros ?. solve_stable.
Qed.

#[local] Hint Resolve pairing_phase_ok command_phase_ok approval_phase_ok reconcile_phase_ok
  event_prune_ok outbox_prune_ok retention_phase_ok between_ok observe_ok ks_retention : stable.

Lemma perform_sweep_ok env value last :
  keeps_service env → stable service_ok (_perform_sweep env value last).
Proof.
  intros Henv. unfold _perform_sweep.
  repeat match goal with
    | |- stable _ (mbind _ _) => apply stable_bind; [|intros ?]
    | |- stable _ (if _ then _ else _) => case_match
    end; eauto with stable.
Qed.

Lemma run_sweep_cycle_ok env last :
  keeps_service env → stable service_ok (_run_sweep_cycle env last).
Proof.
  intros Henv. pose proof perform_sweep_ok. unfold _run_sweep_cycle, finally. solve_stable.
Qed.

Lemma sweep_rounds_ok rounds last :
  Forall keeps_service rounds → stable service_ok (_sweep_expired_state rounds last).
Proof.
  intros Henv. revert last. induction Henv as [|env rounds Henv _ IH]; intros last;
    cbn [_sweep_expired_state]; [apply stable_ret|].
  pose proof (run_sweep_cycle_ok env last Henv). solve_stable.
Qed.

Lemma sweep_rounds_return rounds last w : ∃ t, (_sweep_expired_state rounds last w).1 = Ok t.
Proof.
  revert last w. induction rounds as [|env rounds IH]; intros last w; cbn [_sweep_expired_state];
    [by eexists|]. unfold mbind, tx_bind, try_catch at 1.
  destruct (_run_sweep_cycle env last w) as [[c|e] w1]; apply IH.
Qed.

(** C37: the sweep keeps every invariant of the service.  However often it wakes
    up, whatever its environment commits between its phases, whichever store
    call, lease renewal or phase fails, the committed state keeps the invariants
    of commands, events, outboxes, pairings and references together, and the
    loop goes on. *)
Theorem maintenance_invariant rounds last w :
  Forall keeps_service rounds → service_ok (working w) → service_ok (durable w) →
  let r := _sweep_expired_state rounds last w in
  (∃ t, r.1 = Ok t) ∧ service_ok (durable r.2).
Proof.
  intros Hr H1 H2 r. split; [apply sweep_rounds_return|]. by apply (sweep_rounds_ok rounds last Hr w H1 H2).
Qed.

(** ** The lease *)

Definition sweep_slot (w : world) : BrowserLeaseSlot :=
  {| ls_key := sweep_lease_key; ls_value := uuid_str (uuid4 (ticks w)) |}.

(** When the process that starts a cycle looks at the lease. *)
Definition lease_time (w : world) : Z := monotonic (S (ticks w)).

Lemma finally_releases {A} (m : tx A) slot w :
  (∀ n, store_up n = true) → (∀ i j, (i ≤ j)%nat → monotonic i ≤ monotonic j) →
  released slot (finally m (store_compare_delete (ls_key slot) (ls_value slot);; mret tt) w).2.
Proof.
  intros Hup Hmono. unfold finally.
  enough (H : wp (try_catch (a ← m; mret (Ok a)) (λ e, mret (Raise e)) ≫= λ r,
      (store_compare_delete (ls_key slot) (ls_value slot);; mret tt);; of_outcome r)
    (λ _ w', released slot w') w) by exact H.
  apply wp_bind, wp_try_catch. unfold wp at 1, mbind at 1, tx_bind at 1.
  destruct (m w) as [[a|e] w1]; simpl; apply wp_bind;
    (eapply wp_mono; [by apply compare_delete_run|]); by intros r w2 (-> & H & _).
Qed.

(** [w1] is [w] with the lease taken: the store holds it from the look at it
    until its time to live is over. *)
Record lease_taken (own : pystr) (w w1 : world) : Prop := {
  lt_rows : working w1 = working w ∧ durable w1 = durable w;
  lt_effects : effects w1 = effects w;
  lt_store t : lease_time w ≤ t → kv_view t (store w1) =
    view_set t (lease_time w) sweep_lease_key own sweep_lease_ttl_seconds (kv_view t (store w));
}.

(** [w'] is [w2] with the own lease given back, and nobody else's. *)
Record lease_given_back (own : pystr) (w2 w' : world) : Prop := {
  lg_rows : working w' = working w2 ∧ durable w' = durable w2;
  lg_effects : effects w' = effects w2;
  lg_store t : monotonic (ticks w2) ≤ t → kv_view t (store w') =
    if bool_decide (kv_view (monotonic (ticks w2)) (store w2) !! sweep_lease_key = Some own)
    then delete sweep_lease_key (kv_view t (store w2)) else kv_view t (store w2);
}.

(** A firing of the renewal timer: a lease that is still held is prolonged, a
    lost one raises and leaves the store alone. *)
Definition renewal_checked (own : pystr) (v : world) : Prop :=
  let t0 := monotonic (ticks v) in
  let '(r, v') := _renew_sweep_lease own v in
  if bool_decide (kv_view t0 (store v) !! sweep_lease_key = Some own)
  then r = Ok tt ∧ ∀ t, t0 ≤ t → kv_view t (store v') =
         view_set t t0 sweep_lease_key own sweep_lease_ttl_seconds (kv_view t (store v))
  else r = Raise RuntimeError ∧ ∀ t, t0 ≤ t → kv_view t (store v') = kv_view t (store v).

(** At the [i]-th pause a renewal is due and the others have removed or replaced
    the lease. *)
Definition lease_lost (env : SweepEnvironment) (own : pystr) (i : nat) : Prop :=
  se_renewal_due env i = true
  ∧ ∀ s t, kv_view t (se_store env i s) !! sweep_lease_key ≠ Some own.

Section lease.
Hypothesis Hup : ∀ n, store_up n = true.

Lemma renewal_run own v : renewal_checked own v.
Proof.
  unfold renewal_checked, _renew_sweep_lease, store_compare_refresh, store_op, mbind, tx_bind.
  rewrite Hup. set (t0 := monotonic (ticks v)). case_bool_decide as Hv.
  - destruct (kv_compare_refresh_owned t0 sweep_lease_key own sweep_lease_ttl_seconds (store v) Hv)
      as [Hb Hs]. destruct (kv_compare_refresh _ _ _ _ _) as [b s]. simpl in *. by subst b.
  - destruct (kv_compare_refresh_lost t0 sweep_lease_key own sweep_lease_ttl_seconds (store v) Hv)
      as [Hb Hs]. destruct (kv_compare_refresh _ _ _ _ _) as [b s]. simpl in *. by subst b.
Qed.

(** [m] never returns. *)
Definition raises {A} (m : tx A) : Prop := ∀ w, ∃ e, (m w).1 = Raise e.

Lemma raises_bind_l {A B} (m : tx A) (k : A → tx B) : raises m → raises (m ≫= k).
Proof.
  intros Hm w. unfold mbind, tx_bind. destruct (Hm w) as [e He].
  destruct (m w) as [r v]. simpl in He. subst r. by exists e.
Qed.

Lemma raises_bind_r {A B} (m : tx A) (k : A → tx B) : (∀ a, raises (k a)) → raises (m ≫= k).
Proof.
  intros Hk w. unfold mbind, tx_bind. destruct (m w) as [[a|e] v]; [apply Hk|by exists e].
Qed.

Lemma lost_raises env own i : lease_lost env own i → raises (between_phases env own i).
Proof.
  intros [Hdue Hlost] w. unfold between_phases. rewrite Hdue.
  set (v := w <| durable := se_meanwhile env i (durable w) |>
              <| working := se_meanwhile env i (durable w) |> <| store := se_store env i (store w) |>).
  change (∃ e, (_renew_sweep_lease own v).1 = Raise e). pose proof (renewal_run own v) as H.
  unfold renewal_checked in H. destruct (_renew_sweep_lease own v) as [r v'].
  rewrite bool_decide_false in H by apply Hlost. exists RuntimeError. apply H.
Qed.

Lemma sweep_lost_raises env own last i :
  (i < 4)%nat → lease_lost env own i → raises (_perform_sweep env own last).
Proof.
  intros Hi Hlost%lost_raises. unfold _perform_sweep.
  destruct i as [|[|[|[|i]]]]; [..|lia];
    repeat (first [apply raises_bind_l; exact Hlost | apply raises_bind_r; intros ?]).
Qed.

Lemma give_back own w : ∃ b w', store_compare_delete sweep_lease_key own w = (Ok b, w')
  ∧ lease_given_back own w w'.
Proof.
  unfold store_compare_delete, store_op. rewrite Hup. set (t0 := monotonic (ticks w)).
  destruct (base.decide (kv_view t0 (store w) !! sweep_lease_key = Some own)) as [Hk|Hk].
  - destruct (kv_compare_delete_owned t0 sweep_lease_key own (store w) Hk) as [_ Hv].
    destruct (kv_compare_delete _ _ _ _) as [b s]. exists b. eexists. split; [done|].
    split; [done..|]. intros t Ht. rewrite bool_decide_true by done. by apply Hv.
  - destruct (kv_compare_delete_lost t0 sweep_lease_key own (store w) Hk) as [_ Hv].
    destruct (kv_compare_delete _ _ _ _) as [b s]. exists b. eexists. split; [done|].
    split; [done..|]. intros t Ht. rewrite bool_decide_false by done. by apply Hv.
Qed.

(** [finally] with the release of the lease. *)
Lemma finally_gives_back {A B} (m : tx A) (f : A → B) own w :
  let '(o, w2) := m w in
  let '(r, w') := finally (a ← m; mret (f a))
                    (store_compare_delete sweep_lease_key own;; mret tt) w in
  r = match o with Ok a => Ok (f a) | Raise e => Raise e end ∧ lease_given_back own w2 w'.
Proof.
  unfold finally, try_catch, mbind, tx_bind.
  destruct (m w) as [[a|e] w2]; cbn [fst snd mret tx_ret];
    destruct (give_back own w2) as (b & w' & -> & Hg); by split.
Qed.
End lease.

(** C38: one process sweeps, as long as the store can be reached and its clock
    does not run backwards.  While another one holds the lease a cycle does
    nothing at all: no row, no message, no key of the store changes.  Otherwise
    the sweep runs with the lease taken, its result is the cycle's, and however
    it ends its own lease, and nobody else's, is then removed.  A firing of the
    renewal timer prolongs a lease that is still held and fails for a lost one,
    so a cycle that loses its lease before a renewal between its first five
    phases never completes. *)
Theorem sweep_lease env last w :
  (∀ n, store_up n = true) → (∀ i j, (i ≤ j)%nat → monotonic i ≤ monotonic j) →
  let r := _run_sweep_cycle env last w in
  let own := uuid_str (uuid4 (ticks w)) in
  match kv_view (lease_time w) (store w) !! sweep_lease_key with
  | Some _ => r.1 = Ok (false, last) ∧ working r.2 = working w ∧ durable r.2 = durable w
      ∧ effects r.2 = effects w
      ∧ ∀ t, lease_time w ≤ t → kv_view t (store r.2) = kv_view t (store w)
  | None => ∃ w1, lease_taken own w w1
      ∧ (let '(o, w2) := _perform_sweep env own last w1 in
         r.1 = match o with Ok l => Ok (true, l) | Raise e => Raise e end
         ∧ lease_given_back own w2 r.2)
      ∧ released (sweep_slot w) r.2
      ∧ (∀ v, renewal_checked own v)
      ∧ ∀ i, (i < 4)%nat → lease_lost env own i → ∃ e, r.1 = Raise e
  end.
Proof.
  intros Hup Hmono r own. set (release := store_compare_delete sweep_lease_key own;; mret tt).
  set (body := finally (l ← _perform_sweep env own last; mret (true, l)) release).
  set (took := kv_set_if_absent (lease_time w) sweep_lease_key own sweep_lease_ttl_seconds (store w)).
  set (w1 := w <| ticks := S (S (ticks w)) |> <| store := took.2 |>).
  assert (Hr : r = if took.1 then body w1 else (Ok (false, last), w1)).
  { subst r w1 body. unfold _run_sweep_cycle, fresh_uuid, store_set_if_absent, store_op, mbind, tx_bind.
    cbn [ticks]. unfold update_field. simpl. rewrite Hup. fold (lease_time w). fold own took.
    destruct took as [[] s]; reflexivity. }
  rewrite Hr. clear Hr r. unfold took in *. clear took.
  destruct (kv_view (lease_time w) (store w) !! sweep_lease_key) as [v|] eqn:Hv.
  - destruct (kv_set_if_absent_taken (lease_time w) sweep_lease_key own sweep_lease_ttl_seconds (store w))
      as [-> Hview]; [by eexists|]. by split_and!.
  - destruct (kv_set_if_absent_free (lease_time w) sweep_lease_key own sweep_lease_ttl_seconds (store w))
      as [-> Hview]; [done|]. exists w1. split; [by split|].
    pose proof (finally_gives_back Hup (_perform_sweep env own last) (λ l, (true, l)) own w1) as Hf.
    pose proof (sweep_lost_raises Hup env own last) as Hlost.
    pose proof (finally_releases (l ← _perform_sweep env own last; mret (true, l)) (sweep_slot w) w1
      Hup Hmono) as Hrel.
    change (finally _ _ w1) with (body w1) in Hf. change (released (sweep_slot w) (body w1).2) in Hrel.
    destruct (_perform_sweep env own last w1) as [o w2] eqn:Eo.
    destruct (body w1) as [ro w']. destruct Hf as [-> Hg]. simpl in *.
    split; [by split|]. split; [done|]. split; [intros v; by apply renewal_run|].
    intros i Hi Hl. destruct (Hlost i Hi Hl w1) as [e He]. rewrite Eo in He. simpl in He. subst o.
    by exists e.
Qed.
End sweep.

(** ** On the testbed *)

(** An overdue command of a revoked device, and an old thread of it. *)
Definition sweep_database : database :=
  aged_database <| commands := {[ 7%N := sample_command <| cmd_expires_at := Some 0 |> ]} |>.

Definition sweep_environment : SweepEnvironment :=
  {| se_meanwhile _ db := db; se_store _ s := s; se_locked _ := false; se_retention := reopen;
     se_renewal_due _ := true |}.

Lemma one_row_count {V} (f : uuid → V → bool) k v n : 1 ≤ n → count_rows f {[ k := v ]} ≤ n.
Proof.
  intros Hn. rewrite <- (insert_empty (M := gmap uuid)), count_rows_insert by apply lookup_empty.
  change (count_rows f ∅) with 0. destruct (f k v); lia.
Qed.

Lemma sweep_environment_keeps : keeps_service sweep_environment.
Proof.
  split; [done|]. simpl. intros i db [H1 H2 H3 H4 H5]. split; [..|by apply reopen_refs];
    unfold reopen; destruct (i =? 5)%nat; try done;
    apply (ignores (set := set_threads) ((λ t, t <| tb_status := TsIdle |>) <$> threads db) db); done.
Qed.

Lemma one_row_unique {V X} (k : uuid) (v : V) (key : V → option X) : unique_rows {[ k := v ]} key.
Proof. by intros i j p q x [<- _]%lookup_singleton_Some [<- _]%lookup_singleton_Some. Qed.

Lemma sweep_database_ok : service_ok sweep_database.
Proof.
  assert (Hone : ∀ id c, commands sweep_database !! id = Some c → id = 7%N).
  { simpl. by intros id c [<- _]%lookup_singleton_Some. }
  split.
  - split.
    + intros id id' c c' Hc%Hone Hc'%Hone _. congruence.
    + intros owner dev t id id' c c' Hc%Hone Hc'%Hone _ _. congruence.
    + intros dev. by apply one_row_count.
    + intros dev. by apply one_row_count.
    + intros owner. by apply one_row_count.
  - split; simpl; try (intros *; rewrite ?lookup_empty; done); try apply NoDup_nil_2;
      try (intros e He; by apply not_elem_of_nil in He).
    by intros id d [_ <-]%lookup_singleton_Some.
  - intros id d Hd. simpl in Hd. apply lookup_singleton_Some in Hd as [_ <-]. done.
  - split; try (apply one_row_unique); try (intros i j p q x H; simpl in H; by rewrite lookup_empty in H).
    + intros owner. change (reservations owner sweep_database) with 0.
      rewrite Z.add_0_r. by apply one_row_count.
    + intros owner. change (reservations owner sweep_database) with 0.
      rewrite Z.add_0_r. by apply one_row_count.
  - assert (Hdev : is_Some (devices sweep_database !! 1%N)) by (by eexists).
    split; simpl; try (intros ? ? H; by rewrite lookup_empty in H).
    + intros id x [<- <-]%lookup_singleton_Some. exact Hdev.
    + intros id c [<- <-]%lookup_singleton_Some. split; [exact Hdev|by intros ?].
    + intros e H. by apply not_elem_of_nil in H.
Qed.

Lemma maintenance_invariant_witness :
  let w := start_world sweep_database in
  let r := _sweep_expired_state [sweep_environment; sweep_environment] (-100) w in
  ((∃ t, r.1 = Ok t) ∧ service_ok (durable r.2))
  ∧ option_map cmd_status (commands (durable r.2) !! 7%N) = Some CsExpired.
Proof.
  intros w r. split; [|vm_compute; reflexivity].
  apply (maintenance_invariant [sweep_environment; sweep_environment] (-100) w).
  - by repeat apply Forall_cons_2; [apply sweep_environment_keeps..|].
  - exact sweep_database_ok.
  - exact sweep_database_ok.
Defined.

(** While the second phase waits, an operator clears the store's lease. *)
Definition lost_environment : SweepEnvironment :=
  {| se_meanwhile _ db := db; se_store i s := if (i =? 1)%nat then kv_delete sweep_lease_key s else s;
     se_locked _ := false; se_retention := reopen; se_renewal_due _ := true |}.

Lemma sweep_lease_witness :
  released (sweep_slot (start_world sweep_database))
    (_run_sweep_cycle sweep_environment 0 (start_world sweep_database)).2
  ∧ ∃ e, (_run_sweep_cycle lost_environment 0 (start_world sweep_database)).1 = Raise e.
Proof.
  assert (Hup : ∀ n, @store_up testbed n = true) by done.
  assert (Hmono : ∀ i j, (i ≤ j)%nat → @monotonic testbed i ≤ @monotonic testbed j).
  { intros i j Hij. apply Z.div_le_mono; lia. }
  pose proof (sweep_lease sweep_environment 0 (start_world sweep_database) Hup Hmono) as H1.
  pose proof (sweep_lease lost_environment 0 (start_world sweep_database) Hup Hmono) as H2.
  cbv zeta in H1, H2.
  assert (Hfree : kv_view (lease_time (start_world sweep_database))
    (store (start_world sweep_database)) !! sweep_lease_key = None) by (vm_compute; reflexivity).
  rewrite Hfree in H1, H2. destruct H1 as (_ & _ & _ & H1 & _), H2 as (_ & _ & _ & _ & _ & H2).
  split; [exact H1|]. apply (H2 1%nat); [lia|]. split; [done|]. intros s t.
  change (kv_view t (kv_delete sweep_lease_key s) !! sweep_lease_key
    ≠ Some (uuid_str (@uuid4 testbed 0))).
  rewrite kv_delete_view, lookup_delete_eq. discriminate.
Defined.
