(* ===== verification/MetricsSafety.v ===== *)
(** * What the metrics promise

    Whatever is recorded, by whatever caller, the number of series is bounded
    by the registered routes. *)

From stdpp Require Import base list gmap.
From Stdlib Require Import ZArith Lia SpecFloat.
From S2P Require Import Prelude Json World OperationalMetrics.
Open Scope Z_scope.
#[local] Open Scope recorder_scope.

(** ** Every series there can be *)

Definition counter_series (routes : list pystr) : list series :=
  (o ← SESSION_EXCHANGE_OUTCOMES;
   [key "codex_control_session_exchange_total" [("outcome" : pystr, o)]])
  ++ (op ← PAIRING_OPERATIONS; o ← PAIRING_OUTCOMES;
      [key "codex_control_pairing_operations_total"
         [("operation" : pystr, op); ("outcome" : pystr, o)]])
  ++ (k ← WEBSOCKET_KINDS; e ← WEBSOCKET_EVENTS; r ← WEBSOCKET_REASONS;
      [key "codex_control_websocket_events_total"
         [("kind" : pystr, k); ("event" : pystr, e); ("reason" : pystr, r)]])
  ++ (a ← COMMAND_STATUSES; b ← COMMAND_STATUSES;
      [key "codex_control_command_transitions_total"
         [("from_status" : pystr, a); ("to_status" : pystr, b)]])
  ++ (o ← COMMAND_IDEMPOTENCY_OUTCOMES;
      [key "codex_control_command_idempotency_total" [("outcome" : pystr, o)]])
  ++ (o ← APPROVAL_OUTCOMES; r ← APPROVAL_REASONS;
      [key "codex_control_approval_outcomes_total"
         [("outcome" : pystr, o); ("reason" : pystr, r)]])
  ++ (c ← RPC_POLICY_CLASSES; o ← RPC_POLICY_OUTCOMES;
      [key "codex_control_rpc_policy_total" [("method_class" : pystr, c); ("outcome" : pystr, o)]])
  ++ (p ← RECONCILIATION_PHASES; o ← RUN_OUTCOMES;
      name ← ["codex_control_reconciliation_runs_total" : pystr;
              "codex_control_reconciliation_items_total"];
      [key name [("phase" : pystr, p); ("outcome" : pystr, o)]])
  ++ (p ← MAINTENANCE_PHASES; o ← RUN_OUTCOMES;
      [key "codex_control_maintenance_runs_total" [("phase" : pystr, p); ("outcome" : pystr, o)]])
  ++ (p ← MAINTENANCE_PHASES;
      [key "codex_control_maintenance_items_total" [("phase" : pystr, p)]])
  ++ (d ← DEPENDENCIES; o ← DEPENDENCY_OUTCOMES;
      [key "codex_control_dependency_checks_total"
         [("dependency" : pystr, d); ("outcome" : pystr, o)]])
  ++ (m ← ("OTHER" : pystr) :: HTTP_METHODS; r ← routes; c ← HTTP_STATUS_CLASSES;
      [key "codex_control_http_requests_total"
         [("method" : pystr, m); ("route" : pystr, r); ("status_class" : pystr, c)]]).

Definition gauge_series : list series :=
  (k ← WEBSOCKET_KINDS;
   [key "codex_control_websocket_connections_active" [("kind" : pystr, k)]])
  ++ (d ← DEPENDENCIES; [key "codex_control_dependency_ready" [("dependency" : pystr, d)]])
  ++ (p ← MAINTENANCE_PHASES;
      name ← ["codex_control_maintenance_batch_saturated" : pystr;
              "codex_control_maintenance_last_success_timestamp_seconds"];
      [key name [("phase" : pystr, p)]])
  ++ (s ← pool_states; [key "codex_control_database_pool_connections" [("state" : pystr, s)]]).

Definition histogram_series (routes : list pystr) : list series :=
  (s ← COMMAND_TERMINAL_STATUSES;
   [key "codex_control_command_duration_seconds" [("outcome" : pystr, s)]])
  ++ (p ← RECONCILIATION_PHASES;
      [key "codex_control_reconciliation_duration_seconds" [("phase" : pystr, p)]])
  ++ (p ← MAINTENANCE_PHASES;
      [key "codex_control_maintenance_duration_seconds" [("phase" : pystr, p)]])
  ++ (d ← DEPENDENCIES;
      [key "codex_control_dependency_check_duration_seconds" [("dependency" : pystr, d)]])
  ++ (m ← ("OTHER" : pystr) :: HTTP_METHODS; r ← routes;
      [key "codex_control_http_request_duration_seconds" [("method" : pystr, m); ("route" : pystr, r)]]).

(** ** The calls *)

Inductive metric_call :=
| CSessionExchange (outcome : pystr)
| CPairing (operation outcome : pystr)
| CWebsocketRejected (kind reason : pystr)
| CWebsocketOpened (kind : pystr)
| CWebsocketClosed (kind reason : pystr)
| CWebsocketReplaced (kind : pystr)
| CCommandTransition (from_status to_status : pystr) (duration : option float)
| CCommandIdempotency (outcome : pystr)
| CApprovalOutcome (outcome reason : pystr)
| CRpcPolicy (method_class outcome : pystr)
| CReconciliation (phase outcome : pystr) (items : Z) (duration : float)
| CMaintenance (now : float) (phase outcome : pystr) (items : Z) (duration : float) (limit : Z)
| CDependencyCheck (dependency outcome : pystr) (duration : float)
| CHttpRequest (method route : pystr) (status_code : Z) (duration : float)
| CDatabasePool (values : gmap pystr float).

Definition call (c : metric_call) : recorder :=
  match c with
  | CSessionExchange o => session_exchange o
  | CPairing op o => pairing op o
  | CWebsocketRejected k r => websocket_rejected k r
  | CWebsocketOpened k => websocket_opened k
  | CWebsocketClosed k r => websocket_closed k r
  | CWebsocketReplaced k => websocket_replaced k
  | CCommandTransition a b d => command_transition a b d
  | CCommandIdempotency o => command_idempotency o
  | CApprovalOutcome o r => approval_outcome o r
  | CRpcPolicy c o => rpc_policy c o
  | CReconciliation p o n d => reconciliation p o n d
  | CMaintenance t p o n d l => maintenance t p o n d l
  | CDependencyCheck d o t => dependency_check d o t
  | CHttpRequest m r s d => http_request m r s d
  | CDatabasePool v => database_pool v
  end.

(** The callers go on after a refusal. *)
Definition record_all (calls : list metric_call) (m : OperationalMetrics) : OperationalMetrics :=
  foldl (λ m c, (call c m).2) m calls.

(** ** Staying within the series *)

Section within.
Context (routes : gset pystr).
Hypothesis Hunmatched : ("_unmatched" : pystr) ∈ routes.

Record within (m : OperationalMetrics) : Prop := {
  wi_routes : _http_routes m = routes;
  wi_counters k v : _counters m !! k = Some v → k ∈ counter_series (elements routes);
  wi_gauges k v : _gauges m !! k = Some v → k ∈ gauge_series;
  wi_histograms k v : _histograms m !! k = Some v → k ∈ histogram_series (elements routes);
}.

Definition keeps (f : recorder) : Prop := ∀ m, within m → within (f m).2.

Lemma keeps_done : keeps done.
Proof. by intros m. Qed.
Lemma keeps_fails e : keeps (fails e).
Proof. by intros m. Qed.
Lemma keeps_then a b : keeps a → keeps b → keeps (a;; b).
Proof. intros Ha Hb m Hm. unfold andThen. specialize (Ha m Hm). destruct (a m) as [[[]|e] m']; auto. Qed.
Lemma keeps_each {A} (f : A → recorder) l : (∀ x, x ∈ l → keeps (f x)) → keeps (each f l).
Proof.
  induction l as [|x l IH]; intros Hf; simpl; [apply keeps_done|].
  apply keeps_then; [apply Hf; left|apply IH; intros; apply Hf; by right].
Qed.
Lemma keeps_bounded v allowed field k :
  (v ∈ allowed → keeps (k v)) → keeps (let! x := _bounded v allowed field in k x).
Proof.
  intros Hk. unfold _bounded. destruct (py_in v allowed) eqn:E; simpl; [|apply keeps_fails].
  by apply Hk, (bool_decide_eq_true_1 _ E).
Qed.
Lemma keeps_increment name amount labels :
  key name labels ∈ counter_series (elements routes) → keeps (_increment name amount labels).
Proof.
  intros Hk. unfold _increment. destruct (amount <? 0); [apply keeps_fails|].
  destruct (float_of_int amount); simpl; [|apply keeps_fails].
  intros m [H1 H2 H3 H4]. split; simpl; try done. intros k v. rewrite lookup_insert.
  case_decide; [intros _; by subst k|apply H2].
Qed.
Lemma keeps_set_gauge name value labels :
  key name labels ∈ gauge_series → keeps (_set_gauge name value labels).
Proof.
  intros Hk. unfold _set_gauge. destruct (negb _); [apply keeps_fails|].
  intros m [H1 H2 H3 H4]. split; simpl; try done. intros k v. rewrite lookup_insert.
  case_decide; [intros _; by subst k|apply H3].
Qed.
Lemma keeps_add_gauge name amount floor labels :
  key name labels ∈ gauge_series → keeps (_add_gauge name amount floor labels).
Proof.
  intros Hk m [H1 H2 H3 H4]. split; simpl; try done. intros k v. rewrite lookup_insert.
  case_decide; [intros _; by subst k|apply H3].
Qed.
Lemma keeps_observe name value buckets labels :
  key name labels ∈ histogram_series (elements routes) →
  keeps (_observe_histogram name value buckets labels).
Proof.
  intros Hk. unfold _observe_histogram. destruct (_ || _); [apply keeps_fails|].
  intros m [H1 H2 H3 H4]. split; simpl; try done. intros k v. rewrite lookup_insert.
  case_decide; [intros _; by subst k|apply H4].
Qed.

(** A series is listed when its labels are. *)
Lemma listed_first {A} (x : A) l k : x ∈ l → x ∈ l ++ k.
Proof. intros. apply elem_of_app. by left. Qed.
Lemma listed_later {A} (x : A) l k : x ∈ k → x ∈ l ++ k.
Proof. intros. apply elem_of_app. by right. Qed.
Lemma listed_label {A B} (x : A) (f : B → list A) y l : y ∈ l → x ∈ f y → x ∈ l ≫= f.
Proof. intros. apply list_elem_of_bind. eauto. Qed.

Ltac listed_here :=
  first
    [ apply list_elem_of_singleton; reflexivity
    | match goal with H : _ ∈ _ |- _ => eapply listed_label; [exact H|listed_here] end
    | eapply listed_label; [left|listed_here]
    | eapply listed_label; [right; left|listed_here] ].
Ltac listed :=
  unfold counter_series, gauge_series, histogram_series;
  repeat match goal with
    | |- _ ∈ _ ++ _ => first [apply listed_first; solve [listed_here] | apply listed_later]
    end; listed_here.

Ltac keeps_step :=
  match goal with
  | |- keeps (if ?b then _ else _) => destruct b
  | |- keeps (match ?x with _ => _ end) => destruct x
  | |- keeps (checked (_bounded _ _ _) _) => apply keeps_bounded; intros ?
  | |- keeps (andThen _ _) => apply keeps_then
  | |- keeps (_increment _ _ _) => apply keeps_increment; listed
  | |- keeps (_set_gauge _ _ _) => apply keeps_set_gauge; listed
  | |- keeps (_add_gauge _ _ _ _) => apply keeps_add_gauge; listed
  | |- keeps (_observe_histogram _ _ _ _) => apply keeps_observe; listed
  | |- keeps (each _ _) => apply keeps_each; intros ? ?
  | |- keeps done => apply keeps_done
  end.
Ltac solve_keeps := repeat keeps_step.

Lemma keeps_command_transition a b d : keeps (command_transition a b d).
Proof.
  unfold command_transition. keeps_step. keeps_step. keeps_step; [solve_keeps|].
  destruct d as [d|]; [|apply keeps_done].
  destruct (py_in b COMMAND_TERMINAL_STATUSES) eqn:E; [|apply keeps_done].
  pose proof (bool_decide_eq_true_1 _ E). solve_keeps.
Qed.

Lemma keeps_http_request method route status d : keeps (http_request method route status d).
Proof.
  intros m Hm. unfold http_request.
  set (mm := if py_in method HTTP_METHODS then method else _).
  set (r := if bool_decide _ then route else _).
  assert (Hmethod : mm ∈ ("OTHER" : pystr) :: HTTP_METHODS).
  { unfold mm. destruct (py_in method HTTP_METHODS) eqn:E; [right|left]. by apply bool_decide_eq_true_1 in E. }
  assert (Hroute : r ∈ elements routes).
  { unfold r. apply elem_of_elements. case_bool_decide as H; [|done]. by rewrite <- (wi_routes m Hm). }
  clearbody mm r. revert m Hm.
  match goal with |- ∀ m, _ → within (?f m).2 => change (keeps f) end. solve_keeps.
Qed.

Lemma keeps_call c : keeps (call c).
Proof.
  destruct c; simpl; try apply keeps_command_transition; try apply keeps_http_request;
    unfold session_exchange, pairing, websocket_rejected, websocket_opened, websocket_closed,
      websocket_replaced, _websocket_event, command_idempotency, approval_outcome, rpc_policy,
      reconciliation, maintenance, dependency_check, database_pool; solve_keeps.
Qed.

Lemma keeps_initial : keeps initial_gauges.
Proof. unfold initial_gauges. solve_keeps. Qed.

Lemma record_all_within calls m : within m → within (record_all calls m).
Proof.
  revert m. induction calls as [|c calls IH]; intros m Hm; [done|]. by apply IH, keeps_call.
Qed.
End within.

(** ** The number of series *)

Lemma size_bound {V} (m : gmap series V) l : (∀ k v, m !! k = Some v → k ∈ l) → (size m ≤ length l)%nat.
Proof.
  intros H. rewrite <- size_dom. change (size (dom m)) with (length (elements (dom m))).
  apply submseteq_length, NoDup_submseteq; [apply NoDup_elements|].
  intros k [v Hv]%elem_of_elements%elem_of_dom. eauto.
Qed.

Lemma length_labels {A B} (f : A → list B) l n :
  (∀ x, length (f x) = n) → length (l ≫= f) = (length l * n)%nat.
Proof. intros Hf. induction l as [|x l IH]; [done|]. rewrite bind_cons, length_app, Hf, IH. simpl. lia. Qed.

Lemma http_series_length {A} (f : pystr → pystr → list A) routes n :
  (∀ m r, length (f m r) = n) →
  length (m ← ("OTHER" : pystr) :: HTTP_METHODS; r ← routes; f m r) = (8 * n * length routes)%nat.
Proof.
  intros Hf. rewrite (length_labels _ _ (length routes * n)); [simpl; lia|].
  intros m. by apply length_labels.
Qed.

Lemma counter_series_length routes :
  length (counter_series routes) = (341 + 40 * length routes)%nat.
Proof.
  unfold counter_series. rewrite !length_app.
  rewrite (http_series_length (λ m r, c ← HTTP_STATUS_CLASSES;
    [key "codex_control_http_requests_total"
       [("method" : pystr, m); ("route" : pystr, r); ("status_class" : pystr, c)]]) routes 5)
    by reflexivity.
  replace (40 * length routes)%nat with (8 * 5 * length routes)%nat by lia.
  generalize (8 * 5 * length routes)%nat as n. reflexivity.
Qed.

Lemma histogram_series_length routes :
  length (histogram_series routes) = (26 + 8 * length routes)%nat.
Proof.
  unfold histogram_series. rewrite !length_app.
  rewrite (http_series_length (λ m r, [key "codex_control_http_request_duration_seconds"
       [("method" : pystr, m); ("route" : pystr, r)]]) routes 1) by reflexivity.
  replace (8 * length routes)%nat with (8 * 1 * length routes)%nat by lia.
  generalize (8 * 1 * length routes)%nat as n. reflexivity.
Qed.

Lemma no_series_within routes :
  within (routes ∪ {["_unmatched" : pystr]}) (no_series routes).
Proof. split; [done|..]; intros k v H; simpl in H; by rewrite lookup_empty in H. Qed.

(** The metrics stay small.  Whatever is recorded, in any order and with any
    labels (a method or a path a client made up, say), the series are among a
    fixed list that depends on the registered routes only: at most [341 + 40 n]
    counters, [40] gauges and [26 + 8 n] histograms for [n] route labels. *)
Theorem metrics_bounded routes calls :
  let m := record_all calls (new_metrics routes) in
  let n := S (size routes) in
  (size (_counters m) ≤ 341 + 40 * n)%nat ∧ (size (_gauges m) ≤ 40)%nat
  ∧ (size (_histograms m) ≤ 26 + 8 * n)%nat.
Proof.
  intros m n. set (all := routes ∪ {["_unmatched" : pystr]}).
  assert (Hm : within all m).
  { apply record_all_within; [set_solver|]. apply keeps_initial, no_series_within. }
  assert (Hn : (length (elements all) ≤ n)%nat).
  { change (length (elements all)) with (size all). unfold all, n.
    rewrite size_union_alt, Nat.add_comm. apply (Nat.add_le_mono _ 1); [|done].
    transitivity (size ({["_unmatched" : pystr]} : gset pystr)); [|by rewrite size_singleton].
    apply subseteq_size. set_solver. }
  destruct Hm as [_ H1%size_bound H2%size_bound H3%size_bound].
  rewrite counter_series_length in H1. rewrite histogram_series_length in H3.
  split_and!; [lia|exact H2|lia].
Qed.
