(* ===== verification/RecordedMetrics.v ===== *)
(** * The handlers only record metrics that are accepted

    A method of [OperationalMetrics] raises on a label outside its set, which
    in a handler's [finally] would replace the handler's own outcome.  No
    handler ever passes such a label: what they record can be recorded. *)

From stdpp Require Import base list gmap.
From Stdlib Require Import NArith ZArith Lia SpecFloat.
From S2P Require Import Prelude Config Json Models Storage World Testbed Events Capacity Commands.
From S2P Require Import Approvals Wire Outbox Frames Projection Connections Handshake.
From S2P Require Import Pairing Retention Security Sub2api Sessions Access DeviceAuth.
From S2P Require Import BrowserStream BrowserSocket Routes.
From S2P Require Import ControlRoutes ThreadRoutes OperationalMetrics Maintenance.
From S2P Require Import MaintenanceSafety MetricsSafety.
Open Scope Z_scope.

(** ** What can be recorded *)

Definition accepted (m : metric) : bool :=
  match m with
  | MSessionExchange outcome => py_in outcome SESSION_EXCHANGE_OUTCOMES
  | MPairing operation outcome =>
      py_in operation PAIRING_OPERATIONS && py_in outcome PAIRING_OUTCOMES
  | MCommandTransition from to _ => py_in from COMMAND_STATUSES && py_in to COMMAND_STATUSES
  | MCommandIdempotency outcome => py_in outcome COMMAND_IDEMPOTENCY_OUTCOMES
  | MRpcPolicy cls outcome => py_in cls RPC_POLICY_CLASSES && py_in outcome RPC_POLICY_OUTCOMES
  | MApprovalOutcome outcome reason =>
      py_in outcome APPROVAL_OUTCOMES && py_in reason APPROVAL_REASONS
  | MReconciliation phase outcome items =>
      py_in phase RECONCILIATION_PHASES && py_in outcome RUN_OUTCOMES && (0 <=? items)
  | MMaintenance phase outcome items _ =>
      py_in phase MAINTENANCE_PHASES && py_in outcome RUN_OUTCOMES && (0 <=? items)
  | MWebsocketReplaced kind | MWebsocketOpened kind => py_in kind WEBSOCKET_KINDS
  | MWebsocketClosed kind reason | MWebsocketRejected kind reason =>
      py_in kind WEBSOCKET_KINDS && py_in reason WEBSOCKET_REASONS
  end.

Definition fine (e : effect) : Prop :=
  match e with EMetric m => accepted m = true | _ => True end.

Definition transition_fine (t : transition) : Prop :=
  accepted (MCommandTransition t.1.1 t.1.2 t.2) = true.
Definition approval_fine (o : pystr * pystr) : Prop := accepted (MApprovalOutcome o.1 o.2) = true.

Lemma transition_of_fine c c' d : transition_fine (transition_of c c' d).
Proof. unfold transition_fine. simpl. by destruct (cmd_status c), (cmd_status c'). Qed.

Definition observed_fine (o : pystr * Z) : Prop :=
  accepted (MReconciliation o.1 "succeeded" o.2) = true.

Lemma observed_count phase n :
  py_in phase RECONCILIATION_PHASES = true → observed_fine (phase, Z.of_nat n).
Proof. unfold observed_fine. simpl. intros ->. simpl. apply Z.leb_le. lia. Qed.

(** The effects of a device frame that are recorded after its commit. *)
Definition frame_fine (f : FrameEffects) : Prop :=
  Forall transition_fine (fe_command_transitions f)
  ∧ Forall approval_fine (fe_approval_outcomes f).

Lemma no_effects_fine : frame_fine no_effects.
Proof. done. Qed.

Lemma one_transition_fine events wakes t :
  transition_fine t →
  frame_fine {| fe_browser_events := events; fe_approval_dispatches := wakes;
                fe_command_transitions := [t]; fe_approval_outcomes := [] |}.
Proof. split; simpl; auto. Qed.

(** Why a request is denied, when it is. *)
Definition denial_fine (reason : option pystr) : Prop :=
  from_option (λ reason, approval_fine ("denied" : pystr, reason)) True reason.

Lemma approval_effects_fine events wakes reason :
  denial_fine reason →
  frame_fine {| fe_browser_events := events; fe_approval_dispatches := wakes;
                fe_command_transitions := [];
                fe_approval_outcomes :=
                  match reason with
                  | Some reason => [(("denied" : pystr), reason)]
                  | None => [(("requested" : pystr), ("device_request" : pystr))]
                  end |}.
Proof. intros H. split; simpl; [done|]. destruct reason; by repeat constructor. Qed.

Section sound.
Context {P : Platform}.

(** [m] records accepted metrics only, and its result satisfies [Q]. *)
Definition sound {A} (Q : A → Prop) (m : tx A) : Prop :=
  ∀ w, Forall fine (effects w) →
    Forall fine (effects (m w).2) ∧ ∀ a, (m w).1 = Ok a → Q a.

Notation T := (λ _, True).

Lemma sound_ret {A} (Q : A → Prop) a : Q a → sound Q (mret a).
Proof. intros H w Hw. split; [done|]. by intros ? [= <-]. Qed.
Lemma sound_raise {A} (Q : A → Prop) e : sound Q (raise e).
Proof. by intros w Hw. Qed.
Lemma sound_bind {A B} (R : A → Prop) (Q : B → Prop) (m : tx A) (k : A → tx B) :
  sound R m → (∀ a, R a → sound Q (k a)) → sound Q (m ≫= k).
Proof.
  intros Hm Hk w Hw. unfold mbind, tx_bind. destruct (Hm w Hw) as [H1 H2].
  destruct (m w) as [[a|e] w']; simpl in *; [|done]. apply Hk; [by apply H2|done].
Qed.
Lemma sound_try_catch {A} (Q : A → Prop) (m : tx A) h :
  sound Q m → (∀ e, sound Q (h e)) → sound Q (try_catch m h).
Proof.
  intros Hm Hh w Hw. unfold try_catch. destruct (Hm w Hw) as [H1 H2].
  destruct (m w) as [[a|e] w']; simpl in *; [done|]. by apply Hh.
Qed.
Lemma sound_with_session {A} (Q : A → Prop) (m : tx A) : sound Q m → sound Q (with_session m).
Proof.
  intros Hm w Hw. unfold with_session.
  match goal with |- context [m ?v] => specialize (Hm v Hw) end. by destruct (m _) as [r v].
Qed.
Lemma sound_for_each {A} (f : A → tx unit) l :
  (∀ a, a ∈ l → sound T (f a)) → sound T (for_each f l).
Proof.
  induction l as [|x l IH]; intros Hf; simpl; [by apply sound_ret|].
  apply (sound_bind T); [apply Hf; left|]. intros _ _. apply IH. intros a Ha. apply Hf. by right.
Qed.
Lemma sound_fold {A B} (Q : B → Prop) (f : B → A → tx B) b l :
  Q b → (∀ b a, Q b → sound Q (f b a)) → sound Q (fold_tx f b l).
Proof.
  intros Hb Hf. revert b Hb. induction l as [|x l IH]; intros b Hb; simpl; [by apply sound_ret|].
  eapply sound_bind; [by apply Hf|]. intros b' Hb'. by apply IH.
Qed.
Lemma sound_mapM {A B} (f : A → tx B) l : (∀ a, sound T (f a)) → sound T (mapM f l).
Proof.
  intros Hf. induction l as [|x l IH]; simpl; [by apply sound_ret|].
  apply (sound_bind T); [apply Hf|]. intros b _. apply (sound_bind T); [done|].
  intros bs _. by apply sound_ret.
Qed.

Lemma sound_emit e : fine e → sound T (emit e).
Proof. intros He w Hw. split; [|done]. simpl. apply Forall_app. auto. Qed.
Lemma sound_measure m : accepted m = true → sound T (measure m).
Proof. intros Hm. by apply sound_emit. Qed.
Lemma sound_plain {A} (m : tx A) : (∀ w, effects (m w).2 = effects w) → sound T m.
Proof. intros H w Hw. by rewrite H. Qed.
Lemma sound_query {A} (f : database → A) : sound T (query f).
Proof. done. Qed.
Lemma sound_modify f : sound T (modify f).
Proof. done. Qed.
Lemma sound_commit : sound T commit.
Proof. done. Qed.
Lemma sound_rollback : sound T rollback.
Proof. done. Qed.
Lemma sound_now : sound T now.
Proof. done. Qed.
Lemma sound_monotonic_now : sound T monotonic_now.
Proof. done. Qed.
Lemma sound_fresh_uuid : sound T fresh_uuid.
Proof. done. Qed.
Lemma sound_fresh_bytes n : sound T (fresh_bytes n).
Proof. done. Qed.
Lemma sound_guard b e : sound T (guard_exn b e).
Proof. by destruct b. Qed.
Lemma sound_processes f : sound T (other_processes f).
Proof. by intros w H. Qed.
Lemma sound_others f : sound T (other_transactions f).
Proof. done. Qed.
Lemma sound_of_outcome {A} (r : outcome A) : sound T (of_outcome r).
Proof. done. Qed.
Lemma sound_store_op {A} (f : Z → kvs → A * kvs) : sound T (store_op f).
Proof. intros w Hw. unfold store_op. destruct (store_up _); [by destruct (f _ _)|done]. Qed.
Lemma sound_publish c m : sound T (publish c m).
Proof.
  intros w Hw. unfold publish. destruct (store_up _); [|done].
  by apply (sound_emit (EPublish c m) I (w <| ticks := S (ticks w) |>)).
Qed.
Lemma sound_send_text c m : sound T (send_text c m).
Proof.
  intros w Hw. unfold send_text. destruct (send_up _); [|done].
  by apply (sound_emit (ESend c m) I (w <| ticks := S (ticks w) |>)).
Qed.
Lemma sound_counted {A} count table (m : tx A) :
  (∀ e r, table e = Some r → sound T (count r.1.1)) → sound T m →
  sound T (counted_errors count table m).
Proof.
  intros Ht Hm. apply sound_try_catch; [done|]. intros e.
  destruct (table e) as [[[outcome status] detail]|] eqn:E; [|apply sound_raise].
  apply (sound_bind T); [exact (Ht e _ E)|]. intros _ _. apply sound_raise.
Qed.
Lemma sound_close c code : sound T (close_socket c code).
Proof. by apply sound_emit. Qed.
End sound.

Lemma close_reason_listed c : py_in (_websocket_close_reason c) WEBSOCKET_REASONS = true.
Proof. unfold _websocket_close_reason. by repeat case_match. Qed.

Create HintDb sound.
#[export] Hint Resolve sound_query sound_modify sound_commit sound_rollback sound_now
  sound_monotonic_now sound_fresh_uuid sound_fresh_bytes sound_guard sound_others sound_processes sound_of_outcome
  sound_store_op sound_publish sound_send_text sound_close : sound.

(** [results] holds the operations whose result says what is recorded later. *)
Create HintDb results.
#[export] Hint Resolve sound_with_session transition_of_fine no_effects_fine : results.


Ltac accepts :=
  first [reflexivity | assumption | apply close_reason_listed | repeat case_bool_decide; reflexivity
        | match goal with |- context [command_status_value ?s] => destruct s; reflexivity end
        | solve [simplify_eq/=; assumption] | idtac].

Ltac sound_step :=
  cbv beta iota zeta;
  lazymatch goal with
  | |- sound _ (mbind _ _) =>
      first [ eapply sound_bind; [solve [eauto 2 with results nocore]|intros ? ?]
            | apply (sound_bind (λ _, True)); [|intros ? _] ]
  | |- sound _ (mret _) => apply sound_ret;
      try first [exact I | reflexivity | assumption | solve [eauto with results]]
  | |- sound _ (raise _) => apply sound_raise
  | |- sound _ (match ?x with _ => _ end) => destruct x eqn:?
  | |- sound _ (try_catch _ _) => apply sound_try_catch; [|intros ?]
  | |- sound _ (counted_errors _ _ _) =>
      apply sound_counted;
        [let H := fresh in
         intros [] ? H; simpl in H; first [discriminate H | injection H as <-];
         apply sound_measure; reflexivity|]
  | |- sound _ (best_effort _) => apply sound_try_catch; [|intros ?]
  | |- sound _ (with_session _) => apply sound_with_session
  | |- sound _ (for_each _ _) =>
      first [solve [eauto 2 with sound nocore] | apply sound_for_each; intros ? ?]
  | |- sound _ (fold_tx _ _ _) => apply sound_fold; [try exact I|intros ? ? ?]
  | |- sound _ (mapM _ _) => apply sound_mapM; intros ?
  | |- sound _ (measure _) => apply sound_measure; accepts
  | |- sound _ (λ _, _) => apply sound_plain; intros ?; by repeat case_match
  | |- sound _ (emit _) => apply sound_emit; try exact I
  | |- sound _ ?m =>
      first [ solve [eauto 2 with sound results nocore]
            | let h := head_of m in unfold h ]
  end.
Ltac solve_sound := repeat sound_step.

Section handlers.
Context {P : Platform}.
Notation T := (λ _, True).

(** ** The services *)

Lemma sound_append o d ty data b t : sound T (append o d ty data b t).
Proof. solve_sound. Qed.
Hint Resolve sound_append : sound.

Lemma sound_create s d dv m p k md th dl sc : sound T (create s d dv m p k md th dl sc).
Proof. solve_sound. Qed.
Lemma sound_expired_denial i d a :
  sound (λ r, accepted (MApprovalOutcome "denied" r.1) = true) (_expired_denial i d a).
Proof. solve_sound. Qed.
Hint Resolve sound_expired_denial : results.
Lemma sound_decide o i d s md : sound T (Approvals.decide o i d s md).
Proof. solve_sound. Qed.
Hint Resolve sound_create sound_decide : sound.
Lemma sound_persist c d t p : sound T (_persist_envelope_locked c d t p).
Proof. solve_sound. Qed.
Lemma sound_send_active c l : sound T (_send_if_active c l).
Proof. solve_sound. Qed.
Lemma sound_publish_event o e : sound T (publish_event o e).
Proof. solve_sound. Qed.
Lemma sound_audit a b c d e f g h i : sound T (add_audit a b c d e f g h i).
Proof. solve_sound. Qed.
Hint Resolve sound_persist sound_send_active sound_publish_event sound_audit : sound.

Lemma sound_end_connection c r : sound T (_end_connection c r).
Proof. solve_sound. Qed.
Hint Resolve sound_end_connection : sound.

Lemma sound_dispatch_transaction c i :
  sound (λ r : _ * _ * option transition, from_option transition_fine True r.2)
    (dispatch_transaction c i).
Proof. solve_sound; try apply transition_of_fine. Qed.
Hint Resolve sound_dispatch_transaction : results.
Lemma sound_dispatch_command c i : sound T (_dispatch_command c i).
Proof. solve_sound. Qed.
Hint Resolve sound_dispatch_command : sound.
Lemma sound_dispatch_pending c : sound T (_dispatch_pending c).
Proof. solve_sound. Qed.
Hint Resolve sound_dispatch_pending : sound.

(** ** Frames *)

Lemma sound_apply_ack c e : sound frame_fine (_apply_command_ack_tx c e).
Proof. solve_sound; apply one_transition_fine, transition_of_fine. Qed.
Hint Resolve sound_apply_ack : results.
Lemma sound_capacity_denial o d t :
  sound denial_fine (approval_capacity_denial_reason_locked o d t).
Proof. solve_sound. Qed.
Lemma sound_admit c d e p i t : sound (λ r, denial_fine r.1) (admit_approval c d e p i t).
Proof.
  unfold admit_approval. apply (sound_bind denial_fine).
  - case_match; [by apply sound_ret|apply sound_capacity_denial].
  - intros reason H. solve_sound.
Qed.
Hint Resolve sound_admit : results.
Lemma sound_store_approval c d e p t : sound frame_fine (store_approval c d e p t).
Proof.
  unfold store_approval. solve_sound. simplify_eq/=. by apply approval_effects_fine.
Qed.
Hint Resolve sound_store_approval : results.
Lemma sound_apply_frame c e b : sound frame_fine (_apply_device_frame_tx c e b).
Proof. solve_sound. Qed.
Hint Resolve sound_apply_frame : results.
Lemma sound_applied c e id (duplicate stale : bool) :
  sound frame_fine
    (if duplicate then mret no_effects
     else
       effects ← _apply_device_frame_tx c e stale;
       update_device id (λ d, d <| d_last_device_sequence := en_seq e |>);;
       mret effects).
Proof. solve_sound. Qed.
Hint Resolve sound_applied : results.
Lemma sound_frame_transaction c e t : sound (λ r, frame_fine r.2) (frame_transaction c e t).
Proof. solve_sound. Qed.
Hint Resolve sound_frame_transaction : results.
Lemma sound_transitions l : Forall transition_fine l →
  sound T (for_each (λ '(from, to, duration), measure (MCommandTransition from to duration)) l).
Proof.
  intros H. apply sound_for_each. intros [[from to] d] Ht. apply sound_measure.
  rewrite Forall_forall in H. exact (H _ Ht).
Qed.
Lemma sound_publish_effects c f : frame_fine f → sound T (publish_effects c f).
Proof.
  intros [H1 H2]. unfold publish_effects. apply (sound_bind T); [by apply sound_transitions|intros _ _].
  solve_sound. rewrite Forall_forall in H2. simplify_eq. by apply (H2 (_, _)).
Qed.
Hint Resolve sound_transitions sound_publish_effects : sound.
Lemma sound_process_frame c e : sound T (_process_device_frame c e).
Proof. solve_sound. Qed.
Hint Resolve sound_process_frame : sound.

(** ** Device sockets *)
Lemma sound_reconcile_command t acc row : Forall transition_fine acc.2 →
  sound (λ r, Forall transition_fine r.2) (reconcile_command t acc row).
Proof.
  intros H. solve_sound; apply Forall_app_2; auto using transition_of_fine.
Qed.
Lemma sound_reconcile id d epoch t :
  sound (λ r, Forall observed_fine r.1.2 ∧ Forall transition_fine r.2)
    (_reconcile_stale_epoch_commands id d epoch t).
Proof.
  unfold _reconcile_stale_epoch_commands. apply (sound_bind T); [solve_sound|intros _ _].
  apply (sound_bind T); [solve_sound|intros stale _].
  apply (sound_bind (λ r, Forall transition_fine r.2)).
  - apply sound_fold; [done|]. intros. by apply sound_reconcile_command.
  - intros settled H. solve_sound. split; [|done]. by repeat constructor; apply observed_count.
Qed.
Hint Resolve sound_reconcile : results.
Lemma sound_activation c t :
  sound (λ r, Forall observed_fine r.1.2 ∧ Forall transition_fine r.2)
    (activation_transaction c t).
Proof.
  solve_sound. simplify_eq/=. destruct_and!. split; [|done].
  apply Forall_app_2; [done|]. repeat constructor. by apply observed_count.
Qed.

Lemma sound_observed l : Forall observed_fine l →
  sound T (for_each (λ '(phase, items), measure (MReconciliation phase "succeeded" items)) l).
Proof.
  intros H. apply sound_for_each. intros [phase items] Ho. apply sound_measure.
  rewrite Forall_forall in H. exact (H _ Ho).
Qed.
Lemma sound_reconciliation_failed : sound T reconciliation_failed.
Proof.
  apply sound_for_each. intros phase H. apply sound_measure. simpl.
  by rewrite (bool_decide_eq_true_2 _ H : py_in phase RECONCILIATION_PHASES = true).
Qed.
Hint Resolve sound_observed sound_reconciliation_failed : sound.

Lemma sound_activate c replaced t : sound T (activate c replaced t).
Proof.
  unfold activate. apply (sound_bind T); [solve_sound|intros _ _].
  apply (sound_bind T); [solve_sound|intros _ _].
  eapply sound_bind.
  - apply sound_try_catch; [apply sound_with_session, sound_activation|]. intros e. solve_sound.
  - intros [[events observations] transitions] [H1 H2]. simpl in H1, H2. solve_sound.
Qed.

Hint Resolve sound_activate : sound.

Lemma sound_begin ws id e h : sound T (_begin_connection ws id e h).
Proof. solve_sound. Qed.
Hint Resolve sound_begin : sound.
Lemma sound_serve c inputs : sound T (serve c inputs).
Proof.
  revert c. induction inputs as [|[] inputs IH]; intros c; simpl; solve_sound. 
Qed.
Hint Resolve sound_serve : sound.

Lemma sound_handle_device canonical_key ws id d raw inputs :
  sound T (handle_device canonical_key ws id d raw inputs).
Proof. solve_sound. Qed.
End handlers.
#[export] Hint Resolve sound_append sound_create sound_decide sound_persist sound_send_active
  sound_publish_event sound_audit sound_end_connection sound_handle_device : sound.
#[export] Hint Resolve sound_expired_denial : results.

(** ** Sessions, routes and browser sockets *)

Section routes.
Context {P : Platform} {Url : UrlSplit} {U : Upstream}.
Context (meanwhile between : database → database).
Notation T := (λ _, True).

Lemma sound_resolve raw a b c : sound T (resolve meanwhile raw a b c).
Proof. solve_sound. Qed.
Hint Resolve sound_resolve : sound.
Lemma sound_require_session r : sound T (require_session meanwhile r).
Proof. solve_sound. Qed.
Lemma sound_require_mutating r : sound T (require_mutating_session meanwhile r).
Proof. solve_sound. Qed.
Lemma sound_require_recent r : sound T (require_recent_mutating_session meanwhile r).
Proof. solve_sound. Qed.
Hint Resolve sound_require_session sound_require_mutating sound_require_recent : sound.

Lemma sound_exchange r b : sound T (exchange_session meanwhile r b).
Proof. solve_sound. Qed.
Lemma sound_current r : sound T (current_session meanwhile r).
Proof. solve_sound. Qed.
Lemma sound_logout r : sound T (logout_session meanwhile r).
Proof. solve_sound. Qed.
Lemma sound_start_pairing p r : sound T (start_device_pairing meanwhile p r).
Proof. solve_sound. Qed.
Lemma sound_claim_pairing c r : sound T (claim_device_pairing meanwhile c r).
Proof. solve_sound. Qed.
Lemma sound_poll_pairing i r : sound T (poll_device_pairing i r).
Proof. solve_sound. Qed.
Lemma sound_connect_token p r : sound T (issue_device_connect_token p r).
Proof. solve_sound. Qed.
Lemma sound_device_summaries rows : sound T (device_summaries rows).
Proof. induction rows as [|[] rows IH]; simpl; solve_sound. Qed.
Lemma sound_thread_summaries rows : sound T (thread_summaries rows).
Proof. induction rows as [|[] rows IH]; simpl; solve_sound. Qed.
Lemma sound_approval_items rows : sound T (approval_items rows).
Proof. induction rows as [|[[]] rows IH]; simpl; solve_sound. Qed.
Hint Resolve sound_device_summaries sound_thread_summaries sound_approval_items : sound.
Lemma sound_list_devices r : sound T (list_devices meanwhile r).
Proof. solve_sound. Qed.
Lemma sound_bootstrap {Size : ResponseSize} c r : sound T (bootstrap_control meanwhile c r).
Proof. solve_sound. Qed.
Lemma sound_revoke i r : sound T (revoke_device meanwhile i r).
Proof. solve_sound. Qed.
Lemma sound_list_models i r : sound T (list_models meanwhile i r).
Proof. solve_sound. Qed.
Lemma sound_sync_models i k r : sound T (sync_models meanwhile i k r).
Proof. solve_sound. Qed.
Lemma sound_sync_threads i k r : sound T (sync_threads meanwhile i k r).
Proof. solve_sound. Qed.
Lemma sound_list_threads i r : sound T (list_threads meanwhile i r).
Proof. solve_sound. Qed.
Lemma sound_start_thread i c m k r : sound T (start_thread meanwhile between i c m k r).
Proof. solve_sound. Qed.
Lemma sound_read_thread {M : ThreadMessages} i r : sound T (read_thread meanwhile i r).
Proof. solve_sound. Qed.
Lemma sound_archive_thread i r : sound T (archive_thread meanwhile between i r).
Proof. solve_sound. Qed.
Lemma sound_sync_thread i k r : sound T (sync_thread meanwhile i k r).
Proof. solve_sound. Qed.
Lemma sound_resume_thread i k r : sound T (resume_thread meanwhile between i k r).
Proof. solve_sound. Qed.
Lemma sound_start_turn i t k r : sound T (start_turn meanwhile between i t k r).
Proof. solve_sound. Qed.
Lemma sound_steer_turn i t k r : sound T (steer_turn meanwhile between i t k r).
Proof. solve_sound. Qed.
Lemma sound_interrupt_turn i k r : sound T (interrupt_turn meanwhile between i k r).
Proof. solve_sound. Qed.
Lemma sound_list_approvals r : sound T (list_approvals meanwhile r).
Proof. solve_sound. Qed.
Lemma sound_decide_approval i d r : sound T (decide_approval meanwhile i d r).
Proof. solve_sound. Qed.
End routes.
#[export] Hint Resolve sound_exchange sound_current sound_logout sound_start_pairing
  sound_claim_pairing sound_poll_pairing sound_connect_token sound_list_devices sound_bootstrap
  sound_revoke sound_list_models sound_sync_models sound_sync_threads sound_list_threads
  sound_start_thread sound_read_thread sound_archive_thread sound_sync_thread
  sound_resume_thread sound_start_turn sound_steer_turn sound_interrupt_turn
  sound_list_approvals sound_decide_approval : sound.

(** ** The browser socket *)

Section browser.
Context {P : Platform} {Url : UrlSplit} {U : Upstream}.
Context (meanwhile : database → database).
Notation T := (λ _, True).
Hint Resolve sound_resolve : sound.

Lemma sound_send_browser_event ws e : sound T (send_browser_event ws e).
Proof.
  intros w Hw. unfold send_browser_event. destruct (send_up _); [|done].
  by apply (sound_emit (EEvent ws e) I (w <| ticks := S (ticks w) |>)).
Qed.
Lemma sound_acquire_slot k v s n : sound T (acquire_slot_from k v s n).
Proof. revert s. induction n; intros; simpl; solve_sound. Qed.
Hint Resolve sound_send_browser_event sound_acquire_slot : sound.
Lemma sound_send_page ws events latest : sound T (send_page ws events latest).
Proof. revert latest. induction events; intros; simpl; solve_sound. Qed.
Hint Resolve sound_send_page : sound.
Lemma sound_forward_pages n ws o c : sound T (forward_pages n ws o c).
Proof. revert c. induction n; intros; simpl; solve_sound. Qed.
Hint Resolve sound_forward_pages : sound.
Lemma sound_monitor a t s : sound T (monitor_session meanwhile a t s).
Proof. solve_sound. Qed.
Hint Resolve sound_monitor : sound.
Lemma sound_serve_browser ws a latest inputs : sound T (serve_browser meanwhile ws a latest inputs).
Proof. revert latest. induction inputs as [|[] inputs IH]; intros latest; simpl; solve_sound. Qed.
Hint Resolve sound_serve_browser : sound.
Lemma browser_ending_listed failure : py_in (browser_ending failure).2 WEBSOCKET_REASONS = true.
Proof. destruct failure as [[]|]; first [reflexivity | apply close_reason_listed]. Qed.
Lemma sound_handle_browser ws inputs : sound T (handle_browser meanwhile ws inputs).
Proof.
  solve_sound. exact (browser_ending_listed _).
Qed.
End browser.
#[export] Hint Resolve sound_handle_browser : sound.

(** ** The sweep *)

Section maintenance.
Context {P : Platform}.
Notation T := (λ _, True).
Notation counted := (λ n, (0 <=? n) = true).

Lemma sound_query_result {A} (Q : A → Prop) (f : database → A) :
  (∀ db, Q (f db)) → sound Q (query f).
Proof. intros H w Hw. split; [done|]. intros a [= <-]. apply H. Qed.
Lemma sound_sum {A} (f : A → tx Z) l :
  (∀ a, sound counted (f a)) → sound counted (fold_tx (λ n a, k ← f a; mret (n + k)) 0 l).
Proof.
  intros Hf. apply sound_fold; [done|]. intros n a Hn. eapply sound_bind; [apply Hf|].
  intros k Hk. apply sound_ret. apply Z.leb_le in Hn, Hk. apply Z.leb_le. lia.
Qed.
Lemma counted_add n k : counted n → counted k → counted (n + k).
Proof. rewrite !Z.leb_le. lia. Qed.

Lemma sound_expire_pairings locked t l : sound counted (expire_due_pairings locked t l).
Proof.
  unfold expire_due_pairings. do 3 (apply (sound_bind T); [solve_sound|intros ? _]).
  apply sound_sum. intros id. solve_sound.
Qed.
Lemma sound_expire_commands t : sound counted (expire_due t).
Proof.
  unfold expire_due. do 3 (apply (sound_bind T); [solve_sound|intros ? _]).
  apply sound_fold; [done|]. intros n [id c] Hn. apply (sound_bind counted); [solve_sound|].
  intros k Hk. by apply sound_ret, counted_add.
Qed.
Lemma sound_expire_approvals t : sound counted (expire_due_approvals t).
Proof.
  unfold expire_due_approvals. do 3 (apply (sound_bind T); [solve_sound|intros ? _]).
  apply sound_fold; [done|]. intros n [id p] Hn. apply (sound_bind counted); [solve_sound|].
  intros k Hk. by apply sound_ret, counted_add.
Qed.
Lemma sound_reconcile_undispatched n : sound counted (reconcile_undispatched n).
Proof.
  unfold reconcile_undispatched. apply (sound_bind T); [solve_sound|intros ? _].
  apply sound_fold; [done|]. intros k [id p] Hk. solve_sound. by apply counted_add.
Qed.
Lemma counted_nat n : counted (Z.of_nat n).
Proof. apply Z.leb_le. lia. Qed.

Lemma sound_prune_owner t o : sound counted (prune_owner t o).
Proof.
  unfold prune_owner. apply (sound_bind T); [solve_sound|intros [c|] _]; [|solve_sound].
  do 3 (apply (sound_bind T); [solve_sound|intros ? _]).
  apply (sound_bind (λ r : Z * Z, counted r.1)).
  - solve_sound. apply counted_nat.
  - intros r Hr. solve_sound. by apply counted_add; [apply counted_nat|].
Qed.
Lemma sound_prune t : sound counted (prune t).
Proof.
  unfold prune. do 2 (apply (sound_bind T); [solve_sound|intros ? _]).
  apply sound_sum. intros o. apply sound_prune_owner.
Qed.
Lemma sound_prune_outbox t : sound counted (prune_outbox t).
Proof.
  unfold prune_outbox. apply (sound_bind T); [solve_sound|intros ? _].
  apply (sound_bind counted); [by apply sound_query_result; intros; apply counted_nat|intros n Hn].
  do 3 (apply (sound_bind T); [solve_sound|intros ? _]).
  apply (sound_bind counted); [by apply sound_query_result; intros; apply counted_nat|intros k Hk].
  solve_sound; by apply counted_add.
Qed.
Hint Resolve sound_expire_pairings sound_expire_commands sound_expire_approvals
  sound_reconcile_undispatched sound_prune sound_prune_outbox : results.

Lemma sound_phase phase (m : tx Z) limit :
  py_in phase MAINTENANCE_PHASES = true → sound counted m →
  sound T (_observe_maintenance_phase phase m limit).
Proof.
  intros Hp Hm. unfold _observe_maintenance_phase. apply (sound_bind counted).
  - apply sound_try_catch; [done|]. intros e. solve_sound. simpl. by rewrite Hp.
  - intros n Hn. solve_sound. simpl. by rewrite Hp, Hn.
Qed.

Definition counts_fine (r : RetentionSweepResult) : Prop :=
  ∀ phase items, (phase, items) ∈ retention_phases r →
    accepted (MMaintenance phase "succeeded" items 0) = true.
Lemma sound_delete_batch {I R} `{EqDecision I} f (model : Model I R) p c :
  sound counted (_delete_batch f model p c).
Proof. solve_sound. Qed.
Lemma sound_sweep f t : sound (λ r, counted (total r) ∧ counts_fine r) (sweep f t).
Proof.
  unfold sweep. apply (sound_bind T); [solve_sound|intros ? _].
  do 8 (apply (sound_bind counted); [apply sound_delete_batch|intros ? ?]).
  apply sound_ret. split; [by repeat apply counted_add|].
  intros phase items Hin. unfold retention_phases in Hin. simpl in Hin.
  repeat (apply elem_of_cons in Hin as [[= -> ->]|Hin]; [assumption|]).
  by apply elem_of_nil in Hin.
Qed.
Lemma sound_retention f : sound T (retention_phase f).
Proof.
  unfold retention_phase. apply (sound_bind (λ r, counted (total r) ∧ counts_fine r)).
  - apply sound_try_catch; [apply sound_sweep|]. intros e. solve_sound.
  - intros r [H1 H2]. solve_sound. subst. by eapply H2.
Qed.
Hint Resolve sound_phase sound_retention : sound.
Hint Extern 0 (py_in _ MAINTENANCE_PHASES = true) => reflexivity : sound.
Lemma sound_maintenance rounds last : sound T (_sweep_expired_state rounds last).
Proof. revert last. induction rounds as [|env rounds IH]; intros last; simpl; solve_sound. Qed.
End maintenance.
#[export] Hint Resolve sound_maintenance : sound.

(** ** The whole service

    Everything it is asked to do, one request after another; [meanwhile] and
    [between] are what the other processes commit. *)

Section service.
Context {P : Platform} {Url : UrlSplit} {U : Upstream} {Size : ResponseSize} {M : ThreadMessages}.

Inductive control_request :=
| ExchangeSession (r : Request) (token : option pystr)
| CurrentSession (r : Request)
| LogoutSession (r : Request)
| StartPairing (p : PairingStartRequest) (r : Request)
| ClaimPairing (code : pystr) (r : Request)
| PollPairing (id : uuid) (r : Request)
| ConnectToken (p : DeviceConnectTokenRequest) (r : Request)
| ListDevices (r : Request)
| BootstrapControl (release : json) (r : Request)
| RevokeDevice (id : uuid) (r : Request)
| ListModels (id : uuid) (r : Request)
| SyncModels (id : uuid) (key : pystr) (r : Request)
| SyncThreads (id : uuid) (key : pystr) (r : Request)
| ListThreads (id : uuid) (r : Request)
| StartThread (id : uuid) (cwd : pystr) (model : option pystr) (key : pystr) (r : Request)
| ReadThread (id : uuid) (r : Request)
| ArchiveThread (id : uuid) (r : Request)
| SyncThread (id : uuid) (key : pystr) (r : Request)
| ResumeThread (id : uuid) (key : pystr) (r : Request)
| StartTurn (id : uuid) (text key : pystr) (r : Request)
| SteerTurn (id : uuid) (text key : pystr) (r : Request)
| InterruptTurn (id : uuid) (key : pystr) (r : Request)
| ListApprovals (r : Request)
| DecideApproval (id : uuid) (decision : pystr) (r : Request)
| DeviceChannel (canonical_key : pystr → option pystr) (ws : DeviceWebSocket) (id : uuid)
    (device : Device) (hello : pystr) (inputs : list DeviceInput)
| BrowserChannel (ws : BrowserWebSocket) (inputs : list BrowserInput)
| SweepExpired (rounds : list SweepEnvironment) (last : Z).

Definition forget {A} (m : tx A) : tx unit := m;; mret tt.

Definition answer (meanwhile between : database → database) (q : control_request) : tx unit :=
  match q with
  | ExchangeSession r token => forget (exchange_session meanwhile r token)
  | CurrentSession r => forget (current_session meanwhile r)
  | LogoutSession r => forget (logout_session meanwhile r)
  | StartPairing p r => forget (start_device_pairing meanwhile p r)
  | ClaimPairing code r => forget (claim_device_pairing meanwhile code r)
  | PollPairing id r => forget (poll_device_pairing id r)
  | ConnectToken p r => forget (issue_device_connect_token p r)
  | ListDevices r => forget (list_devices meanwhile r)
  | BootstrapControl release r => forget (bootstrap_control meanwhile release r)
  | RevokeDevice id r => forget (revoke_device meanwhile id r)
  | ListModels id r => forget (list_models meanwhile id r)
  | SyncModels id key r => forget (sync_models meanwhile id key r)
  | SyncThreads id key r => forget (sync_threads meanwhile id key r)
  | ListThreads id r => forget (list_threads meanwhile id r)
  | StartThread id cwd model key r => forget (start_thread meanwhile between id cwd model key r)
  | ReadThread id r => forget (read_thread meanwhile id r)
  | ArchiveThread id r => forget (archive_thread meanwhile between id r)
  | SyncThread id key r => forget (sync_thread meanwhile id key r)
  | ResumeThread id key r => forget (resume_thread meanwhile between id key r)
  | StartTurn id text key r => forget (start_turn meanwhile between id text key r)
  | SteerTurn id text key r => forget (steer_turn meanwhile between id text key r)
  | InterruptTurn id key r => forget (interrupt_turn meanwhile between id key r)
  | ListApprovals r => forget (list_approvals meanwhile r)
  | DecideApproval id decision r => forget (decide_approval meanwhile id decision r)
  | DeviceChannel key ws id device hello inputs => handle_device key ws id device hello inputs
  | BrowserChannel ws inputs => handle_browser meanwhile ws inputs
  | SweepExpired rounds last => forget (_sweep_expired_state rounds last)
  end.

Definition answer_all
    (requests : list ((database → database) * (database → database) * control_request))
    (w : world) : world :=
  foldl (λ w '(meanwhile, between, q), (answer meanwhile between q w).2) w requests.

Lemma sound_forget {A} (m : tx A) : sound (λ _, True) m → sound (λ _, True) (forget m).
Proof. intros H. apply (sound_bind (λ _, True)); [done|]. intros ? _. by apply sound_ret. Qed.
Hint Resolve sound_forget : sound.
Lemma sound_answer f g q : sound (λ _, True) (answer f g q).
Proof. destruct q; simpl; auto with sound. Qed.

Lemma answer_all_fine requests w :
  Forall fine (effects w) → Forall fine (effects (answer_all requests w)).
Proof.
  revert w. induction requests as [|[[f g] q] requests IH]; intros w Hw; [done|].
  apply IH. by apply sound_answer.
Qed.
End service.

(** ** Recording what is accepted *)

Definition metric_items (m : metric) : Z :=
  match m with MReconciliation _ _ items | MMaintenance _ _ items _ => items | _ => 0 end.

(** The call a metric stands for, at a time stamp and with a measured duration. *)
Definition metric_call_of (now duration : float) (m : metric) : metric_call :=
  match m with
  | MSessionExchange outcome => CSessionExchange outcome
  | MPairing operation outcome => CPairing operation outcome
  | MCommandTransition from to d => CCommandTransition from to (option_map (λ _, duration) d)
  | MCommandIdempotency outcome => CCommandIdempotency outcome
  | MRpcPolicy cls outcome => CRpcPolicy cls outcome
  | MApprovalOutcome outcome reason => CApprovalOutcome outcome reason
  | MReconciliation phase outcome items => CReconciliation phase outcome items duration
  | MMaintenance phase outcome items limit => CMaintenance now phase outcome items duration limit
  | MWebsocketReplaced kind => CWebsocketReplaced kind
  | MWebsocketOpened kind => CWebsocketOpened kind
  | MWebsocketClosed kind reason => CWebsocketClosed kind reason
  | MWebsocketRejected kind reason => CWebsocketRejected kind reason
  end.

Definition succeeds (f : recorder) : Prop := ∀ m, (f m).1 = Ok tt.

Lemma succeeds_then a b : succeeds a → succeeds b → succeeds (andThen a b).
Proof.
  intros Ha Hb m. unfold andThen. specialize (Ha m). destruct (a m) as [r m']. simpl in Ha.
  subst r. apply Hb.
Qed.
Lemma succeeds_bounded v l field k :
  py_in v l = true → succeeds (k v) → succeeds (checked (_bounded v l field) k).
Proof. intros Hv Hk. unfold _bounded. by rewrite Hv. Qed.
Lemma succeeds_increment name n labels :
  0 ≤ n → float_of_int n ≠ Raise OverflowError → succeeds (_increment name n labels).
Proof.
  intros Hn Hf m. unfold _increment. destruct (Z.ltb_spec n 0); [lia|].
  unfold float_of_int in *. by destruct (binary_normalize _ _ _ _ _).
Qed.
Lemma succeeds_increment_one name labels : succeeds (_increment name 1 labels).
Proof. done. Qed.
Lemma succeeds_set_gauge name v labels : is_finite v = true → succeeds (_set_gauge name v labels).
Proof. intros H m. unfold _set_gauge. by rewrite H. Qed.
Lemma succeeds_add_gauge name v floor labels : succeeds (_add_gauge name v floor labels).
Proof. done. Qed.
Lemma succeeds_observe name d buckets labels :
  is_finite d = true → succeeds (_observe_histogram name (py_max zero d) buckets labels).
Proof.
  intros H m. unfold _observe_histogram, py_max.
  by destruct d as [[]|[]| |[]].
Qed.
Lemma float_of_bool_finite b : is_finite (float_of_bool b) = true.
Proof. by destruct b. Qed.

Ltac succeeds_step :=
  match goal with
  | |- succeeds (andThen _ _) => apply succeeds_then
  | |- succeeds (checked (_bounded _ _ _) _) =>
      apply succeeds_bounded; [first [assumption | reflexivity]|]
  | |- succeeds (_increment _ 1 _) => apply succeeds_increment_one
  | |- succeeds (_increment _ _ _) => apply succeeds_increment; assumption
  | |- succeeds (_add_gauge _ _ _ _) => apply succeeds_add_gauge
  | |- succeeds (_set_gauge _ _ _) =>
      apply succeeds_set_gauge; first [assumption | apply float_of_bool_finite]
  | |- succeeds (_observe_histogram _ _ _ _) => apply succeeds_observe; assumption
  | |- succeeds (if ?b then _ else _) => destruct b
  | |- succeeds (match ?x with _ => _ end) => destruct x
  | |- succeeds done => by intros ?
  end.

Lemma accepted_succeeds now duration m :
  accepted m = true → is_finite now = true → is_finite duration = true →
  float_of_int (metric_items m) ≠ Raise OverflowError →
  succeeds (call (metric_call_of now duration m)).
Proof.
  intros Hm Hnow Hd Hn.
  destruct m as [| |from to [d|]| | | | | | | | |]; simpl in Hm, Hn |- *;
    repeat match goal with
    | H : _ && _ = true |- _ => apply andb_true_iff in H as [? ?]
    | H : (0 <=? _) = true |- _ => apply Z.leb_le in H
    end;
    unfold session_exchange, pairing, websocket_rejected, websocket_opened, websocket_closed,
      websocket_replaced, _websocket_event, command_transition, command_idempotency,
      approval_outcome, rpc_policy, reconciliation, maintenance; repeat succeeds_step.
Qed.

(** ** What is recorded *)

(** C39: no handler fails on a metric.  In the model a handler that records a
    metric goes on; in the code a label outside its set would raise.  It never
    happens: whatever the control requests, the device and browser sockets and
    the sweeps receive, in any order and with any transactions of other
    processes between them, the call of every metric they record returns, for
    any finite time and duration; only a count too large for a float would make
    it raise. *)
Theorem recorded_metrics_accepted {P : Platform} {Url : UrlSplit} {U : Upstream}
    {Size : ResponseSize} {M : ThreadMessages} requests w m now duration metrics :
  effects w = [] → EMetric m ∈ effects (answer_all requests w) →
  is_finite now = true → is_finite duration = true →
  (call (metric_call_of now duration m) metrics).1 = Ok tt
  ∨ float_of_int (metric_items m) = Raise OverflowError.
Proof.
  intros Hw Hm Hnow Hd.
  assert (Hfine : Forall fine (effects (answer_all requests w))).
  { apply answer_all_fine. by rewrite Hw. }
  rewrite Forall_forall in Hfine. specialize (Hfine _ Hm). simpl in Hfine.
  destruct (float_of_int (metric_items m)) as [v|e] eqn:E.
  - left. apply accepted_succeeds; [done..|]. by rewrite E.
  - right. unfold float_of_int in E. destruct (binary_normalize _ _ _ _ _); by simplify_eq.
Qed.

(** A sweep records its phases. *)
#[local] Instance no_urls : UrlSplit := λ _, Raise (ValueError "urlsplit").
#[local] Instance no_upstream : Upstream := λ _ _ _, HttpTimeout.
#[local] Instance empty_answers : ResponseSize := λ _, 0.
#[local] Instance plain_messages : ThreadMessages := Some.

Lemma recorded_metrics_accepted_witness :
  let w := start_world sweep_database in
  let requests := [((λ db, db), (λ db, db), SweepExpired [sweep_environment] (-100))] in
  let m := MMaintenance "command_expiry" "succeeded" 1 (retention_sweep_batch_size settings) in
  EMetric m ∈ effects (answer_all requests w)
  ∧ (call (metric_call_of one one m) (new_metrics ∅)).1 = Ok tt.
Proof.
  intros w requests m.
  assert (H : EMetric m ∈ effects (answer_all requests w)).
  { apply (list_elem_of_lookup_2 _ 3). vm_compute. reflexivity. }
  split; [done|].
  destruct (recorded_metrics_accepted requests w m one one (new_metrics ∅)) as [|H']; [done..|].
  vm_compute in H'. discriminate.
Defined.
